(* ===== verification/_CoqProject ===== *)
-Q . S2P
Prelude.v
Totp.v
Frame.v
UrlEncode.v
Timer.v
Strand.v
TurnController.v
VoteController.v
ChatRoom.v
Settings.v
Database.v
ConfigStore.v
Messages.v
UserChannel.v
Recording.v
GuacamoleClient.v
Screenshot.v
AdminVm.v
VmList.v
SendQueue.v
Captcha.v
Previews.v
WebFiles.v
WebServer.v
Server.v
Persistence.v
System.v
Startup.v
