(* ===== verification/Prelude.v ===== *)
(** * collab-vm-server: a verification development

    The program is a server that lets many users control virtual machines
    through their browsers.  A web socket carries Cap'n Proto messages; users
    join channels (one per machine and a global one), chat, queue for turns,
    vote for restarts and, while it is their turn, send input that a Guacamole
    client forwards to the machine; administrators change the configuration,
    start and stop machines, and issue invites.

    ** Files

    The order is that of dependency; names of sources are relative to src/.

    - Prelude: machine integers, bytes, reachability, list lemmas, automation.
    - Totp (Totp.hpp): time-based one-time passwords.
    - Frame (SocketMessage.hpp, CapnpMessageFrameBuilder.hpp): the headers of
      messages, and the buffers that point into them.
    - UrlEncode (Utils.hpp): form_urlencode.
    - Timer: the interface [SteadyTimer] of a timer with its laws
      [SteadyTimerLaws] (boost::asio::steady_timer) and an implementation; a
      cancelled timer's handler still runs, with an error code, and a handler
      that was already posted runs without one.
    - Strand (StrandGuard.hpp): the interface [Strand] of Asio's strands with its
      laws, the objects they guard and the threads that run their handlers.
    - TurnController (TurnController.hpp): the queue of users for a machine.
    - VoteController (VoteController.hpp): the vote to restart a machine.
    - ChatRoom (CollabVmChatRoom.hpp): the ring of the last hundred messages.
    - Settings (Database::UpdateList in Database/Database.h;
      GetInitialSettings, ValidateSettings in AdminVirtualMachine.hpp).
    - Database (Database/Database.cpp, Database/Database.h): accounts,
      sessions, invites, reserved names and the table of recordings.
    - ConfigStore (the same files, and the constructor of VirtualMachinesList
      in CollabVmServer.hpp): the two configuration tables and reading them
      when the server starts.
    - Messages: the messages to clients, as an inductive type.
    - UserChannel (UserChannel.hpp, IPData.hpp): members of a channel, and what
      the server does to a channel through GetUserChannel ([channel_fn]:
      joining, leaving, a new name, a chat message, Clear).  What a
      channel's owner adds is the class [ChannelBase] with [ChannelBaseLaws];
      the global channel has the instance [no_base], a machine's channel the
      instance [vm_channel_base] of AdminVm.
    - Recording (RecordingController.hpp): files, key frames, filters.
    - GuacamoleClient (GuacamoleClient.hpp, CollabVmGuacamoleClient.hpp): the
      connection's state machine across libguac's threads.
    - Screenshot (GuacamoleScreenshot.hpp, CreateScreenshot in
      GuacamoleClient.hpp): the size of a machine's picture, computed in single
      precision.
    - AdminVm (AdminVirtualMachine.hpp): a machine, composed of the turn
      queue, the votes, the channel, the recording and the connection.
    - VmList (VirtualMachinesList in CollabVmServer.hpp): the public and the
      administrators' list of machines and how they are refreshed.
    - SendQueue (CollabVmServer.hpp): the queue of outgoing messages.
    - Captcha (CaptchaVerifier.hpp): the client of the captcha service.
    - Previews (SendRecordingPreviews in CollabVmServer.hpp): reading recordings
      to draw pictures of them.
    - WebFiles, WebServer (WebSocketServer.hpp): the files that are served and
      the paths they are named by; the answers to HTTP requests; the server's
      list of sockets with what each has outstanding.
    - Server (CollabVmSocket and CollabVmServer in CollabVmServer.hpp): the
      sockets and one definition per message of a client, up to the switch of
      [HandleMessage].
    - Persistence (the constructors of Database, VirtualMachinesList and
      CollabVmServer): building the server from the database file, and the
      invariant [persisted] that what is in memory is what is in the tables.
    - System (CollabVmSocket's hooks in CollabVmServer.hpp, SocketMessage.hpp's
      buffers): the server, the web server's sockets, the captcha service's
      client and the queues of outgoing messages, composed; each part's events
      are the others' operations.
    - Startup (Main.cpp, Start in WebSocketServer.hpp and CollabVmServer.hpp):
      the command line's variables, the workers, listening.

    ** How the code is modelled

    A component's state is a record and every public operation, timer handler
    and callback is a function from the state to the new state with the list
    of what it causes elsewhere (a message queued, a file opened, a command
    run), in the order of the source.  [option] stands for undefined behaviour
    or termination of the process: an iterator past the end, a dereferenced
    null pointer, a failed contract of [gsl::span], a reference that outlives
    what it refers to; a theorem that some operation yields [Some] says that
    this cannot happen.  Exceptions of
    SQLite are values of [sql_result].  A function of the source keeps its
    name; the operations of a machine that share a name with those of its
    parts carry the prefix [Vm].

    Concurrency: the source protects every object by a strand.  Strand models
    the threads step by step and [guards_serial] proves that a guarded object
    changes as if its handlers ran one after the other, unless a handler calls
    back to a guard that it came from; a handler need not end, and what depends
    on its end says so.  The model of a component is therefore
    a state machine over the handlers of its strand, and its invariants hold
    for every sequence of them.  In Server the handlers of different objects
    that a message triggers run to the end before the next message, which is
    one of the orders the source allows; what waits for an external answer, or is
    posted to another strand explicitly, is a [continuation] that may run at
    any later time.  What the source hands to another object's strand with
    references to local variables is undefined when that strand is busy, which
    the definitions are told ([OnStart] of AdminVm, [Verify] of Captcha); the
    batch that OnAddUser hands to a new member's queue, which holds no such
    reference, runs at once.  In System, whose handlers run one at a time, the
    captcha client's strand is free when a token is to be verified.  Two
    threads of libguac that flush at the same time can overtake each other
    ([OnFlush] and [OnFlushUnlocked]).  Timers and the clock are explicit, in nanoseconds
    for the steady clock and milliseconds for the system clock.

    One thing is shared between machines in the source and not in AdminVm and
    Server: a user's position in the turn queue, which is stored in the user
    object.  The machines of the model have a position per user each, so their
    invariants are those of machines whose users do not queue elsewhere while
    a timer of theirs is pending; [stale_turn_timer_of_other_vm] is the run in
    which two controllers that share the positions go wrong.

    Parameters, because they are not under src/: the generated schema's
    ordinals and accessors (classes [VmSchema], [ServerSchema], [GuacSchema],
    [GuacClientSchema]), the constants and validators shared with the client,
    argon2 and HMAC, what libguac writes and draws, serialised sizes, the
    contents of recordings, Beast's parsers and its comparison of strings
    without case ([CaseInsensitive]), and the results of the operating
    system.  The witnesses give all of them concrete values.

    ** What the theorems show

    - Turns: the positions stored in the users agree with the queue and no
      operation leaves its bounds ([turn_queue_safe]), but [EndCurrentTurn] is
      undefined when somebody is queued; turns end; requests,
      removals, pause and resume do what they should.
    - Votes: exactly one handler is pending, votes end with the majority's
      result, the tally is exact, one vote per address.
    - Channels and chat: counters are exact, members' views stay exact, the
      history is the end of the log, and a chat message reaches the channel.
    - Machines: [vm_never_stuck] combines the invariants of all parts and
      names every operation that can be undefined (ending a turn, a connection
      that libguac refuses, the first image while a member's queue is busy, a
      chat message that is too long); who controls a machine; stopping is final; changing settings is atomic.
    - Lists and queues: refreshes are exact, messages leave in order.
    - Database: registration, login, passwords, session identifiers, invites,
      and
      [config_store_refines]: the table refines a map of machines.
    - Server: what needs an administrator and who becomes one
      ([admin_messages_need_admin]), the captcha gate, guests' names,
      registration with an invite, bans, the limit of connections per address,
      starting and stopping ([server_start_stop]).
    - The program: [system_safe] is the invariant of the composition (no
      callback is lost or called twice, what is accepted is written in order,
      no handler is called for a socket that is not in the right state);
      [system_connection_limit] and [system_captcha] carry the limit and the
      captcha gate over to it.
    - The database and the process: [restart_restores] (a restart loses
      nothing), [startup_repairs] (incomplete rows are completed with
      defaults), [first_start], and [program_starts] for [main].
    - Threads: guarded objects are used by one thread at a time, posted
      handlers all run, in order ([guards_serial]).
    - Pictures have the promised size ([screenshot_fits]).
    - The connection of a machine starts and stops once and hands over every
      batch of instructions once ([guac_connection]).
    - Captchas: callers are answered once and in order ([captcha_answers_in_order])
      and pass only when the service says so ([captcha_passes_only_confirmed]).
    - Recordings: files are bracketed, and a write that fails ends recording
      for good ([recording_files_bracketed]); previews end ([previews_terminate]) and
      equal one pass over a file ([previews_single_pass]).
    - Web server: no iterator is erased twice and every socket ends once
      ([web_server_safe]); files come from below the root only
      ([served_below_root]).
    - Encodings: frames are read back as they were written ([frame_roundtrip]);
      form values too ([form_urlencode_roundtrip]).
    - Deviations from what the code means to do are theorems as well:
      [stale_turn_timer_of_other_vm], [restart_stops_itself],
      [AddUserMessage_overrun], [GetInitialSettings_unchecked],
      [registration_with_invite], [captcha_retries_forever], [previews_hang],
      [accept_error_is_final], [failed_read_leaks], [batches_swap]; reserved
      names can be registered ([register_then_login]).

    ** Fuel

    Five loops have no structural measure.  [free_number] (GenerateUsername)
    has one more round than there are guests, which [GenerateUsername_correct]
    proves enough; [CreateSession] and [CreateInvite] draw random identifiers
    until one is unused, and take the list of what the generator draws: they
    yield [None] only when every identifier of that list is in use.  The loop
    over a recording's frames ([FilePreviews]) has [file_fuel], one round more
    than the file has messages and key frames; the loop over the recordings
    ([PreviewLoop]) takes its fuel as an argument, and [previews_terminate]
    proves that one round more than the table has rows is enough when every
    recording has a length; [previews_hang] shows that no fuel is enough
    otherwise.

    ** Not modelled

    Cap'n Proto's encoding of messages and the copies made with its functions,
    drawing with cairo and libguac, Beast's parsers, the resolver, parsing of
    the command line (clipp) and the texts that are printed are glue around
    libraries.  file_body.hpp, FileUploadReader.hpp, ReusableSocketMessage.hpp
    and SharedStrandGuard.hpp are not compiled.  In System the machines'
    connections (libguac's threads), the disk and the password hashes remain
    inputs. *)

From Stdlib Require Export ZArith Lia.
From Stdlib Require Import Ascii String.
From stdpp Require Export base gmap sets list strings option.

#[export] Set Default Goal Selector "!".

(** ** Machine integers

    A w-bit unsigned integer of the source is a [Z] in [[0, 2^w)]; the C++
    arithmetic that can wrap is written with the functions below. *)

Declare Scope cvm_scope.
Delimit Scope cvm_scope with cvm.

Definition u8 (z : Z) : Z := z mod 2 ^ 8.
Definition u32 (z : Z) : Z := z mod 2 ^ 32.
Definition u64 (z : Z) : Z := z mod 2 ^ 64.

Lemma u32_small z : (0 ≤ z < 2 ^ 32)%Z → u32 z = z.
Proof. apply Z.mod_small. Qed.

Lemma u32_range z : (0 ≤ u32 z < 2 ^ 32)%Z.
Proof. apply Z.mod_pos_bound. lia. Qed.

Lemma u8_small z : (0 ≤ z < 2 ^ 8)%Z → u8 z = z.
Proof. apply Z.mod_small. Qed.

Lemma u8_range z : (0 ≤ u8 z < 2 ^ 8)%Z.
Proof. apply Z.mod_pos_bound. lia. Qed.

Lemma u32_add c k : u32 (u32 c + k) = u32 (c + k).
Proof. unfold u32. by rewrite Zplus_mod_idemp_l. Qed.
Lemma u32_sub c k : u32 (u32 c - k) = u32 (c - k).
Proof. unfold u32. by rewrite Zminus_mod_idemp_l. Qed.

Create Rewrite HintDb u32.
#[export] Hint Rewrite u32_add u32_sub : u32.

(** ** Bytes

    A byte is a [Z] in [[0, 256)].  [native_to_big] of bytes read in native
    order is their big-endian value, whatever the native order is, and
    [big_to_native] of a value stored in native order its big-endian bytes. *)

Definition be64 (bytes : list Z) : Z := foldl (λ acc b, acc * 256 + b)%Z 0%Z bytes.

Fixpoint to_be (n : nat) (z : Z) : list Z :=
  match n with O => [] | S n => to_be n (z / 256)%Z ++ [(z mod 256)%Z] end.

Abbreviation is_byte := (λ b, 0 ≤ b < 256)%Z.

Lemma be64_snoc l b : be64 (l ++ [b]) = (be64 l * 256 + b)%Z.
Proof. unfold be64. by rewrite foldl_app. Qed.

Lemma length_to_be n z : length (to_be n z) = n.
Proof. revert z. induction n as [|n IH]; intros z; simpl; [done|]. rewrite length_app, IH. simpl. lia. Qed.

Lemma to_be_bytes n z : Forall is_byte (to_be n z).
Proof.
  revert z. induction n as [|n IH]; intros z; simpl; [constructor|].
  apply Forall_app. split; [apply IH|]. repeat constructor; apply Z.mod_pos_bound; lia.
Qed.

Lemma to_be_be64 l : Forall is_byte l → to_be (length l) (be64 l) = l.
Proof.
  induction l as [|b l IH] using rev_ind; [done|]. rewrite Forall_app, Forall_singleton.
  intros [Hl Hb]. rewrite length_app, be64_snoc. simpl. rewrite Nat.add_1_r. simpl.
  rewrite Z.div_add_l, (Z.div_small b), Z.add_0_r, IH by (done || lia).
  by rewrite Z.add_comm, Z_mod_plus_full, Z.mod_small.
Qed.

Lemma be64_range l : Forall is_byte l → (0 ≤ be64 l < 2 ^ (8 * Z.of_nat (length l)))%Z.
Proof.
  induction l as [|b l IH] using rev_ind; [done|]. rewrite Forall_app, Forall_singleton.
  intros [Hl Hb]. rewrite be64_snoc, length_app. specialize (IH Hl). simpl.
  replace (8 * Z.of_nat (length l + 1))%Z with (8 * Z.of_nat (length l) + 8)%Z by lia.
  rewrite Z.pow_add_r by lia. lia.
Qed.

(** ** Reachability

    Components that react to events are step relations; [reachable] is the
    reflexive transitive closure from an initial state. *)

Section Reachability.
Context {S : Type} (init : S → Prop) (step : S → S → Prop).

Inductive reachable : S → Prop :=
| reachable_init s : init s → reachable s
| reachable_step s s' : reachable s → step s s' → reachable s'.

(** An inductive invariant holds in every reachable state. *)
Lemma reachable_invariant (I : S → Prop) :
  (∀ s, init s → I s) →
  (∀ s s', I s → step s s' → I s') →
  ∀ s, reachable s → I s.
Proof. intros Hi Hs s. induction 1; eauto. Qed.
End Reachability.

(** ** Lists *)

Section Lists.
Context {A : Type}.
Implicit Types (l : list A) (x : A) (i j : nat).

(** The elements of a list at positions above [i] move down by one when
    position [i] is erased. *)
Lemma lookup_delete_list i j l :
  delete i l !! j = if decide (j < i)%nat then l !! j else l !! S j.
Proof.
  case_decide.
  - by apply list_lookup_delete_lt.
  - apply list_lookup_delete_ge. lia.
Qed.

Lemma lookup_snoc_cases l x i y :
  (l ++ [x]) !! i = Some y ↔
    (i < length l)%nat ∧ l !! i = Some y ∨ i = length l ∧ y = x.
Proof.
  rewrite lookup_app_Some, list_lookup_singleton_Some.
  split.
  - intros [H | (? & ? & <-)]; [left; split; [by eapply lookup_lt_Some | done]|].
    right. split; [lia | done].
  - intros [[? ?] | [-> ->]]; [by left | right].
    split; [lia | split; [lia | done]].
Qed.

Lemma filter_keep_all (P : A → Prop) `{!∀ x, Decision (P x)} l :
  (∀ x, x ∈ l → P x) → filter P l = l.
Proof.
  induction l as [|y l IH]; intros Hl; [done|].
  rewrite filter_cons_True by (apply Hl; set_solver).
  f_equal. apply IH. set_solver.
Qed.

(** Erasing the only occurrence of an element filters it out. *)
Lemma delete_nodup_filter `{EqDecision A} i l x :
  NoDup l → l !! i = Some x → delete i l = filter (λ y, y ≠ x) l.
Proof.
  revert i. induction l as [|y l IH]; intros i Hnd Hi; [done|].
  apply list.NoDup_cons in Hnd as [Hy Hnd]. destruct i as [|i]; simpl in *.
  - simplify_eq. rewrite filter_cons_False by (by intros []).
    symmetry. apply filter_keep_all. by intros z Hz ->.
  - rewrite filter_cons_True; [by rewrite IH|].
    intros ->. apply Hy, list_elem_of_lookup. by exists i.
Qed.

Lemma filter_ne_not_elem `{EqDecision A} l x :
  x ∉ l → filter (λ y, y ≠ x) l = l.
Proof.
  intros Hx. apply filter_keep_all. by intros z Hz ->.
Qed.

(** The last [n] elements, in order. *)
Definition lastn (n : nat) l : list A := drop (length l - n) l.

Lemma lastn_all n l : (length l ≤ n)%nat → lastn n l = l.
Proof. intros. unfold lastn. by replace (length l - n) with 0 by lia. Qed.

Lemma length_lastn n l : length (lastn n l) = min n (length l).
Proof. unfold lastn. rewrite length_drop. lia. Qed.

Lemma lookup_lastn n l i :
  (i < min n (length l))%nat →
  lastn n l !! i = l !! ((length l - n) + i)%nat.
Proof. intros. unfold lastn. apply lookup_drop. Qed.
End Lists.

(** ** Termination by replacement

    A collection of items terminates when each step replaces one of them by
    any number of smaller ones. *)
Section Replacement.
Context {A : Type} (smaller : A → A → Prop).

Definition replaced (l' l : list A) : Prop :=
  ∃ x xs rest, l ≡ₚ x :: rest ∧ l' ≡ₚ xs ++ rest ∧ Forall (λ y, smaller y x) xs.

#[export] Instance replaced_proper : Proper ((≡ₚ) ==> (≡ₚ) ==> iff) replaced.
Proof.
  intros l1 l1' H1 l2 l2' H2. unfold replaced.
  split; intros (x & xs & rest & ? & ? & ?); exists x, xs, rest; (split_and!; [|..|done]);
    [by rewrite <-H2|by rewrite <-H1|by rewrite H2|by rewrite H1].
Qed.

Lemma replaced_perm l l' : l ≡ₚ l' → Acc replaced l → Acc replaced l'.
Proof. intros Hp [Ha]. constructor. intros l0 Hl0. apply Ha. by rewrite Hp. Qed.

Lemma replaced_cons x : Acc smaller x → ∀ l, Acc replaced l → Acc replaced (x :: l).
Proof.
  induction 1 as [x _ IHx]. intros l Hl. pose proof Hl as Hl0. revert Hl0. induction Hl as [l Hl IHl]. intros Hacc.
  constructor. intros l' (y & xs & rest & Hp & Hl' & Hxs). symmetry in Hl'. apply (replaced_perm _ _ Hl').
  assert (x ∈ y :: rest) as [->|Hin]%elem_of_cons by (rewrite <-Hp; by left).
  - apply (Permutation_cons_inv) in Hp. clear Hl'. apply (replaced_perm (xs ++ l)); [by rewrite Hp|].
    induction Hxs as [|z xs Hz _ IH]; [done|]. cbn. by apply IHx.
  - apply elem_of_Permutation in Hin as [rest' Hrest]. rewrite Hrest in Hp.
    assert (l ≡ₚ y :: rest') as Hp' by (apply (Permutation_cons_inv (a := x)); rewrite Hp; apply perm_swap).
    apply (replaced_perm (x :: xs ++ rest')); [rewrite Hrest; apply Permutation_middle|].
    assert (replaced (xs ++ rest') l) as Hr by by exists y, xs, rest'.
    apply IHl; [done|]. by apply Hl.
Qed.

Lemma replaced_acc l : Forall (Acc smaller) l → Acc replaced l.
Proof.
  induction 1 as [|x l Hx _ IH]; [|by apply replaced_cons]. constructor. intros l' (x & xs & rest & Hp & _).
  by apply Permutation_nil_cons in Hp.
Qed.
Lemma replaced_Forall l l' : replaced l' l → Forall (Acc smaller) l → Forall (Acc smaller) l'.
Proof.
  intros (x & xs & rest & -> & -> & Hxs) [Hx Hrest]%list.Forall_cons_1. apply Forall_app. split; [|done].
  eapply List.Forall_impl; [|exact Hxs]. intros y Hy. by apply (Acc_inv Hx).
Qed.
End Replacement.

(** ** Automation

    [cvm_inv] destroys the guards of a handler one at a time;
    [cvm_simpl] rewrites with the observer equations that the components
    register in the [cvm] rewriting database. *)

Create HintDb cvm discriminated.
Create Rewrite HintDb cvm.

Ltac case_cond :=
  match goal with
  | |- context [match ?x with _ => _ end] =>
      lazymatch x with context [match _ with _ => _ end] => fail | _ => idtac end;
      let E := fresh "E" in destruct x eqn:E
  | H : context [match ?x with _ => _ end] |- _ =>
      lazymatch x with context [match _ with _ => _ end] => fail | _ => idtac end;
      let E := fresh "E" in destruct x eqn:E
  end.

Ltac cvm_simpl := repeat (progress (autorewrite with cvm in *; cbn in *)).

Ltac cvm_cases := repeat (case_cond; simplify_eq/=; try done).
