(* ===== verification/Totp.v ===== *)
(** * Time-based one-time passwords (src/Totp.hpp)

    HMAC-SHA1 is OpenSSL's and a parameter: twenty bytes for a key and a
    message.  The clock is an argument.  [None] stands for undefined
    behaviour: a number of digits whose power of ten is no [int], or a
    division by zero. *)

From S2P Require Import Prelude.

Definition SHA_DIGEST_LENGTH : nat := 20.

Section Totp.
Context (HMAC : list Z → list Z → list Z).
Implicit Types (key : list Z) (digits time_step time_window timestamp input : Z).

(** [static_cast<int>(std::pow(10, digits))]; dividing by the power of a
    negative number of digits, which is cast to zero, is undefined. *)
Definition int_power_of_10 digits : option Z :=
  if ((0 <=? digits) && (digits <=? 9))%Z then Some (10 ^ digits)%Z else None.

(** The eight bytes that are hashed: a signed counter, big-endian. *)
Definition timer_bytes digits time_step time_window timestamp : option (list Z) :=
  if Z.eqb time_step 0 then None
  else Some (to_be 8 (u64 (Z.quot timestamp time_step - time_window))).

(** Four bytes at an offset that the last four bits give, without their highest
    bit (on a little-endian machine, as [endian_reverse] assumes). *)
Definition truncate (digest : list Z) : option Z :=
  last_byte ← digest !! (SHA_DIGEST_LENGTH - 1)%nat;
  let offset := Z.to_nat (Z.land last_byte 15) in
  if bool_decide (offset + 4 ≤ length digest)
  then Some (Z.land (be64 (take 4 (drop offset digest))) (2 ^ 31 - 1))
  else None.

Definition GenerateTotp key digits time_step time_window timestamp : option Z :=
  timer ← timer_bytes digits time_step time_window timestamp;
  binary ← truncate (HMAC key timer);
  modulus ← int_power_of_10 digits;
  Some (binary mod modulus)%Z.

(** [std::any_of] over the windows, which ends with the first match. *)
Fixpoint any_window input key digits time_step timestamp (windows : list Z) : option bool :=
  match windows with
  | [] => Some false
  | w :: windows =>
      code ← GenerateTotp key digits time_step w timestamp;
      if Z.eqb code input then Some true else any_window input key digits time_step timestamp windows
  end.

Definition ValidateTotp input key digits time_step time_window (now : Z) : option bool :=
  any_window input key digits time_step now (seqZ 0 (time_window + 1)).

(** ** Lemmas *)

Context (HMAC_length : ∀ key m, length (HMAC key m) = SHA_DIGEST_LENGTH).

Lemma truncate_range key m : ∃ binary, truncate (HMAC key m) = Some binary ∧ (0 ≤ binary < 2 ^ 31)%Z.
Proof.
  pose proof (HMAC_length key m) as Hl. unfold truncate.
  destruct (lookup_lt_is_Some_2 (HMAC key m) (SHA_DIGEST_LENGTH - 1)) as [b Hb];
    [rewrite Hl; unfold SHA_DIGEST_LENGTH; lia|]. rewrite Hb. simpl.
  assert (0 ≤ Z.land b 15 < 16)%Z as Ho.
  { change 15%Z with (Z.ones 4). rewrite Z.land_ones by lia. by apply Z.mod_pos_bound. }
  rewrite bool_decide_eq_true_2 by (rewrite Hl; unfold SHA_DIGEST_LENGTH; lia).
  eexists. split; [done|]. change (2 ^ 31 - 1)%Z with (Z.ones 31). rewrite Z.land_ones by lia.
  by apply Z.mod_pos_bound.
Qed.

Lemma GenerateTotp_defined key digits time_step time_window timestamp :
  (0 ≤ digits ≤ 9)%Z → time_step ≠ 0%Z →
  ∃ code, GenerateTotp key digits time_step time_window timestamp = Some code ∧
    (0 ≤ code < 10 ^ digits)%Z.
Proof.
  intros Hd Hs. unfold GenerateTotp, timer_bytes, int_power_of_10.
  rewrite (proj2 (Z.eqb_neq _ _) Hs). simpl.
  destruct (truncate_range key (to_be 8 (u64 (Z.quot timestamp time_step - time_window)))) as (b & Hb & _).
  simpl in Hb. rewrite Hb. simpl.
  rewrite (proj2 (Z.leb_le 0 digits)), (proj2 (Z.leb_le digits 9)) by lia. simpl.
  eexists. split; [done|]. apply Z.mod_pos_bound. apply Z.pow_pos_nonneg; lia.
Qed.

Lemma any_window_spec input key digits time_step timestamp windows :
  (0 ≤ digits ≤ 9)%Z → time_step ≠ 0%Z →
  any_window input key digits time_step timestamp windows =
  Some (bool_decide (Exists (λ w, GenerateTotp key digits time_step w timestamp = Some input) windows)).
Proof.
  intros Hd Hs. induction windows as [|w windows IH]; cbn [any_window].
  - rewrite bool_decide_eq_false_2; [done|]. by intros ?%Exists_nil.
  - destruct (GenerateTotp_defined key digits time_step w timestamp Hd Hs) as (code & Hc & _).
    rewrite Hc. cbn [mbind option_bind]. destruct (Z.eqb_spec code input) as [->|Hne].
    + rewrite bool_decide_eq_true_2; [done|]. by left.
    + rewrite IH. f_equal. apply bool_decide_ext. rewrite Exists_cons, Hc.
      split; [by right|]. intros [[= ?]|?]; done.
Qed.

(** C36: Codes are numbers of at most the digits that were asked for, and with
    the default parameters [ValidateTotp] accepts exactly the code of the
    current step of thirty seconds and the code of the step before: a code that
    a device shows at a time is good until the end of the next step, and a code
    that is good was shown by a device within the last two steps. *)
Theorem totp_window key input now :
  (30 ≤ now < 2 ^ 63)%Z →
  ∃ accepted, ValidateTotp input key 6 30 1 now = Some accepted ∧
    (accepted = true ↔ ∃ t, (Z.quot now 30 - 1 ≤ Z.quot t 30 ≤ Z.quot now 30)%Z ∧ (0 ≤ t ≤ now)%Z ∧
      GenerateTotp key 6 30 0 t = Some input) ∧
    (accepted = true → (0 ≤ input < 10 ^ 6)%Z) ∧
    ∀ t, (0 ≤ t ≤ now)%Z → (now < (Z.quot t 30 + 2) * 30)%Z →
      GenerateTotp key 6 30 0 t = Some input → accepted = true.
Proof.
  intros Hnow. unfold ValidateTotp. rewrite any_window_spec by (done || lia).
  assert (Exists (λ w, GenerateTotp key 6 30 w now = Some input) (seqZ 0 (1 + 1)) ↔
    ∃ t, (Z.quot now 30 - 1 ≤ Z.quot t 30 ≤ Z.quot now 30)%Z ∧ (0 ≤ t ≤ now)%Z ∧
      GenerateTotp key 6 30 0 t = Some input) as Hw.
  { change (seqZ 0 (1 + 1)) with [0; 1]%Z. rewrite !Exists_cons, Exists_nil.
    assert (∀ t w, (Z.quot t 30 = Z.quot now 30 - w)%Z →
      GenerateTotp key 6 30 w now = GenerateTotp key 6 30 0 t) as Hstep.
    { intros t w Ht. unfold GenerateTotp, timer_bytes. by rewrite Ht, Z.sub_0_r. }
    split.
    - intros [H|[H|[]]]; [by exists now; split_and!; [lia..|]|].
      assert (Z.quot (now - 30) 30 = Z.quot now 30 - 1)%Z as Hq
        by (Z.to_euclidean_division_equations; lia).
      exists (now - 30)%Z. rewrite <-(Hstep (now - 30)%Z 1%Z Hq). split_and!; [lia..|done].
    - intros (t & Ht & Ht' & H). destruct (decide (Z.quot t 30 = Z.quot now 30)%Z) as [He|He].
      + left. rewrite (Hstep t); [done|lia].
      + right; left. rewrite (Hstep t); [done|lia]. }
  eexists. split; [done|]. rewrite bool_decide_eq_true. split; [exact Hw|split].
  - intros (t & _ & _ & Ht)%Hw.
    destruct (GenerateTotp_defined key 6 30 0 t ltac:(lia) ltac:(done)) as (c & Hc & ?).
    rewrite Hc in Ht. by simplify_eq.
  - intros t Ht Hn Hg. apply bool_decide_eq_true, Hw. exists t. split_and!; [Z.to_euclidean_division_equations; lia..|done].
Qed.
End Totp.

Module TotpDemo.
(** RFC 4226, appendix D: the digest of the first counter. *)
Definition hmac (key m : list Z) : list Z :=
  [204; 147; 207; 24; 80; 141; 148; 147; 76; 100; 182; 93; 139; 167; 102; 127; 183; 205; 228; 176]%Z.
Lemma totp_window_witness :
  ∃ accepted, ValidateTotp hmac 755224 [] 6 30 1 59 = Some accepted ∧ accepted = true.
Proof.
  destruct (totp_window hmac ltac:(done)
    [] 755224 59 ltac:(lia)) as (a & Ha & _ & _ & Hin).
  exists a. split; [exact Ha|]. apply (Hin 59%Z); [lia|vm_compute; done|by vm_compute].
Defined.
End TotpDemo.
