(* ===== verification/Frame.v ===== *)
(** * Frames of messages (src/SocketMessage.hpp, src/CapnpMessageFrameBuilder.hpp)

    A message of Cap'n Proto is a list of segments of eight-byte words.  Before
    it is written to a socket or a file it gets a header with the number and the
    sizes of the segments.  [SharedSocketMessage::CreateFrame] builds the header
    next to the segments and hands out buffers that point to both, without
    copying; a buffer with a pointer into a vector is good as long as the
    vector keeps its storage.  [decode] is the reader's side as Cap'n Proto
    documents it, the reference that frames are checked against. *)

From S2P Require Import Prelude.

(** ** Little-endian numbers *)

Fixpoint to_le (n : nat) (z : Z) : list Z :=
  match n with O => [] | S n => (z mod 256)%Z :: to_le n (z / 256)%Z end.
Definition from_le (l : list Z) : Z := foldr (λ b acc, b + 256 * acc)%Z 0%Z l.

Lemma length_to_le n z : length (to_le n z) = n.
Proof. revert z. induction n as [|n IH]; intros z; simpl; [done|by rewrite IH]. Qed.

Lemma from_to_le n z : (0 ≤ z < 256 ^ Z.of_nat n)%Z → from_le (to_le n z) = z.
Proof.
  revert z. induction n as [|n IH]; intros z Hz; [simpl in *; lia|].
  rewrite Nat2Z.inj_succ, Z.pow_succ_r in Hz by lia. cbn [to_le from_le foldr].
  fold (from_le (to_le n (z / 256))). rewrite IH; [pose proof (Z.div_mod z 256); lia|].
  split; [apply Z.div_pos; lia|apply Z.div_lt_upper_bound; lia].
Qed.

Definition le32 (l : list Z) : list Z := l ≫= to_le 4.

(** ** Vectors

    [v_storage] changes with every new allocation.  How much a vector grows is
    the library's business; the least is one element. *)

Record vec := Vec { v_elems : list Z; v_capacity : nat; v_storage : nat }.
Implicit Types v : vec.

Definition vec_new : vec := Vec [] 0 0.
Definition reserve (n : nat) v : vec :=
  if bool_decide (v_capacity v < n) then Vec (v_elems v) n (S (v_storage v)) else v.
(** Elements are 32 bits wide. *)
Definition push_back (x : Z) v : vec :=
  if bool_decide (length (v_elems v) < v_capacity v)
  then Vec (v_elems v ++ [u32 x]) (v_capacity v) (v_storage v)
  else Vec (v_elems v ++ [u32 x]) (S (length (v_elems v))) (S (v_storage v)).

(** ** SharedSocketMessage *)

Inductive buffer :=
| FrameData (storage bytes : nat)      (* [frame_.data()] and a size *)
| SegmentBytes (bytes : list Z).

Record shared_message := SharedSocketMessage {
  segments_ : list (list Z);      (* bytes of the message builder's segments *)
  frame_ : vec;
  framed_buffers_ : list buffer
}.
Implicit Types (m : shared_message) (segs : list (list Z)).

Definition message_new segs : shared_message := SharedSocketMessage segs vec_new [].

Definition segment_size (seg : list Z) : Z := Z.of_nat (length seg / 8).

Definition frame_size (segment_count : nat) : nat :=
  Z.to_nat (Z.land (Z.of_nat segment_count + 2) (Z.lnot 1)).

Definition AddBuffer (fb : vec * list buffer) (seg : list Z) : vec * list buffer :=
  (push_back (segment_size seg) fb.1, fb.2 ++ [SegmentBytes seg]).

Definition CreateFrame m : shared_message :=
  match framed_buffers_ m with
  | _ :: _ => m
  | [] =>
      let segment_count := length (segments_ m) in
      let frame := reserve (frame_size segment_count) (frame_ m) in
      let frame := push_back (Z.of_nat segment_count - 1) frame in
      let buffers := [FrameData (v_storage frame) (frame_size segment_count * 4)] in
      let '(frame, buffers) := foldl AddBuffer (frame, buffers) (segments_ m) in
      let frame := if Nat.even segment_count then push_back 0 frame else frame in
      SharedSocketMessage (segments_ m) frame buffers
  end.

(** What is written: [None] for a buffer that points to storage the vector has
    given up, or past its elements. *)
Definition buffer_bytes (frame : vec) (b : buffer) : option (list Z) :=
  match b with
  | SegmentBytes l => Some l
  | FrameData storage n =>
      let data := le32 (v_elems frame) in
      if bool_decide (storage = v_storage frame ∧ n ≤ length data) then Some (take n data) else None
  end.

Definition wire m : option (list Z) :=
  mjoin <$> mapM (buffer_bytes (frame_ m)) (framed_buffers_ m).

(** ** CapnpMessageFrameBuilder *)

Record frame_builder := FrameBuilder { fb_frame_ : list Z; segment_num_ : nat }.

(** [operator[]] past the end is undefined. *)
Definition store (i : nat) (x : Z) (l : list Z) : option (list Z) :=
  if bool_decide (i < length l) then Some (<[i := u32 x]> l) else None.

Definition Init (segmentCount : nat) (b : frame_builder) : option frame_builder :=
  l ← store 0 (Z.of_nat segmentCount - 1) (resize (frame_size segmentCount) 0%Z (fb_frame_ b));
  Some (FrameBuilder l 1).

Definition AddSegment (segmentSize : Z) (b : frame_builder) : option frame_builder :=
  l ← store (segment_num_ b) segmentSize (fb_frame_ b);
  Some (FrameBuilder l (S (segment_num_ b))).

Definition Finalize (segmentCount : nat) (b : frame_builder) : option frame_builder :=
  if Nat.even segmentCount
  then l ← store (segmentCount + 1) 0 (fb_frame_ b); Some (FrameBuilder l (segment_num_ b))
  else Some b.

Definition BuildFrame segs (b : frame_builder) : option frame_builder :=
  b ← Init (length segs) b;
  b ← foldl (λ ob seg, b ← ob; AddSegment (segment_size seg) b) (Some b) segs;
  Finalize (length segs) b.

(** ** The reader *)

Definition u32_at (i : nat) (l : list Z) : Z := from_le (take 4 (drop (4 * i) l)).

Fixpoint split_segments (sizes : list Z) (l : list Z) : option (list (list Z)) :=
  match sizes with
  | [] => if bool_decide (l = []) then Some [] else None
  | size :: sizes =>
      let n := (8 * Z.to_nat size)%nat in
      if bool_decide (n ≤ length l)
      then (λ segs, take n l :: segs) <$> split_segments sizes (drop n l) else None
  end.

(** The number of segments less one, their sizes in words, padding to a whole
    word, and the segments. *)
Definition decode (l : list Z) : option (list (list Z)) :=
  let n := Z.to_nat (u32_at 0 l + 1) in
  let header := (4 * (1 + n + (if Nat.even n then 1 else 0)))%nat in
  if bool_decide (header ≤ length l)
  then split_segments ((λ i, u32_at (S i) l) <$> seq 0 n) (drop header l) else None.

(** ** The frame *)

Lemma frame_size_eq n : frame_size n = (1 + n + (if Nat.even n then 1 else 0))%nat.
Proof.
  unfold frame_size. rewrite <-Z.ldiff_land. change 1%Z with (Z.ones 1).
  rewrite Z.ldiff_ones_r, Z.shiftl_mul_pow2, Z.shiftr_div_pow2 by lia.
  change (2 ^ 1)%Z with 2%Z. destruct (Nat.even n) eqn:He.
  - apply Nat.even_spec in He as [k ->].
    replace (Z.of_nat (2 * k) + 2)%Z with ((Z.of_nat k + 1) * 2)%Z by lia. rewrite Z.div_mul; lia.
  - assert (Nat.odd n = true) as Ho by (unfold Nat.odd; by rewrite He).
    apply Nat.odd_spec in Ho as [k ->].
    replace (Z.of_nat (2 * k + 1) + 2)%Z with (1 + (Z.of_nat k + 1) * 2)%Z by lia.
    rewrite Z.div_add by lia. change (1 / 2)%Z with 0%Z. lia.
Qed.

Definition padding (n : nat) : list Z := if Nat.even n then [0%Z] else [].

(** The header's numbers. *)
Definition frame_of segs : list Z :=
  u32 (Z.of_nat (length segs) - 1) :: ((λ seg, u32 (segment_size seg)) <$> segs) ++ padding (length segs).

Lemma length_frame_of segs : length (frame_of segs) = frame_size (length segs).
Proof.
  rewrite frame_size_eq. unfold frame_of, padding. simpl. rewrite length_app, length_fmap.
  destruct (Nat.even _); simpl; lia.
Qed.

Lemma push_back_fits x v :
  length (v_elems v) < v_capacity v →
  push_back x v = Vec (v_elems v ++ [u32 x]) (v_capacity v) (v_storage v).
Proof. intros. unfold push_back. by rewrite bool_decide_eq_true_2. Qed.

Lemma AddBuffer_all segs v bs :
  length (v_elems v) + length segs ≤ v_capacity v →
  foldl AddBuffer (v, bs) segs =
  (Vec (v_elems v ++ ((λ seg, u32 (segment_size seg)) <$> segs)) (v_capacity v) (v_storage v),
   bs ++ (SegmentBytes <$> segs)).
Proof.
  revert v bs. induction segs as [|seg segs IH]; intros v bs Hl; simpl in *.
  - rewrite !app_nil_r. by destruct v.
  - unfold AddBuffer at 2. simpl. rewrite push_back_fits by lia.
    rewrite IH by (simpl; rewrite length_app; simpl; lia). simpl. by rewrite <-!app_assoc.
Qed.

(** The vector never moves once a buffer points to it. *)
Lemma CreateFrame_new segs :
  let fs := frame_size (length segs) in
  CreateFrame (message_new segs) =
  SharedSocketMessage segs (Vec (frame_of segs) fs 1)
    (FrameData 1 (fs * 4) :: (SegmentBytes <$> segs)).
Proof.
  unfold CreateFrame, message_new. cbn [framed_buffers_ segments_ frame_].
  pose proof (frame_size_eq (length segs)) as Hf.
  assert (reserve (frame_size (length segs)) vec_new = Vec [] (frame_size (length segs)) 1) as ->.
  { unfold reserve, vec_new. simpl. rewrite bool_decide_eq_true_2 by lia. done. }
  rewrite push_back_fits by (simpl; lia). rewrite AddBuffer_all by (simpl; lia). simpl.
  unfold frame_of, padding. destruct (Nat.even (length segs)); simpl.
  - rewrite push_back_fits by (simpl; rewrite length_fmap; lia). done.
  - by rewrite app_nil_r.
Qed.

(** *** Reading it back *)

Lemma le32_app l1 l2 : le32 (l1 ++ l2) = le32 l1 ++ le32 l2.
Proof. unfold le32. apply bind_app. Qed.

Lemma length_le32 l : length (le32 l) = 4 * length l.
Proof. induction l as [|x l IH]; [done|]. change (le32 (x :: l)) with (to_le 4 x ++ le32 l).
  rewrite length_app, length_to_le, IH. simpl. lia. Qed.

Lemma u32_at_le32 l rest i x :
  l !! i = Some x → (0 ≤ x < 2 ^ 32)%Z → u32_at i (le32 l ++ rest) = x.
Proof.
  revert i. induction l as [|y l IH]; intros i Hi Hx; [done|].
  change (le32 (y :: l)) with (to_le 4 y ++ le32 l). unfold u32_at in *. destruct i as [|i].
  - simplify_eq/=. by apply (from_to_le 4).
  - simpl in Hi. replace (4 * S i) with (4 + 4 * i) by lia.
    rewrite <-drop_drop, <-app_assoc, drop_app_length' by (by rewrite length_to_le). by apply IH.
Qed.

Definition segment_ok (seg : list Z) : Prop :=
  (length seg mod 8 = 0)%nat ∧ (Z.of_nat (length seg) < 8 * 2 ^ 32)%Z.

Lemma segment_size_ok seg :
  segment_ok seg → (0 ≤ segment_size seg < 2 ^ 32)%Z ∧ 8 * Z.to_nat (segment_size seg) = length seg.
Proof.
  intros [Hm Hl]. unfold segment_size. pose proof (Nat.div_mod_eq (length seg) 8). split; lia.
Qed.

Lemma split_segments_mjoin segs :
  Forall segment_ok segs → split_segments (segment_size <$> segs) (mjoin segs) = Some segs.
Proof.
  induction 1 as [|seg segs Hs _ IH]; simpl; [done|].
  apply segment_size_ok in Hs as [_ Hs]. fold (segment_size seg). unfold fmap in IH.
  replace (_ + _) with (length seg) by lia.
  rewrite bool_decide_eq_true_2 by (rewrite length_app; lia).
  rewrite drop_app_length, take_app_length. by rewrite IH.
Qed.

(** The bytes on the wire. *)
Lemma wire_CreateFrame segs :
  wire (CreateFrame (message_new segs)) = Some (le32 (frame_of segs) ++ mjoin segs).
Proof.
  rewrite CreateFrame_new. unfold wire. cbn [framed_buffers_ frame_].
  rewrite (proj2 (mapM_Some _ _ (le32 (frame_of segs) :: segs))); [done|]. constructor.
  - unfold buffer_bytes. cbn [v_elems v_storage].
    rewrite length_le32, length_frame_of, bool_decide_eq_true_2 by (split; [done|lia]).
    f_equal. apply take_ge. rewrite length_le32, length_frame_of. lia.
  - apply Forall2_fmap_l, Forall_Forall2_diag. by apply Forall_true.
Qed.

(** C27: A frame made of a message with at least one segment is read back as
    the same segments; the buffer with the header still points into the
    vector when the frame is complete, although it was handed out before the
    vector was filled; making the frame of a framed message changes nothing. *)
Theorem frame_roundtrip segs :
  segs ≠ [] → (Z.of_nat (length segs) < 2 ^ 32)%Z → Forall segment_ok segs →
  let m := CreateFrame (message_new segs) in
  (∃ bytes, wire m = Some bytes ∧ decode bytes = Some segs ∧ (length bytes mod 8 = 0)%nat) ∧
  CreateFrame m = m.
Proof.
  intros Hne Hn Hok. cbn zeta. split; [|by rewrite CreateFrame_new].
  assert (0 < length segs) as Hpos by (destruct segs; simpl; [done|lia]).
  eexists. split; [apply wire_CreateFrame|].
  assert (∀ i x, frame_of segs !! i = Some x → (0 ≤ x < 2 ^ 32)%Z →
    u32_at i (le32 (frame_of segs) ++ mjoin segs) = x) as Hat by (intros; by apply u32_at_le32).
  assert (u32_at 0 (le32 (frame_of segs) ++ mjoin segs) = Z.of_nat (length segs) - 1)%Z as H0.
  { apply Hat; [simpl; f_equal; apply u32_small; lia|lia]. }
  assert (((λ i, u32_at (S i) (le32 (frame_of segs) ++ mjoin segs)) <$> seq 0 (length segs)) =
    segment_size <$> segs) as Hsizes.
  { apply list_eq. intros i. rewrite !list_lookup_fmap.
    destruct (decide (i < length segs)) as [Hi|Hi].
    - rewrite lookup_seq_lt by done. destruct (lookup_lt_is_Some_2 segs i Hi) as [seg Hseg].
      rewrite Hseg. simpl. f_equal.
      destruct (segment_size_ok seg) as [Hs _]; [by eapply Forall_lookup_1|].
      apply Hat; [|done]. unfold frame_of. simpl. apply lookup_app_l_Some.
      rewrite list_lookup_fmap, Hseg. simpl. f_equal. by apply u32_small.
    - rewrite lookup_seq_ge, lookup_ge_None_2 by lia. done. }
  unfold decode. rewrite H0. replace (Z.to_nat _) with (length segs) by lia.
  rewrite <-frame_size_eq, Hsizes, length_app, length_le32, length_frame_of.
  rewrite bool_decide_eq_true_2 by lia.
  rewrite drop_app_length' by (by rewrite length_le32, length_frame_of).
  split; [by apply split_segments_mjoin|].
  assert (length (mjoin segs) mod 8 = 0)%nat as Hm.
  { clear -Hok. induction Hok as [|seg segs [Hs _] _ IH]; [done|].
    change (mjoin (seg :: segs)) with (seg ++ mjoin segs). rewrite length_app.
    rewrite Nat.Div0.add_mod, Hs, IH. done. }
  rewrite Nat.Div0.add_mod, Hm, frame_size_eq.
  destruct (Nat.even (length segs)) eqn:He.
  - apply Nat.even_spec in He as [k ->].
    replace (4 * (1 + 2 * k + 1)) with ((k + 1) * 8) by lia. by rewrite Nat.Div0.mod_mul.
  - assert (Nat.odd (length segs) = true) as Ho by (unfold Nat.odd; by rewrite He).
    apply Nat.odd_spec in Ho as [k ->].
    replace (4 * (1 + (2 * k + 1) + 0)) with ((k + 1) * 8) by lia. by rewrite Nat.Div0.mod_mul.
Qed.

(** *** The other builder *)

Lemma store_at pre x y rest : store (length pre) x (pre ++ y :: rest) = Some (pre ++ u32 x :: rest).
Proof.
  unfold store. rewrite bool_decide_eq_true_2 by (rewrite length_app; simpl; lia).
  f_equal. replace (length pre) with (length pre + 0) by lia. by rewrite insert_app_r.
Qed.

Lemma AddSegment_all segs pre rest :
  length segs ≤ length rest →
  foldl (λ ob seg, b ← ob; AddSegment (segment_size seg) b) (Some (FrameBuilder (pre ++ rest) (length pre))) segs =
  Some (FrameBuilder (pre ++ ((λ seg, u32 (segment_size seg)) <$> segs) ++ drop (length segs) rest)
    (length pre + length segs)).
Proof.
  revert pre rest. induction segs as [|seg segs IH]; intros pre rest Hl; simpl.
  - by rewrite drop_0, Nat.add_0_r.
  - destruct rest as [|y rest]; simpl in Hl; [lia|].
    unfold AddSegment at 2. simpl. rewrite store_at. simpl.
    replace (pre ++ u32 (segment_size seg) :: rest) with ((pre ++ [u32 (segment_size seg)]) ++ rest)
      by (by rewrite <-app_assoc).
    replace (S (length pre)) with (length (pre ++ [u32 (segment_size seg)])) by (rewrite length_app; simpl; lia).
    rewrite IH by lia. rewrite <-app_assoc, length_app. simpl. do 2 f_equal. lia.
Qed.

(** The two ways to build a frame agree: a [CapnpMessageFrameBuilder] in
    any state, initialised and given the segments, ends with the numbers that
    [CreateFrame] writes, and never stores past the end of its vector. *)
Theorem frame_builders_agree segs b :
  ∃ b', BuildFrame segs b = Some b' ∧
    fb_frame_ b' = v_elems (frame_ (CreateFrame (message_new segs))).
Proof.
  rewrite CreateFrame_new. simpl. unfold BuildFrame, Init.
  pose proof (frame_size_eq (length segs)) as Hfs.
  assert (length (resize (frame_size (length segs)) 0%Z (fb_frame_ b)) = frame_size (length segs)) as Hl
    by apply length_resize.
  destruct (resize _ _ _) as [|y rest]; simpl in Hl; [lia|].
  change (store 0 ?x (y :: rest)) with (store (length (A := Z) []) x ([] ++ y :: rest)).
  rewrite store_at. simpl.
  pose proof (AddSegment_all segs [u32 (Z.of_nat (length segs) - 1)] rest ltac:(lia)) as Hall.
  simpl in Hall. rewrite Hall. unfold Finalize. simpl.
  unfold frame_of, padding. destruct (Nat.even (length segs)) eqn:He; simpl.
  - destruct (drop (length segs) rest) as [|z [|? ?]] eqn:Hd;
      apply (f_equal length) in Hd; rewrite length_drop in Hd; simpl in Hd; [lia| |lia].
    replace (length segs + 1) with
      (length (u32 (Z.of_nat (length segs) - 1) :: ((λ seg, u32 (segment_size seg)) <$> segs)))
      by (simpl; rewrite length_fmap; lia).
    rewrite app_comm_cons, store_at. eexists. by split.
  - eexists. split; [done|]. simpl. by rewrite drop_ge by lia.
Qed.

Module FrameDemo.
Definition segs : list (list Z) := [[1; 2; 3; 4; 5; 6; 7; 8]; replicate 16 7]%Z.

Example frame_of_two_segments :
  v_elems (frame_ (CreateFrame (message_new segs))) = [1; 1; 2; 0]%Z.
Proof. by vm_compute. Qed.

Lemma frame_roundtrip_witness :
  ∃ bytes, wire (CreateFrame (message_new segs)) = Some bytes ∧ decode bytes = Some segs ∧
    length bytes = 40.
Proof.
  destruct (frame_roundtrip segs ltac:(done) ltac:(by vm_compute)
    ltac:(repeat constructor; by vm_compute)) as [(bytes & Hw & Hd & _) _].
  exists bytes. split; [exact Hw|]. split; [exact Hd|].
  vm_compute in Hw. by injection Hw as <-.
Defined.
End FrameDemo.
