(* ===== verification/UrlEncode.v ===== *)
(** * Encoding of form values (src/Utils.hpp)

    [form_urlencode] escapes a value for a request's body.  [form_urldecode] is
    the reader's side of application/x-www-form-urlencoded, the reference that
    the encoding is checked against. *)

From S2P Require Import Prelude.
From Stdlib Require Import Ascii String.

(** The characters that stand for themselves. *)
Definition unreserved (c : ascii) : bool :=
  let n := nat_of_ascii c in
  (Nat.leb 65 n && Nat.leb n 90) || (Nat.leb 97 n && Nat.leb n 122) || (Nat.leb 48 n && Nat.leb n 57) ||
  existsb (Ascii.eqb c) ["-"; "_"; "."; "!"; "~"; "*"; "'"; "("; ")"]%char.

(** An upper-case hexadecimal digit. *)
Definition hex_digit (n : nat) : ascii := ascii_of_nat (if Nat.ltb n 10 then 48 + n else 55 + n).

Definition urlencode_char (c : ascii) : list ascii :=
  if Ascii.eqb c " " then ["+"]%char
  else if unreserved c then [c]
  else let n := nat_of_ascii c in ["%"%char; hex_digit (n / 16); hex_digit (n mod 16)].

Definition form_urlencode (src : list ascii) : list ascii := src ≫= urlencode_char.

Definition digit_value (c : ascii) : option nat :=
  let n := nat_of_ascii c in
  if Nat.leb 48 n && Nat.leb n 57 then Some (n - 48)
  else if Nat.leb 65 n && Nat.leb n 70 then Some (n - 55)
  else if Nat.leb 97 n && Nat.leb n 102 then Some (n - 87)
  else None.

(** [pending]: the escape that is being read. *)
Inductive escape := NoEscape | Percent | FirstDigit (n : nat).

Fixpoint decode_from (pending : escape) (l : list ascii) : option (list ascii) :=
  match pending, l with
  | NoEscape, [] => Some []
  | _, [] => None
  | NoEscape, c :: l =>
      if Ascii.eqb c "%" then decode_from Percent l
      else cons (if Ascii.eqb c "+" then " "%char else c) <$> decode_from NoEscape l
  | Percent, c :: l => n ← digit_value c; decode_from (FirstDigit n) l
  | FirstDigit n, c :: l =>
      k ← digit_value c; cons (ascii_of_nat (16 * n + k)) <$> decode_from NoEscape l
  end.

Definition form_urldecode (l : list ascii) : option (list ascii) := decode_from NoEscape l.

(** What an encoded value may contain. *)
Definition form_safe (c : ascii) : bool := unreserved c || Ascii.eqb c "+" || Ascii.eqb c "%".

(** One character, by cases over the 256 of them. *)
Definition char_decodes (c : ascii) : bool :=
  forallb form_safe (urlencode_char c) &&
  bool_decide (form_urldecode (urlencode_char c) = Some [c]).

Lemma all_chars (p : ascii → bool) :
  forallb (λ n, p (ascii_of_nat n)) (seq 0 256) = true → ∀ c, p c = true.
Proof.
  rewrite List.forallb_forall. intros Hp c. rewrite <-(ascii_nat_embedding c).
  apply Hp, in_seq. pose proof (nat_ascii_bounded c). lia.
Qed.

Lemma char_decodes_all c : char_decodes c = true.
Proof. revert c. apply all_chars. by vm_compute. Qed.

(** A complete code in front. *)
Lemma decode_from_app pending l1 l2 r :
  decode_from pending l1 = Some r → decode_from pending (l1 ++ l2) = app r <$> decode_from NoEscape l2.
Proof.
  revert pending r. induction l1 as [|c l1 IH]; intros pending r; simpl.
  - destruct pending; intros [= <-]. by destruct (decode_from NoEscape l2).
  - destruct pending as [| |n].
    + destruct (Ascii.eqb c "%"); [apply IH|].
      destruct (decode_from NoEscape l1) as [r'|] eqn:E; intros [= <-].
      rewrite (IH _ _ E). by destruct (decode_from NoEscape l2).
    + destruct (digit_value c); [apply IH|done].
    + destruct (digit_value c); [simpl|done].
      destruct (decode_from NoEscape l1) as [r'|] eqn:E; intros [= <-].
      rewrite (IH _ _ E). by destruct (decode_from NoEscape l2).
Qed.

(** An encoded value is read back as the value, whatever characters it
    holds, and consists of unreserved characters, plus signs and escapes only:
    no separator of a form or a header can be smuggled in. *)
Theorem form_urlencode_roundtrip src :
  form_urldecode (form_urlencode src) = Some src ∧ forallb form_safe (form_urlencode src) = true.
Proof.
  induction src as [|c src [IHd IHs]]; [done|].
  change (form_urlencode (c :: src)) with (urlencode_char c ++ form_urlencode src).
  pose proof (char_decodes_all c) as Hc. unfold char_decodes in Hc.
  apply andb_true_iff in Hc as [Hs Hd]. apply bool_decide_eq_true in Hd. split.
  - unfold form_urldecode in *. by rewrite (decode_from_app _ _ _ _ Hd), IHd.
  - by rewrite List.forallb_app, Hs, IHs.
Qed.
