(* ===== verification/Timer.v ===== *)
(** * The asio timer contract

    Turns, votes, recordings and the reconnect delay are driven by
    [boost::asio::steady_timer], which is not part of the repository.  The
    components are therefore written against the interface [SteadyTimer]: a
    timer has a deadline, a list of outstanding waits and a list of
    completion handlers that have been posted to the executor but have not
    run yet.  The laws state the documented behaviour: [expires_after] and
    [cancel] complete every outstanding wait with [operation_aborted], a
    deadline that passes completes every outstanding wait with success, and a
    handler that has already been posted can be neither cancelled nor
    re-labelled.  Handlers run in the order in which they were posted, which
    is what the strand guarantees. *)

From S2P Require Import Prelude.

(** The error code of a completion: the source only tests whether it is set. *)
Inductive error_code := success | operation_aborted.

#[export] Instance error_code_eq_dec : EqDecision error_code.
Proof. solve_decision. Defined.

Definition ec_is_error (ec : error_code) : bool :=
  match ec with success => false | operation_aborted => true end.

Class SteadyTimer (T : Type → Type) := {
  timer_new {H} : T H;
  expiry {H} : T H → Z;
  waits {H} : T H → list H;
  posted {H} : T H → list (H * error_code);
  expires_at {H} : Z → T H → T H;
  cancel {H} : T H → T H;
  async_wait {H} : H → T H → T H;
  elapse {H} : T H → T H;
  run_next {H} : T H → T H
}.

Definition abort_all {H} (l : list H) : list (H * error_code) :=
  (λ h, (h, operation_aborted)) <$> l.
Definition complete_all {H} (l : list H) : list (H * error_code) :=
  (λ h, (h, success)) <$> l.

(** [expires_after d] sets the deadline to [d] after the current time. *)
Definition expires_after `{SteadyTimer T} {H} (now d : Z) (t : T H) : T H :=
  expires_at (now + d)%Z t.

Class SteadyTimerLaws (T : Type → Type) `{SteadyTimer T} := {
  waits_new {H} : waits (timer_new : T H) = [];
  posted_new {H} : posted (timer_new : T H) = [];
  expiry_expires_at {H} z (t : T H) : expiry (expires_at z t) = z;
  waits_expires_at {H} z (t : T H) : waits (expires_at z t) = [];
  posted_expires_at {H} z (t : T H) :
    posted (expires_at z t) = posted t ++ abort_all (waits t);
  expiry_cancel {H} (t : T H) : expiry (cancel t) = expiry t;
  waits_cancel {H} (t : T H) : waits (cancel t) = [];
  posted_cancel {H} (t : T H) : posted (cancel t) = posted t ++ abort_all (waits t);
  expiry_async_wait {H} h (t : T H) : expiry (async_wait h t) = expiry t;
  waits_async_wait {H} h (t : T H) : waits (async_wait h t) = waits t ++ [h];
  posted_async_wait {H} h (t : T H) : posted (async_wait h t) = posted t;
  expiry_elapse {H} (t : T H) : expiry (elapse t) = expiry t;
  waits_elapse {H} (t : T H) : waits (elapse t) = [];
  posted_elapse {H} (t : T H) : posted (elapse t) = posted t ++ complete_all (waits t);
  expiry_run_next {H} (t : T H) : expiry (run_next t) = expiry t;
  waits_run_next {H} (t : T H) : waits (run_next t) = waits t;
  posted_run_next {H} (t : T H) : posted (run_next t) = tail (posted t)
}.

#[export] Hint Rewrite @waits_new @posted_new @expiry_expires_at @waits_expires_at
  @posted_expires_at @expiry_cancel @waits_cancel @posted_cancel @expiry_async_wait
  @waits_async_wait @posted_async_wait @expiry_elapse @waits_elapse @posted_elapse
  @expiry_run_next @waits_run_next @posted_run_next using typeclasses eauto : cvm.

(** A concrete timer, which shows that the laws can hold and lets the
    theorems be evaluated. *)
Record list_timer (H : Type) := ListTimer {
  lt_expiry : Z;
  lt_waits : list H;
  lt_posted : list (H * error_code)
}.
Arguments ListTimer {H}.
Arguments lt_expiry {H}.
Arguments lt_waits {H}.
Arguments lt_posted {H}.

#[export] Instance list_timer_ops : SteadyTimer list_timer := {
  timer_new H := ListTimer 0 [] [];
  expiry H := lt_expiry;
  waits H := lt_waits;
  posted H := lt_posted;
  expires_at H z t := ListTimer z [] (lt_posted t ++ abort_all (lt_waits t));
  cancel H t := ListTimer (lt_expiry t) [] (lt_posted t ++ abort_all (lt_waits t));
  async_wait H h t := ListTimer (lt_expiry t) (lt_waits t ++ [h]) (lt_posted t);
  elapse H t := ListTimer (lt_expiry t) [] (lt_posted t ++ complete_all (lt_waits t));
  run_next H t := ListTimer (lt_expiry t) (lt_waits t) (tail (lt_posted t))
}.

#[export] Instance list_timer_laws : SteadyTimerLaws list_timer.
Proof. by split. Qed.

(** Durations are integers counting nanoseconds, the unit of
    [std::chrono::steady_clock] in the toolchains the project supports;
    [duration_cast] to milliseconds truncates. *)
Definition ns_per_ms : Z := 1000000.
Definition ns_per_s : Z := 1000000000.
Definition cast_ms (ns : Z) : Z := Z.quot ns ns_per_ms.
Definition from_ms (ms : Z) : Z := (ms * ns_per_ms)%Z.
Definition from_s (s : Z) : Z := (s * ns_per_s)%Z.

Lemma cast_from_ms ms : cast_ms (from_ms ms) = ms.
Proof. unfold cast_ms, from_ms, ns_per_ms. apply Z.quot_mul. lia. Qed.

#[export] Hint Rewrite cast_from_ms : cvm.
