(* ===== verification/Strand.v ===== *)
(** * Strands and the objects they guard

    Source: StrandGuard.hpp.  Every object that several threads share is the
    private member [obj_] of a [StrandGuard], and a handler gets it from
    [dispatch], [post] or [wrap] only, which run the handler on the guard's
    strand.  Strands are Asio's: the class [Strand] states what they do, with
    an implementation.

    The workers of the program run handlers step by step and in any
    interleaving.  The theorem of this file is what the state machines of all
    other components rest on: a guarded object is used by one thread at a
    time, and changes as if its handlers had run one after the other. *)

From S2P Require Import Prelude.
From stdpp Require Import functions.

Abbreviation thread := nat (only parsing).

(** ** Asio's strands

    [waiting] are the queued handlers, [runner] the thread that is in the
    strand.  [may_run] is the decision of [boost::asio::dispatch]: [None] if the
    handler has to be queued, and otherwise whether the thread enters the
    strand (it does not when it is in it already) and the strand after that.
    [take] lets a thread run the first handler in the queue, and [leave] ends
    a thread's stay. *)
Class Strand (St : Type → Type) := {
  strand_new {H} : St H;
  waiting {H} : St H → list H;
  runner {H} : St H → option thread;
  enqueue {H} : H → St H → St H;
  may_run {H} : thread → St H → option (bool * St H);
  take {H} : thread → St H → option (H * St H);
  leave {H} : St H → St H
}.

Class StrandLaws (St : Type → Type) `{Strand St} := {
  waiting_new {H} : waiting (strand_new : St H) = [];
  runner_new {H} : runner (strand_new : St H) = None;
  waiting_enqueue {H} h (s : St H) : waiting (enqueue h s) = waiting s ++ [h];
  runner_enqueue {H} h (s : St H) : runner (enqueue h s) = runner s;
  (* [dispatch] runs the handler at once on a thread that is in the strand,
     and never while another one is *)
  may_run_inside {H} t (s : St H) : runner s = Some t → may_run t s = Some (false, s);
  may_run_enters {H} t (s s' : St H) : may_run t s = Some (true, s') →
    runner s = None ∧ runner s' = Some t ∧ waiting s' = waiting s;
  may_run_stays {H} t (s s' : St H) : may_run t s = Some (false, s') → runner s = Some t ∧ s' = s;
  (* a queued handler runs when nobody is in the strand, the oldest first *)
  take_first {H} t h q (s : St H) : runner s = None → waiting s = h :: q →
    ∃ s', take t s = Some (h, s') ∧ runner s' = Some t ∧ waiting s' = q;
  take_only {H} t h (s s' : St H) : take t s = Some (h, s') → runner s = None ∧ ∃ q, waiting s = h :: q;
  waiting_leave {H} (s : St H) : waiting (leave s) = waiting s;
  runner_leave {H} (s : St H) : runner (leave s) = None
}.

#[export] Hint Rewrite @waiting_new @runner_new @waiting_enqueue @runner_enqueue @waiting_leave
  @runner_leave using typeclasses eauto : cvm.

(** An implementation, which lets a thread enter an idle strand when nothing
    is queued there, as Asio's does. *)
Record list_strand (H : Type) := ListStrand { ls_waiting : list H; ls_runner : option thread }.
Arguments ListStrand {H}.
Arguments ls_waiting {H}.
Arguments ls_runner {H}.

#[export] Instance list_strand_ops : Strand list_strand := {
  strand_new H := ListStrand [] None;
  waiting H := ls_waiting;
  runner H := ls_runner;
  enqueue H h s := ListStrand (ls_waiting s ++ [h]) (ls_runner s);
  may_run H t s :=
    match ls_runner s, ls_waiting s with
    | Some t', _ => if decide (t = t') then Some (false, s) else None
    | None, [] => Some (true, ListStrand [] (Some t))
    | None, _ => None
    end;
  take H t s :=
    match ls_runner s, ls_waiting s with
    | None, h :: q => Some (h, ListStrand q (Some t))
    | _, _ => None
    end;
  leave H s := ListStrand (ls_waiting s) None
}.

#[export] Instance list_strand_laws : StrandLaws list_strand.
Proof.
  split; try done.
  - intros H t [q r]. cbn. intros ->. by rewrite decide_True.
  - intros H t [[|h q] [t'|]] s'; cbn; try case_decide; try done. by intros [= <-].
  - intros H t [[|h q] [t'|]] s'; cbn; try case_decide; try done; subst; by intros [= <-].
  - intros H t h q [q' r]. cbn. intros -> ->. by eexists.
  - intros H t h [[|h' q] [t'|]] s'; cbn; try done. intros [= <- <-]. split; [done|by exists q].
Qed.

(** ** Handlers

    What a handler does, step by step: a use of the object of the guard that
    it runs on, a [dispatch] or [post] to a guard (its own or another), the
    end.  A step that uses the object may depend on its value.  [Endless] is a
    handler that never gets to its end. *)
Inductive handler (O : Type) :=
| Return
| Access (f : O → O) (k : O → handler O)
| Dispatch (g : nat) (h k : handler O)
| Post (g : nat) (h k : handler O)
| Endless.
Arguments Return {O}.
Arguments Access {O}.
Arguments Dispatch {O}.
Arguments Post {O}.
Arguments Endless {O}.

(** What happens to the guarded objects; [Began] says whether the handler was
    queued. *)
Inductive event (O : Type) :=
| Posted (g : nat) (h : handler O)
| Began (t : thread) (g : nat) (h : handler O) (queued : bool)
| Accessed (t : thread) (g : nat) (f : O → O)
| Ended (t : thread) (g : nat).
Arguments Posted {O}.
Arguments Began {O}.
Arguments Accessed {O}.
Arguments Ended {O}.

Section Strand.
Context {St : Type → Type} `{StrandLaws St} {O : Type}.

(** ** The guard *)

Record StrandGuard := MkStrandGuard { strand_ : St (handler O); obj_ : O }.

Definition StrandGuard_new (obj : O) : StrandGuard := MkStrandGuard strand_new obj.

(** A thread's stack has the handlers that it runs, the innermost first;
    [frame_outer]: the thread leaves the strand when the handler returns. *)
Record frame := Frame { frame_guard : nat; frame_body : handler O; frame_outer : bool }.

(** The guards, the workers' stacks, and what has happened. *)
Record pool := Pool { guards : nat → StrandGuard; stacks : thread → list frame; trace : list (event O) }.

Definition set_strand (g : nat) (st : St (handler O)) (s : pool) : pool :=
  Pool (<[g := MkStrandGuard st (obj_ (guards s g))]> (guards s)) (stacks s) (trace s).
Definition set_obj (g : nat) (o : O) (s : pool) : pool :=
  Pool (<[g := MkStrandGuard (strand_ (guards s g)) o]> (guards s)) (stacks s) (trace s).
Definition set_stack (t : thread) (l : list frame) (s : pool) : pool :=
  Pool (guards s) (<[t := l]> (stacks s)) (trace s).
Definition log (e : event O) (s : pool) : pool := Pool (guards s) (stacks s) (trace s ++ [e]).

Definition running_in_this_thread (t : thread) (G : StrandGuard) : bool :=
  bool_decide (runner (strand_ G) = Some t).

Definition post (g : nat) (h : handler O) (s : pool) : pool :=
  log (Posted g h) (set_strand g (enqueue h (strand_ (guards s g))) s).

Definition dispatch (t : thread) (g : nat) (h : handler O) (s : pool) : pool :=
  match may_run t (strand_ (guards s g)) with
  | None => post g h s
  | Some (false, _) => set_stack t (Frame g h false :: stacks s t) s
  | Some (true, st) =>
      log (Began t g h false) (set_strand g st (set_stack t (Frame g h true :: stacks s t) s))
  end.

(** The result is what an asynchronous operation calls with its results; its
    executor is the guard's strand. *)
Definition wrap {A : Type} (g : nat) (h : A → handler O) : thread → A → pool → pool :=
  λ t args, dispatch t g (h args).

(** ** The workers *)

Inductive action :=
| Complete (t : thread) (g : nat) (h : handler O)     (* an operation that was given a wrapped handler *)
| Take (t : thread) (g : nat)                         (* a queued handler *)
| Step (t : thread).                                  (* the innermost handler goes on *)

Definition step_top (t : thread) (fr : frame) (rest : list frame) (s : pool) : pool :=
  let g := frame_guard fr in
  let go_on k := set_stack t (Frame g k (frame_outer fr) :: rest) s in
  match frame_body fr with
  | Return =>
      let s := set_stack t rest s in
      if frame_outer fr then log (Ended t g) (set_strand g (leave (strand_ (guards s g))) s) else s
  | Access f k =>
      let o := obj_ (guards s g) in
      log (Accessed t g f) (set_obj g (f o) (go_on (k o)))
  | Dispatch g' h k => dispatch t g' h (go_on k)
  | Post g' h k => post g' h (go_on k)
  | Endless => s
  end.

(** [workers] threads run the program; one without a handler waits for a
    completed operation or a queued handler. *)
Definition pool_exec (workers : nat) (a : action) (s : pool) : option pool :=
  match a with
  | Complete t g h =>
      if decide (t < workers) then match stacks s t with [] => Some (wrap g id t h s) | _ => None end else None
  | Take t g =>
      if decide (t < workers) then
        match stacks s t with
        | [] =>
            '(h, st) ← take t (strand_ (guards s g));
            Some (log (Began t g h true) (set_strand g st (set_stack t [Frame g h true] s)))
        | _ => None
        end
      else None
  | Step t => match stacks s t with fr :: rest => Some (step_top t fr rest s) | [] => None end
  end.

Fixpoint pool_run (workers : nat) (ops : list action) (s : pool) : option pool :=
  match ops with [] => Some s | a :: ops => s ← pool_exec workers a s; pool_run workers ops s end.

Definition pool_new (objects : nat → O) : pool := Pool (λ g, StrandGuard_new (objects g)) (λ _, []) [].

(** ** What is read off a run *)

(** Who is in the strand of [g]; [None] if the events are out of order: a
    thread comes in only when nobody is there, and only who is there uses the
    object and leaves. *)
Definition holder_step (g : nat) (cur : option thread) (e : event O) : option (option thread) :=
  match e with
  | Began t g' _ _ =>
      if decide (g = g') then match cur with None => Some (Some t) | Some _ => None end else Some cur
  | Accessed t g' _ =>
      if decide (g = g') then if decide (cur = Some t) then Some cur else None else Some cur
  | Ended t g' =>
      if decide (g = g') then if decide (cur = Some t) then Some None else None else Some cur
  | Posted _ _ => Some cur
  end.
Definition holder (g : nat) (l : list (event O)) : option (option thread) :=
  foldl (λ cur e, cur ← cur; holder_step g cur e) (Some None) l.

Definition uses (g : nat) (e : event O) : option (O → O) :=
  match e with Accessed _ g' f => if decide (g = g') then Some f else None | _ => None end.
Definition queued_on (g : nat) (e : event O) : option (handler O) :=
  match e with Posted g' h => if decide (g = g') then Some h else None | _ => None end.
Definition taken_on (g : nat) (e : event O) : option (handler O) :=
  match e with Began _ g' h true => if decide (g = g') then Some h else None | _ => None end.
Definition began_on (g : nat) (e : event O) : option (handler O) :=
  match e with Began _ g' h _ => if decide (g = g') then Some h else None | _ => None end.

Definition apply_all (l : list (O → O)) (o : O) : O := foldl (λ o f, f o) o l.

#[local] Arguments holder : simpl never.
#[local] Arguments apply_all : simpl never.

(** ** One handler after the other *)

(** [path]: the guards on which the calls wait that led to this handler of
    [g].  A handler calls its own guard or one that no call came from;
    what it posts starts anew. *)
Inductive no_callback : list nat → nat → handler O → Prop :=
| no_callback_return path g : no_callback path g Return
| no_callback_endless path g : no_callback path g Endless
| no_callback_access path g f k : (∀ o, no_callback path g (k o)) → no_callback path g (Access f k)
| no_callback_dispatch path g g' h k :
    g' = g ∨ g' ∉ path → no_callback (g :: path) g' h → no_callback path g k →
    no_callback path g (Dispatch g' h k)
| no_callback_post path g g' h k : no_callback [] g' h → no_callback path g k → no_callback path g (Post g' h k).

Lemma no_callback_mono path path' g h : path' ⊆ path → no_callback path g h → no_callback path' g h.
Proof.
  intros Hsub Hh. revert path' Hsub. induction Hh; intros path' Hsub; constructor; eauto.
  - naive_solver.
  - apply IHHh1. set_solver.
Qed.

(** The whole of a handler, as a function of the object of its guard. *)
Fixpoint effect (g : nat) (h : handler O) (o : O) : O :=
  match h with
  | Return | Endless => o
  | Access f k => effect g (k o) (f o)
  | Dispatch g' h k => effect g k (if decide (g = g') then effect g h o else o)
  | Post _ _ k => effect g k o
  end.

Definition frame_effect (g : nat) (o : O) (fr : frame) : O :=
  if decide (g = frame_guard fr) then effect g (frame_body fr) o else o.

(** ** Invariants *)

(** On a stack, the outermost frame of a guard is the one that leaves. *)
Fixpoint stack_ok (l : list frame) : Prop :=
  match l with
  | [] => True
  | fr :: rest =>
      (frame_outer fr = true ↔ frame_guard fr ∉ frame_guard <$> rest) ∧ stack_ok rest
  end.

(** Every handler on a stack keeps to the calls that led to it. *)
Fixpoint stack_calls (l : list frame) : Prop :=
  match l with
  | [] => True
  | fr :: rest => no_callback (frame_guard <$> rest) (frame_guard fr) (frame_body fr) ∧ stack_calls rest
  end.

Abbreviation runner_of g s := (runner (strand_ (guards s g))).
Abbreviation waiting_of g s := (waiting (strand_ (guards s g))).
Abbreviation in_stack g t s := (g ∈ frame_guard <$> stacks s t).

Record pool_inv (workers : nat) (objects : nat → O) (s : pool) : Prop := {
  pi_stack t : stack_ok (stacks s t);
  pi_runner t g : runner_of g s = Some t ↔ in_stack g t s;
  pi_idle t : workers ≤ t → stacks s t = [];
  pi_holder g : holder g (trace s) = Some (runner_of g s);
  pi_value g : obj_ (guards s g) = apply_all (omap (uses g) (trace s)) (objects g);
  pi_order g : omap (queued_on g) (trace s) = omap (taken_on g) (trace s) ++ waiting_of g s
}.

Record seq_inv (objects : nat → O) (s : pool) : Prop := {
  qi_calls t : stack_calls (stacks s t);
  qi_waiting g : Forall (no_callback [] g) (waiting_of g s);
  qi_value g :
    foldl (frame_effect g) (obj_ (guards s g)) (default [] (stacks s <$> runner_of g s)) =
    foldl (λ o h, effect g h o) (objects g) (omap (began_on g) (trace s))
}.

(** An update of a function, read back. *)
Lemma fn_insert_at {A : Type} (f : nat → A) i x j : (<[i := x]> f) j = if decide (i = j) then x else f j.
Proof. done. Qed.

Ltac fn_cases :=
  repeat (rewrite ?fn_insert_at in *; try case_decide; subst; cbn in *).

Lemma holder_snoc g l e : holder g (l ++ [e]) = cur ← holder g l; holder_step g cur e.
Proof. unfold holder. by rewrite foldl_app. Qed.

Lemma apply_all_snoc l f o : apply_all (l ++ [f]) o = f (apply_all l o).
Proof. unfold apply_all. by rewrite foldl_app. Qed.

(** A stack changes only in what its first handler has left to do. *)
Lemma go_on_inv workers objects t fr rest k s :
  pool_inv workers objects s → stacks s t = fr :: rest →
  pool_inv workers objects (set_stack t (Frame (frame_guard fr) k (frame_outer fr) :: rest) s).
Proof.
  intros [Hs Hr Hi Hh Hv Ho] Ht. split; cbn; try done.
  - intros t'. rewrite fn_insert_at. case_decide; [|done]. subst. specialize (Hs t'). by rewrite Ht in Hs.
  - intros t' g. rewrite fn_insert_at. case_decide; [|done]. subst. by rewrite Hr, Ht.
  - intros t' Hle. rewrite fn_insert_at. case_decide; [|by apply Hi]. subst. by rewrite (Hi _ Hle) in Ht.
Qed.

Lemma post_inv workers objects g h s : pool_inv workers objects s → pool_inv workers objects (post g h s).
Proof.
  intros [Hs Hr Hi Hh Hv Ho]. split; cbn; try done.
  - intros t g'. rewrite fn_insert_at. case_decide; subst; cbn; autorewrite with cvm; done.
  - intros g'. rewrite holder_snoc, Hh, fn_insert_at. case_decide; subst; cbn; by autorewrite with cvm.
  - intros g'. rewrite omap_app, fn_insert_at. cbn. rewrite app_nil_r, <-Hv. by case_decide; subst.
  - intros g'. rewrite !omap_app, Ho, fn_insert_at. cbn. rewrite app_nil_r.
    destruct (decide (g = g')) as [<-|Hne]; cbn.
    + rewrite decide_True by done. autorewrite with cvm. by rewrite <-app_assoc.
    + rewrite decide_False by congruence. by rewrite app_nil_r.
Qed.

(** A thread that is in the strand stacks another handler on its own. *)
Lemma nested_inv workers objects t g h s :
  runner_of g s = Some t → pool_inv workers objects s →
  pool_inv workers objects (set_stack t (Frame g h false :: stacks s t) s).
Proof.
  intros Hg [Hs Hr Hi Hh Hv Ho]. pose proof (proj1 (Hr t g) Hg) as Hin. split; cbn; try done.
  - intros t'. rewrite fn_insert_at. case_decide; [|done]. subst. cbn. split; [|done]. by split.
  - intros t' g'. rewrite fn_insert_at. case_decide; [|done]. subst. cbn. rewrite elem_of_cons, Hr. naive_solver.
  - intros t' Hle. rewrite fn_insert_at. case_decide; [|by apply Hi]. subst. by rewrite (Hi _ Hle) in Hin; inversion Hin.
Qed.

(** A thread that enters an idle strand. *)
Lemma enter_inv workers objects t g h (queued : bool) (st : St (handler O)) s :
  t < workers → runner_of g s = None → runner st = Some t →
  waiting_of g s = (if queued then [h] else []) ++ waiting st → pool_inv workers objects s →
  pool_inv workers objects
    (log (Began t g h queued) (set_strand g st (set_stack t (Frame g h true :: stacks s t) s))).
Proof.
  intros Ht Hg Hst Hw [Hs Hr Hi Hh Hv Ho].
  assert (∀ t', ¬ in_stack g t' s) as Hno by (intros t' Hin%Hr; congruence). split; cbn.
  - intros t'. rewrite fn_insert_at. case_decide; [|done]. subst. cbn. split; [|done]. split; [|done]. intros _. apply Hno.
  - intros t' g'. rewrite !fn_insert_at. destruct (decide (g = g')) as [<-|Hne]; cbn.
    + rewrite Hst. split; [intros [= <-]; rewrite decide_True by done; by left|].
      case_decide; [by subst|]. by intros ?%Hno.
    + rewrite Hr. case_decide; [|done]. subst. cbn. rewrite elem_of_cons. naive_solver.
  - intros t' Hle. rewrite fn_insert_at. rewrite decide_False by lia. by apply Hi.
  - intros g'. rewrite holder_snoc, Hh, fn_insert_at. cbn. destruct (decide (g = g')) as [<-|Hne]; cbn.
    + by rewrite Hg, decide_True, Hst by done.
    + by rewrite decide_False by congruence.
  - intros g'. rewrite omap_app, fn_insert_at. cbn. rewrite app_nil_r, <-Hv. by case_decide; subst.
  - intros g'. rewrite !omap_app, Ho, fn_insert_at. cbn. rewrite app_nil_r.
    destruct (decide (g = g')) as [<-|Hne]; cbn.
    + rewrite Hw. destruct queued; [rewrite decide_True by done; by rewrite <-app_assoc|by rewrite app_nil_r].
    + destruct queued; [rewrite decide_False by congruence|]; by rewrite app_nil_r.
Qed.

(** What [dispatch] does. *)
Lemma dispatch_cases t g h s :
  runner_of g s = Some t ∧ dispatch t g h s = set_stack t (Frame g h false :: stacks s t) s ∨
  runner_of g s ≠ Some t ∧ dispatch t g h s = post g h s ∨
  runner_of g s = None ∧ ∃ st : St (handler O), runner st = Some t ∧ waiting st = waiting_of g s ∧
    dispatch t g h s = log (Began t g h false) (set_strand g st (set_stack t (Frame g h true :: stacks s t) s)).
Proof.
  unfold dispatch. destruct (may_run t (strand_ (guards s g))) as [[[] st]|] eqn:Hm.
  - right. right. apply may_run_enters in Hm as (Hg & Hst & Hw). split; [done|]. by exists st.
  - left. apply may_run_stays in Hm as [Hg _]. done.
  - right. left. split; [|done]. intros Hg%may_run_inside. congruence.
Qed.

Lemma dispatch_inv workers objects t g h s :
  t < workers → pool_inv workers objects s → pool_inv workers objects (dispatch t g h s).
Proof.
  intros Ht Hi. destruct (dispatch_cases t g h s) as [[Hg ->]|[[_ ->]|(Hg & st & Hst & Hw & ->)]].
  - by apply nested_inv.
  - by apply post_inv.
  - by apply enter_inv.
Qed.

Lemma access_inv workers objects t g f s :
  runner_of g s = Some t → pool_inv workers objects s →
  pool_inv workers objects (log (Accessed t g f) (set_obj g (f (obj_ (guards s g))) s)).
Proof.
  intros Hg [Hs Hr Hi Hh Hv Ho]. split; cbn; try done.
  - intros t' g'. rewrite fn_insert_at, <-Hr. by case_decide; subst.
  - intros g'. rewrite holder_snoc, Hh, fn_insert_at. cbn. destruct (decide (g = g')) as [<-|Hne]; cbn.
    + by rewrite Hg, !decide_True by done.
    + by rewrite decide_False by congruence.
  - intros g'. rewrite omap_app, fn_insert_at. cbn. destruct (decide (g = g')) as [<-|Hne]; cbn.
    + by rewrite decide_True, apply_all_snoc, <-Hv by done.
    + by rewrite decide_False, app_nil_r, <-Hv by congruence.
  - intros g'. rewrite !omap_app, fn_insert_at. cbn. rewrite !app_nil_r, Ho. by case_decide; subst.
Qed.

Lemma return_inv workers objects t fr rest s :
  stacks s t = fr :: rest → frame_body fr = Return → pool_inv workers objects s →
  pool_inv workers objects (step_top t fr rest s).
Proof.
  intros Ht Hret [Hs Hr Hi Hh Hv Ho]. unfold step_top. rewrite Hret.
  pose proof (Hs t) as Hst. rewrite Ht in Hst. cbn in Hst. destruct Hst as [Hout Hst].
  assert (runner_of (frame_guard fr) s = Some t) as Hg by (apply Hr; rewrite Ht; by left).
  assert (∀ t', workers ≤ t' → (<[t:=rest]> (stacks s)) t' = []) as Hidle.
  { intros t' Hle. rewrite fn_insert_at. case_decide; [|by apply Hi]. subst. by rewrite (Hi _ Hle) in Ht. }
  assert (∀ t', stack_ok ((<[t:=rest]> (stacks s)) t')) as Hstacks
    by (intros t'; rewrite fn_insert_at; by case_decide).
  destruct (frame_outer fr); split; cbn; try done.
  - intros t' g. rewrite !fn_insert_at. destruct (decide (frame_guard fr = g)) as [<-|Hne]; cbn.
    + autorewrite with cvm. split; [done|]. case_decide; [by subst; intros ?%Hout|]. intros ?%Hr. congruence.
    + rewrite Hr. case_decide; [|done]. subst. rewrite Ht. cbn. rewrite elem_of_cons. naive_solver.
  - intros g. rewrite holder_snoc, Hh, fn_insert_at. cbn. destruct (decide (frame_guard fr = g)) as [<-|Hne]; cbn.
    + rewrite Hg, !decide_True by done. by autorewrite with cvm.
    + by rewrite decide_False by congruence.
  - intros g. rewrite omap_app, fn_insert_at. cbn. rewrite app_nil_r, <-Hv. by case_decide; subst.
  - intros g. rewrite !omap_app, fn_insert_at. cbn. rewrite !app_nil_r, Ho.
    case_decide; subst; cbn; by autorewrite with cvm.
  - intros t' g. rewrite fn_insert_at, Hr. case_decide; [|done]. subst. rewrite Ht. cbn. rewrite elem_of_cons.
    split; [|by right]. intros [->|]; [|done]. 
    destruct (decide (frame_guard fr ∈ frame_guard <$> rest)) as [|Hno]; [done|]. by apply Hout in Hno.
Qed.

Lemma step_inv workers objects t fr rest s :
  stacks s t = fr :: rest → pool_inv workers objects s → pool_inv workers objects (step_top t fr rest s).
Proof.
  intros Ht Hi. destruct (frame_body fr) as [|f k|g' h k|g' h k|] eqn:Hb; [by apply return_inv|..];
    unfold step_top; rewrite Hb; [..|done]; pose proof (λ k, go_on_inv _ _ _ _ _ k _ Hi Ht) as Hgo.
  - refine (access_inv workers objects t (frame_guard fr) f _ _ (Hgo _)). cbn.
    apply (pi_runner _ _ _ Hi). rewrite Ht. by left.
  - apply dispatch_inv, Hgo. destruct (decide (t < workers)) as [|Hle]; [done|].
    by rewrite (pi_idle _ _ _ Hi) in Ht by lia.
  - by apply post_inv.
Qed.

Lemma take_inv workers objects t g h (st : St (handler O)) s :
  t < workers → stacks s t = [] → take t (strand_ (guards s g)) = Some (h, st) → pool_inv workers objects s →
  runner_of g s = None ∧ waiting_of g s = h :: waiting st ∧ runner st = Some t ∧
  pool_inv workers objects (log (Began t g h true) (set_strand g st (set_stack t [Frame g h true] s))).
Proof.
  intros Ht Hst Htake Hi. pose proof (take_only _ _ _ _ Htake) as [Hg [q Hq]].
  destruct (take_first t h q _ Hg Hq) as (st' & Htake' & Hrun & Hw).
  rewrite Htake in Htake'. injection Htake' as <-. subst q. split_and!; [done..|].
  pose proof (enter_inv workers objects t g h true st s Ht Hg Hrun Hq Hi) as Hi'. by rewrite Hst in Hi'.
Qed.

Lemma pool_exec_inv workers objects a s s' :
  pool_inv workers objects s → pool_exec workers a s = Some s' → pool_inv workers objects s'.
Proof.
  intros Hi. destruct a as [t g h|t g|t]; cbn [pool_exec].
  - case_decide as Ht; [|done]. destruct (stacks s t); [|done]. intros [= <-]. by apply dispatch_inv.
  - case_decide as Ht; [|done]. destruct (stacks s t) eqn:Hst; [|done].
    destruct (take t _) as [[h st]|] eqn:Htake; [|done]. intros [= <-]. by eapply take_inv.
  - destruct (stacks s t) eqn:Hst; [done|]. intros [= <-]. by apply step_inv.
Qed.

Lemma pool_new_inv workers objects : pool_inv workers objects (pool_new objects).
Proof.
  split; cbn; try done; intros; autorewrite with cvm; try done. split; [done|]. by intros ?%not_elem_of_nil.
Qed.

(** *** One handler after the other *)

Definition calls_forward (a : action) : Prop :=
  match a with Complete _ g h => no_callback [] g h | _ => True end.

Lemma frames_elsewhere g l o : g ∉ frame_guard <$> l → foldl (frame_effect g) o l = o.
Proof.
  revert o. induction l as [|fr l IH]; intros o; cbn; [done|]. intros [Hne Hl]%not_elem_of_cons.
  unfold frame_effect at 2. rewrite decide_False by done. by apply IH.
Qed.

(** What has begun is not affected by the events of other kinds. *)
Lemma began_snoc g l e : began_on g e = None → omap (began_on g) (l ++ [e]) = omap (began_on g) l.
Proof. intros He. rewrite omap_app. cbn. by rewrite He, app_nil_r. Qed.

(** Thread [t]'s stack becomes [l], which has the same left to do. *)
Lemma seq_stack objects s s' t l :
  guards s' = guards s → trace s' = trace s → stacks s' t = l → (∀ t', t' ≠ t → stacks s' t' = stacks s t') →
  stack_calls l →
  (∀ g o, foldl (frame_effect g) o l = foldl (frame_effect g) o (stacks s t)) →
  seq_inv objects s → seq_inv objects s'.
Proof.
  intros Hg Htr Ht Ho Hl He [Hf Hw Hv].
  split; rewrite ?Hg, ?Htr; [|done|].
  - intros t'. destruct (decide (t' = t)) as [->|Hne]; [by rewrite Ht|by rewrite Ho].
  - intros g. rewrite <-Hv. destruct (runner_of g s) as [t'|]; [|done]. cbn.
    destruct (decide (t' = t)) as [->|Hne]; [by rewrite Ht|by rewrite Ho].
Qed.

Lemma post_seq objects g h s : no_callback [] g h → seq_inv objects s → seq_inv objects (post g h s).
Proof.
  intros Hh [Hf Hw Hv]. split; cbn; try done; intros g'; rewrite fn_insert_at.
  - case_decide; [|done]. subst. cbn. autorewrite with cvm. apply Forall_app. by rewrite Forall_singleton.
  - rewrite began_snoc by done. rewrite <-Hv. case_decide; [|done]. subst. cbn. by autorewrite with cvm.
Qed.

Lemma enter_seq workers objects t g h (queued : bool) (st : St (handler O)) s :
  pool_inv workers objects s → no_callback (frame_guard <$> stacks s t) g h →
  runner_of g s = None → runner st = Some t → waiting_of g s = (if queued then [h] else []) ++ waiting st →
  seq_inv objects s →
  seq_inv objects (log (Began t g h queued) (set_strand g st (set_stack t (Frame g h true :: stacks s t) s))).
Proof.
  intros Hi Hh Hg Hst Hq [Hf Hw Hv]. split; cbn.
  - intros t'. rewrite fn_insert_at. case_decide; [|done]. by subst.
  - intros g'. rewrite fn_insert_at. case_decide; [|done]. subst. cbn. specialize (Hw g'). rewrite Hq in Hw.
    by apply Forall_app in Hw as [_ ?].
  - intros g'. rewrite omap_app, foldl_app, <-Hv, fn_insert_at. cbn. destruct (decide (g = g')) as [<-|Hne]; cbn.
    + rewrite Hst, Hg, decide_True by done. cbn. rewrite fn_insert_at, decide_True by done. cbn.
      unfold frame_effect at 2. cbn. rewrite decide_True by done. apply frames_elsewhere.
      intros Hin%(pi_runner _ _ _ Hi). congruence.
    + rewrite decide_False by congruence. cbn. destruct (runner_of g' s) as [t'|]; [|done]. cbn.
      rewrite fn_insert_at. case_decide; [|done]. subst. cbn. unfold frame_effect at 2. cbn.
      by rewrite decide_False by congruence.
Qed.

Lemma leave_seq objects t g s :
  runner_of g s = Some t → ¬ in_stack g t s → seq_inv objects s →
  seq_inv objects (log (Ended t g) (set_strand g (leave (strand_ (guards s g))) s)).
Proof.
  intros Hg Hno [Hf Hw Hv]. split; cbn; try done; intros g'; rewrite fn_insert_at.
  - case_decide; [|done]. subst. cbn. by autorewrite with cvm.
  - rewrite began_snoc by done. rewrite <-Hv. case_decide; [|done]. subst. cbn. autorewrite with cvm. cbn.
    rewrite Hg. cbn. by rewrite frames_elsewhere.
Qed.

Lemma access_seq objects t fr rest f k s :
  stacks s t = fr :: rest → frame_body fr = Access f k → runner_of (frame_guard fr) s = Some t →
  seq_inv objects s → seq_inv objects (step_top t fr rest s).
Proof.
  intros Ht Hb Hg [Hf Hw Hv]. unfold step_top. rewrite Hb.
  pose proof (Hf t) as Hft. rewrite Ht in Hft. destruct Hft as [Hl Hrest]. rewrite Hb in Hl.
  inversion Hl as [| |? ? ? ? Hk| |]. subst. split; cbn.
  - intros t'. rewrite fn_insert_at. case_decide; [|done]. subst. split; [apply Hk|done].
  - intros g. rewrite fn_insert_at. by case_decide; subst.
  - intros g. rewrite began_snoc by done. rewrite <-Hv, fn_insert_at.
    destruct (decide (frame_guard fr = g)) as [<-|Hne]; cbn.
    + rewrite Hg. cbn. rewrite fn_insert_at, decide_True, Ht by done. cbn. unfold frame_effect at 2 4. cbn.
      by rewrite !decide_True, Hb by done.
    + destruct (runner_of g s) as [t'|]; [|done]. cbn. rewrite fn_insert_at. case_decide; [|done]. subst.
      rewrite Ht. cbn. unfold frame_effect at 2 4. cbn. by rewrite !decide_False by congruence.
Qed.

(** A step of the innermost handler, where it only calls or ends. *)
Lemma go_on_seq objects t fr rest k s :
  stacks s t = fr :: rest → no_callback (frame_guard <$> rest) (frame_guard fr) k →
  (∀ o, effect (frame_guard fr) (frame_body fr) o = effect (frame_guard fr) k o) → seq_inv objects s →
  seq_inv objects (set_stack t (Frame (frame_guard fr) k (frame_outer fr) :: rest) s).
Proof.
  intros Ht Hk He Hq. pose proof (qi_calls _ _ Hq t) as Hft. rewrite Ht in Hft. destruct Hft as [_ Hrest].
  eapply (seq_stack objects s _ t); [done|done| | | | |done]; cbn.
  - by rewrite fn_insert_at, decide_True.
  - intros t' Hne. by rewrite fn_insert_at, decide_False by done.
  - done.
  - intros g o. rewrite Ht. cbn. unfold frame_effect at 2 4. cbn. case_decide; [|done]. subst. by rewrite He.
Qed.

Lemma dispatch_seq workers objects t fr rest g' h k s :
  stacks s t = fr :: rest → frame_body fr = Dispatch g' h k → runner_of (frame_guard fr) s = Some t →
  pool_inv workers objects s → seq_inv objects s → seq_inv objects (step_top t fr rest s).
Proof.
  intros Ht Hb Hg Hi Hq. unfold step_top. rewrite Hb. set (s1 := set_stack t _ s).
  pose proof (qi_calls _ _ Hq t) as Hft. rewrite Ht in Hft. destruct Hft as [Hl Hrest]. rewrite Hb in Hl.
  inversion Hl as [| | |? ? ? ? ? Hto Hh Hk|]. subst.
  assert (pool_inv workers objects s1) as Hi1 by by apply go_on_inv.
  assert (stacks s1 t = Frame (frame_guard fr) k (frame_outer fr) :: rest) as Ht1
    by (cbn; by rewrite fn_insert_at, decide_True).
  destruct (dispatch_cases t g' h s1) as [[Hg' ->]|[[Hg' ->]|(Hg' & st & Hrun & Hw & ->)]].
  - (* its own guard *)
    assert (g' = frame_guard fr) as ->.
    { apply (pi_runner _ _ _ Hi1) in Hg'. rewrite Ht1 in Hg'. by apply elem_of_cons in Hg' as [|Hin]; [|destruct Hto]. }
    eapply (seq_stack objects s _ t); [done|done| | | | |done]; cbn.
    + by rewrite fn_insert_at, decide_True.
    + intros t' Hne. by rewrite !fn_insert_at, !decide_False by done.
    + rewrite fn_insert_at, decide_True by done. by split_and!.
    + intros g o. rewrite Ht, fn_insert_at, decide_True by done. cbn. unfold frame_effect at 2 3 5. cbn.
      destruct (decide (g = frame_guard fr)) as [->|]; [|done]. rewrite Hb. cbn. by rewrite decide_True.
  - apply post_seq; [eapply no_callback_mono, Hh; set_solver|]. apply go_on_seq; try done. intros o. rewrite Hb. cbn.
    rewrite decide_False; [done|]. intros <-. by apply Hg'.
  - apply (enter_seq workers); try done.
    + by rewrite Ht1.
    + apply go_on_seq; try done. intros o. rewrite Hb. cbn. rewrite decide_False; [done|]. intros <-. cbn in Hg'. congruence.
Qed.

Lemma return_seq workers objects t fr rest s :
  stacks s t = fr :: rest → frame_body fr = Return → runner_of (frame_guard fr) s = Some t →
  pool_inv workers objects s → seq_inv objects s → seq_inv objects (step_top t fr rest s).
Proof.
  intros Ht Hb Hg Hi Hq. unfold step_top. rewrite Hb.
  assert (seq_inv objects (set_stack t rest s)) as Hq1.
  { pose proof (qi_calls _ _ Hq t) as Hft. rewrite Ht in Hft. destruct Hft as [_ Hrest].
    apply (seq_stack objects s _ t rest); try done; cbn.
    - by rewrite fn_insert_at, decide_True.
    - intros t' Hne. by rewrite fn_insert_at, decide_False by done.
    - intros g o. rewrite Ht. cbn. unfold frame_effect at 3. rewrite Hb. cbn. by case_decide. }
  destruct (frame_outer fr) eqn:Ho; [|done].
  change (guards s (frame_guard fr)) with (guards (set_stack t rest s) (frame_guard fr)).
  apply (leave_seq objects t); [done| |done]. cbn. rewrite fn_insert_at, decide_True by done.
  pose proof (pi_stack _ _ _ Hi t) as Hst. rewrite Ht in Hst. by apply Hst.
Qed.

Lemma pool_exec_seq workers objects a s s' :
  calls_forward a → pool_inv workers objects s → seq_inv objects s →
  pool_exec workers a s = Some s' → seq_inv objects s'.
Proof.
  intros Ha Hi Hq. destruct a as [t g h|t g|t]; cbn [pool_exec].
  - case_decide as Ht; [|done]. destruct (stacks s t) eqn:Hst; [|done]. intros [= <-]. unfold wrap.
    destruct (dispatch_cases t g (id h) s) as [[Hg ->]|[[_ ->]|(Hg & st & Hrun & Hw & ->)]].
    + apply (pi_runner _ _ _ Hi) in Hg. rewrite Hst in Hg. inversion Hg.
    + by apply post_seq.
    + apply (enter_seq workers); try done. by rewrite Hst.
  - case_decide as Ht; [|done]. destruct (stacks s t) eqn:Hst; [|done].
    destruct (take t _) as [[h st]|] eqn:Htake; [|done]. intros [= <-].
    destruct (take_inv workers objects t g h st s Ht Hst Htake Hi) as (Hg & Hw & Hrun & _).
    pose proof (qi_waiting _ _ Hq g) as Hlw. rewrite Hw in Hlw. apply Forall_cons_1 in Hlw as [Hl _].
    rewrite <-Hst. apply (enter_seq workers); try done. by rewrite Hst.
  - destruct (stacks s t) as [|fr rest] eqn:Hst; [done|]. intros [= <-].
    assert (runner_of (frame_guard fr) s = Some t) as Hg by (apply (pi_runner _ _ _ Hi); rewrite Hst; by left).
    destruct (frame_body fr) eqn:Hb; [by eapply return_seq|by eapply access_seq|by eapply dispatch_seq| |].
    2:{ unfold step_top. by rewrite Hb. }
    unfold step_top. rewrite Hb. pose proof (qi_calls _ _ Hq t) as Hft. rewrite Hst in Hft.
    destruct Hft as [Hl _]. rewrite Hb in Hl. inversion Hl. subst. apply post_seq; [done|]. apply go_on_seq; try done. intros o. by rewrite Hb.
Qed.

(** ** Termination

    What is left to do: a handler that runs, or one that is queued and of
    which a thread makes a running one.  Each step replaces one item by
    smaller ones. *)
Inductive item := Running (h : handler O) | Queued (h : handler O).

Inductive less_work : item → item → Prop :=
| less_taken h : less_work (Running h) (Queued h)
| less_access f k o : less_work (Running (k o)) (Running (Access f k))
| less_dispatch g h k : less_work (Running k) (Running (Dispatch g h k))
| less_dispatched g h k : less_work (Running h) (Running (Dispatch g h k))
| less_dispatch_queued g h k : less_work (Queued h) (Running (Dispatch g h k))
| less_post g h k : less_work (Running k) (Running (Post g h k))
| less_posted g h k : less_work (Queued h) (Running (Post g h k))
| less_never : less_work (Running Endless) (Running Endless).
#[local] Hint Constructors less_work : core.

Lemma queued_acc h : Acc less_work (Running h) → Acc less_work (Queued h).
Proof. intros Ha. constructor. intros y Hy. by inversion Hy. Qed.

(** The handler, and all that it calls or posts, gets to its end. *)
Inductive ends : handler O → Prop :=
| ends_return : ends Return
| ends_access f k : (∀ o, ends (k o)) → ends (Access f k)
| ends_dispatch g h k : ends h → ends k → ends (Dispatch g h k)
| ends_post g h k : ends h → ends k → ends (Post g h k).

Lemma ends_acc h : ends h → Acc less_work (Running h).
Proof.
  induction 1; constructor; intros y Hy; inversion Hy; subst; by try apply queued_acc.
Qed.

Definition on_guard (g : nat) (p : nat * handler O) : option (handler O) :=
  if decide (g = p.1) then Some p.2 else None.

Definition running_items (l : list frame) : list item := Running ∘ frame_body <$> l.
Definition stack_items (workers : nat) (st : thread → list frame) : list item :=
  seq 0 workers ≫= λ t, running_items (st t).

(** [l] is what is left to do, in any order. *)
Definition items (workers : nat) (s : pool) (l : list item) : Prop :=
  ∃ q, (∀ g, omap (on_guard g) q = waiting_of g s) ∧ l ≡ₚ stack_items workers (stacks s) ++ (Queued ∘ snd <$> q).

Lemma bind_ext {A B} (f g : A → list B) l : (∀ x, x ∈ l → f x = g x) → l ≫= f = l ≫= g.
Proof. intros Hl. by apply Forall_bind_ext, list.Forall_forall. Qed.

Lemma stack_items_at workers st t :
  t < workers → ∃ rest, ∀ st', (∀ t', t' ≠ t → st' t' = st t') →
    stack_items workers st' ≡ₚ running_items (st' t) ++ rest.
Proof.
  intros Ht. unfold stack_items. replace workers with (t + S (workers - S t)) by lia.
  exists ((seq 0 t ≫= λ t, running_items (st t)) ++ (seq (S t) (workers - S t) ≫= λ t, running_items (st t))).
  intros st' Ho. rewrite seq_app, bind_app. cbn [seq mbind list_bind]. cbn [Nat.add].
  rewrite Permutation_app_swap_app. f_equiv. f_equiv; (erewrite bind_ext; [done|]);
    intros t' Hin%elem_of_seq; by rewrite Ho by lia.
Qed.

(** A thread's handlers are replaced. *)
Lemma items_stack workers t s l :
  t < workers → items workers s l → ∃ rest, l ≡ₚ running_items (stacks s t) ++ rest ∧
    ∀ s', (∀ g, waiting_of g s' = waiting_of g s) → (∀ t', t' ≠ t → stacks s' t' = stacks s t') →
      items workers s' (running_items (stacks s' t) ++ rest).
Proof.
  intros Ht (q & Hq & Hl). destruct (stack_items_at workers (stacks s) t Ht) as [rest Hrest].
  exists (rest ++ (Queued ∘ snd <$> q)). split; [by rewrite Hl, (Hrest _ (λ _ _, eq_refl)), (assoc_L (++))|].
  intros s' Hw Ho. exists q. split; [intros g; by rewrite Hw|]. by rewrite (Hrest _ Ho), (assoc_L (++)).
Qed.

Lemma items_perm workers s l l' : l ≡ₚ l' → items workers s l → items workers s l'.
Proof. intros Hp (q & Hq & Hl). exists q. by rewrite <-Hp. Qed.

Lemma items_post workers g h s l : items workers s l → items workers (post g h s) (Queued h :: l).
Proof.
  intros (q & Hq & Hl). exists (q ++ [(g, h)]). split.
  - intros g'. rewrite omap_app, Hq. cbn. rewrite fn_insert_at. unfold on_guard. cbn.
    destruct (decide (g = g')) as [<-|Hne]; cbn.
    + rewrite decide_True by done. by autorewrite with cvm.
    + rewrite decide_False by congruence. by rewrite app_nil_r.
  - rewrite fmap_app. cbn. rewrite Hl, (assoc_L (++)). apply Permutation_cons_append.
Qed.

(** The oldest handler of a guard is taken out of its queue. *)
Lemma queue_split g h w q :
  omap (on_guard g) q = h :: w → ∃ q1 q2, q = q1 ++ (g, h) :: q2 ∧ omap (on_guard g) (q1 ++ q2) = w.
Proof.
  induction q as [|[g' h'] q IH]; cbn; [done|]. unfold on_guard at 1. cbn.
  destruct (decide (g = g')) as [<-|Hne].
  - intros [= -> <-]. by exists [], q.
  - intros (q1 & q2 & -> & Hw)%IH. exists ((g', h') :: q1), q2. split; [done|]. cbn. unfold on_guard at 1. cbn.
    by rewrite decide_False.
Qed.

Lemma items_take workers g h w s l :
  waiting_of g s = h :: w → items workers s l → ∃ l0, l ≡ₚ Queued h :: l0 ∧
    ∀ s', waiting_of g s' = w → (∀ g', g' ≠ g → waiting_of g' s' = waiting_of g' s) →
      (∀ t, stacks s' t = stacks s t) → items workers s' l0.
Proof.
  intros Hg (q & Hq & Hl). pose proof (Hq g) as Hqg. rewrite Hg in Hqg.
  apply queue_split in Hqg as (q1 & q2 & -> & Hw). exists (stack_items workers (stacks s) ++ (Queued ∘ snd <$> q1 ++ q2)).
  split.
  - rewrite Hl, !fmap_app. cbn. rewrite !(assoc_L (++)). by rewrite <-Permutation_middle.
  - intros s' Hw' Ho Hst. exists (q1 ++ q2). split.
    + intros g'. destruct (decide (g' = g)) as [->|Hne]; [by rewrite Hw, Hw'|]. rewrite Ho, <-Hq by done.
      rewrite !omap_app. cbn. unfold on_guard at 4. cbn. by rewrite decide_False.
    + f_equiv. unfold stack_items. erewrite bind_ext; [done|]. intros t _. cbn. by rewrite Hst.
Qed.

(** Thread [t] starts or replaces its innermost handler. *)
Lemma items_push workers t fr s s' l :
  t < workers → items workers s l → (∀ g, waiting_of g s' = waiting_of g s) →
  stacks s' t = fr :: stacks s t → (∀ t', t' ≠ t → stacks s' t' = stacks s t') →
  items workers s' (Running (frame_body fr) :: l).
Proof.
  intros Ht Hl Hw Hst Ho. destruct (items_stack workers t s l Ht Hl) as (rest & Hp & Hs).
  eapply items_perm; [|by apply Hs]. by rewrite Hst, Hp.
Qed.

Lemma items_pop workers t fr rest s l :
  t < workers → stacks s t = fr :: rest → items workers s l → ∃ l0, l ≡ₚ Running (frame_body fr) :: l0 ∧
    items workers (set_stack t rest s) l0 ∧
    ∀ k, items workers (set_stack t (Frame (frame_guard fr) k (frame_outer fr) :: rest) s) (Running k :: l0).
Proof.
  intros Ht Hst Hl. destruct (items_stack workers t s l Ht Hl) as (r & Hp & Hs).
  exists (running_items rest ++ r). split; [by rewrite Hp, Hst|].
  assert (∀ st, items workers (set_stack t st s) (running_items st ++ r)) as Hset.
  { intros st. eapply items_perm; [|apply (Hs (set_stack t st s)); [done|]].
    - cbn [stacks set_stack]. by rewrite fn_insert_at, decide_True.
    - intros t' Hne. cbn. by rewrite fn_insert_at, decide_False by done. }
  split; [apply Hset|]. intros k. apply (Hset (Frame _ k _ :: rest)).
Qed.

(** A call turns into a running or a queued handler. *)
Lemma dispatch_items workers t g h s l :
  t < workers → items workers s l → ∃ i, items workers (dispatch t g h s) (i :: l) ∧ (i = Running h ∨ i = Queued h).
Proof.
  intros Ht Hl. destruct (dispatch_cases t g h s) as [[Hg ->]|[[_ ->]|(Hg & st & Hrun & Hw & ->)]].
  2:{ exists (Queued h). split; [by apply items_post|by right]. }
  1: exists (Running h); split; [apply (items_push workers t (Frame g h false) s); try done|by left].
  3: exists (Running h); split; [apply (items_push workers t (Frame g h true) s); try done|by left].
  3: intros g'; cbn; rewrite fn_insert_at; by case_decide; subst.
  all: try intros t' Hne; cbn; rewrite fn_insert_at; by rewrite ?decide_True, ?decide_False by done.
Qed.

(** The program goes on without the outside. *)
Definition internal (a : action) : Prop := match a with Complete _ _ _ => False | _ => True end.

Lemma step_items workers t fr rest s l :
  t < workers → stacks s t = fr :: rest → items workers s l →
  ∃ l', items workers (step_top t fr rest s) l' ∧ replaced less_work l' l.
Proof.
  intros Ht Hst Hl. destruct (items_pop workers t fr rest s l Ht Hst Hl) as (l0 & Hp & Hend & Hgo).
  assert (∀ xs, Forall (λ y, less_work y (Running (frame_body fr))) xs → replaced less_work (xs ++ l0) l) as Hrep
    by (intros xs ?; by exists (Running (frame_body fr)), xs, l0).
  unfold step_top. destruct (frame_body fr) as [|f k|g' h k|g' h k|] eqn:Hb.
  - exists l0. split; [|by apply (Hrep [])]. destruct (frame_outer fr); [|done].
    destruct Hend as (q & Hq & Hl0). exists q. split; [|done]. intros g. rewrite Hq. cbn. rewrite fn_insert_at.
    case_decide; [|done]. subst. cbn. by autorewrite with cvm.
  - exists (Running (k (obj_ (guards s (frame_guard fr)))) :: l0). split; [|apply (Hrep [Running (k _)]); auto].
    destruct (Hgo (k (obj_ (guards s (frame_guard fr))))) as (q & Hq & Hl0). exists q. split; [|done].
    intros g. rewrite Hq. cbn. rewrite fn_insert_at. by case_decide; subst.
  - destruct (dispatch_items workers t g' h _ _ Ht (Hgo k)) as (i & Hi & Hc). exists (i :: Running k :: l0).
    split; [done|]. apply (Hrep [i; Running k]). destruct Hc as [-> | ->]; auto.
  - exists (Queued h :: Running k :: l0). split; [by apply items_post|]. apply (Hrep [Queued h; Running k]); auto.
  - exists l. split; [done|]. exists (Running Endless), [Running Endless], l0. split_and!; auto.
Qed.

Lemma internal_items workers objects a s s' l :
  internal a → pool_inv workers objects s → pool_exec workers a s = Some s' → items workers s l →
  ∃ l', items workers s' l' ∧ replaced less_work l' l.
Proof.
  intros Ha Hi Hx Hl. destruct a as [t g h|t g|t]; cbn [pool_exec] in Hx; [done|..].
  - case_decide as Ht; [|done]. destruct (stacks s t) eqn:Hst; [|done].
    destruct (take t _) as [[h st]|] eqn:Htake; [|done]. injection Hx as <-.
    destruct (take_inv workers objects t g h st s Ht Hst Htake Hi) as (_ & Hw & _).
    destruct (items_take workers g h (waiting st) s l Hw Hl) as (l0 & Hp & Htk).
    exists (Running h :: l0). split; [|exists (Queued h), [Running h], l0; split_and!; auto].
    set (s1 := Pool (<[g := MkStrandGuard st (obj_ (guards s g))]> (guards s)) (stacks s) (trace s)).
    assert (items workers s1 l0) as Hl1.
    { apply Htk; [|intros g' Hne|done]; cbn; rewrite fn_insert_at; [by rewrite decide_True|by rewrite decide_False]. }
    apply (items_push workers t (Frame g h true) s1); try done; cbn.
    + by rewrite fn_insert_at, decide_True, Hst.
    + intros t' Hne. by rewrite fn_insert_at, decide_False.
  - destruct (stacks s t) as [|fr rest] eqn:Hst; [done|]. injection Hx as <-. apply step_items; try done.
    destruct (decide (t < workers)) as [|Hle]; [done|]. by rewrite (pi_idle _ _ _ Hi) in Hst by lia.
Qed.

(** A run without new completions is finite when what is left to do ends. *)
Lemma runs_end workers objects s l :
  pool_inv workers objects s → items workers s l → Forall (Acc less_work) l →
  Acc (λ s' s, ∃ a, internal a ∧ pool_exec workers a s = Some s') s.
Proof.
  intros Hi Hl Ha%replaced_acc. revert s Hi Hl.
  induction Ha as [l _ IH]. intros s Hi Hl. constructor. intros s' (a & Ha & Hx).
  destruct (internal_items workers objects a s s' l Ha Hi Hx Hl) as (l' & Hl' & Hr).
  apply (IH l' Hr); [by eapply pool_exec_inv|done].
Qed.

Definition action_ends (a : action) : Prop :=
  match a with Complete _ _ h => ends h | _ => True end.

Lemma exec_items workers objects a s s' l :
  action_ends a → pool_inv workers objects s → pool_exec workers a s = Some s' →
  items workers s l → Forall (Acc less_work) l → ∃ l', items workers s' l' ∧ Forall (Acc less_work) l'.
Proof.
  intros He Hi Hx Hl Ha. assert (internal a → ∃ l', items workers s' l' ∧ Forall (Acc less_work) l') as Hint.
  { intros Hint. destruct (internal_items workers objects a s s' l Hint Hi Hx Hl) as (l' & Hl' & Hr).
    exists l'. split; [done|]. by eapply replaced_Forall. }
  destruct a as [t g h|t g|t]; [|by apply Hint..].
  cbn in Hx. case_decide; [|done]. destruct (stacks s t); [|done]. injection Hx as <-.
  destruct (dispatch_items workers t g (id h) s l) as (i & Hi' & Hc); [done..|].
  exists (i :: l). split; [done|]. apply list.Forall_cons_2; [|done].
  destruct Hc as [-> | ->]; [|apply queued_acc]; by apply ends_acc.
Qed.

Lemma pool_run_inv workers objects ops s s' :
  pool_run workers ops s = Some s' → pool_inv workers objects s →
  pool_inv workers objects s' ∧
  (Forall action_ends ops → ∀ l, items workers s l → Forall (Acc less_work) l →
    ∃ l', items workers s' l' ∧ Forall (Acc less_work) l') ∧
  (Forall calls_forward ops → seq_inv objects s → seq_inv objects s').
Proof.
  revert s. induction ops as [|a ops IH]; intros s; cbn [pool_run]; [intros [= <-]; eauto|].
  destruct (pool_exec workers a s) as [s1|] eqn:Hx; [|done]. cbn [mbind option_bind]. intros Hr Hi.
  destruct (IH s1 Hr) as (Hi' & Hl' & Hq'); [by eapply pool_exec_inv|]. split_and!; [done|..].
  - intros [He Hes]%Forall_cons_1 l Hl Ha.
    destruct (exec_items workers objects a s s1 l He Hi Hx Hl Ha) as (l1 & Hl1 & Ha1). by eapply Hl'.
  - intros [Ha Hops]%Forall_cons_1 Hq. apply Hq'; [done|]. by apply (pool_exec_seq workers objects a s s1).
Qed.

Lemma pool_new_seq objects : seq_inv objects (pool_new objects).
Proof. split; cbn; intros; autorewrite with cvm; cbn; by try constructor. Qed.

Lemma pool_new_items workers objects : items workers (pool_new objects) [].
Proof.
  exists []. split; [intros g; cbn; by autorewrite with cvm|]. cbn. unfold stack_items. cbn.
  induction (seq 0 workers); done.
Qed.

(** When nothing can be done, nothing is left to do. *)
Lemma stuck_is_done workers objects s :
  0 < workers → pool_inv workers objects s → (∀ a, internal a → pool_exec workers a s = None) →
  ∀ g, runner_of g s = None ∧ waiting_of g s = [].
Proof.
  intros Hn Hi Hno g. assert (∀ t, stacks s t = []) as Hst.
  { intros t. specialize (Hno (Step t) I). cbn in Hno. by destruct (stacks s t). }
  assert (runner_of g s = None) as Hg.
  { destruct (runner_of g s) as [t|] eqn:Hr; [|done]. apply (pi_runner _ _ _ Hi) in Hr. rewrite Hst in Hr. inversion Hr. }
  split; [done|]. destruct (waiting_of g s) as [|h q] eqn:Hw; [done|].
  destruct (take_first 0 h q _ Hg Hw) as (st & Ht & _). specialize (Hno (Take 0 g) I). cbn in Hno.
  by rewrite decide_True, Hst, Ht in Hno by done.
Qed.

(** C8: guarded objects are changed by one handler after the other, and
    nothing that is posted is forgotten.  However the workers interleave the
    steps of the handlers, and whatever operations complete: if no handler
    calls back, within the call, to another guard that it came from, then
    whenever nobody is in a guard's strand its object is what the handlers that
    ran there make of it one after the other, each as a whole - which is how
    the components of this development are modelled.  In every case a thread
    comes into a strand only when nobody is in it, and only the thread that is
    there uses the object; the object's value is that of the uses in their
    order; and the handlers that were posted are run once each, in the order
    of posting.  The workers stop only when every handler has run to its end,
    and they do stop if every handler that came in gets to its end and no
    further operation completes. *)
Theorem guards_serial workers (objects : nat → O) ops s :
  0 < workers → pool_run workers ops (pool_new objects) = Some s →
  (Forall calls_forward ops → ∀ g, runner_of g s = None →
   obj_ (guards s g) = foldl (λ o h, effect g h o) (objects g) (omap (began_on g) (trace s))) ∧
  (∀ g, holder g (trace s) = Some (runner_of g s)) ∧
  (∀ g, obj_ (guards s g) = apply_all (omap (uses g) (trace s)) (objects g)) ∧
  (∀ g, omap (queued_on g) (trace s) = omap (taken_on g) (trace s) ++ waiting_of g s) ∧
  ((∀ a, internal a → pool_exec workers a s = None) → ∀ g, runner_of g s = None ∧ waiting_of g s = []) ∧
  (Forall action_ends ops → Acc (λ s' s, ∃ a, internal a ∧ pool_exec workers a s = Some s') s).
Proof.
  intros Hn Hr. destruct (pool_run_inv workers objects ops _ s Hr (pool_new_inv workers objects)) as (Hi & Hl & Hq).
  pose proof Hi as [_ _ _ Hh Hv Ho]. split_and!; [|done..|by eapply stuck_is_done|].
  - intros Ha g Hg. pose proof (qi_value _ _ (Hq Ha (pool_new_seq objects)) g) as Hval. by rewrite Hg in Hval.
  - intros He. destruct (Hl He [] (pool_new_items workers objects)) as (l & Hl' & Ha); [done|]. by eapply runs_end.
Qed.
End Strand.

(** ** Concrete runs *)

Module StrandDemo.
Local Abbreviation pool := (pool (St := list_strand) (O := nat)).

(** Reads the counter, then writes. *)
Definition increment : handler nat := Access id (λ n, Access (λ _, n + 1) (λ _, Return)).
Definition start : pool := pool_new (λ _, 0).
Definition counter (g : nat) (s : option pool) : option nat := (λ s, obj_ (guards s g)) <$> s.

(** Two workers get a handler for the same counter at the same time; the
    second one is queued, so that no increment is lost. *)
Definition two_increments : list action :=
  [Complete 0 0 increment; Step 0; Complete 1 0 increment; Step 0; Step 0; Take 1 0; Step 1; Step 1; Step 1].

Lemma guards_serial_witness :
  match pool_run 2 two_increments start with
  | Some s => obj_ (guards s 0) = 2 ∧ holder 0 (trace s) = Some None ∧
      length (omap (queued_on 0) (trace s)) = 1 ∧ waiting (strand_ (guards s 0)) = []
  | None => False
  end.
Proof.
  assert ((λ s, (omap (began_on 0) (trace s), omap (taken_on 0) (trace s), runner (strand_ (guards s 0)),
      waiting (strand_ (guards s 0)))) <$> pool_run 2 two_increments start =
    Some ([increment; increment], [increment], None, [])) as Hb by (vm_compute; reflexivity).
  destruct (pool_run 2 two_increments start) as [s|] eqn:Hr; [|discriminate Hb].
  apply (inj Some), pair_eq in Hb as [[[Hb Htaken]%pair_eq Hg]%pair_eq Hw].
  destruct (guards_serial 2 (λ _, 0) two_increments s ltac:(lia) Hr) as (Hv & Hh & _ & Ho & _ & _).
  rewrite Hh, Ho, Htaken, Hg, Hw. split_and!; [|done..]. rewrite Hv, Hb; [done| |done].
  repeat (apply list.Forall_cons_2; [by repeat constructor|]). apply list.Forall_nil_2.
Defined.

(** Guard 0 calls guard 1, which calls guard 0 back.  If guard 1 is idle the
    call runs in the middle of the first handler, and its increment is lost;
    if it is busy the call runs later.  A dispatch to another guard may or may
    not return before the handler that it runs. *)
Definition calls_around : handler nat :=
  Access id (λ n, Dispatch 1 (Dispatch 0 increment Return) (Access (λ _, n + 1) (λ _, Return))).

Example called_back_at_once :
  counter 0 (pool_run 2 ([Complete 0 0 calls_around] ++ replicate 9 (Step 0)) start) = Some 1.
Proof. vm_compute. reflexivity. Qed.

Example called_back_later :
  counter 0 (pool_run 2 ([Complete 1 1 Return; Complete 0 0 calls_around] ++ replicate 4 (Step 0) ++
    [Step 1; Take 1 1] ++ replicate 5 (Step 1)) start) = Some 2.
Proof. vm_compute. reflexivity. Qed.
End StrandDemo.
