(* ===== verification/TurnController.v ===== *)
(** * Turns (src/TurnController.hpp)

    The queue of users waiting for a turn on a virtual machine, the timer that
    ends a turn, and the pause button.  The queue positions live in the user
    objects ([UserTurnData::turn_queue_position_]), so they are part of the
    modelled store: [turn_queue_position_ st !! u] is the optional position of
    user [u].  An operation that the C++ leaves undefined (an erase past the
    end, [optional::value] of an empty optional) returns [None]; the main
    invariant shows that this never happens.  The virtual callbacks are
    emitted as events, in the order of the calls.

    The invariant is that of a controller whose users are queued nowhere else.
    Controllers of several machines share their users' positions, and
    [stale_turn_timer_of_other_vm] shows how that breaks it. *)

From S2P Require Import Prelude Timer.

Inductive turn_event (U : Type) :=
| OnCurrentUserChanged (users : list U) (time_remaining : Z)
| OnUserAdded (users : list U) (time_remaining : Z)
| OnUserRemoved (users : list U) (time_remaining : Z).
Arguments OnCurrentUserChanged {U}.
Arguments OnUserAdded {U}.
Arguments OnUserRemoved {U}.

Section TurnController.
Context {T : Type → Type} `{SteadyTimer T}.
Context {U : Type} `{Countable U}.
Implicit Types (u v : U) (q : list U) (now : Z).

(** [turn_timer_] holds the user captured by its completion handler; times
    are nanoseconds except [paused_time_], which is in milliseconds. *)
Record turn_controller := TurnController {
  turn_timer_ : T U;
  turn_time_ : Z;
  turn_queue_ : list U;
  paused_time_ : option Z;
  turn_queue_position_ : gmap U nat
}.
Implicit Types st : turn_controller.

Definition with_timer (t : T U) st : turn_controller :=
  TurnController t (turn_time_ st) (turn_queue_ st) (paused_time_ st)
    (turn_queue_position_ st).
Definition with_queue q (pos : gmap U nat) st : turn_controller :=
  TurnController (turn_timer_ st) (turn_time_ st) q (paused_time_ st) pos.
Definition with_paused (p : option Z) st : turn_controller :=
  TurnController (turn_timer_ st) (turn_time_ st) (turn_queue_ st) p
    (turn_queue_position_ st).

Definition turn_new (positions : gmap U nat) : turn_controller :=
  TurnController timer_new 0 [] None positions.

Definition GetTimeRemaining now st : Z :=
  match turn_queue_ st with
  | [] => 0
  | _ => cast_ms (expiry (turn_timer_ st) - now)
  end.

Definition GetTurnQueue st : list U := turn_queue_ st.
Definition GetCurrentUser st : option U := head (turn_queue_ st).
Definition IsPaused st : bool := bool_decide (is_Some (paused_time_ st)).

Definition UpdateCurrentTurn now (time_remaining : Z) st
    : turn_controller * list (turn_event U) :=
  match turn_queue_ st with
  | [] => (st, [OnCurrentUserChanged [] 0])
  | current_user :: _ =>
      let st' :=
        if IsPaused st then st
        else with_timer (async_wait current_user
               (expires_after now time_remaining (turn_timer_ st))) st in
      (st', [OnCurrentUserChanged (turn_queue_ st') (cast_ms time_remaining)])
  end.

Definition RequestTurn now u st
    : bool * turn_controller * list (turn_event U) :=
  match turn_queue_position_ st !! u with
  | Some _ => (false, st, [])
  | None =>
      let q := turn_queue_ st ++ [u] in
      let position := length q - 1 in
      let st := with_queue q (<[u := position]> (turn_queue_position_ st)) st in
      if decide (position = 0)
      then let '(st, evs) := UpdateCurrentTurn now (turn_time_ st) st in (true, st, evs)
      else (true, st, [OnUserAdded (turn_queue_ st) (GetTimeRemaining now st)])
  end.

(** The loop over the users behind an erased element: every one of them must
    have a position ([optional::value]), which is decremented; a position
    that is already zero would wrap around and is reported as [None]. *)
Fixpoint decrement_positions (behind : list U) (pos : gmap U nat) : option (gmap U nat) :=
  match behind with
  | [] => Some pos
  | u :: behind =>
      match pos !! u with
      | None => None
      | Some 0 => None
      | Some (S i) => decrement_positions behind (<[u := i]> pos)
      end
  end.

Definition RemoveUser now u st
    : option (bool * turn_controller * list (turn_event U)) :=
  match turn_queue_position_ st !! u with
  | None => Some (false, st, [])
  | Some user_position =>
      if decide (user_position < length (turn_queue_ st)) then
        let q := delete user_position (turn_queue_ st) in
        match decrement_positions (drop user_position q) (turn_queue_position_ st) with
        | None => None
        | Some pos =>
            match pos !! u with
            | None => None
            | Some old_position =>
                let st := with_queue q (delete u pos) st in
                if decide (old_position = 0)
                then let '(st, evs) := UpdateCurrentTurn now (turn_time_ st) st in
                     Some (true, st, evs)
                else Some (true, st,
                       [OnUserRemoved (turn_queue_ st) (GetTimeRemaining now st)])
            end
        end
      else None
  end.

Definition SetTurnTime (time : Z) st : turn_controller :=
  TurnController (turn_timer_ st) time (turn_queue_ st) (paused_time_ st)
    (turn_queue_position_ st).

Definition PauseTurnTimer now st : turn_controller * list (turn_event U) :=
  let time_remaining := GetTimeRemaining now st in
  let was_running := negb (bool_decide (waits (turn_timer_ st) = [])) in
  let st := with_timer (cancel (turn_timer_ st)) st in
  let paused_time :=
    if was_running && (0 <? time_remaining)%Z then time_remaining
    else cast_ms (turn_time_ st) in
  UpdateCurrentTurn now (from_ms paused_time) (with_paused (Some paused_time) st).

Definition ResumeTurnTimer now st : turn_controller * list (turn_event U) :=
  match paused_time_ st with
  | Some time_remaining =>
      UpdateCurrentTurn now (from_ms time_remaining) (with_paused None st)
  | None => (st, [])
  end.

(** [RemoveUser] is passed a reference to the front of the queue.  Once it has
    erased an element of the queue that reference dangles, and [RemoveUser]
    reads the user's position through it: the behaviour is undefined whenever
    the user in front has a position. *)
Definition EndCurrentTurn st : option (turn_controller * list (turn_event U)) :=
  match turn_queue_ st with
  | [] => Some (st, [])
  | u :: _ =>
      match turn_queue_position_ st !! u with
      | None => Some (st, [])
      | Some _ => None
      end
  end.

Definition Clear st : turn_controller * list (turn_event U) :=
  let st := with_timer (cancel (turn_timer_ st)) st in
  match turn_queue_ st with
  | [] => (st, [])
  | q => (with_queue [] (foldr delete (turn_queue_position_ st) q) st,
          [OnCurrentUserChanged [] 0])
  end.

(** The completion handler of [UpdateCurrentTurn]'s [async_wait]. *)
Definition OnTurnTimer now u (ec : error_code) st
    : option (turn_controller * list (turn_event U)) :=
  if ec_is_error ec then Some (st, [])
  else '(_, st, evs) ← RemoveUser now u st; Some (st, evs).

(** The executor runs the first posted handler. *)
Definition RunTurnHandler now st : option (turn_controller * list (turn_event U)) :=
  match posted (turn_timer_ st) with
  | [] => Some (st, [])
  | (u, ec) :: _ => OnTurnTimer now u ec (with_timer (run_next (turn_timer_ st)) st)
  end.

(** ** The queue invariant: a user's position is its index in the queue. *)

Definition positions_wf (pos : gmap U nat) q : Prop :=
  ∀ u i, pos !! u = Some i ↔ q !! i = Some u.

Definition turn_wf st : Prop := positions_wf (turn_queue_position_ st) (turn_queue_ st).

Lemma positions_wf_nodup pos q : positions_wf pos q → NoDup q.
Proof.
  intros Hwf. apply NoDup_alt. intros i j u Hi%Hwf Hj%Hwf. congruence.
Qed.

Lemma positions_wf_not_elem pos q u :
  positions_wf pos q → pos !! u = None → u ∉ q.
Proof.
  intros Hwf Hu [i Hi]%list_elem_of_lookup. apply Hwf in Hi. congruence.
Qed.

Lemma positions_wf_snoc pos q u :
  positions_wf pos q → pos !! u = None →
  positions_wf (<[u := length q]> pos) (q ++ [u]).
Proof.
  intros Hwf Hu v i. rewrite lookup_snoc_cases, lookup_insert.
  case_decide as Heq; [subst v|].
  - split; [intros [= <-]; by right|].
    intros [[_ Hi%Hwf] | [-> _]]; [congruence | done].
  - rewrite (Hwf _ _). split.
    + intros Hi. left. split; [by eapply lookup_lt_Some | done].
    + intros [[_ Hi] | [_ ->]]; done.
Qed.

Lemma decrement_positions_lookup behind pos n :
  (∀ k u, behind !! k = Some u → pos !! u = Some (n + S k)) →
  ∃ pos', decrement_positions behind pos = Some pos' ∧
    (∀ k u, behind !! k = Some u → pos' !! u = Some (n + k)) ∧
    (∀ u, u ∉ behind → pos' !! u = pos !! u).
Proof.
  revert pos n. induction behind as [|u b IH]; intros pos n Hb.
  { exists pos. by split. }
  pose proof (Hb 0 u eq_refl) as Hu. simpl.
  rewrite Hu, Nat.add_1_r.
  assert (Hne : ∀ k v, b !! k = Some v → v ≠ u).
  { intros k v Hk ->. pose proof (Hb (S k) u Hk) as Hu'. rewrite Hu in Hu'.
    simplify_eq. lia. }
  destruct (IH (<[u := n]> pos) (S n)) as (pos' & -> & Hin & Hout).
  { intros k v Hk. rewrite lookup_insert_ne by (symmetry; eauto).
    rewrite (Hb (S k) v Hk). f_equal. lia. }
  exists pos'. split; [done|]. split.
  - intros [|k] v Hv; simpl in Hv.
    + simplify_eq. rewrite Hout, lookup_insert_eq; [f_equal; lia|].
      intros [k Hk]%list_elem_of_lookup. by eapply Hne.
    + rewrite (Hin k v Hv). f_equal; lia.
  - intros v [Hvu Hv]%not_elem_of_cons. by rewrite Hout, lookup_insert_ne.
Qed.

Lemma lookup_drop_delete (q : list U) i k : drop i (delete i q) !! k = q !! (i + S k).
Proof.
  rewrite lookup_drop, lookup_delete_list.
  destruct (decide (i + k < i)); [lia | f_equal; lia].
Qed.

Lemma decrement_positions_wf pos q i u :
  positions_wf pos q → q !! i = Some u →
  ∃ pos', decrement_positions (drop i (delete i q)) pos = Some pos' ∧
    pos' !! u = Some i ∧ positions_wf (delete u pos') (delete i q).
Proof.
  intros Hwf Hi.
  destruct (decrement_positions_lookup (drop i (delete i q)) pos i)
    as (pos' & -> & Hin & Hout).
  { intros k v Hk. rewrite lookup_drop_delete in Hk. by apply Hwf. }
  assert (Hu : u ∉ drop i (delete i q)).
  { intros [k Hk]%list_elem_of_lookup. rewrite lookup_drop_delete in Hk.
    apply Hwf in Hk, Hi. rewrite Hi in Hk. simplify_eq. lia. }
  exists pos'. split; [done|]. split; [rewrite Hout by done; by apply Hwf|].
  intros v j. rewrite lookup_delete_list.
  destruct (decide (v = u)) as [->|Hne].
  { rewrite lookup_delete_eq. split; [done|]. apply Hwf in Hi.
    case_decide; intros Hj%Hwf; rewrite Hi in Hj; simplify_eq; lia. }
  rewrite lookup_delete_ne by done.
  destruct (decide (v ∈ drop i (delete i q))) as [[k Hk]%list_elem_of_lookup|Hv].
  - pose proof (Hin k v Hk) as Hpos. rewrite lookup_drop_delete in Hk.
    rewrite Hpos. apply Hwf in Hk. split.
    + intros [= <-]. rewrite decide_False by lia.
      apply Hwf. rewrite Hk. f_equal; lia.
    + case_decide; intros Hj%Hwf; rewrite Hk in Hj; simplify_eq; f_equal; lia.
  - rewrite Hout by done. rewrite (Hwf _ _). case_decide as Hlt; [done|].
    split; intros Hj; exfalso.
    + destruct (decide (j = i)) as [->|]; [congruence|].
      apply Hv, list_elem_of_lookup. exists (j - S i). rewrite lookup_drop_delete.
      rewrite <- Hj. f_equal; lia.
    + apply Hv, list_elem_of_lookup. exists (j - i). rewrite lookup_drop_delete.
      rewrite <- Hj. f_equal; lia.
Qed.

(** ** What each operation does to the queue, the store and the timer *)

Lemma UpdateCurrentTurn_spec now d st :
  let '(st', evs) := UpdateCurrentTurn now d st in
  turn_queue_ st' = turn_queue_ st ∧
  turn_queue_position_ st' = turn_queue_position_ st ∧
  turn_time_ st' = turn_time_ st ∧ paused_time_ st' = paused_time_ st ∧
  turn_timer_ st' =
    match turn_queue_ st, paused_time_ st with
    | u :: _, None => async_wait u (expires_after now d (turn_timer_ st))
    | _, _ => turn_timer_ st
    end ∧
  evs = [OnCurrentUserChanged (turn_queue_ st)
           (match turn_queue_ st with [] => 0 | _ => cast_ms d end)].
Proof.
  unfold UpdateCurrentTurn, IsPaused.
  destruct (turn_queue_ st) as [|u q] eqn:Hq; simpl; [by rewrite Hq|].
  destruct (paused_time_ st) eqn:Hp; simpl; rewrite ?Hq, ?Hp; done.
Qed.

Lemma positions_wf_drop_head pos q u :
  positions_wf pos q → u ∉ q → pos !! u = None.
Proof.
  intros Hwf Hu. destruct (pos !! u) eqn:Hp; [|done].
  apply Hwf in Hp. destruct Hu. apply list_elem_of_lookup. eauto.
Qed.

(** [RemoveUser] succeeds whenever the positions are well formed. *)
Lemma RemoveUser_turn_wf now u st :
  turn_wf st →
  ∃ b st' evs, RemoveUser now u st = Some (b, st', evs) ∧
    b = bool_decide (u ∈ turn_queue_ st) ∧
    turn_wf st' ∧
    turn_queue_ st' = filter (λ v, v ≠ u) (turn_queue_ st) ∧
    turn_time_ st' = turn_time_ st ∧
    paused_time_ st' = paused_time_ st ∧
    (if decide (head (turn_queue_ st) = Some u) then
       turn_timer_ st' =
         match turn_queue_ st', paused_time_ st with
         | v :: _, None => async_wait v (expires_after now (turn_time_ st) (turn_timer_ st))
         | _, _ => turn_timer_ st
         end ∧
       evs = [OnCurrentUserChanged (turn_queue_ st')
                (match turn_queue_ st' with [] => 0 | _ => cast_ms (turn_time_ st) end)]
     else
       turn_timer_ st' = turn_timer_ st ∧
       evs = if b then [OnUserRemoved (turn_queue_ st') (GetTimeRemaining now st')] else []).
Proof.
  intros Hwf. unfold RemoveUser.
  destruct (turn_queue_position_ st !! u) as [i|] eqn:Hu.
  - pose proof (proj1 (Hwf u i) Hu) as Hi.
    pose proof (lookup_lt_Some _ _ _ Hi) as Hlt. rewrite decide_True by done.
    destruct (decrement_positions_wf _ _ _ _ Hwf Hi) as (pos' & -> & -> & Hwf').
    pose proof (delete_nodup_filter i _ u (positions_wf_nodup _ _ Hwf) Hi) as Hdel.
    assert (Hin : u ∈ turn_queue_ st) by (apply list_elem_of_lookup; eauto).
    assert (Hhd : head (turn_queue_ st) = Some u ↔ i = 0).
    { rewrite head_lookup. split; [|by intros ->].
      intros Hz0%Hwf. congruence. }
    case_decide as Hz.
    + pose proof (UpdateCurrentTurn_spec now (turn_time_ st)
        (with_queue (delete i (turn_queue_ st)) (delete u pos') st)) as Hs.
      destruct (UpdateCurrentTurn _ _ _) as [st' evs].
      destruct Hs as (Hq & Hp & Ht & Hpa & Htm & ->). simpl in *.
      eexists true, st', _. rewrite bool_decide_eq_true_2 by done.
      rewrite (decide_True _ _ (proj2 Hhd Hz)).
      split_and!; try done; unfold turn_wf; rewrite ?Hq, ?Hp, ?Hdel in *; done.
    + eexists true, _, _. rewrite bool_decide_eq_true_2 by done.
      rewrite decide_False by (by rewrite Hhd).
      split_and!; done.
  - pose proof (positions_wf_not_elem _ _ _ Hwf Hu) as Hin.
    exists false, st, []. rewrite bool_decide_eq_false_2 by done.
    rewrite filter_ne_not_elem by done. rewrite decide_False.
    + done.
    + intros Hh. apply Hin. rewrite head_lookup in Hh.
      apply list_elem_of_lookup; eauto.
Qed.

Lemma RequestTurn_wf now u st :
  turn_wf st →
  let '(b, st', evs) := RequestTurn now u st in
  b = bool_decide (u ∉ turn_queue_ st) ∧
  turn_wf st' ∧
  turn_queue_ st' = (if b then turn_queue_ st ++ [u] else turn_queue_ st) ∧
  paused_time_ st' = paused_time_ st ∧
  turn_timer_ st' =
    (match turn_queue_ st, paused_time_ st with
     | [], None => async_wait u (expires_after now (turn_time_ st) (turn_timer_ st))
     | _, _ => turn_timer_ st
     end).
Proof.
  intros Hwf. unfold RequestTurn.
  destruct (turn_queue_position_ st !! u) as [i|] eqn:Hu.
  - pose proof (proj1 (Hwf u i) Hu) as Hi.
    assert (Hin : u ∈ turn_queue_ st) by (apply list_elem_of_lookup; eauto).
    rewrite bool_decide_eq_false_2 by (intros ?; contradiction).
    by destruct (turn_queue_ st) eqn:Hq; [set_solver|].
  - pose proof (positions_wf_not_elem _ _ _ Hwf Hu) as Hin.
    pose proof (positions_wf_snoc _ _ _ Hwf Hu) as Hwf'.
    rewrite length_app, Nat.add_sub.
    destruct (turn_queue_ st) as [|v q] eqn:Hq.
    + rewrite decide_True by done.
      pose proof (UpdateCurrentTurn_spec now (turn_time_ st)
        (with_queue ([] ++ [u]) (<[u:=@length U []]> (turn_queue_position_ st)) st)) as Hs.
      destruct (UpdateCurrentTurn _ _ _) as [st' evs].
      destruct Hs as (Hq' & Hp & Ht & Hpa & Htm & ->).
      cbn -[length] in Hq', Hp, Htm, Hpa.
      unfold turn_wf. rewrite Hq', Hp. split_and!; done.
    + rewrite bool_decide_eq_true_2 by done. done.
Qed.

Lemma foldr_delete_lookup (q : list U) (pos : gmap U nat) u :
  foldr delete pos q !! u = if decide (u ∈ q) then None else pos !! u.
Proof.
  induction q as [|v q IH]; simpl.
  { done. }
  destruct (decide (v = u)) as [->|Hne]; [rewrite lookup_delete_eq | rewrite lookup_delete_ne by done].
  - by rewrite decide_True by set_solver.
  - rewrite IH. destruct (decide (u ∈ q)).
    + by rewrite decide_True by set_solver.
    + rewrite decide_False by set_solver. done.
Qed.

Lemma Clear_wf st :
  turn_wf st →
  let '(st', evs) := Clear st in
  turn_queue_ st' = [] ∧ turn_queue_position_ st' = ∅ ∧
  turn_timer_ st' = cancel (turn_timer_ st) ∧ paused_time_ st' = paused_time_ st.
Proof.
  intros Hwf. unfold Clear.
  assert (Hpos : foldr delete (turn_queue_position_ st) (turn_queue_ st) = ∅).
  { apply map_empty. intros u. rewrite foldr_delete_lookup. case_decide; [done|].
    by apply (positions_wf_drop_head _ (turn_queue_ st)). }
  destruct (turn_queue_ st) as [|v q] eqn:Hq; simpl in *; by rewrite ?Hq.
Qed.

(** ** Executions *)

(** The calls of the public interface, the passing of a deadline and the
    executor running a completion handler. *)
Inductive turn_op :=
| op_RequestTurn u | op_RemoveUser u | op_SetTurnTime (time : Z)
| op_PauseTurnTimer | op_ResumeTurnTimer | op_EndCurrentTurn | op_Clear
| op_elapse | op_run.

Definition turn_exec now (op : turn_op) st : option turn_controller :=
  match op with
  | op_RequestTurn u => Some (RequestTurn now u st).1.2
  | op_RemoveUser u => '(_, st, _) ← RemoveUser now u st; Some st
  | op_SetTurnTime time => Some (SetTurnTime time st)
  | op_PauseTurnTimer => Some (PauseTurnTimer now st).1
  | op_ResumeTurnTimer => Some (ResumeTurnTimer now st).1
  | op_EndCurrentTurn => fst <$> EndCurrentTurn st
  | op_Clear => Some (Clear st).1
  | op_elapse => Some (with_timer (elapse (turn_timer_ st)) st)
  | op_run => fst <$> RunTurnHandler now st
  end.

Definition turn_init st : Prop := st = turn_new ∅.
Definition turn_step st st' : Prop := ∃ now op, turn_exec now op st = Some st'.

(** The turn of the first user in the queue always has an end: unless the
    controller is paused, its handler is waiting or about to run. *)
Definition turn_armed st : Prop :=
  match paused_time_ st, turn_queue_ st with
  | None, u :: _ => waits (turn_timer_ st) = [u] ∨ (u, success) ∈ posted (turn_timer_ st)
  | Some _, _ => waits (turn_timer_ st) = []
  | None, [] => True
  end.

Definition turn_inv st : Prop := turn_wf st ∧ turn_armed st.

Context `{!SteadyTimerLaws T}.

Lemma UpdateCurrentTurn_inv now d st :
  turn_wf st → (is_Some (paused_time_ st) → waits (turn_timer_ st) = []) →
  turn_inv (UpdateCurrentTurn now d st).1.
Proof.
  intros Hwf Hp. pose proof (UpdateCurrentTurn_spec now d st) as Hs.
  destruct (UpdateCurrentTurn _ _ _) as [st' evs]; simpl in *.
  destruct Hs as (Hq & Hpos & _ & Hpa & Ht & _). split.
  - unfold turn_wf. by rewrite Hq, Hpos.
  - unfold turn_armed, expires_after in *. rewrite Ht, Hpa, Hq.
    destruct (paused_time_ st); [|destruct (turn_queue_ st); [done|]].
    + destruct (turn_queue_ st); apply Hp; eauto.
    + left. by autorewrite with cvm.
Qed.

Lemma RequestTurn_inv now u st : turn_inv st → turn_inv (RequestTurn now u st).1.2.
Proof.
  intros [Hwf Ha]. pose proof (RequestTurn_wf now u st Hwf) as Hs.
  destruct (RequestTurn _ _ _) as [[b st'] evs]; simpl in *.
  destruct Hs as (_ & Hwf' & Hq & Hp & Ht). split; [done|].
  unfold turn_armed, expires_after in *. rewrite Hq, Hp, Ht.
  destruct (paused_time_ st), (turn_queue_ st) as [|v q], b; simpl; try done;
    left; by autorewrite with cvm.
Qed.

Lemma RemoveUser_inv now u st :
  turn_inv st →
  ∃ b st' evs, RemoveUser now u st = Some (b, st', evs) ∧ turn_inv st' ∧
    turn_queue_ st' = filter (λ v, v ≠ u) (turn_queue_ st) ∧
    ∃ l, posted (turn_timer_ st') = posted (turn_timer_ st) ++ l.
Proof.
  intros [Hwf Ha].
  destruct (RemoveUser_turn_wf now u st Hwf)
    as (b & st' & evs & -> & _ & Hwf' & Hq & _ & Hp & Ht).
  exists b, st', evs. split; [done|].
  unfold turn_inv, turn_armed, expires_after in *. rewrite Hp.
  assert (Hcase : turn_timer_ st' = turn_timer_ st ∧
            (turn_queue_ st = [] ∨ ∃ v q, turn_queue_ st = v :: q ∧ v ≠ u) ∨
          ∃ q, turn_queue_ st = u :: q).
  { destruct (turn_queue_ st) as [|v q]; simpl in Ht; [left; tauto|].
    destruct (decide (v = u)) as [->|Hne]; [by right; eauto|].
    rewrite decide_False in Ht by congruence. left. split; [tauto|eauto]. }
  split; [split; [done|]|split; [done|]].
  - destruct Hcase as [[-> [Hn|(v & q & Hv & Hne)]]|[q Hu]].
    + rewrite Hn in *. rewrite Hq. done.
    + rewrite Hv, filter_cons_True in Hq by done. rewrite Hq. by rewrite Hv in Ha.
    + rewrite Hu in Ht, Ha. rewrite decide_True in Ht by done. destruct Ht as [Ht _].
      destruct (paused_time_ st), (turn_queue_ st'); rewrite ?Ht; try done.
      left. by autorewrite with cvm.
  - destruct Hcase as [[-> _]|[q Hu]]; [exists []; by rewrite app_nil_r|].
    rewrite Hu in Ht. rewrite decide_True in Ht by done. destruct Ht as [-> _].
    destruct (paused_time_ st), (turn_queue_ st'); autorewrite with cvm;
      eauto; exists []; by rewrite app_nil_r.
Qed.

Lemma RunTurnHandler_inv now st :
  turn_inv st →
  ∃ st' evs, RunTurnHandler now st = Some (st', evs) ∧ turn_inv st' ∧
    (∃ l, posted (turn_timer_ st') = tail (posted (turn_timer_ st)) ++ l) ∧
    ∀ v, v ∈ turn_queue_ st' ↔
      v ∈ turn_queue_ st ∧ head (posted (turn_timer_ st)) ≠ Some (v, success).
Proof.
  intros [Hwf Ha]. unfold RunTurnHandler.
  destruct (posted (turn_timer_ st)) as [|[u ec] rest] eqn:Hpo.
  { exists st, []. split; [done|]. split; [done|].
    split; [exists []; by rewrite Hpo | naive_solver]. }
  unfold OnTurnTimer. set (st1 := with_timer (run_next (turn_timer_ st)) st).
  assert (Hpo1 : posted (turn_timer_ st1) = rest)
    by (simpl; autorewrite with cvm; by rewrite Hpo).
  destruct ec; simpl.
  - destruct (RemoveUser_turn_wf now u st1 Hwf)
      as (b & st' & evs & Heq & _ & Hwf' & Hq & _ & Hp & Ht).
    (* the invariant of [st1] may lack the handler of its first user, but that
       user is the one being removed *)
    rewrite Heq. exists st', evs. split; [done|]. simpl in *.
    assert (Hin : ∀ v, v ∈ turn_queue_ st' ↔ v ∈ turn_queue_ st ∧ Some (u, success) ≠ Some (v, success)).
    { intros v. rewrite Hq, list_elem_of_filter. naive_solver. }
    split; [split; [done|]|split; [|done]].
    + unfold turn_armed, expires_after in *. rewrite Hp. simpl.
      destruct (paused_time_ st) eqn:Hpa.
      { destruct (decide (list.head (turn_queue_ st) = Some u)); destruct Ht as [-> _];
          destruct (turn_queue_ st'); by autorewrite with cvm. }
      destruct (turn_queue_ st) as [|v q] eqn:Hqs; [by rewrite Hq|].
      destruct (decide (v = u)) as [->|Hne].
      * rewrite decide_True in Ht by done. destruct Ht as [-> _].
        destruct (turn_queue_ st'); [done|]. left. by autorewrite with cvm.
      * rewrite decide_False in Ht by (simpl; congruence). destruct Ht as [-> _].
        rewrite filter_cons_True in Hq by done. rewrite Hq. autorewrite with cvm.
        rewrite Hpo in Ha. simpl. destruct Ha as [|Ha]; [by left|right].
        apply elem_of_cons in Ha as [Ha|Ha]; [congruence|]. by rewrite Hpo.
    + destruct (decide (list.head (turn_queue_ st) = Some u)); destruct Ht as [-> _];
        [destruct (turn_queue_ st'), (paused_time_ st)|];
        unfold expires_after; autorewrite with cvm; rewrite Hpo; simpl;
        eauto; exists []; by rewrite app_nil_r.
  - exists st1, []. split; [done|]. split; [split; [done|]|split].
    + unfold turn_armed in *. simpl. autorewrite with cvm.
      destruct (paused_time_ st), (turn_queue_ st) as [|v q]; try done.
      rewrite Hpo in *. simpl. destruct Ha as [|Ha]; [by left|right].
      apply elem_of_cons in Ha as [Ha|Ha]; [congruence|done].
    + exists []. by rewrite Hpo1, app_nil_r.
    + intros v. simpl. naive_solver.
Qed.

Lemma turn_new_inv : turn_inv (turn_new ∅).
Proof. split; [intros u i; simpl; by rewrite lookup_empty|done]. Qed.

Lemma Clear_inv st : turn_inv st → turn_inv (Clear st).1.
Proof.
  intros [Hwf _]. pose proof (Clear_wf st Hwf) as Hs.
  destruct (Clear st) as [st' evs]. destruct Hs as (Hq & Hpos & Ht & Hp).
  split; unfold turn_wf, turn_armed; simpl; rewrite Hq, ?Hpos, ?Ht, ?Hp.
  - intros u i. by rewrite lookup_empty.
  - destruct (paused_time_ st); by autorewrite with cvm.
Qed.

Lemma PauseTurnTimer_inv now st : turn_inv st → turn_inv (PauseTurnTimer now st).1.
Proof.
  intros [Hwf _]. unfold PauseTurnTimer. apply UpdateCurrentTurn_inv; [done|].
  intros _. simpl. by autorewrite with cvm.
Qed.

Lemma ResumeTurnTimer_inv now st : turn_inv st → turn_inv (ResumeTurnTimer now st).1.
Proof.
  intros [Hwf Ha]. unfold ResumeTurnTimer. destruct (paused_time_ st) eqn:Hp.
  - apply UpdateCurrentTurn_inv; [done|]. by intros [].
  - by split; simpl; unfold turn_armed; rewrite ?Hp; unfold turn_armed in Ha; rewrite ?Hp in Ha.
Qed.

Lemma EndCurrentTurn_undefined st :
  turn_wf st → EndCurrentTurn st = match turn_queue_ st with [] => Some (st, []) | _ => None end.
Proof.
  intros Hwf. unfold EndCurrentTurn. destruct (turn_queue_ st) as [|u q] eqn:Hq; [done|].
  assert (turn_queue_position_ st !! u = Some 0) as -> by (apply Hwf; by rewrite Hq). done.
Qed.

(** The one call that is undefined in a well-formed state. *)
Definition ends_turn op st : Prop := op = op_EndCurrentTurn ∧ turn_queue_ st ≠ [].

#[export] Instance ends_turn_dec op st : Decision (ends_turn op st).
Proof.
  destruct op; try (right; by intros [? _]).
  destruct (decide (turn_queue_ st = [])); [right; by intros [_ ?]|by left].
Defined.

(** No other operation is undefined in a well-formed state, and all of them
    preserve the invariant. *)
Lemma turn_exec_inv now op st :
  turn_inv st → ¬ ends_turn op st → ∃ st', turn_exec now op st = Some st' ∧ turn_inv st'.
Proof.
  intros Hinv Hend. destruct op as [u|u|d| | | | | |]; simpl.
  - eauto using RequestTurn_inv.
  - destruct (RemoveUser_inv now u st Hinv) as (b & st' & evs & -> & ? & _).
    simpl. eauto.
  - by exists (SetTurnTime d st).
  - eauto using PauseTurnTimer_inv.
  - eauto using ResumeTurnTimer_inv.
  - rewrite EndCurrentTurn_undefined by apply Hinv.
    destruct (turn_queue_ st) eqn:Hq; [by eauto|]. destruct Hend. split; [done|]. by rewrite Hq.
  - eauto using Clear_inv.
  - eexists. split; [done|]. destruct Hinv as [Hwf Ha]. split; [done|].
    unfold turn_armed in *. simpl. destruct (paused_time_ st).
    { by autorewrite with cvm. }
    destruct (turn_queue_ st); [done|]. autorewrite with cvm. right.
    apply elem_of_app. destruct Ha as [->|Ha]; [right; by apply list_elem_of_singleton|by left].
  - destruct (RunTurnHandler_inv now st Hinv) as (st' & evs & -> & ? & _).
    simpl. eauto.
Qed.

Lemma turn_exec_some now op st st' : turn_inv st → turn_exec now op st = Some st' → turn_inv st'.
Proof.
  intros Hinv Hop. destruct (decide (ends_turn op st)) as [[-> Hq]|Hend].
  - cbn in Hop. rewrite EndCurrentTurn_undefined in Hop by apply Hinv. by destruct (turn_queue_ st).
  - destruct (turn_exec_inv now op st Hinv Hend) as (st'' & Heq & ?). congruence.
Qed.

Lemma turn_reachable_inv st : reachable turn_init turn_step st → turn_inv st.
Proof.
  revert st. apply reachable_invariant.
  - intros st ->. apply turn_new_inv.
  - intros st st' Hinv (now & op & Hop). by eapply turn_exec_some.
Qed.

(** The executor runs [n] posted handlers. *)
Fixpoint run_turn_handlers now (n : nat) st : option turn_controller :=
  match n with
  | 0 => Some st
  | S n => '(st, _) ← RunTurnHandler now st; run_turn_handlers now n st
  end.

Lemma run_turn_handlers_removes now u l st rest :
  turn_inv st → posted (turn_timer_ st) = l ++ rest →
  (u, success) ∈ l ∨ u ∉ turn_queue_ st →
  ∃ st', run_turn_handlers now (length l) st = Some st' ∧ turn_inv st' ∧
    u ∉ turn_queue_ st' ∧ ∀ v, v ∈ turn_queue_ st' → v ∈ turn_queue_ st.
Proof.
  revert st rest. induction l as [|h l IH]; intros st rest Hinv Hpo Hu; simpl.
  { destruct Hu as [Hu|Hu]; [set_solver|]. by exists st. }
  destruct (RunTurnHandler_inv now st Hinv)
    as (st1 & evs & -> & Hinv1 & (l' & Hpo1) & Hq). simpl.
  rewrite Hpo in Hpo1, Hq. simpl in Hpo1, Hq. rewrite <- app_assoc in Hpo1.
  destruct (IH st1 _ Hinv1 Hpo1) as (st' & Hrun & Hinv' & Hu' & Hsub).
  { destruct (decide (h = (u, success))) as [->|Hne].
    - right. rewrite Hq. naive_solver.
    - destruct Hu as [Hu|Hu]; [left; set_solver|right; rewrite Hq; naive_solver]. }
  exists st'. split_and!; try done; try apply Hinv'.
  intros v Hv. by apply Hsub, Hq in Hv as [? _].
Qed.
End TurnController.
Arguments turn_controller : clear implicits.
Arguments turn_controller T U {_ _}.

(** ** Properties *)

Section TurnProperties.
Context {T : Type → Type} `{SteadyTimer T, !SteadyTimerLaws T}.
Context {U : Type} `{Countable U}.
Implicit Types (st : turn_controller T U) (u : U).

(** C5: in every state reachable by any interleaving of the public calls,
    deadlines and timer handlers (stale ones included), every user's stored
    position is exactly its index in the queue, nobody is queued twice, and
    no call ever erases past the end of the queue or reads a missing
    position.  The only call that is undefined is [EndCurrentTurn] while
    somebody is queued: it always is, as it reads the user through a reference
    to the element that it has erased. *)
Theorem turn_queue_safe st now (op : turn_op) :
  reachable turn_init turn_step st →
  (∀ u i, turn_queue_position_ st !! u = Some i ↔ turn_queue_ st !! i = Some u) ∧
  NoDup (turn_queue_ st) ∧
  (turn_exec now op st = None ↔ op = op_EndCurrentTurn ∧ turn_queue_ st ≠ []).
Proof.
  intros Hinv%turn_reachable_inv. split; [apply Hinv|]. split.
  - eapply positions_wf_nodup, Hinv.
  - split.
    + intros Hn. destruct (decide (ends_turn op st)) as [?|Hend]; [done|].
      destruct (turn_exec_inv now op st Hinv Hend) as (st' & Hs & _). congruence.
    + intros [-> Hq]. cbn. rewrite EndCurrentTurn_undefined by apply Hinv. by destruct (turn_queue_ st).
Qed.

(** C23: a turn always ends.  In any reachable state that is not paused, once
    the deadline has passed and the handlers posted by then have run, the
    user who held the turn has left the queue, and nobody was added. *)
Theorem turn_always_ends st u now :
  reachable turn_init turn_step st →
  paused_time_ st = None → head (turn_queue_ st) = Some u →
  let expired := with_timer (elapse (turn_timer_ st)) st in
  ∃ st', run_turn_handlers now (length (posted (turn_timer_ expired))) expired = Some st' ∧
    u ∉ turn_queue_ st' ∧ turn_queue_ st' ⊆ turn_queue_ st.
Proof.
  intros Hinv%turn_reachable_inv Hp Hu expired.
  pose proof (turn_exec_some now op_elapse st _ Hinv eq_refl) as Hinv1.
  destruct (run_turn_handlers_removes now u (posted (turn_timer_ expired)) expired [])
    as (st' & ? & _ & ? & ?); [done|by rewrite app_nil_r| |by exists st'].
  left. unfold expired. simpl. autorewrite with cvm.
  destruct Hinv as [_ Ha]. unfold turn_armed in Ha. rewrite Hp in Ha.
  destruct (turn_queue_ st) as [|v q]; simplify_eq/=.
  apply elem_of_app. destruct Ha as [->|Ha]; [right; by apply list_elem_of_singleton|by left].
Qed.

(** [RequestTurn] accepts exactly the users who are not queued, appends
    them at the end and gives them the matching position; a user who is
    first starts the timer for the whole turn time, unless paused. *)
Theorem RequestTurn_correct st u now :
  reachable turn_init turn_step st →
  let '(accepted, st', events) := RequestTurn now u st in
  if decide (u ∈ turn_queue_ st) then accepted = false ∧ st' = st ∧ events = []
  else accepted = true ∧ turn_queue_ st' = turn_queue_ st ++ [u] ∧
    turn_queue_position_ st' !! u = Some (length (turn_queue_ st)) ∧
    (turn_queue_ st = [] → paused_time_ st = None →
      waits (turn_timer_ st') = [u] ∧ expiry (turn_timer_ st') = (now + turn_time_ st)%Z ∧
      events = [OnCurrentUserChanged [u] (cast_ms (turn_time_ st))]) ∧
    (turn_queue_ st ≠ [] →
      turn_timer_ st' = turn_timer_ st ∧
      events = [OnUserAdded (turn_queue_ st ++ [u]) (GetTimeRemaining now st')]).
Proof.
  intros [Hwf _]%turn_reachable_inv.
  pose proof (RequestTurn_wf now u st Hwf) as Hs. unfold RequestTurn in *.
  destruct (turn_queue_position_ st !! u) as [i|] eqn:Hu.
  { rewrite decide_True; [done|]. apply list_elem_of_lookup. exists i. by apply Hwf. }
  destruct (decide (u ∈ turn_queue_ st)) as [Hin|_].
  { by destruct (positions_wf_not_elem _ _ _ Hwf Hu). }
  rewrite length_app, Nat.add_sub in *. case_decide as Hz.
  - pose proof (UpdateCurrentTurn_spec now
      (turn_time_ (with_queue (turn_queue_ st ++ [u])
        (<[u := length (turn_queue_ st)]> (turn_queue_position_ st)) st))
      (with_queue (turn_queue_ st ++ [u])
        (<[u := length (turn_queue_ st)]> (turn_queue_position_ st)) st)) as Hup.
    destruct (UpdateCurrentTurn _ _ _) as [st' evs].
    destruct Hup as (Hq & Hpos & _ & _ & Ht & ->). simpl in *.
    apply nil_length_inv in Hz. rewrite Hz in *. simpl in *.
    split_and!; try done.
    + by rewrite Hpos, lookup_insert_eq.
    + intros _ Hp. rewrite Hp in Ht. rewrite Ht. unfold expires_after.
      by autorewrite with cvm.
  - simpl. split_and!; try done. { apply lookup_insert_eq. }
    intros Hn. by rewrite Hn in Hz.
Qed.

(** [RemoveUser] removes exactly the given user and keeps the order of
    everybody else; when it was that user's turn, the next user in line is
    given the whole turn time, otherwise the running turn is untouched. *)
Theorem RemoveUser_correct st u now :
  reachable turn_init turn_step st →
  ∃ removed st' events, RemoveUser now u st = Some (removed, st', events) ∧
    removed = bool_decide (u ∈ turn_queue_ st) ∧
    turn_queue_ st' = filter (λ v, v ≠ u) (turn_queue_ st) ∧
    turn_queue_position_ st' !! u = None ∧
    (head (turn_queue_ st) ≠ Some u → turn_timer_ st' = turn_timer_ st) ∧
    (∀ next rest, turn_queue_ st = u :: next :: rest → paused_time_ st = None →
      waits (turn_timer_ st') = [next] ∧
      expiry (turn_timer_ st') = (now + turn_time_ st)%Z ∧
      events = [OnCurrentUserChanged (next :: rest) (cast_ms (turn_time_ st))]).
Proof.
  intros [Hwf _]%turn_reachable_inv.
  destruct (RemoveUser_turn_wf now u st Hwf)
    as (b & st' & evs & Heq & Hb & Hwf' & Hq & _ & Hp & Ht).
  exists b, st', evs. split_and!; try done.
  - apply (positions_wf_drop_head _ (turn_queue_ st')); [done|].
    rewrite Hq, list_elem_of_filter. naive_solver.
  - intros Hne. rewrite decide_False in Ht by done. tauto.
  - intros next rest Hqs Hpa.
    pose proof (positions_wf_nodup _ _ Hwf) as Hnd. rewrite Hqs in *.
    apply list.NoDup_cons in Hnd as [Hnin _].
    rewrite decide_True in Ht by done.
    rewrite filter_cons_False, filter_ne_not_elem in Hq by naive_solver.
    rewrite Hq, Hpa in Ht. destruct Ht as [-> ->]. unfold expires_after.
    by autorewrite with cvm.
Qed.

(** Pausing a running turn and resuming it gives the user who holds the
    turn exactly the milliseconds that were left, whatever time passed in
    between, and no turn can expire meanwhile. *)
Theorem pause_resume_keeps_time st u q now later :
  turn_queue_ st = u :: q → waits (turn_timer_ st) ≠ [] →
  (0 < GetTimeRemaining now st)%Z →
  let paused := (PauseTurnTimer now st).1 in
  let resumed := (ResumeTurnTimer later paused).1 in
  IsPaused paused = true ∧ waits (turn_timer_ paused) = [] ∧
  IsPaused resumed = false ∧ turn_queue_ resumed = turn_queue_ st ∧
  waits (turn_timer_ resumed) = [u] ∧
  GetTimeRemaining later resumed = GetTimeRemaining now st.
Proof.
  intros Hq Hw Hr. unfold PauseTurnTimer. simpl.
  rewrite bool_decide_eq_false_2 by done. simpl.
  rewrite (proj2 (Z.ltb_lt _ _) Hr).
  unfold UpdateCurrentTurn, ResumeTurnTimer, IsPaused. simpl. rewrite Hq. simpl.
  unfold UpdateCurrentTurn, expires_after, GetTimeRemaining at 1; simpl. rewrite Hq. simpl.
  autorewrite with cvm. split_and!; try done; try (by rewrite Hq).
  unfold GetTimeRemaining at 1. simpl. rewrite Hq. autorewrite with cvm.
  by rewrite Z.add_simpl_l, cast_from_ms.
Qed.

(** The positions live in the user objects, so every virtual machine's
    controller reads the same ones. *)
Definition share_positions (from to : turn_controller T U) : turn_controller T U :=
  with_queue (turn_queue_ to) (turn_queue_position_ from) to.

(** The positions are stored in the user and not per controller, and a
    controller whose queue becomes empty leaves its timer running.  When the
    only user of one virtual machine's queue leaves it and requests a turn on
    another machine, the first machine's timer erases from its own, empty
    queue: the behaviour is undefined ([None]). *)
Theorem stale_turn_timer_of_other_vm u now (d1 d2 : Z) :
  let vm1 := (RequestTurn now u (SetTurnTime d1 (turn_new ∅))).1.2 in
  ∃ vm1', RemoveUser now u vm1 = Some (true, vm1', [OnCurrentUserChanged [] 0]) ∧
    let vm2 := (RequestTurn now u
                  (share_positions vm1' (SetTurnTime d2 (turn_new ∅)))).1.2 in
    turn_queue_ vm2 = [u] ∧
    let vm1'' := share_positions vm2 vm1' in
    RunTurnHandler now (with_timer (elapse (turn_timer_ vm1'')) vm1'') = None.
Proof.
  intros vm1. unfold vm1, RequestTurn. simpl. rewrite lookup_empty. simpl.
  unfold UpdateCurrentTurn. simpl. unfold RemoveUser. simpl.
  rewrite lookup_insert_eq. simpl. rewrite lookup_insert_eq. simpl.
  eexists. split; [reflexivity|]. simpl. rewrite lookup_delete_eq. simpl.
  unfold UpdateCurrentTurn. simpl. split; [done|].
  unfold RunTurnHandler, expires_after. simpl. autorewrite with cvm. simpl.
  unfold share_positions, with_timer, with_queue. simpl.
  unfold OnTurnTimer, RemoveUser. simpl. by rewrite lookup_insert_eq.
Qed.
End TurnProperties.

(** ** Witnesses *)

Section TurnWitnesses.
Local Abbreviation ctl := (turn_controller list_timer nat).

Definition two_users : ctl :=
  (RequestTurn 5 2 (RequestTurn 3 1 (SetTurnTime 20000000 (turn_new ∅))).1.2).1.2.

Lemma two_users_reachable : reachable turn_init turn_step two_users.
Proof.
  eapply reachable_step; [|by exists 5%Z, (op_RequestTurn 2)].
  eapply reachable_step; [|by exists 3%Z, (op_RequestTurn 1)].
  eapply reachable_step; [|by exists 0%Z, (op_SetTurnTime 20000000)].
  by apply reachable_init.
Qed.

Lemma turn_queue_safe_witness :
  NoDup (turn_queue_ two_users) ∧ is_Some (turn_exec 9 (op_RemoveUser 1) two_users).
Proof.
  destruct (turn_queue_safe two_users 9 (op_RemoveUser 1) two_users_reachable)
    as (_ & H1 & H2). split; [exact H1|].
  destruct (turn_exec 9 (op_RemoveUser 1) two_users); [done|]. by destruct (proj1 H2 eq_refl).
Defined.

Lemma turn_always_ends_witness :
  ∃ st', run_turn_handlers 30000000 1
      (with_timer (elapse (turn_timer_ two_users)) two_users) = Some st' ∧
    1 ∉ turn_queue_ st' ∧ turn_queue_ st' ⊆ [1; 2].
Proof.
  exact (turn_always_ends two_users 1 30000000 two_users_reachable eq_refl eq_refl).
Defined.

Lemma RequestTurn_correct_witness :
  let '(accepted, st', _) := RequestTurn 7 3 two_users in
  accepted = true ∧ turn_queue_ st' = [1; 2; 3].
Proof.
  pose proof (RequestTurn_correct two_users 3 7 two_users_reachable) as H.
  vm_compute in H. vm_compute. tauto.
Defined.

Lemma RemoveUser_correct_witness :
  ∃ b st' evs, RemoveUser 7 1 two_users = Some (b, st', evs) ∧ turn_queue_ st' = [2].
Proof.
  destruct (RemoveUser_correct two_users 1 7 two_users_reachable)
    as (b & st' & evs & H & _ & Hq & _). exists b, st', evs. by split.
Defined.

Lemma pause_resume_keeps_time_witness :
  GetTimeRemaining 900000000
    (ResumeTurnTimer 900000000 (PauseTurnTimer 1000000 two_users).1).1 = 19%Z.
Proof.
  refine (proj2 (proj2 (proj2 (proj2 (proj2
    (pause_resume_keeps_time two_users 1 [2] 1000000 900000000 _ _ _)))))); done.
Defined.

Lemma stale_turn_timer_of_other_vm_witness :
  let vm1 : ctl := (RequestTurn 5 1 (SetTurnTime 20000000 (turn_new ∅))).1.2 in
  ∃ vm1', RemoveUser 5 1 vm1 = Some (true, vm1', [OnCurrentUserChanged [] 0]) ∧
    let vm2 := (RequestTurn 5 1 (share_positions vm1' (SetTurnTime 30000000 (turn_new ∅)))).1.2 in
    let vm1'' := share_positions vm2 vm1' in
    RunTurnHandler 5 (with_timer (elapse (turn_timer_ vm1'')) vm1'') = None.
Proof.
  destruct (stale_turn_timer_of_other_vm (T := list_timer) 1 5 20000000 30000000)
    as (vm1' & H1 & _ & H2).
  exists vm1'. by split.
Defined.
End TurnWitnesses.
