(* ===== verification/VoteController.v ===== *)
(** * Votes (src/VoteController.hpp)

    The state machine of a reset vote: idle, voting and cooling down, with the
    two completion handlers of [vote_timer_], and the tally.  The queries the
    C++ makes of its derived class ([GetVotesEnabled] ...) are the fields of
    [vote_base]; the notifications it sends are returned as events.  The
    constant [Common::vote_limit] comes from a submodule and is a parameter. *)

From S2P Require Import Prelude Timer.

Inductive VoteDecision := kUndecided | kYes | kNo.
Inductive VoteState := kIdle | kVoting | kCoolingdown.

#[export] Instance VoteDecision_eq_dec : EqDecision VoteDecision.
Proof. solve_decision. Defined.
#[export] Instance VoteState_eq_dec : EqDecision VoteState.
Proof. solve_decision. Defined.

Record UserVoteData := UserVote {
  last_vote : VoteDecision;
  voted_amount : Z;
  voted_limit : bool
}.

(** The default member initialisers. *)
Definition no_vote_data : UserVoteData := UserVote kUndecided 0 false.

#[export] Instance UserVoteData_eq_dec : EqDecision UserVoteData.
Proof. solve_decision. Defined.

Inductive vote_event := OnVoteStart | OnVoteIdle | OnVoteEnd (vote_passed : bool).

(** The two lambdas given to [vote_timer_.async_wait]. *)
Inductive vote_handler := vote_time_over | vote_cooldown_over.

(** What the derived class answers; durations in nanoseconds. *)
Record vote_base := VoteBase {
  GetVotesEnabled : bool;
  GetVoteTime : Z;
  GetVoteCooldownTime : Z
}.

Section VoteController.
Context {T : Type → Type} `{SteadyTimer T}.
Context (vote_limit : Z).
Implicit Types (base : vote_base) (data : UserVoteData) (now : Z).

Record vote_controller := VoteController {
  vote_timer_ : T vote_handler;
  vote_state_ : VoteState;
  yes_vote_count_ : Z;
  no_vote_count_ : Z
}.
Implicit Types st : vote_controller.

Definition vote_new : vote_controller := VoteController timer_new kIdle 0 0.

Definition IsCoolingDown st : bool := bool_decide (vote_state_ st = kCoolingdown).

Definition VoteTimeRemaining now st : Z :=
  if bool_decide (vote_state_ st = kVoting) && (now <? expiry (vote_timer_ st))%Z
  then cast_ms (expiry (vote_timer_ st) - now) else 0.

Definition GetYesVoteCount st : Z := yes_vote_count_ st.
Definition GetNoVoteCount st : Z := no_vote_count_ st.

Definition vote_decision (voted_yes : bool) : VoteDecision :=
  if voted_yes then kYes else kNo.

Definition AddVote base now data (voted_yes : bool) st
    : bool * UserVoteData * vote_controller * list vote_event :=
  if negb (GetVotesEnabled base) then (false, data, st, [])
  else match vote_state_ st with
  | kIdle =>
      if negb voted_yes then (false, data, st, [])
      else
        let data := UserVote (vote_decision voted_yes) (voted_amount data) (voted_limit data) in
        let timer := async_wait vote_time_over
          (expires_after now (GetVoteTime base) (vote_timer_ st)) in
        (true, data, VoteController timer kVoting 1 0, [OnVoteStart])
  | kVoting =>
      let amount :=
        if voted_limit data then voted_amount data else (voted_amount data + 1)%Z in
      if voted_limit data || (vote_limit <=? amount)%Z
      then (false, UserVote (last_vote data) amount true, st, [])
      else
        let data := UserVote (last_vote data) amount (voted_limit data) in
        let prev_vote := last_vote data in
        if decide (prev_vote = vote_decision voted_yes) then (false, data, st, [])
        else
          let inc (b : bool) (c : Z) := if b then u32 (c + 1) else c in
          let dec (b : bool) (c : Z) := if b then u32 (c - 1) else c in
          let changed := negb (bool_decide (prev_vote = kUndecided)) in
          let yes := dec (changed && negb voted_yes) (inc voted_yes (yes_vote_count_ st)) in
          let no := dec (changed && voted_yes) (inc (negb voted_yes) (no_vote_count_ st)) in
          (true, UserVote (vote_decision voted_yes) amount (voted_limit data),
           VoteController (vote_timer_ st) kVoting yes no, [])
  | kCoolingdown => (false, data, st, [])
  end.

Definition RemoveVote data st : bool * UserVoteData * vote_controller :=
  match last_vote data with
  | kUndecided => (false, data, st)
  | d =>
      let yes := if decide (d = kYes) then u32 (yes_vote_count_ st - 1) else yes_vote_count_ st in
      let no := if decide (d = kYes) then no_vote_count_ st else u32 (no_vote_count_ st - 1) in
      (true, UserVote kUndecided (voted_amount data) (voted_limit data),
       VoteController (vote_timer_ st) (vote_state_ st) yes no)
  end.

Definition StopVote st : vote_controller :=
  VoteController (cancel (vote_timer_ st)) (vote_state_ st)
    (yes_vote_count_ st) (no_vote_count_ st).

Definition with_vote_state (s : VoteState) st : vote_controller :=
  VoteController (vote_timer_ st) s (yes_vote_count_ st) (no_vote_count_ st).
Definition with_vote_timer (t : T vote_handler) st : vote_controller :=
  VoteController t (vote_state_ st) (yes_vote_count_ st) (no_vote_count_ st).

(** The handler that ends the voting time. *)
Definition OnVoteTimeOver base now (ec : error_code) st
    : vote_controller * list vote_event :=
  if ec_is_error ec || negb (GetVotesEnabled base)
  then (with_vote_state kIdle st, [OnVoteIdle; OnVoteEnd false])
  else
    let '(st, idle) :=
      if negb (Z.eqb (GetVoteCooldownTime base) 0) then
        (with_vote_timer
           (async_wait vote_cooldown_over
             (expires_after now (GetVoteCooldownTime base) (vote_timer_ st)))
           (with_vote_state kCoolingdown st), [])
      else (with_vote_state kIdle st, [OnVoteIdle]) in
    let vote_passed := (no_vote_count_ st <=? yes_vote_count_ st)%Z in
    (st, idle ++ [OnVoteEnd vote_passed]).

(** The handler that ends the cooldown, whatever the error code. *)
Definition OnCooldownOver st : vote_controller * list vote_event :=
  (with_vote_state kIdle st, [OnVoteIdle]).

Definition RunVoteHandler base now st : vote_controller * list vote_event :=
  match posted (vote_timer_ st) with
  | [] => (st, [])
  | (h, ec) :: _ =>
      let st := with_vote_timer (run_next (vote_timer_ st)) st in
      match h with
      | vote_time_over => OnVoteTimeOver base now ec st
      | vote_cooldown_over => OnCooldownOver st
      end
  end.

(** ** The state machine *)

Inductive vote_op :=
| op_AddVote base data (voted_yes : bool) | op_RemoveVote data | op_StopVote
| op_vote_elapse | op_vote_run base.

Definition vote_exec now (op : vote_op) st : vote_controller :=
  match op with
  | op_AddVote base data yes => (AddVote base now data yes st).1.2
  | op_RemoveVote data => (RemoveVote data st).2
  | op_StopVote => StopVote st
  | op_vote_elapse => with_vote_timer (elapse (vote_timer_ st)) st
  | op_vote_run base => (RunVoteHandler base now st).1
  end.

Definition vote_init st : Prop := st = vote_new.
Definition vote_step st st' : Prop := ∃ now op, vote_exec now op st = st'.

(** The handlers that are still to run. *)
Definition outstanding st : list vote_handler :=
  waits (vote_timer_ st) ++ (posted (vote_timer_ st)).*1.

Definition handler_of (s : VoteState) : list vote_handler :=
  match s with
  | kIdle => []
  | kVoting => [vote_time_over]
  | kCoolingdown => [vote_cooldown_over]
  end.

Definition vote_inv st : Prop := outstanding st = handler_of (vote_state_ st).

Context `{!SteadyTimerLaws T}.

Lemma fst_abort_all {H'} (l : list H') : (abort_all l).*1 = l.
Proof. unfold abort_all. induction l; by f_equal/=. Qed.
Lemma fst_complete_all {H'} (l : list H') : (complete_all l).*1 = l.
Proof. unfold complete_all. induction l; by f_equal/=. Qed.

(** Cancelling or elapsing a timer neither loses nor adds a handler, as long
    as at most one is outstanding. *)
Lemma outstanding_flush st t' c :
  vote_inv st → waits t' = [] →
  (posted t').*1 = (posted (vote_timer_ st)).*1 ++ c →
  c = waits (vote_timer_ st) →
  vote_inv (with_vote_timer t' st).
Proof.
  unfold vote_inv, outstanding. intros Hinv Hw Hp ->. simpl.
  rewrite Hw, Hp. simpl. rewrite <- Hinv.
  destruct (waits (vote_timer_ st)) as [|h l]; simpl in *; [by rewrite app_nil_r|].
  assert (length (h :: l ++ (posted (vote_timer_ st)).*1) ≤ 1) as Hlen.
  { rewrite Hinv. destruct (vote_state_ st); simpl; lia. }
  simpl in Hlen. rewrite length_app in Hlen.
  destruct l; simpl in *; [|lia]. destruct ((posted (vote_timer_ st)).*1); [done|simpl in *; lia].
Qed.

Lemma outstanding_idle st :
  vote_inv st → vote_state_ st = kIdle →
  waits (vote_timer_ st) = [] ∧ posted (vote_timer_ st) = [].
Proof.
  unfold vote_inv, outstanding. intros Hinv Hs. rewrite Hs in Hinv. simpl in Hinv.
  apply app_nil in Hinv as [? Hp]. split; [done|]. by apply fmap_nil_inv in Hp.
Qed.

Lemma AddVote_inv base now data yes st :
  vote_inv st → vote_inv (AddVote base now data yes st).1.2.
Proof.
  intros Hinv. unfold AddVote.
  destruct (GetVotesEnabled base); simpl; [|done].
  destruct (vote_state_ st) eqn:Hs; simpl; [| |done].
  - destruct yes; simpl; [|done].
    destruct (outstanding_idle st Hinv Hs) as [Hw Hp].
    unfold vote_inv, outstanding, expires_after. simpl.
    autorewrite with cvm. by rewrite Hw, Hp.
  - destruct (_ || _); [done|]. case_decide; [done|].
    unfold vote_inv in *. rewrite Hs in Hinv. done.
Qed.

Lemma RunVoteHandler_inv base now st :
  vote_inv st → vote_inv (RunVoteHandler base now st).1.
Proof.
  intros Hinv. unfold RunVoteHandler.
  destruct (posted (vote_timer_ st)) as [|[h ec] rest] eqn:Hp; [done|].
  assert (Hout : waits (vote_timer_ st) = [] ∧ rest = []).
  { unfold vote_inv, outstanding in Hinv. rewrite Hp in Hinv. simpl in Hinv.
    destruct (vote_state_ st), (waits (vote_timer_ st)) as [|? [|??]]; simplify_eq/=;
      split; try done; by destruct rest. }
  destruct Hout as [Hw ->].
  unfold vote_inv, outstanding, OnVoteTimeOver, OnCooldownOver, expires_after.
  destruct h; simpl.
  - destruct (ec_is_error ec), (GetVotesEnabled base); simpl;
      try (autorewrite with cvm; by rewrite Hw, Hp).
    destruct (Z.eqb _ _); simpl; autorewrite with cvm; by rewrite ?Hw, Hp.
  - autorewrite with cvm. by rewrite Hw, Hp.
Qed.

(** A vote that is not counted leaves the controller as it was. *)
Lemma AddVote_not_counted base now data yes st data' st' evs :
  AddVote base now data yes st = (false, data', st', evs) → st' = st.
Proof.
  unfold AddVote. destruct (GetVotesEnabled base); cbn [negb]; [|congruence].
  destruct (vote_state_ st); [destruct yes; cbn [negb]; congruence| |congruence].
  cbv zeta. repeat case_match; congruence.
Qed.

(** Every operation preserves the invariant. *)
Lemma vote_exec_inv now op st : vote_inv st → vote_inv (vote_exec now op st).
Proof.
  intros Hinv. destruct op; simpl.
  - by apply AddVote_inv.
  - unfold RemoveVote. by destruct (last_vote data).
  - eapply (outstanding_flush st); [done| | |done]; autorewrite with cvm; [done|].
    by rewrite fmap_app, fst_abort_all.
  - eapply (outstanding_flush st); [done| | |done]; autorewrite with cvm; [done|].
    by rewrite fmap_app, fst_complete_all.
  - by apply RunVoteHandler_inv.
Qed.

Lemma vote_new_inv : vote_inv vote_new.
Proof. unfold vote_inv, outstanding. simpl. by autorewrite with cvm. Qed.

Lemma vote_reachable_inv st : reachable vote_init vote_step st → vote_inv st.
Proof.
  revert st. apply reachable_invariant.
  - intros st ->. apply vote_new_inv.
  - intros st st' Hinv (now & op & <-). by apply vote_exec_inv.
Qed.
End VoteController.
Arguments vote_controller : clear implicits.

(** ** The tally of one round

    The users of a channel with their vote data, as [UserChannel] keeps them. *)

Section Tally.
Context {T : Type → Type} `{SteadyTimer T}.
Context {U : Type} `{Countable U}.
Context (vote_limit : Z).
Implicit Types (m : gmap U UserVoteData) (st : vote_controller T).

Definition has_vote (x : VoteDecision) (d : UserVoteData) : Z :=
  if decide (last_vote d = x) then 1 else 0.

Definition votes_for (x : VoteDecision) m : Z :=
  map_fold (λ _ d acc, (has_vote x d + acc)%Z) 0%Z m.

Lemma votes_for_insert x m u d :
  m !! u = None → votes_for x (<[u := d]> m) = (has_vote x d + votes_for x m)%Z.
Proof. intros Hu. unfold votes_for. rewrite map_fold_insert_L; [done| |done]. lia. Qed.

Lemma votes_for_delete x m u d :
  m !! u = Some d → votes_for x m = (has_vote x d + votes_for x (delete u m))%Z.
Proof.
  intros Hu. rewrite <- (insert_delete_id m u d) at 1 by done.
  apply votes_for_insert, lookup_delete_eq.
Qed.

Lemma votes_for_update x m u d d' :
  m !! u = Some d →
  votes_for x (<[u := d']> m) = (votes_for x m - has_vote x d + has_vote x d')%Z.
Proof.
  intros Hu. rewrite (votes_for_delete x m u d Hu).
  rewrite <- insert_delete_eq, votes_for_insert by apply lookup_delete_eq. lia.
Qed.

Lemma votes_for_undecided x m :
  x ≠ kUndecided → (∀ u d, m !! u = Some d → last_vote d = kUndecided) →
  votes_for x m = 0%Z.
Proof.
  intros Hx. induction m as [|u d m Hu Hfst IH] using map_first_key_ind; intros Hall.
  { done. }
  rewrite votes_for_insert by done. rewrite IH.
  - unfold has_vote. rewrite (Hall u d) by apply lookup_insert_eq.
    rewrite decide_False by done. done.
  - intros v e Hv. apply (Hall v e). rewrite lookup_insert_ne; [done|congruence].
Qed.

(** What can happen to the tally while the vote is open: a ballot, a user who
    leaves the channel, a user who joins it. *)
Inductive round_op :=
| cast (base : vote_base) (now : Z) (u : U) (voted_yes : bool)
| leave (u : U)
| join (u : U).

Definition round_exec (op : round_op) (w : vote_controller T * gmap U UserVoteData)
    : vote_controller T * gmap U UserVoteData :=
  let '(st, m) := w in
  match op with
  | cast base now u voted_yes =>
      match m !! u with
      | None => (st, m)
      | Some d =>
          let '(_, d', st', _) := AddVote vote_limit base now d voted_yes st in
          (st', <[u := d']> m)
      end
  | leave u =>
      match m !! u with
      | None => (st, m)
      | Some d => let '(_, _, st') := RemoveVote d st in (st', delete u m)
      end
  | join u =>
      match m !! u with
      | None => (st, <[u := no_vote_data]> m)
      | Some _ => (st, m)
      end
  end.

Definition all_undecided m : Prop :=
  ∀ u d, m !! u = Some d → last_vote d = kUndecided.

Definition tally_inv (w : vote_controller T * gmap U UserVoteData) : Prop :=
  if decide (vote_state_ w.1 = kVoting) then
    yes_vote_count_ w.1 = u32 (votes_for kYes w.2) ∧
    no_vote_count_ w.1 = u32 (votes_for kNo w.2)
  else all_undecided w.2.

Lemma AddVote_tally base now u d yes st m :
  m !! u = Some d → tally_inv (st, m) →
  let '(_, d', st', _) := AddVote vote_limit base now d yes st in
  tally_inv (st', <[u := d']> m).
Proof.
  intros Hu Hinv. unfold AddVote.
  destruct (GetVotesEnabled base); simpl; [|by rewrite insert_id].
  destruct (vote_state_ st) eqn:Hs; simpl.
  - unfold tally_inv in Hinv. simpl in Hinv. rewrite Hs in Hinv. simpl in Hinv.
    destruct yes; simpl; unfold tally_inv; simpl.
    + rewrite !(votes_for_update _ m u d) by done.
      rewrite !(votes_for_undecided _ m) by done.
      unfold has_vote. simpl. by rewrite (Hinv u d Hu).
    + by rewrite Hs, insert_id.
  - assert (Hkeep : ∀ a l, tally_inv (st, <[u := UserVote (last_vote d) a l]> m)).
    { intros a l. unfold tally_inv in *. simpl in *. rewrite Hs in *. simpl in *.
      rewrite !(votes_for_update _ m u d) by done.
      unfold has_vote; simpl. by rewrite !Z.sub_add. }
    destruct (_ || _); [apply Hkeep|]. simpl.
    case_decide as Hd; [apply Hkeep|].
    unfold tally_inv in *. simpl in *. rewrite Hs in *. simpl in *.
    destruct Hinv as [-> ->]. rewrite !(votes_for_update _ m u d) by done.
    unfold has_vote; simpl.
    destruct (last_vote d), yes; simpl in *; try done;
      autorewrite with u32; split; f_equal; lia.
  - by rewrite insert_id.
Qed.

Lemma RemoveVote_tally u d st m :
  m !! u = Some d → tally_inv (st, m) →
  let '(_, _, st') := RemoveVote d st in tally_inv (st', delete u m).
Proof.
  intros Hu Hinv.
  assert (Hund : all_undecided m → all_undecided (delete u m)).
  { intros Hall v e [_ Hv]%lookup_delete_Some. eauto. }
  unfold tally_inv in *. destruct (decide (vote_state_ (st, m).1 = kVoting)) as [Hs|Hs];
    simpl in *.
  - rewrite !(votes_for_delete _ m u d Hu) in Hinv. unfold has_vote in Hinv.
    destruct Hinv as [Hy Hn].
    unfold RemoveVote; destruct (last_vote d); simpl in *;
      rewrite decide_True by done; rewrite ?Hy, ?Hn; autorewrite with u32;
      split; f_equal; lia.
  - unfold RemoveVote. rewrite (Hinv u d Hu). simpl.
    rewrite decide_False by done. by apply Hund.
Qed.

Lemma round_exec_inv op w : tally_inv w → tally_inv (round_exec op w).
Proof.
  destruct w as [st m]. intros Hinv. destruct op as [base now u yes|u|u]; simpl;
    destruct (m !! u) as [d|] eqn:Hu; try done.
  - pose proof (AddVote_tally base now u d yes st m Hu Hinv) as Ht.
    by destruct (AddVote _ _ _ _ _ _) as [[[? ?] ?] ?].
  - pose proof (RemoveVote_tally u d st m Hu Hinv) as Ht.
    by destruct (RemoveVote _ _) as [[? ?] ?].
  - unfold tally_inv in *. simpl in *. case_decide.
    + by rewrite !votes_for_insert.
    + intros v e. rewrite lookup_insert_Some. intros [[<- <-]|[_ ?]]; [done|eauto].
Qed.

Lemma round_inv ops w : tally_inv w → tally_inv (foldl (flip round_exec) w ops).
Proof. revert w. induction ops; simpl; eauto using round_exec_inv. Qed.
End Tally.

(** ** Properties *)

Section VoteProperties.
Context {T : Type → Type} `{SteadyTimer T, !SteadyTimerLaws T}.
Context (vote_limit : Z).
Implicit Types (st : vote_controller T) (base : vote_base) (data : UserVoteData).

(** In every reachable state of the vote state machine exactly one
    handler is outstanding while a vote is open or cooling down, it is the
    handler of that phase, and none is outstanding when the controller is
    idle. *)
Theorem vote_single_handler st :
  reachable vote_init (vote_step vote_limit) st →
  outstanding st = handler_of (vote_state_ st).
Proof. apply (vote_reachable_inv vote_limit). Qed.

(** The handler of the open vote has been cancelled, and has not run yet. *)
Definition vote_stopped st : bool :=
  existsb (λ p, ec_is_error p.2) (posted (vote_timer_ st)).

(** C40: an open vote always ends.  Once its deadline has passed, the next
    handler closes it with the majority result (ties pass), reports that result
    and starts the cooldown, or goes straight to idle and reports that first
    when there is none; a vote that was stopped before its deadline, or whose
    votes have been disabled, ends idle and is reported as failed; and the
    cooldown ends in the idle state, whatever cancelled it.  When no vote is
    open and no cooldown runs there is no handler to run. *)
Theorem vote_always_ends st base now :
  reachable vote_init (vote_step vote_limit) st →
  let expired := with_vote_timer (elapse (vote_timer_ st)) st in
  let '(st', events) := RunVoteHandler base now expired in
  match vote_state_ st with
  | kIdle => st' = expired ∧ events = []
  | kCoolingdown => vote_state_ st' = kIdle ∧ events = [OnVoteIdle]
  | kVoting =>
      if GetVotesEnabled base && negb (vote_stopped st) then
        let passed := (no_vote_count_ st <=? yes_vote_count_ st)%Z in
        if (GetVoteCooldownTime base =? 0)%Z
        then vote_state_ st' = kIdle ∧ events = [OnVoteIdle; OnVoteEnd passed]
        else vote_state_ st' = kCoolingdown ∧ events = [OnVoteEnd passed] ∧
             expiry (vote_timer_ st') = (now + GetVoteCooldownTime base)%Z
      else vote_state_ st' = kIdle ∧ events = [OnVoteIdle; OnVoteEnd false]
  end.
Proof.
  intros Hinv expired. apply (vote_reachable_inv vote_limit) in Hinv. unfold vote_inv, outstanding in Hinv.
  assert (∃ ec, posted (vote_timer_ expired) = (λ h, (h, ec)) <$> handler_of (vote_state_ st) ∧
    (vote_state_ st = kVoting → vote_stopped st = ec_is_error ec)) as (ec & Hp & Hec).
  { unfold expired, vote_stopped. simpl. autorewrite with cvm.
    destruct (waits (vote_timer_ st)) as [|h l]; simpl in Hinv.
    - destruct (posted (vote_timer_ st)) as [|[h ec] r]; simpl in Hinv.
      { exists success. by destruct (vote_state_ st). }
      exists ec. destruct (vote_state_ st); simpl in *; try done; injection Hinv as -> ->%fmap_nil_inv;
        (split; [done|]); intros; by rewrite ?orb_false_r.
    - exists success. assert (posted (vote_timer_ st) = [] ∧ l = []) as [-> ->].
      { assert (Hn : l ++ (posted (vote_timer_ st)).*1 = []) by (destruct (vote_state_ st); by simplify_eq/=).
        apply app_nil in Hn as [-> Hn]. by apply fmap_nil_inv in Hn. }
      destruct (vote_state_ st); simpl in *; try done; by injection Hinv as ->. }
  unfold RunVoteHandler. rewrite Hp. destruct (vote_state_ st) eqn:Hs; simpl; [done| |done].
  rewrite Hec by done. unfold OnVoteTimeOver, expires_after.
  destruct (ec_is_error ec), (GetVotesEnabled base); simpl; try done.
  destruct (Z.eqb _ _); simpl; by autorewrite with cvm.
Qed.

(** C19: from the moment a vote opens with nobody having voted, and through
    any sequence of ballots, departures and arrivals, the two counters are
    exactly the numbers of users in the channel whose last vote is yes,
    respectively no (in 32 bits). *)
Theorem tally_is_exact `{Countable U} (m : gmap U UserVoteData) st (ops : list (round_op (U := U))) :
  vote_state_ st ≠ kVoting → all_undecided m →
  let '(st', m') := foldl (flip (round_exec vote_limit)) (st, m) ops in
  vote_state_ st' = kVoting →
  yes_vote_count_ st' = u32 (votes_for kYes m') ∧
  no_vote_count_ st' = u32 (votes_for kNo m').
Proof.
  intros Hs Hm.
  assert (Hinv : tally_inv (st, m)).
  { unfold tally_inv. simpl. by rewrite decide_False. }
  apply (round_inv vote_limit ops) in Hinv.
  destruct (foldl _ _ _) as [st' m']. intros Hv. unfold tally_inv in Hinv.
  simpl in Hinv. by rewrite decide_True in Hinv.
Qed.

(** The ballot rules.  Nothing is counted while votes are disabled or
    cooling down; the first ballot must be a yes and opens the vote with the
    tally 1:0; in an open vote a user's ballot is counted only when it
    differs from the previous one and the user is below the limit, which is
    permanent once reached. *)
Theorem AddVote_rules base now data voted_yes st :
  let '(counted, data', st', events) := AddVote vote_limit base now data voted_yes st in
  (counted = true ↔
    GetVotesEnabled base = true ∧
    match vote_state_ st with
    | kIdle => voted_yes = true
    | kVoting => voted_limit data = false ∧ (voted_amount data + 1 < vote_limit)%Z ∧
                 last_vote data ≠ vote_decision voted_yes
    | kCoolingdown => False
    end) ∧
  (counted = true → last_vote data' = vote_decision voted_yes ∧ vote_state_ st' = kVoting) ∧
  (counted = false → st' = st ∧ events = []) ∧
  (counted = true → vote_state_ st = kIdle →
    yes_vote_count_ st' = 1%Z ∧ no_vote_count_ st' = 0%Z ∧ events = [OnVoteStart] ∧
    expiry (vote_timer_ st') = (now + GetVoteTime base)%Z) ∧
  (voted_limit data = true → vote_state_ st = kVoting → GetVotesEnabled base = true →
    voted_limit data' = true).
Proof.
  unfold AddVote. destruct (GetVotesEnabled base); simpl; [|split_and!; naive_solver].
  destruct (vote_state_ st) eqn:Hs; simpl.
  - destruct voted_yes; simpl; [|split_and!; naive_solver].
    unfold expires_after. autorewrite with cvm. split_and!; naive_solver.
  - destruct (voted_limit data); simpl; [split_and!; naive_solver|].
    destruct (Z.leb_spec vote_limit (voted_amount data + 1)) as [Hl|Hl]; simpl.
    { split_and!; try naive_solver. split; [done|]. intros (_ & _ & ? & _). lia. }
    case_decide; simpl; split_and!; naive_solver.
  - split_and!; naive_solver.
Qed.
End VoteProperties.

(** ** Witnesses *)

Section VoteWitnesses.
Definition demo_base : vote_base := VoteBase true (from_s 60) (from_s 20).

Definition open_vote : vote_controller list_timer :=
  (AddVote 5 demo_base 0 no_vote_data true vote_new).1.2.

Lemma open_vote_reachable : reachable vote_init (vote_step 5) open_vote.
Proof.
  eapply reachable_step; [by apply reachable_init|].
  by exists 0%Z, (op_AddVote demo_base no_vote_data true).
Qed.

Lemma vote_single_handler_witness : outstanding open_vote = [vote_time_over].
Proof. exact (vote_single_handler 5 open_vote open_vote_reachable). Defined.

Lemma vote_always_ends_witness :
  let '(st', events) := RunVoteHandler demo_base (from_s 60)
    (with_vote_timer (elapse (vote_timer_ open_vote)) open_vote) in
  vote_state_ st' = kCoolingdown ∧ events = [OnVoteEnd true].
Proof.
  pose proof (vote_always_ends 5 open_vote demo_base (from_s 60) open_vote_reachable) as H.
  vm_compute in H. vm_compute. tauto.
Defined.

(** A second user's ballot counts in an open vote, and a repetition does not. *)
Lemma AddVote_rules_witness :
  (AddVote 5 demo_base 1 no_vote_data false open_vote).1.1.1 = true ∧
  (AddVote 5 demo_base 1 (UserVote kNo 1 false) false open_vote).1.1.1 = false.
Proof.
  split.
  - pose proof (AddVote_rules 5 demo_base 1 no_vote_data false open_vote) as H.
    vm_compute in H. vm_compute. tauto.
  - pose proof (AddVote_rules 5 demo_base 1 (UserVote kNo 1 false) false open_vote) as H.
    vm_compute in H. vm_compute. tauto.
Defined.

Definition three_voters : gmap nat UserVoteData :=
  <[1 := no_vote_data]> (<[2 := no_vote_data]> (<[3 := no_vote_data]> ∅)).

Lemma tally_is_exact_witness :
  let '(st', m') := foldl (flip (round_exec 5)) (vote_new (T := list_timer), three_voters)
    [cast demo_base 0 1 true; cast demo_base 1 2 false; leave 1; cast demo_base 2 3 false] in
  vote_state_ st' = kVoting → yes_vote_count_ st' = 0%Z ∧ no_vote_count_ st' = 2%Z.
Proof.
  apply (tally_is_exact 5 three_voters vote_new
    [cast demo_base 0 1 true; cast demo_base 1 2 false; leave 1; cast demo_base 2 3 false]);
    [done|].
  intros u d. unfold three_voters. rewrite !lookup_insert_Some, lookup_empty. naive_solver.
Defined.
End VoteWitnesses.
