(* ===== verification/ChatRoom.v ===== *)
(** * Chat history (src/CollabVmChatRoom.hpp)

    The room keeps its last hundred messages in a ring of preallocated slots:
    every slot owns a text buffer of the maximum length, into which a message
    is copied and padded with zero bytes.  The template arguments
    [MaxUsernameLen] and [MaxMessageLen] come from a submodule and are
    parameters.  Copying a longer string would write past the buffer; the
    model reports that as [None]. *)

From S2P Require Import Prelude.
From Stdlib Require Import Ascii String.
From stdpp Require Import list.

(** [CollabVmServerMessage::UserType]. *)
Inductive UserType := GUEST | REGULAR | ADMIN.

#[export] Instance UserType_eq_dec : EqDecision UserType.
Proof. solve_decision. Defined.

(** One element of the message list, and the message that is broadcast. *)
Record chat_message := ChatMessage {
  msg_sender : string;
  msg_message : string;
  msg_user_type : UserType;
  msg_timestamp : Z
}.

Record channel_chat_message := ChannelChatMessage {
  ccm_channel : Z;
  ccm_message : chat_message
}.

Definition max_chat_message_history : nat := 100.
Arguments max_chat_message_history : simpl never.

Fixpoint zeros (n : nat) : string :=
  match n with O => EmptyString | S n => String Ascii.zero (zeros n) end.

(** A zero-padded text of [n] bytes. *)
Definition padded (n : nat) (s : string) : string :=
  String.append s (zeros (n - String.length s)).

(** [std::copy] into the builder, then [std::fill] to its end. *)
Definition copyStringToTextBuilder (s text_builder : string) : option string :=
  if decide (String.length s ≤ String.length text_builder)
  then Some (String.append s (zeros (String.length text_builder - String.length s)))
  else None.

Section ChatRoom.
Context (MaxUsernameLen MaxMessageLen : nat).
(** The value of an enum field that was never set. *)
Context (default_user_type : UserType).

Record chat_room := ChatRoom {
  room_id : Z;
  next_message_offset_ : nat;
  channel_messages_count : nat;
  channel_messages_ : list chat_message
}.
Implicit Types room : chat_room.

Definition empty_slot : chat_message :=
  ChatMessage (zeros MaxUsernameLen) (zeros MaxMessageLen) default_user_type 0.

Definition chat_room_new (id : Z) : chat_room :=
  ChatRoom id 0 0 (replicate max_chat_message_history empty_slot).

Definition GetId room : Z := room_id room.

Definition AddUserMessage (username : string) (user_type : UserType)
    (message : string) (timestamp : Z) room : option (chat_room * channel_chat_message) :=
  let broadcast :=
    ChannelChatMessage (room_id room) (ChatMessage username message user_type timestamp) in
  let count := min (channel_messages_count room + 1) max_chat_message_history in
  let offset := next_message_offset_ room in
  slot ← channel_messages_ room !! offset;
  body ← copyStringToTextBuilder message (msg_message slot);
  sender ← copyStringToTextBuilder username (msg_sender slot);
  let slot := ChatMessage sender body (msg_user_type slot) timestamp in
  Some (ChatRoom (room_id room) ((offset + 1) mod max_chat_message_history) count
          (<[offset := slot]> (channel_messages_ room)),
        broadcast).

(** The loop of [GetChatHistory]: [n] messages from [message_index] on. *)
Fixpoint copy_history (messages : list chat_message) (n message_index : nat)
    : option (list chat_message) :=
  match n with
  | O => Some []
  | S n =>
      m ← messages !! message_index;
      rest ← copy_history messages n ((message_index + 1) mod length messages);
      Some (m :: rest)
  end.

Definition GetChatHistory room : option (list chat_message) :=
  let messages_count := channel_messages_count room in
  let message_index :=
    if decide (messages_count = max_chat_message_history)
    then next_message_offset_ room else 0 in
  copy_history (channel_messages_ room) messages_count message_index.

(** ** The specification: an unbounded log of which the room shows the end *)

Record chat_entry := ChatEntry {
  entry_username : string;
  entry_user_type : UserType;
  entry_message : string;
  entry_timestamp : Z
}.

(** How a logged message reads in the history. *)
Definition history_of (e : chat_entry) : chat_message :=
  ChatMessage (padded MaxUsernameLen (entry_username e))
    (padded MaxMessageLen (entry_message e)) default_user_type (entry_timestamp e).

Definition entry_fits (e : chat_entry) : Prop :=
  String.length (entry_username e) ≤ MaxUsernameLen ∧
  String.length (entry_message e) ≤ MaxMessageLen.

Fixpoint add_entries (es : list chat_entry) room : option chat_room :=
  match es with
  | [] => Some room
  | e :: es =>
      '(room, _) ← AddUserMessage (entry_username e) (entry_user_type e)
        (entry_message e) (entry_timestamp e) room;
      add_entries es room
  end.

(** The simulation between the ring and the log. *)
Record refines (log : list chat_entry) room : Prop := {
  refines_len : length (channel_messages_ room) = max_chat_message_history;
  refines_count : channel_messages_count room = min (length log) max_chat_message_history;
  refines_offset : next_message_offset_ room = length log mod max_chat_message_history;
  refines_slots : ∀ k e, log !! k = Some e →
    length log ≤ k + max_chat_message_history →
    channel_messages_ room !! (k mod max_chat_message_history) = Some (history_of e);
  refines_width : ∀ i s, channel_messages_ room !! i = Some s →
    String.length (msg_sender s) = MaxUsernameLen ∧
    String.length (msg_message s) = MaxMessageLen ∧
    msg_user_type s = default_user_type
}.

Lemma length_zeros n : String.length (zeros n) = n.
Proof. induction n; simpl; congruence. Qed.

Lemma length_append s t : String.length (String.append s t) = String.length s + String.length t.
Proof.
  induction s as [|a s IH]; [done|].
  change (S (String.length (String.append s t)) = S (String.length s + String.length t)).
  by rewrite IH.
Qed.

Lemma length_padded n s : String.length s ≤ n → String.length (padded n s) = n.
Proof. intros. unfold padded. rewrite length_append, length_zeros. lia. Qed.

Lemma copyStringToTextBuilder_padded s b n :
  String.length b = n → String.length s ≤ n →
  copyStringToTextBuilder s b = Some (padded n s).
Proof.
  intros <- Hs. unfold copyStringToTextBuilder, padded. by rewrite decide_True.
Qed.

Lemma refines_new id : refines [] (chat_room_new id).
Proof.
  split; [apply length_replicate|done|done|done|].
  intros i s [-> _]%lookup_replicate. simpl. by rewrite !length_zeros.
Qed.

(** Positions of the log that are less than a ring apart use different slots. *)
Lemma ring_distinct k n :
  k < n → n ≤ k + max_chat_message_history - 1 + 0 →
  n mod max_chat_message_history ≠ k mod max_chat_message_history.
Proof.
  unfold max_chat_message_history. intros Hk Hn Heq.
  rewrite (Nat.div_mod_eq n 100), (Nat.div_mod_eq k 100) in Hk, Hn. lia.
Qed.

Lemma AddUserMessage_refines log room e :
  refines log room → entry_fits e →
  ∃ room', AddUserMessage (entry_username e) (entry_user_type e) (entry_message e)
      (entry_timestamp e) room =
    Some (room', ChannelChatMessage (room_id room)
      (ChatMessage (entry_username e) (entry_message e) (entry_user_type e)
        (entry_timestamp e))) ∧
    room_id room' = room_id room ∧ refines (log ++ [e]) room'.
Proof.
  intros Href [Hu Hm]. unfold AddUserMessage.
  pose proof (refines_offset _ _ Href) as Hoff.
  assert (Hlt : next_message_offset_ room < max_chat_message_history)
    by (rewrite Hoff; apply Nat.mod_upper_bound; unfold max_chat_message_history; lia).
  destruct (lookup_lt_is_Some_2 (channel_messages_ room) (next_message_offset_ room))
    as [s Hs]; [by rewrite (refines_len _ _ Href)|].
  destruct (refines_width _ _ Href _ _ Hs) as (Hws & Hwm & Hut).
  rewrite Hs. cbn [mbind option_bind].
  rewrite (copyStringToTextBuilder_padded _ _ _ Hwm Hm). cbn [mbind option_bind].
  rewrite (copyStringToTextBuilder_padded _ _ _ Hws Hu). cbn [mbind option_bind].
  eexists. split; [reflexivity|]. split; [done|]. rewrite Hut.
  split; cbn [channel_messages_ channel_messages_count next_message_offset_].
  - by rewrite length_insert, (refines_len _ _ Href).
  - rewrite (refines_count _ _ Href), length_app. cbn [length]. lia.
  - rewrite Hoff, length_app. by rewrite Nat.Div0.add_mod_idemp_l.
  - intros k e'. rewrite lookup_snoc_cases, length_app. cbn [length].
    intros [[Hk Hke]|[-> ->]] Hnear.
    + rewrite list_lookup_insert_ne; [apply (refines_slots _ _ Href); [done|lia]|].
      rewrite Hoff. apply ring_distinct; [done|]. lia.
    + rewrite Hoff. apply list_lookup_insert_eq. by rewrite (refines_len _ _ Href), <- Hoff.
  - intros i s'. rewrite list_lookup_insert_Some.
    intros [(<- & <- & _)|[_ Hi]]; [|by apply (refines_width _ _ Href i)].
    simpl. by rewrite !length_padded.
Qed.

(** Nothing longer than the slot can be stored. *)
Lemma AddUserMessage_too_long log room e :
  refines log room → ¬ entry_fits e →
  AddUserMessage (entry_username e) (entry_user_type e) (entry_message e) (entry_timestamp e) room = None.
Proof.
  intros Href He. unfold AddUserMessage.
  destruct (channel_messages_ room !! next_message_offset_ room) as [s|] eqn:Hs; [|done].
  destruct (refines_width _ _ Href _ _ Hs) as (Hws & Hwm & _). simpl.
  unfold copyStringToTextBuilder. rewrite Hws, Hwm.
  unfold entry_fits in He. repeat case_decide; simpl; tauto.
Qed.

Lemma add_entries_refines es log room :
  refines log room → Forall entry_fits es →
  ∃ room', add_entries es room = Some room' ∧ refines (log ++ es) room'.
Proof.
  intros Href Hes. revert log room Href. induction Hes as [|e es He Hes IH]; intros log room Href.
  { exists room. by rewrite app_nil_r. }
  destruct (AddUserMessage_refines log room e Href He) as (room1 & Hadd & _ & Href1).
  simpl. rewrite Hadd. simpl. destruct (IH _ _ Href1) as (room' & -> & Href').
  exists room'. split; [done|]. by rewrite <- app_assoc in Href'.
Qed.

(** Reading [n] consecutive positions of the log through the ring. *)
Lemma copy_history_log log room k n :
  refines log room → k + n = length log → n ≤ max_chat_message_history →
  copy_history (channel_messages_ room) n (k mod max_chat_message_history)
    = Some (history_of <$> drop k log).
Proof.
  intros Href. revert k. induction n as [|n IH]; intros k Hlen Hn.
  { rewrite drop_ge by lia. done. }
  cbn [copy_history]. destruct (lookup_lt_is_Some_2 log k) as [e He]; [lia|].
  rewrite (refines_slots _ _ Href k e He) by lia. cbn [mbind option_bind].
  rewrite (refines_len _ _ Href).
  rewrite Nat.Div0.add_mod_idemp_l.
  rewrite Nat.add_1_r, (IH (S k)) by lia. cbn [mbind option_bind].
  by rewrite (drop_S _ _ _ He).
Qed.

Lemma GetChatHistory_log log room :
  refines log room →
  GetChatHistory room = Some (history_of <$> lastn max_chat_message_history log).
Proof.
  intros Href. unfold GetChatHistory, lastn.
  rewrite (refines_count _ _ Href), (refines_offset _ _ Href).
  case_decide as Hfull.
  - replace (length log mod max_chat_message_history)
      with ((length log - max_chat_message_history) mod max_chat_message_history).
    + apply (copy_history_log log); [done|lia|lia].
    + rewrite <- (Nat.Div0.mod_add (length log - _) 1). f_equal. lia.
  - replace (length log - max_chat_message_history) with 0 by lia.
    rewrite Nat.min_l by lia.
    exact (copy_history_log log room 0 (length log) Href eq_refl ltac:(lia)).
Qed.

(** C31: the chat room refines an unbounded log: after any messages that
    respect the length limits have been added, none of them having failed,
    the history sent to a new user is the last hundred of them, oldest
    first, with sender and text zero-padded to the maximum length.  The
    user type of a message is not part of the history. *)
Theorem chat_history_refines_log id es :
  Forall entry_fits es →
  ∃ room, add_entries es (chat_room_new id) = Some room ∧
    GetChatHistory room = Some (history_of <$> lastn max_chat_message_history es).
Proof.
  intros Hes. destruct (add_entries_refines es [] (chat_room_new id) (refines_new id) Hes)
    as (room & Hadd & Href).
  exists room. split; [done|]. by apply GetChatHistory_log.
Qed.

(** A message or a user name longer than the slot it is copied into is
    written past the end of the buffer: the room itself checks nothing, so
    the limits must be enforced by every caller. *)
Theorem AddUserMessage_overrun id es e :
  Forall entry_fits es → ¬ entry_fits e →
  add_entries (es ++ [e]) (chat_room_new id) = None.
Proof.
  intros Hes He.
  destruct (add_entries_refines es [] (chat_room_new id) (refines_new id) Hes)
    as (room & Hadd & Href).
  assert (Hsplit : ∀ r, add_entries (es ++ [e]) r = r' ← add_entries es r; add_entries [e] r').
  { clear. induction es as [|e' es IH]; intros r; [done|].
    cbn [add_entries app]. destruct (AddUserMessage _ _ _ _ r) as [[r' ?]|]; [apply IH|done]. }
  rewrite Hsplit, Hadd. cbn [add_entries mbind option_bind]. by rewrite (AddUserMessage_too_long _ _ _ Href He).
Qed.
End ChatRoom.

(** ** Witnesses *)

Definition demo_entry (n : nat) : chat_entry :=
  ChatEntry "guest1" GUEST "hi" (Z.of_nat n).

Lemma chat_history_refines_log_witness :
  ∃ room, add_entries (demo_entry <$> seq 0 103) (chat_room_new 8 4 GUEST 0) = Some room ∧
    GetChatHistory room =
      Some (history_of 8 4 GUEST <$> (demo_entry <$> seq 3 100)).
Proof.
  assert (Hlast : lastn max_chat_message_history (demo_entry <$> seq 0 103)
                  = demo_entry <$> seq 3 100) by (vm_compute; reflexivity).
  rewrite <- Hlast.
  apply (chat_history_refines_log 8 4 GUEST 0 (demo_entry <$> seq 0 103)).
  apply Forall_fmap, Forall_true. intros n. split; simpl; lia.
Defined.

Lemma AddUserMessage_overrun_witness :
  add_entries [demo_entry 1; ChatEntry "guest1" GUEST "hello" 2] (chat_room_new 8 4 GUEST 0) = None.
Proof.
  apply (AddUserMessage_overrun 8 4 GUEST 0 [demo_entry 1] (ChatEntry "guest1" GUEST "hello" 2)).
  - repeat constructor; simpl; lia.
  - intros [_ Hm]. simpl in Hm. lia.
Defined.
