(* ===== verification/Settings.v ===== *)
(** * Setting lists (Database::UpdateList, AdminVirtualMachine settings)

    A VM's and the server's configuration is a list with one element per
    member of a Cap'n Proto union, element [i] holding member [i].  The unions
    are generated from a schema in a submodule, so the member count, the
    ordinals and the accessors the source uses are the fields of the class
    [VmSchema]; a setting is the union's discriminant with an abstract value. *)

From S2P Require Import Prelude.
From Stdlib Require Import String Sorted.
From stdpp Require Import list.

Record setting (V : Type) := Setting { which : nat; value : V }.
Arguments Setting {V}.
Arguments which {V}.
Arguments value {V}.

#[export] Instance setting_eq_dec `{EqDecision V} : EqDecision (setting V).
Proof. solve_decision. Defined.

Section SettingLists.
Context {V : Type}.
(** The number of union members, and the value [DynamicStruct::clear] gives
    to a member. *)
Context (fields_count : nat) (clear_value : nat → V).
Implicit Types (s : setting V) (l : list (setting V)).

Definition cleared (i : nat) : setting V := Setting i (clear_value i).

(** [initReadVmConfigResponse(n)], [initServerSettings(n)]: every element is
    a fresh union, whose discriminant is the first member. *)
Definition InitSettings (n : nat) : list (setting V) := replicate n (cleared 0).

(** [DynamicStruct::which] knows the members of the schema only. *)
Definition known s : bool := bool_decide (which s < fields_count).

Definition same_type (t : nat) s : bool := Nat.eqb (which s) t.

(** One round of the loop of [Database::UpdateList]. *)
Definition UpdateElement (list_updates : list (setting V)) (new_list : list (setting V))
    (old_setting : setting V) : option (list (setting V)) :=
  let setting_type := which old_setting in
  if decide (setting_type < length new_list) then
    let keep := if known old_setting then <[setting_type := old_setting]> new_list else new_list in
    match List.find (same_type setting_type) list_updates with
    | Some updated_setting =>
        if known updated_setting
        then Some (<[setting_type := updated_setting]> new_list) else Some keep
    | None => Some keep
    end
  else None.

Fixpoint UpdateElements (list_updates old_list new_list : list (setting V))
    : option (list (setting V)) :=
  match old_list with
  | [] => Some new_list
  | old_setting :: old_list =>
      new_list ← UpdateElement list_updates new_list old_setting;
      UpdateElements list_updates old_list new_list
  end.

Definition UpdateList (old_list new_list list_updates : list (setting V))
    : option (list (setting V)) :=
  if decide (length old_list = length new_list)
  then UpdateElements list_updates old_list new_list else None.

(** [while (current != end && current->which() < i) current++] *)
Fixpoint skip_below (i : nat) l : list (setting V) :=
  match l with
  | s :: l' => if decide (which s < i) then skip_below i l' else l
  | [] => []
  end.

(** The merge loop of [VmState::GetInitialSettings] for the fields from [i]
    on; [n] of them remain. *)
Fixpoint merge_settings (n i : nat) (current : list (setting V)) : list (setting V) :=
  match n with
  | O => []
  | S n =>
      let current := skip_below i current in
      let s :=
        match current with
        | s :: _ => if decide (which s = i) then s else cleared i
        | [] => cleared i
        end in
      s :: merge_settings n (S i) current
  end.

Definition GetInitialSettings (initial_settings : list (setting V)) : list (setting V) :=
  if decide (length initial_settings = fields_count) then initial_settings
  else merge_settings fields_count 0 initial_settings.

(** ** Well-formed lists *)

Definition settings_wf l : Prop :=
  length l = fields_count ∧ ∀ i s, l !! i = Some s → which s = i.

(** The value of a member after the updates: the first update of that
    member, or the old value. *)
Definition pick (list_updates : list (setting V)) s : setting V :=
  match List.find (same_type (which s)) list_updates with
  | Some updated_setting => updated_setting
  | None => s
  end.

Lemma which_pick updates s : which (pick updates s) = which s.
Proof.
  unfold pick. destruct (List.find _ _) eqn:Hf; [|done].
  apply List.find_some in Hf as [_ Hf]. by apply Nat.eqb_eq in Hf.
Qed.

Lemma UpdateElement_pick updates new s :
  which s < length new → length new ≤ fields_count →
  UpdateElement updates new s = Some (<[which s := pick updates s]> new).
Proof.
  intros Hlt Hle. unfold UpdateElement, known. rewrite decide_True by done.
  pose proof (which_pick updates s) as Hw. unfold pick in *.
  destruct (List.find _ _); rewrite bool_decide_eq_true_2 by lia; done.
Qed.

Lemma UpdateElements_pick updates old k new :
  (∀ j s, old !! j = Some s → which s = k + j) →
  k + length old ≤ length new → length new ≤ fields_count →
  UpdateElements updates old new
    = Some (take k new ++ (pick updates <$> old) ++ drop (k + length old) new).
Proof.
  revert k new. induction old as [|s old IH]; intros k new Hold Hlen Hle; simpl in *.
  { by rewrite Nat.add_0_r, take_drop. }
  pose proof (Hold 0 s eq_refl) as Hs. rewrite Nat.add_0_r in Hs.
  rewrite UpdateElement_pick by lia. simpl.
  rewrite (IH (S k)).
  - f_equal. rewrite Hs, <- Nat.add_succ_comm, drop_insert_lt by lia.
    rewrite (take_S_r _ _ (pick updates s)) by (apply list_lookup_insert_eq; lia).
    rewrite take_insert_ge by lia. by rewrite <- app_assoc.
  - intros j t Ht. rewrite (Hold (S j) t Ht). lia.
  - rewrite length_insert. lia.
  - by rewrite length_insert.
Qed.

Lemma UpdateList_pick old new updates :
  settings_wf old → length new = fields_count →
  UpdateList old new updates = Some (pick updates <$> old).
Proof.
  intros [Hlen Hold] Hnew. unfold UpdateList. rewrite decide_True by congruence.
  rewrite (UpdateElements_pick updates old 0) by (try done; lia).
  simpl. rewrite drop_ge by lia. by rewrite app_nil_r.
Qed.

Lemma pick_settings_wf updates l : settings_wf l → settings_wf (pick updates <$> l).
Proof.
  intros [Hlen Hl]. split; [by rewrite length_fmap|].
  intros i s. rewrite list_lookup_fmap_Some. intros (t & -> & Ht).
  rewrite which_pick. by apply Hl.
Qed.

(** ** The merge *)

Definition ordered (l : list (setting V)) : Prop :=
  StronglySorted (λ s t, which s ≤ which t) l.

Lemma skip_below_suffix i l : ∃ pre, l = pre ++ skip_below i l ∧ Forall (λ s, which s < i) pre.
Proof.
  induction l as [|s l (pre & Hl & Hpre)]; simpl; [by exists []|].
  case_decide; [|by exists []]. exists (s :: pre). split; [by f_equal/=|by constructor].
Qed.

Lemma ordered_suffix pre l : ordered (pre ++ l) → ordered l.
Proof. induction pre; [done|]. inversion 1; auto. Qed.

Lemma find_app_not {A} (f : A → bool) (l1 l2 : list A) :
  Forall (λ x, f x = false) l1 → List.find f (l1 ++ l2) = List.find f l2.
Proof. induction 1 as [|x l Hx _ IH]; simpl; [done|]. by rewrite Hx. Qed.

(** In an ordered list, the element after the skip is the first one of the
    wanted type, or there is none. *)
Lemma find_after_skip i l :
  ordered l →
  List.find (same_type i) l =
    match skip_below i l with
    | s :: _ => if decide (which s = i) then Some s else None
    | [] => None
    end.
Proof.
  induction l as [|s l IH]; intros Hl; simpl; [done|].
  inversion Hl as [|? ? Hl' Hall]; subst.
  unfold same_type at 1. destruct (Nat.eqb_spec (which s) i) as [He|He].
  - rewrite decide_False by lia. by rewrite decide_True.
  - case_decide as Hlt; [by apply IH|]. rewrite decide_False by done.
    destruct (List.find _ l) eqn:Hf; [|done].
    apply List.find_some in Hf as [Hin Ht]. apply Nat.eqb_eq in Ht.
    rewrite Forall_forall in Hall. specialize (Hall _ (proj2 (list_elem_of_In _ _) Hin)). lia.
Qed.

Lemma find_skip_below i j l :
  i ≤ j → List.find (same_type j) (skip_below i l) = List.find (same_type j) l.
Proof.
  intros Hij. destruct (skip_below_suffix i l) as (pre & Hl & Hpre).
  rewrite Hl at 2. symmetry. apply find_app_not.
  eapply Forall_impl; [exact Hpre|]. intros s Hs. simpl in Hs.
  unfold same_type. apply Nat.eqb_neq. lia.
Qed.

Definition or_cleared (l : list (setting V)) (i : nat) : setting V :=
  default (cleared i) (List.find (same_type i) l).

Lemma merge_settings_spec n i l :
  ordered l → merge_settings n i l = or_cleared l <$> seq i n.
Proof.
  revert i l. induction n as [|n IH]; intros i l Hl; [done|].
  cbn [merge_settings seq fmap list_fmap].
  assert (Hord : ordered (skip_below i l)).
  { destruct (skip_below_suffix i l) as (pre & Heq & _). rewrite Heq in Hl.
    by apply ordered_suffix in Hl. }
  f_equal.
  - unfold or_cleared. rewrite (find_after_skip i l Hl).
    destruct (skip_below i l); [done|]. by case_decide.
  - rewrite IH by done. apply list_fmap_ext. intros k j Hj.
    apply lookup_seq in Hj as [-> Hj]. unfold or_cleared.
    by rewrite find_skip_below by lia.
Qed.

Lemma or_cleared_wf l : settings_wf (or_cleared l <$> seq 0 fields_count).
Proof.
  split; [by rewrite length_fmap, length_seq|].
  intros i s. rewrite list_lookup_fmap_Some. intros (j & -> & Hj).
  apply lookup_seq in Hj as [-> _]. unfold or_cleared. simpl.
  destruct (List.find _ _) eqn:Hf; simpl; [|done].
  apply List.find_some in Hf as [_ Hf]. by apply Nat.eqb_eq in Hf.
Qed.

(** Updating a well-formed configuration succeeds into any freshly
    initialised list of the right size, keeps it well formed, and gives
    every member the first update of that member, or its old value when
    there is none; updates of unknown members are ignored. *)
Theorem UpdateList_correct old updates :
  settings_wf old →
  ∃ new, UpdateList old (InitSettings fields_count) updates = Some new ∧
    settings_wf new ∧
    ∀ i s, old !! i = Some s →
      new !! i = Some (default s (List.find (same_type i) updates)).
Proof.
  intros Hwf. exists (pick updates <$> old).
  split; [apply UpdateList_pick; [done|apply length_replicate]|].
  split; [by apply pick_settings_wf|].
  intros i s Hs. rewrite list_lookup_fmap, Hs. simpl. unfold pick.
  rewrite (proj2 Hwf i s Hs). by destruct (List.find _ _).
Qed.

(** A new VM's configuration built from an incomplete, ordered list is
    complete and well formed: every member has its first given value or the
    schema default. *)
Theorem GetInitialSettings_correct initial :
  ordered initial → length initial ≠ fields_count →
  settings_wf (GetInitialSettings initial) ∧
  ∀ i, i < fields_count →
    GetInitialSettings initial !! i
      = Some (default (cleared i) (List.find (same_type i) initial)).
Proof.
  intros Hord Hne. unfold GetInitialSettings. rewrite decide_False by done.
  rewrite merge_settings_spec by done. split; [apply or_cleared_wf|].
  intros i Hi. rewrite list_lookup_fmap, lookup_seq_lt by done. done.
Qed.

(** A list that happens to have as many elements as the union has
    members is taken over verbatim, without looking at what its elements
    are: one element of the wrong member makes the stored configuration
    ill-formed. *)
Theorem GetInitialSettings_unchecked initial i s :
  length initial = fields_count → initial !! i = Some s → which s ≠ i →
  GetInitialSettings initial = initial ∧ ¬ settings_wf (GetInitialSettings initial).
Proof.
  intros Hlen Hs Hne. unfold GetInitialSettings. rewrite decide_True by done.
  split; [done|]. intros [_ Hwf]. by apply Hne, Hwf.
Qed.
End SettingLists.

(** ** The members of [VmSetting::Setting] the source reads *)

Inductive Protocol := RDP | VNC.

Class VmSchema (V : Type) := {
  vm_fields_count : nat;
  vm_clear_value : nat → V;
  TURNS_ENABLED : nat; getTurnsEnabled : V → bool;
  TURN_TIME : nat; getTurnTime : V → Z;
  VOTES_ENABLED : nat; getVotesEnabled : V → bool;
  VOTE_TIME : nat; getVoteTime : V → Z;
  VOTE_COOLDOWN_TIME : nat; getVoteCooldownTime : V → Z;
  DISALLOW_GUESTS : nat; getDisallowGuests : V → bool;
  DISALLOW_GUEST_VOTES : nat; getDisallowGuestVotes : V → bool;
  RECORDINGS_ENABLED : nat; getRecordingsEnabled : V → bool;
  AUTO_START : nat; getAutoStart : V → bool;
  RUN_START_COMMAND_AFTER_DISCONNECT : nat; getRunStartCommandAfterDisconnect : V → bool;
  NAME : nat; getName : V → string;
  DESCRIPTION : nat; getDescription : V → string;
  START_COMMAND : nat; getStartCommand : V → string;
  STOP_COMMAND : nat; getStopCommand : V → string;
  RESTART_COMMAND : nat; getRestartCommand : V → string;
  PROTOCOL : nat; getProtocol : V → Protocol;
  GUACAMOLE_PARAMETERS : nat; getGuacamoleParameters : V → list (string * string);
  OPERATING_SYSTEM : nat; getOperatingSystem : V → string;
  UPLOADS_ENABLED : nat; getUploadsEnabled : V → bool;
  RAM : nat; getRam : V → Z;
  DISK_SPACE : nat; getDiskSpace : V → Z;
  SAFE_FOR_WORK : nat; getSafeForWork : V → bool
}.

Section VmSettings.
Context `{VmSchema V}.
Implicit Types settings : list (setting V).

(** [settings_[which].getSetting()], for an index that is in range. *)
Definition GetSetting settings (w : nat) : V :=
  match settings !! w with Some s => value s | None => vm_clear_value w end.

(** The loop of assertions of [ValidateSettings]. *)
Fixpoint types_match (i : nat) settings : bool :=
  match settings with
  | [] => true
  | s :: settings => same_type i s && types_match (S i) settings
  end.

Definition ValidateSettings settings : option bool :=
  if types_match 0 settings then
    Some ((negb (getTurnsEnabled (GetSetting settings TURNS_ENABLED))
            || (0 <? getTurnTime (GetSetting settings TURN_TIME))%Z) &&
          (negb (getVotesEnabled (GetSetting settings VOTES_ENABLED))
            || (0 <? getVoteTime (GetSetting settings VOTE_TIME))%Z))
  else None.

Lemma types_match_wf k settings :
  (∀ i s, settings !! i = Some s → which s = k + i) → types_match k settings = true.
Proof.
  revert k. induction settings as [|s l IH]; intros k Hl; [done|]. simpl.
  apply andb_true_intro. split.
  - apply Nat.eqb_eq. rewrite (Hl 0 s eq_refl). lia.
  - apply IH. intros i t Ht. rewrite (Hl (S i) t Ht). lia.
Qed.

Lemma ValidateSettings_wf settings :
  settings_wf vm_fields_count settings → is_Some (ValidateSettings settings).
Proof.
  intros [_ Hwf]. unfold ValidateSettings. by rewrite types_match_wf.
Qed.
End VmSettings.

(** ** A concrete schema

    It shows that the class can be inhabited and lets the theorems about
    virtual machines be evaluated. *)

Inductive demo_value :=
| VBool (b : bool) | VNum (z : Z) | VText (s : string)
| VProtocol (p : Protocol) | VParams (l : list (string * string)).

Definition demo_bool (v : demo_value) : bool := match v with VBool b => b | _ => false end.
Definition demo_num (v : demo_value) : Z := match v with VNum z => z | _ => 0 end.
Definition demo_text (v : demo_value) : string := match v with VText s => s | _ => EmptyString end.
Definition demo_protocol (v : demo_value) : Protocol := match v with VProtocol p => p | _ => RDP end.
Definition demo_params (v : demo_value) : list (string * string) :=
  match v with VParams l => l | _ => [] end.

#[export] Instance demo_schema : VmSchema demo_value := {
  vm_fields_count := 22;
  vm_clear_value i :=
    if decide (i < 8) then VBool false
    else if decide (i < 13) then VNum 0
    else if decide (i = 20) then VProtocol RDP
    else if decide (i = 21) then VParams [] else VText EmptyString;
  TURNS_ENABLED := 0; getTurnsEnabled := demo_bool;
  VOTES_ENABLED := 1; getVotesEnabled := demo_bool;
  DISALLOW_GUESTS := 2; getDisallowGuests := demo_bool;
  DISALLOW_GUEST_VOTES := 3; getDisallowGuestVotes := demo_bool;
  RECORDINGS_ENABLED := 4; getRecordingsEnabled := demo_bool;
  AUTO_START := 5; getAutoStart := demo_bool;
  RUN_START_COMMAND_AFTER_DISCONNECT := 6; getRunStartCommandAfterDisconnect := demo_bool;
  UPLOADS_ENABLED := 7; getUploadsEnabled := demo_bool;
  TURN_TIME := 8; getTurnTime := demo_num;
  VOTE_TIME := 9; getVoteTime := demo_num;
  VOTE_COOLDOWN_TIME := 10; getVoteCooldownTime := demo_num;
  RAM := 11; getRam := demo_num;
  DISK_SPACE := 12; getDiskSpace := demo_num;
  NAME := 13; getName := demo_text;
  DESCRIPTION := 14; getDescription := demo_text;
  START_COMMAND := 15; getStartCommand := demo_text;
  STOP_COMMAND := 16; getStopCommand := demo_text;
  RESTART_COMMAND := 17; getRestartCommand := demo_text;
  OPERATING_SYSTEM := 18; getOperatingSystem := demo_text;
  SAFE_FOR_WORK := 19; getSafeForWork := demo_bool;
  PROTOCOL := 20; getProtocol := demo_protocol;
  GUACAMOLE_PARAMETERS := 21; getGuacamoleParameters := demo_params
}.

(** Every member at its default, except the given ones. *)
Definition demo_settings (given : list (setting demo_value)) : list (setting demo_value) :=
  pick given <$> (cleared vm_clear_value <$> seq 0 vm_fields_count).

Lemma demo_settings_wf given : settings_wf vm_fields_count (demo_settings given).
Proof.
  apply pick_settings_wf. split; [done|].
  intros i s. rewrite list_lookup_fmap_Some. intros (j & -> & Hj).
  by apply lookup_seq in Hj as [-> _].
Qed.

(** ** Witnesses *)

Lemma UpdateList_correct_witness :
  ∃ new, UpdateList vm_fields_count (demo_settings []) (InitSettings vm_clear_value 22)
      [Setting 8 (VNum 30); Setting 99 (VNum 1)] = Some new ∧
    new !! 8 = Some (Setting 8 (VNum 30)) ∧ settings_wf vm_fields_count new.
Proof.
  destruct (UpdateList_correct vm_fields_count vm_clear_value (demo_settings [])
    [Setting 8 (VNum 30); Setting 99 (VNum 1)] (demo_settings_wf []))
    as (new & Hnew & Hwf & Hl).
  exists new. split; [done|]. split; [|done].
  exact (Hl 8 (Setting 8 (VNum 0)) eq_refl).
Defined.

Lemma GetInitialSettings_correct_witness :
  GetInitialSettings vm_fields_count vm_clear_value
    [Setting 0 (VBool true); Setting 8 (VNum 30)] !! 8 = Some (Setting 8 (VNum 30)).
Proof.
  refine (proj2 (GetInitialSettings_correct vm_fields_count vm_clear_value
    [Setting 0 (VBool true); Setting 8 (VNum 30)] _ _) 8 _); simpl; [|lia|lia].
  repeat constructor; simpl; lia.
Defined.

Lemma GetInitialSettings_unchecked_witness :
  ¬ settings_wf vm_fields_count
      (GetInitialSettings vm_fields_count vm_clear_value (replicate 22 (Setting 0 (VBool true)))).
Proof.
  refine (proj2 (GetInitialSettings_unchecked vm_fields_count vm_clear_value
    (replicate 22 (Setting 0 (VBool true))) 1 (Setting 0 (VBool true)) _ _ _)); done.
Defined.
