(* ===== verification/Database.v ===== *)
(** * Accounts, sessions and invites (src/Database)

    The tables of the SQLite database are lists of rows in insertion order,
    with the constraints that the [CREATE TABLE] statements declare; every SQL
    statement of the source is one definition.  What SQLite and OpenSSL do
    outside the statements is a parameter: Argon2 ([hash_password]), the
    stream of random identifiers that the retry loops draw from, the clock,
    and how an empty vector is bound to a parameter ([bind_blob]; SQLite binds
    a null pointer as NULL). *)

From S2P Require Import Prelude.
From Stdlib Require Import String.
From stdpp Require Import list.

Abbreviation blob := (list Z).

Inductive LoginResult :=
| Login_SUCCESS | INVALID_CAPTCHA_TOKEN | INVALID_USERNAME | INVALID_PASSWORD
| ACCOUNT_DISABLED | TWO_FACTOR_REQUIRED.

Inductive RegisterAccountError :=
| Register_SUCCESS | Register_INVALID_CAPTCHA_TOKEN | USERNAME_TAKEN | USERNAME_INVALID
| PASSWORD_INVALID | TOTP_ERROR | INVITE_INVALID.

#[export] Instance LoginResult_eq_dec : EqDecision LoginResult.
Proof. solve_decision. Defined.
#[export] Instance RegisterAccountError_eq_dec : EqDecision RegisterAccountError.
Proof. solve_decision. Defined.

Definition password_hash_len : nat := 32.
Definition password_salt_len : nat := 32.
Definition totp_key_len : nat := 20.
Definition session_id_len : nat := 16.
Definition invite_id_len : nat := 32.
Definition max_password_len : nat := 160.

Record User := MkUser {
  user_id : Z;
  user_username : string;
  user_password_hash : blob;
  user_password_salt : blob;
  user_totp_key : blob;
  user_session_id : blob;
  user_registration_date : Z;
  user_registration_ip_address : blob;
  user_last_active_ip_address : blob;
  user_last_login : Z;
  user_last_failed_login : option Z;
  user_last_online : Z;
  user_failed_logins : Z;
  user_is_admin : bool;
  user_is_disabled : bool
}.

Record UserInvite := MkInvite {
  invite_id : blob;
  invite_username : string;
  invite_name : string;
  invite_is_admin : bool;
  invite_accepted : bool
}.

Record Recording := MkRecording {
  rec_vm_id : Z;
  rec_start_time : option Z;
  rec_stop_time : option Z;
  rec_file_path : string
}.

Record database := MkDatabase {
  users : list User;
  next_user_id : Z;
  invites : list UserInvite;
  unavailable_usernames : list string;
  recordings : list Recording
}.

Definition database_new : database := MkDatabase [] 1 [] [] [].

(** The exceptions of a failed statement that the source tells apart. *)
Inductive sql_error := constraint_primarykey | constraint_unique | constraint_notnull.

Definition sql_result (A : Type) : Type := (sql_error + A)%type.

Definition with_users (us : list User) (d : database) : database :=
  MkDatabase us (next_user_id d) (invites d) (unavailable_usernames d) (recordings d).
Definition with_invites (l : list UserInvite) (d : database) : database :=
  MkDatabase (users d) (next_user_id d) l (unavailable_usernames d) (recordings d).
Definition with_unavailable (l : list string) (d : database) : database :=
  MkDatabase (users d) (next_user_id d) (invites d) l (recordings d).
Definition with_recordings (l : list Recording) (d : database) : database :=
  MkDatabase (users d) (next_user_id d) (invites d) (unavailable_usernames d) l.

Section Database.
Context (hash_password : string → blob → blob).
Context (bind_blob : blob → option blob).
Implicit Types (d : database) (u : User).

Definition HashPassword (password : string) (salt : blob) : blob :=
  hash_password password salt.

(** [std::equal(stored.cbegin(), stored.cend(), computed.cbegin())]: the
    second range has no end, so a longer stored hash is read past the end of
    the computed one. *)
Fixpoint std_equal (stored computed : blob) : option bool :=
  match stored, computed with
  | [], _ => Some true
  | _ :: _, [] => None
  | a :: stored, b :: computed =>
      if decide (a = b) then std_equal stored computed else Some false
  end.

(** ** The [User] table *)

Definition not_null (b : blob) : bool := bool_decide (is_Some (bind_blob b)).

Definition user_not_null u : bool :=
  not_null (user_password_hash u) && not_null (user_password_salt u) &&
  not_null (user_registration_ip_address u) && not_null (user_last_active_ip_address u).

(** [SessionId BLOB(16) NULL UNIQUE]: two rows may only share NULL. *)
Definition session_conflict (us : list User) u : bool :=
  match bind_blob (user_session_id u) with
  | None => false
  | Some s => existsb (λ r, bool_decide (bind_blob (user_session_id r) = Some s)) us
  end.

Definition with_user_id (id : Z) u : User :=
  MkUser id (user_username u) (user_password_hash u) (user_password_salt u)
    (user_totp_key u) (user_session_id u) (user_registration_date u)
    (user_registration_ip_address u) (user_last_active_ip_address u)
    (user_last_login u) (user_last_failed_login u) (user_last_online u)
    (user_failed_logins u) (user_is_admin u) (user_is_disabled u).

(** [INSERT INTO User], with the row id that AUTOINCREMENT assigns. *)
Definition CreateUser u d : sql_result database :=
  if negb (user_not_null u) then inl constraint_notnull
  else if session_conflict (users d) u then inl constraint_unique
  else inr (MkDatabase (users d ++ [with_user_id (next_user_id d) u])
              (next_user_id d + 1) (invites d) (unavailable_usernames d) (recordings d)).

(** [UPDATE User SET ... WHERE Id = ?] *)
Definition UpdateUser u d : sql_result database :=
  if existsb (λ r, Z.eqb (user_id r) (user_id u)) (users d) then
    if negb (user_not_null u) then inl constraint_notnull
    else if session_conflict
              (List.filter (λ r, negb (Z.eqb (user_id r) (user_id u))) (users d)) u
    then inl constraint_unique
    else inr (with_users
                (map (λ r, if Z.eqb (user_id r) (user_id u) then u else r) (users d)) d)
  else inr d.

(** A NULL [LastFailedLogin] is read into a non-optional [Timestamp]. *)
Definition read_user u : User :=
  MkUser (user_id u) (user_username u) (user_password_hash u) (user_password_salt u)
    (user_totp_key u) (user_session_id u) (user_registration_date u)
    (user_registration_ip_address u) (user_last_active_ip_address u)
    (user_last_login u) (Some (default 0%Z (user_last_failed_login u))) (user_last_online u)
    (user_failed_logins u) (user_is_admin u) (user_is_disabled u).

Definition named (username : string) (u : User) : bool := String.eqb (user_username u) username.

(** The callback overwrites its result for every row: the last one stays. *)
Definition GetUser (username : string) d : option User :=
  read_user <$> last (List.filter (named username) (users d)).

(** ** Logging in *)

Definition Login (username password : string) d : option (LoginResult * blob) :=
  match GetUser username d with
  | None => Some (INVALID_USERNAME, [])
  | Some user =>
      if user_is_disabled user then Some (ACCOUNT_DISABLED, [])
      else
        let hash := HashPassword password (user_password_salt user) in
        equal ← std_equal (user_password_hash user) hash;
        if negb equal then Some (INVALID_PASSWORD, [])
        else match user_totp_key user with
             | [] => Some (Login_SUCCESS, [])
             | totp_key => Some (TWO_FACTOR_REQUIRED, totp_key)
             end
  end.

Definition with_password_hash (h : blob) u : User :=
  MkUser (user_id u) (user_username u) h (user_password_salt u)
    (user_totp_key u) (user_session_id u) (user_registration_date u)
    (user_registration_ip_address u) (user_last_active_ip_address u)
    (user_last_login u) (user_last_failed_login u) (user_last_online u)
    (user_failed_logins u) (user_is_admin u) (user_is_disabled u).

Definition ChangePassword (username old_password new_password : string) d
    : option (sql_result (bool * database)) :=
  match GetUser username d with
  | None => Some (inr (false, d))
  | Some user =>
      let old_hash := HashPassword old_password (user_password_salt user) in
      equal ← std_equal (user_password_hash user) old_hash;
      if negb equal then Some (inr (false, d))
      else
        let hash := HashPassword new_password (user_password_salt user) in
        match UpdateUser (with_password_hash hash user) d with
        | inl e => Some (inl e)
        | inr d => Some (inr (true, d))
        end
  end.

(** ** Sessions *)

Definition with_session (login_time : Z) (ip_address session_id : blob) u : User :=
  MkUser (user_id u) (user_username u) (user_password_hash u) (user_password_salt u)
    (user_totp_key u) session_id (user_registration_date u)
    (user_registration_ip_address u) ip_address
    login_time (user_last_failed_login u) (user_last_online u)
    (user_failed_logins u) (user_is_admin u) (user_is_disabled u).

Record session := MkSession {
  session_username : string;
  session_is_admin : bool;
  old_session_id : blob;
  new_session_id : blob
}.

Definition no_session : session := MkSession EmptyString false [] [].

(** The retry loop draws one identifier per round from [random]. *)
Fixpoint CreateSession (last_login : Z) (username : string) (ip_address : blob)
    (random : list blob) d : option (session * database) :=
  match random with
  | [] => None
  | new_id :: random =>
      match GetUser username d with
      | None => Some (no_session, d)
      | Some user =>
          if user_is_disabled user then Some (no_session, d)
          else
            let old_id := new_id in
            match UpdateUser (with_session last_login ip_address new_id user) d with
            | inl _ => CreateSession last_login username ip_address random d
            | inr d => Some (MkSession (user_username user) (user_is_admin user) old_id new_id, d)
            end
      end
  end.

(** ** Reserved names and invites *)

Definition CreateReservedUsername (username : string) d : bool * database :=
  if existsb (String.eqb username) (unavailable_usernames d) then (false, d)
  else (true, with_unavailable (unavailable_usernames d ++ [username]) d).

Definition GetReservedUsernamesCount d : Z := u32 (Z.of_nat (length (unavailable_usernames d))).
Definition ReadReservedUsernames d : list string := unavailable_usernames d.

Definition DeleteReservedUsername (username : string) d : bool * database :=
  (true, with_unavailable
           (List.filter (λ n, negb (String.eqb n username)) (unavailable_usernames d)) d).

Definition has_invite_id (id : blob) (i : UserInvite) : bool := bool_decide (invite_id i = id).

(** [INSERT INTO UserInvite]: the identifier is the primary key, and the user
    name, which is bound as a string and never as NULL, is unique. *)
Definition InsertInvite (i : UserInvite) d : sql_result database :=
  if existsb (has_invite_id (invite_id i)) (invites d) then inl constraint_primarykey
  else if existsb (λ r, String.eqb (invite_username r) (invite_username i)) (invites d)
  then inl constraint_unique
  else inr (with_invites (invites d ++ [i]) d).

Fixpoint CreateInviteLoop (name username : string) (is_admin : bool) (random : list blob) d
    : option (option blob * database) :=
  match random with
  | [] => None
  | id :: random =>
      match InsertInvite (MkInvite id username name is_admin false) d with
      | inr d => Some (Some id, d)
      | inl constraint_primarykey => CreateInviteLoop name username is_admin random d
      | inl _ => Some (None, d)
      end
  end.

Definition CreateInvite (name username : string) (is_admin : bool) (random : list blob) d
    : option (option blob * database) :=
  if negb (String.eqb username EmptyString) && existsb (named username) (users d)
  then Some (None, d)
  else CreateInviteLoop name username is_admin random d.

Definition ReadInvites d : list UserInvite := invites d.

Definition UpdateInvite (id : blob) (username : string) (is_admin : bool) d
    : sql_result (bool * database) :=
  if existsb (has_invite_id id) (invites d) then
    if existsb (λ r, negb (has_invite_id id r) && String.eqb (invite_username r) username)
         (invites d)
    then inl constraint_unique
    else inr (true, with_invites
           (map (λ r, if has_invite_id id r
                      then MkInvite (invite_id r) username (invite_name r) is_admin (invite_accepted r)
                      else r) (invites d)) d)
  else inr (false, d).

Definition DeleteInvite (id : blob) d : bool * database :=
  (existsb (has_invite_id id) (invites d),
   with_invites (List.filter (λ r, negb (has_invite_id id r)) (invites d)) d).

Definition open_invite (id : blob) (i : UserInvite) : bool :=
  has_invite_id id i && negb (invite_accepted i).

Definition ValidateInvite (id : blob) d : bool * string :=
  match List.find (open_invite id) (invites d) with
  | None => (false, EmptyString)
  | Some i => (true, invite_username i)
  end.

(** ** Registration *)

(** The statement also looks into the tables of reserved names and of invites,
    for its second and third parameter; but only the first is bound, the others
    are NULL, which no name is equal to. *)
Definition username_taken (username : string) d : bool :=
  let bound := [Some username; None; None] in
  let is_parameter i name := bool_decide (mjoin (bound !! i) = Some name) in
  existsb (λ u, is_parameter 0 (user_username u)) (users d) ||
  existsb (is_parameter 1) (unavailable_usernames d) ||
  existsb (λ i, is_parameter 2 (invite_username i)) (invites d).

(** [UPDATE UserInvite SET Accepted = 1 WHERE Id = ? AND Accepted = 0] *)
Definition accept_invite (id : blob) d : bool * database :=
  (existsb (open_invite id) (invites d),
   with_invites (map (λ i, if open_invite id i
     then MkInvite (invite_id i) (invite_username i) (invite_name i) (invite_is_admin i) true
     else i) (invites d)) d).

(** [SELECT IsAdmin FROM UserInvite WHERE Id = ?] *)
Definition invite_admin (id : blob) d : bool :=
  match List.find (has_invite_id id) (invites d) with
  | Some i => invite_is_admin i
  | None => false
  end.

Definition new_user (username password : string) (totp_key : option blob)
    (salt ip_address : blob) (now : Z) (is_admin : bool) : User :=
  MkUser 0 username (HashPassword password salt) salt (default [] totp_key) []
    now ip_address ip_address now None now 0 is_admin false.

Definition CreateAccount (username password : string) (totp_key invite_id : option blob)
    (ip_address : blob) (salt : blob) (now : Z) d : RegisterAccountError * database :=
  let create (is_admin : bool) d :=
    match CreateUser (new_user username password totp_key salt ip_address now is_admin) d with
    | inl _ => (USERNAME_TAKEN, d)
    | inr d => (Register_SUCCESS, d)
    end in
  match invite_id with
  | Some id =>
      let '(rows_modified, d) := accept_invite id d in
      if negb rows_modified then (INVITE_INVALID, d)
      else create (invite_admin id d) d
  | None =>
      if username_taken username d then (USERNAME_TAKEN, d)
      else create (bool_decide (users d = [])) d
  end.

(** ** Recordings *)

Definition SetRecordingStartStopTime (vm_id : Z) (file_path : string) (time : Z)
    (start_time : bool) d : sql_result database :=
  let same_file r := String.eqb (rec_file_path r) file_path in
  let same_key (vm : Z) r := Z.eqb (rec_vm_id r) vm && bool_decide (rec_start_time r = Some time) in
  match List.find same_file (recordings d) with
  | Some old =>
      if start_time && existsb (λ r, negb (same_file r) && same_key (rec_vm_id old) r) (recordings d)
      then inl constraint_primarykey
      else inr (with_recordings
             (map (λ r, if same_file r then
                     MkRecording (rec_vm_id r)
                       (if start_time then Some time else rec_start_time r)
                       (if start_time then rec_stop_time r else Some time) file_path
                   else r) (recordings d)) d)
  | None =>
      if start_time && existsb (same_key vm_id) (recordings d) then inl constraint_primarykey
      else inr (with_recordings (recordings d ++
             [MkRecording vm_id (if start_time then Some time else None)
                (if start_time then None else Some time) file_path]) d)
  end.

Definition SetRecordingStartTime (vm_id : Z) (file_path : string) (time : Z) d :=
  SetRecordingStartStopTime vm_id file_path time true d.
Definition SetRecordingStopTime (vm_id : Z) (file_path : string) (time : Z) d :=
  SetRecordingStartStopTime vm_id file_path time false d.

(** [ORDER BY StartTime ASC LIMIT 1] over the matching rows. *)
Definition earlier (a b : option Recording) : option Recording :=
  match a, b with
  | None, _ => b
  | _, None => a
  | Some x, Some y =>
      if (default 0 (rec_start_time y) <? default 0 (rec_start_time x))%Z then b else a
  end.

Definition in_range (vm_id start_time stop_time : Z) (r : Recording) : bool :=
  Z.eqb (rec_vm_id r) vm_id &&
  match rec_start_time r with
  | Some t => (start_time <=? t)%Z && (t <? stop_time)%Z
  | None => false
  end.

(** The path is empty when no row matches; a missing time reads as zero. *)
Definition GetRecordingFilePath (vm_id start_time stop_time : Z) d : string * Z * Z :=
  match foldr (λ r acc, earlier (if in_range vm_id start_time stop_time r then Some r else None) acc)
          None (recordings d) with
  | None => (EmptyString, 0%Z, 0%Z)
  | Some r => (rec_file_path r, default 0%Z (rec_start_time r), default 0%Z (rec_stop_time r))
  end.
End Database.

(** ** Lemmas *)

Section DatabaseLemmas.
Context (hash_password : string → blob → blob) (bind_blob : blob → option blob).
(** Argon2 is asked for [password_hash_len] bytes, and a non-empty vector is
    bound as it is. *)
Hypothesis hash_length : ∀ p s, length (hash_password p s) = password_hash_len.
Hypothesis bind_nonempty : ∀ b, b ≠ [] → bind_blob b = Some b.
Implicit Types (d : database) (u : User).

Lemma std_equal_same_length a b :
  length a = length b → std_equal a b = Some (bool_decide (a = b)).
Proof.
  revert b. induction a as [|x a IH]; intros [|y b] Hl; simplify_eq/=; [done|].
  destruct (decide (x = y)) as [->|Hne].
  - rewrite IH by done. f_equal. apply bool_decide_ext. naive_solver.
  - rewrite bool_decide_eq_false_2; [done|congruence].
Qed.

Lemma std_equal_refl a : std_equal a a = Some true.
Proof. induction a; simpl; [done|]. by rewrite decide_True. Qed.

Lemma filter_snoc {A} (f : A → bool) l x :
  List.filter f (l ++ [x]) = List.filter f l ++ (if f x then [x] else []).
Proof. rewrite List.filter_app. simpl. by destruct (f x). Qed.

Lemma last_snoc_some {A} (l : list A) x : last (l ++ [x]) = Some x.
Proof. apply last_snoc. Qed.

(** The last row with a name after an insertion at the end. *)
Lemma GetUser_snoc username d u l :
  users d = l ++ [u] → user_username u = username → GetUser username d = Some (read_user u).
Proof.
  intros Hl Hu. unfold GetUser. rewrite Hl, filter_snoc.
  unfold named. rewrite Hu, String.eqb_refl. by rewrite last_snoc.
Qed.

Lemma GetUser_None username d :
  existsb (named username) (users d) = false → GetUser username d = None.
Proof.
  intros Hn. unfold GetUser. revert Hn. generalize (users d). intros l Hn.
  enough (List.filter (named username) l = []) as -> by done.
  induction l as [|u l IH]; simpl in *; [done|].
  apply orb_false_iff in Hn as [-> Hn]. by apply IH.
Qed.

Lemma GetUser_In username d u :
  GetUser username d = Some u →
  ∃ r, In r (users d) ∧ u = read_user r ∧ user_username r = username.
Proof.
  unfold GetUser. intros (r & Hr & ->)%fmap_Some_1.
  apply last_Some_elem_of, list_elem_of_In, List.filter_In in Hr as [Hin Hn].
  exists r. split_and!; try done. by apply String.eqb_eq.
Qed.

(** Session identifiers are unique among the rows that have one. *)
Definition sessions_unique d : Prop :=
  ∀ i j r s b, users d !! i = Some r → users d !! j = Some s →
    bind_blob (user_session_id r) = Some b → bind_blob (user_session_id s) = Some b → i = j.

Definition ids_unique d : Prop :=
  ∀ i j r s, users d !! i = Some r → users d !! j = Some s → user_id r = user_id s → i = j.

Lemma session_conflict_false us u r b :
  session_conflict bind_blob us u = false → In r us →
  bind_blob (user_session_id u) = Some b → bind_blob (user_session_id r) ≠ Some b.
Proof.
  unfold session_conflict. intros Hc Hr Hb Hrb. rewrite Hb in Hc.
  assert (existsb (λ r, bool_decide (bind_blob (user_session_id r) = Some b)) us = true).
  { apply existsb_exists. exists r. split; [done|]. by apply bool_decide_eq_true. }
  congruence.
Qed.

Lemma CreateUser_sessions u d d' :
  sessions_unique d → CreateUser bind_blob u d = inr d' → sessions_unique d'.
Proof.
  intros Hs. unfold CreateUser. destruct (user_not_null _ _); [|done]. simpl.
  destruct (session_conflict _ _ _) eqn:Hc; [done|]. intros [= <-].
  intros i j r s b. cbn [users]. rewrite !lookup_snoc_cases.
  intros [[_ Hi]|[-> ->]] [[_ Hj]|[-> ->]] Hr Hsb; [by eapply Hs| | |done]; exfalso.
  - eapply session_conflict_false; [done| |exact Hsb|exact Hr].
    by apply list_elem_of_In, list_elem_of_lookup; exists i.
  - eapply session_conflict_false; [done| |exact Hr|exact Hsb].
    by apply list_elem_of_In, list_elem_of_lookup; exists j.
Qed.

Lemma UpdateUser_sessions u d d' :
  sessions_unique d → ids_unique d → UpdateUser bind_blob u d = inr d' →
  sessions_unique d' ∧ ids_unique d' ∧
  (existsb (λ r, Z.eqb (user_id r) (user_id u)) (users d) = true →
   users d' = map (λ r, if Z.eqb (user_id r) (user_id u) then u else r) (users d)).
Proof.
  intros Hs Hid. unfold UpdateUser. destruct (existsb _ _) eqn:He; [|by intros [= <-]].
  destruct (user_not_null _ _); [|done]. simpl.
  destruct (session_conflict _ _ _) eqn:Hc; [done|]. intros [= <-].
  split_and!; [| |done].
  - intros i j r s b. cbn [users with_users]. rewrite !list_lookup_fmap_Some.
    intros (r' & -> & Hr) (s' & -> & Hs').
    assert (Hnc : ∀ k t, users d !! k = Some t → user_id t ≠ user_id u →
              bind_blob (user_session_id u) = Some b → bind_blob (user_session_id t) ≠ Some b).
    { intros k t Ht Hne Hub. eapply session_conflict_false; [exact Hc| |exact Hub].
      apply List.filter_In. split; [by apply list_elem_of_In, list_elem_of_lookup; exists k|].
      apply negb_true_iff. by apply Z.eqb_neq. }
    destruct (Z.eqb_spec (user_id r') (user_id u)), (Z.eqb_spec (user_id s') (user_id u));
      intros Hb1 Hb2.
    + eapply Hid; [exact Hr|exact Hs'|congruence].
    + by destruct (Hnc j s').
    + by destruct (Hnc i r').
    + by eapply Hs.
  - intros i j r s. cbn [users with_users]. rewrite !list_lookup_fmap_Some.
    intros (r' & -> & Hr) (s' & -> & Hs') Heq. eapply (Hid i j r' s'); try done.
    destruct (Z.eqb_spec (user_id r') (user_id u)), (Z.eqb_spec (user_id s') (user_id u)); congruence.
Qed.
(** ** The database as a state machine *)

Inductive db_op :=
| OpCreateAccount (username password : string) (totp_key invite_id : option blob)
    (ip salt : blob) (now : Z)
| OpChangePassword (username old_password new_password : string)
| OpCreateSession (last_login : Z) (username : string) (ip : blob) (random : list blob)
| OpCreateReservedUsername (username : string)
| OpDeleteReservedUsername (username : string)
| OpCreateInvite (name username : string) (is_admin : bool) (random : list blob)
| OpUpdateInvite (id : blob) (username : string) (is_admin : bool)
| OpDeleteInvite (id : blob)
| OpSetRecording (vm_id : Z) (file_path : string) (time : Z) (start_time : bool).

(** A statement that fails leaves the tables as they were. *)
Definition or_same d (r : sql_result database) : database :=
  match r with inl _ => d | inr d' => d' end.

Definition db_exec (op : db_op) d : database :=
  match op with
  | OpCreateAccount n p k i ip salt now =>
      snd (CreateAccount hash_password bind_blob n p k i ip salt now d)
  | OpChangePassword n o p =>
      match ChangePassword hash_password bind_blob n o p d with
      | Some (inr (_, d')) => d'
      | _ => d
      end
  | OpCreateSession t n ip random => from_option snd d (CreateSession bind_blob t n ip random d)
  | OpCreateReservedUsername n => snd (CreateReservedUsername n d)
  | OpDeleteReservedUsername n => snd (DeleteReservedUsername n d)
  | OpCreateInvite nm n a random => from_option snd d (CreateInvite nm n a random d)
  | OpUpdateInvite id n a => match UpdateInvite id n a d with inl _ => d | inr (_, d') => d' end
  | OpDeleteInvite id => snd (DeleteInvite id d)
  | OpSetRecording vm f t b => or_same d (SetRecordingStartStopTime vm f t b d)
  end.

Definition db_reachable : database → Prop :=
  reachable (λ d, d = database_new) (λ d d', ∃ op, d' = db_exec op d).

(** The keys that the tables declare are keys. *)
Record db_wf d : Prop := {
  wf_ids : ids_unique d;
  wf_fresh : ∀ r, In r (users d) → (user_id r < next_user_id d)%Z;
  wf_sessions : sessions_unique d;
  wf_not_null : ∀ r, In r (users d) → user_not_null bind_blob r = true;
  wf_invite_ids : NoDup (invite_id <$> invites d);
  wf_invite_names : NoDup (invite_username <$> invites d);
  wf_reserved : NoDup (unavailable_usernames d);
}.

Lemma CreateUser_wf u d d' : db_wf d → CreateUser bind_blob u d = inr d' → db_wf d'.
Proof.
  intros Hwf Hc. pose proof (CreateUser_sessions _ _ _ (wf_sessions _ Hwf) Hc) as Hs.
  revert Hc. unfold CreateUser. destruct (user_not_null _ _) eqn:Hnn; [|done]. simpl.
  destruct (session_conflict _ _ _); [done|]. intros [= <-].
  destruct Hwf as [Hids Hfresh _ Hnull Hi Hn Hr]. constructor; simpl; try done.
  - intros i j r s. cbn [users]. rewrite !lookup_snoc_cases.
    intros [[_ Hri]|[-> ->]] [[_ Hsj]|[-> ->]]; simpl; intros Heq; [by eapply Hids| | |done].
    + apply list_elem_of_lookup_2, list_elem_of_In, Hfresh in Hri. lia.
    + apply list_elem_of_lookup_2, list_elem_of_In, Hfresh in Hsj. lia.
  - intros r [Hin|[<-|[]]]%List.in_app_iff; [apply Hfresh in Hin|simpl]; lia.
  - intros r [Hin|[<-|[]]]%List.in_app_iff; [by apply Hnull|done].
Qed.

Lemma UpdateUser_wf u d d' : db_wf d → UpdateUser bind_blob u d = inr d' → db_wf d'.
Proof.
  intros Hwf Hu.
  pose proof (UpdateUser_sessions _ _ _ (wf_sessions _ Hwf) (wf_ids _ Hwf) Hu) as (Hs & Hid & _).
  revert Hu. unfold UpdateUser. destruct (existsb _ _); [|by intros [= <-]].
  destruct (user_not_null _ _) eqn:Hnn; [|done]. simpl.
  destruct (session_conflict _ _ _); [done|]. intros [= <-].
  destruct Hwf as [_ Hfresh _ Hnull Hi Hn Hr]. constructor; simpl; try done;
    intros r (r' & <- & Hr')%List.in_map_iff;
    destruct (Z.eqb_spec (user_id r') (user_id u)) as [He|_]; auto.
  rewrite <-He. auto.
Qed.

(** Rewriting the invites with their identifiers and names kept. *)
Lemma with_invites_wf l d :
  db_wf d → NoDup (invite_id <$> l) → NoDup (invite_username <$> l) → db_wf (with_invites l d).
Proof. intros [] ??. by constructor. Qed.

Lemma accept_invite_wf id d : db_wf d → db_wf (snd (accept_invite id d)).
Proof.
  intros Hwf. simpl. apply with_invites_wf; [done| |];
    rewrite <-list_fmap_compose; erewrite list_fmap_ext; try apply Hwf;
    intros ???; simpl; by destruct (open_invite _ _).
Qed.

Lemma CreateAccount_wf n p k i ip salt now d :
  db_wf d → db_wf (snd (CreateAccount hash_password bind_blob n p k i ip salt now d)).
Proof.
  intros Hwf. unfold CreateAccount. destruct i as [id|].
  - pose proof (accept_invite_wf id d Hwf) as Hwf'.
    destruct (accept_invite id d) as [[] d'] eqn:Ha; simpl in *; [|done].
    destruct (CreateUser _ _ _) eqn:Hc; [done|]. by eapply CreateUser_wf.
  - destruct (username_taken n d); [done|].
    destruct (CreateUser _ _ _) eqn:Hc; [done|]. by eapply CreateUser_wf.
Qed.

Lemma ChangePassword_wf n o p b d d' :
  db_wf d → ChangePassword hash_password bind_blob n o p d = Some (inr (b, d')) → db_wf d'.
Proof.
  intros Hwf. unfold ChangePassword. destruct (GetUser n d) as [u|]; [|by intros [= <- <-]].
  destruct (std_equal _ _) as [[]|]; simpl; [|by intros [= <- <-]|done].
  destruct (UpdateUser _ _ _) eqn:Hu; [done|]. intros [= <- <-]. by eapply UpdateUser_wf.
Qed.

Lemma CreateSession_wf t n ip random s d d' :
  db_wf d → CreateSession bind_blob t n ip random d = Some (s, d') → db_wf d'.
Proof.
  intros Hwf. induction random as [|id random IH]; simpl; [done|].
  destruct (GetUser n d) as [u|]; [|by intros [= <- <-]].
  destruct (user_is_disabled u); [by intros [= <- <-]|].
  destruct (UpdateUser _ _ _) eqn:Hu; [done|]. intros [= <- <-]. by eapply UpdateUser_wf.
Qed.

Lemma filter_names_nodup {A B} `{EqDecision B} (f : A → B) (g : A → bool) (l : list A) :
  NoDup (f <$> l) → NoDup (f <$> List.filter g l).
Proof.
  induction l as [|x l IH]; simpl; [done|].
  intros [Hx Hl]%list.NoDup_cons. destruct (g x); simpl; [|by apply IH].
  apply list.NoDup_cons. split; [|by apply IH].
  intros (y & Hxy & Hy)%list_elem_of_fmap. apply Hx. rewrite Hxy.
  apply list_elem_of_In, List.filter_In in Hy as [Hy _].
  apply list_elem_of_fmap_2. by apply list_elem_of_In.
Qed.

Lemma existsb_false {A} (f : A → bool) l : existsb f l = false → ∀ x, In x l → f x = false.
Proof.
  intros He x Hx. destruct (f x) eqn:Hf; [|done].
  assert (existsb f l = true) by (apply existsb_exists; by exists x). congruence.
Qed.

Lemma nodup_snoc_new {A} (l : list A) x : NoDup l → ¬ In x l → NoDup (l ++ [x]).
Proof.
  intros Hl Hx. apply NoDup_app. split_and!; [done| |apply NoDup_singleton].
  intros y Hy ->%list_elem_of_singleton. by apply Hx, list_elem_of_In.
Qed.

Lemma InsertInvite_wf i d d' : db_wf d → InsertInvite i d = inr d' → db_wf d'.
Proof.
  intros Hwf. unfold InsertInvite.
  destruct (existsb (has_invite_id _) _) eqn:Hid; [done|].
  destruct (existsb (λ r, String.eqb (invite_username r) _) _) eqn:Hnm; [done|]. intros [= <-].
  apply with_invites_wf; [done| |]; rewrite fmap_app; apply nodup_snoc_new; try apply Hwf;
    intros (x & Hx & Hin)%List.in_map_iff.
  - apply existsb_false with (x := x) in Hid; [|done].
    by apply bool_decide_eq_false in Hid.
  - apply existsb_false with (x := x) in Hnm; [|done].
    by apply String.eqb_neq in Hnm.
Qed.

Lemma CreateInvite_wf nm n a random r d d' :
  db_wf d → CreateInvite nm n a random d = Some (r, d') → db_wf d'.
Proof.
  intros Hwf. unfold CreateInvite. destruct (_ && _); [by intros [= <- <-]|].
  induction random as [|id random IH]; simpl; [done|].
  destruct (InsertInvite _ _) as [[]|] eqn:Hi; [done|by intros [= <- <-]|by intros [= <- <-]|].
  intros [= <- <-]. by eapply InsertInvite_wf.
Qed.

Lemma UpdateInvite_wf id n a b d d' :
  db_wf d → UpdateInvite id n a d = inr (b, d') → db_wf d'.
Proof.
  intros Hwf. unfold UpdateInvite. destruct (existsb (has_invite_id _) _); [|by intros [= <- <-]].
  destruct (existsb (λ r, negb _ && _) _) eqn:Hnm; [done|]. intros [= <- <-].
  pose proof (wf_invite_ids _ Hwf) as Hids. pose proof (wf_invite_names _ Hwf) as Hns.
  apply with_invites_wf; [done| |].
  - rewrite <-list_fmap_compose. erewrite list_fmap_ext; [exact Hids|].
    intros ???; simpl; by destruct (has_invite_id _ _).
  - clear Hwf. induction (invites d) as [|i l IH]; simpl in *; [apply NoDup_nil_2|].
    apply orb_false_iff in Hnm as [Hi Hnm].
    apply list.NoDup_cons in Hids as [Hid Hids], Hns as [Hin Hns].
    apply list.NoDup_cons. split; [|by apply IH].
    rewrite <-list_fmap_compose. intros (j & Hj & Hjl)%list_elem_of_fmap. simpl in Hj.
    assert (Hne : invite_id i ≠ invite_id j) by (intros He; apply Hid; rewrite He; by apply list_elem_of_fmap_2).
    assert (Hun : invite_username i ≠ invite_username j) by (intros He; apply Hin; rewrite He; by apply list_elem_of_fmap_2).
    apply list_elem_of_In in Hjl. apply existsb_false with (x := j) in Hnm; [|done].
    unfold has_invite_id in *.
    do 2 case_bool_decide; simplify_eq/=; try (apply String.eqb_neq in Hi); try (apply String.eqb_neq in Hnm);
      congruence.
Qed.

Lemma db_exec_wf op d : db_wf d → db_wf (db_exec op d).
Proof.
  intros Hwf. destruct op; cbn [db_exec].
  - by apply CreateAccount_wf.
  - destruct (ChangePassword _ _ _ _ _ d) as [[|[]]|] eqn:Hc; [done| |done].
    by eapply ChangePassword_wf.
  - destruct (CreateSession _ _ _ _ _ d) as [[]|] eqn:Hc; [|done]. by eapply CreateSession_wf.
  - unfold CreateReservedUsername. destruct (existsb _ _) eqn:He; [done|].
    destruct Hwf. constructor; try done. simpl. apply nodup_snoc_new; [done|].
    intros Hin. apply existsb_false with (x := username) in He; [|done].
    by rewrite String.eqb_refl in He.
  - destruct Hwf. constructor; try done. simpl.
    rewrite <-(list_fmap_id (List.filter _ _)). apply filter_names_nodup. by rewrite list_fmap_id.
  - destruct (CreateInvite _ _ _ _ d) as [[]|] eqn:Hc; [|done]. by eapply CreateInvite_wf.
  - destruct (UpdateInvite _ _ _ d) as [|[]] eqn:Hc; [done|]. by eapply UpdateInvite_wf.
  - simpl. apply with_invites_wf; [done| |]; apply filter_names_nodup; apply Hwf.
  - unfold SetRecordingStartStopTime. repeat case_match; simplify_eq/=; destruct Hwf; by constructor.
Qed.

Lemma database_new_wf : db_wf database_new.
Proof. constructor; try apply NoDup_nil_2; try done; intros ?????; done. Qed.

(** ** Reading a row back after an update *)

Lemma filter_named_map n u d l :
  (∀ r, In r l → user_id r = user_id u → named n r = named n u) →
  List.filter (named n) (map (λ r, if Z.eqb (user_id r) (user_id u) then u else r) l) =
  map (λ r, if Z.eqb (user_id r) (user_id u) then u else r) (List.filter (named n) l).
Proof.
  induction l as [|r l IH]; intros Hl; simpl; [done|].
  pose proof (Hl r (or_introl eq_refl)) as Hr.
  destruct (Z.eqb_spec (user_id r) (user_id u)) as [He|He].
  - rewrite (Hr He), IH by (intros; apply Hl; simpl; auto).
    destruct (named n u); simpl; [|done].
    by rewrite (proj2 (Z.eqb_eq _ _) He).
  - rewrite IH by (intros; apply Hl; simpl; auto).
    destruct (named n r); simpl; [|done].
    by rewrite (proj2 (Z.eqb_neq _ _) He).
Qed.

Lemma ids_unique_In d r s :
  ids_unique d → In r (users d) → In s (users d) → user_id r = user_id s → r = s.
Proof.
  intros Hid (i & Hi)%list_elem_of_In%list_elem_of_lookup
    (j & Hj)%list_elem_of_In%list_elem_of_lookup He.
  pose proof (Hid i j r s Hi Hj He). congruence.
Qed.

(** Writing back a row that was read, under its own name, changes what is
    read under that name and nothing else. *)
Lemma UpdateUser_GetUser n u0 u d d' :
  db_wf d → GetUser n d = Some u0 → user_id u = user_id u0 → user_username u = n →
  UpdateUser bind_blob u d = inr d' →
  GetUser n d' = Some (read_user u) ∧ (∀ n', n' ≠ n → GetUser n' d' = GetUser n' d).
Proof.
  intros Hwf Hg Hid Hn Hu.
  pose proof (UpdateUser_sessions _ _ _ (wf_sessions _ Hwf) (wf_ids _ Hwf) Hu) as (_ & _ & Hus).
  pose proof (GetUser_In _ _ _ Hg) as (r0 & Hr0 & -> & Hn0). simpl in Hid.
  assert (Hnm : ∀ m r, In r (users d) → user_id r = user_id u → named m r = named m u).
  { intros m r Hr He. rewrite (ids_unique_In d r r0); try done; [|apply Hwf|congruence].
    unfold named. by rewrite Hn0, Hn. }
  unfold GetUser in *. split; [|intros n' Hne];
    rewrite Hus by (apply existsb_exists; exists r0; split; [done|by apply Z.eqb_eq]);
    rewrite filter_named_map by (done || by apply Hnm);
    change (map ?f ?l) with (f <$> l); rewrite fmap_last.
  - apply fmap_Some in Hg as (r1 & Hl & He1). rewrite Hl. simpl.
    assert (user_id r1 = user_id u) as ->
      by (apply (f_equal user_id) in He1; simpl in He1; congruence).
    by rewrite Z.eqb_refl.
  - destruct (last (List.filter (named n') (users d))) as [r|] eqn:Hl; simpl; [|done].
    apply last_Some_elem_of, list_elem_of_In, List.filter_In in Hl as [Hr Hnr].
    destruct (Z.eqb_spec (user_id r) (user_id u)) as [He|_]; [|done].
    rewrite (Hnm n' r Hr He) in Hnr. unfold named in Hnr. apply String.eqb_eq in Hnr. congruence.
Qed.

(** What [Login] answers is determined by the row and the password's hash. *)
Definition login_answer (u : User) (p : string) : option (LoginResult * blob) :=
  if user_is_disabled u then Some (ACCOUNT_DISABLED, [])
  else if bool_decide (hash_password p (user_password_salt u) = user_password_hash u)
  then Some (match user_totp_key u with [] => (Login_SUCCESS, []) | k => (TWO_FACTOR_REQUIRED, k) end)
  else Some (INVALID_PASSWORD, []).

Lemma Login_answer n p u d :
  GetUser n d = Some u → length (user_password_hash u) = password_hash_len →
  Login hash_password n p d = login_answer u p.
Proof.
  intros Hg Hl. unfold Login, login_answer, HashPassword. rewrite Hg.
  destruct (user_is_disabled u); [done|].
  rewrite std_equal_same_length by (by rewrite hash_length).
  simpl. destruct (decide (hash_password p (user_password_salt u) = user_password_hash u)) as [He|He].
  - rewrite !bool_decide_eq_true_2 by done. by destruct (user_totp_key u).
  - by rewrite !bool_decide_eq_false_2 by congruence.
Qed.

Lemma CreateUser_GetUser u d d' :
  CreateUser bind_blob u d = inr d' →
  GetUser (user_username u) d' = Some (read_user (with_user_id (next_user_id d) u)) ∧
  (∀ n', n' ≠ user_username u → GetUser n' d' = GetUser n' d).
Proof.
  unfold CreateUser. destruct (user_not_null _ _); [|done]. simpl.
  destruct (session_conflict _ _ _); [done|]. intros [= <-]. split.
  - by eapply GetUser_snoc.
  - intros n' Hne. unfold GetUser. simpl. rewrite filter_snoc. unfold named at 2. simpl.
    rewrite (proj2 (String.eqb_neq _ _)) by congruence. by rewrite app_nil_r.
Qed.

(** A successful registration is the insertion of one user, after the invite,
    if there is one, has been marked as accepted. *)
Lemma CreateAccount_success n p k i ip salt now d d' :
  CreateAccount hash_password bind_blob n p k i ip salt now d = (Register_SUCCESS, d') →
  let '(admin, d1) :=
    match i with
    | None => (bool_decide (users d = []), d)
    | Some id => (invite_admin id (snd (accept_invite id d)), snd (accept_invite id d))
    end in
  (i = None → username_taken n d = false) ∧
  CreateUser bind_blob (new_user hash_password n p k salt ip now admin) d1 = inr d'.
Proof.
  unfold CreateAccount. destruct i as [id|].
  - destruct (accept_invite id d) as [b d1] eqn:Ha. destruct b; simpl; [|done].
    destruct (CreateUser _ _ d1) eqn:Hc; [done|]. by intros [= <-].
  - destruct (username_taken n d); [done|].
    destruct (CreateUser _ _ d) eqn:Hc; [done|]. by intros [= <-].
Qed.

Lemma username_taken_users n d : username_taken n d = existsb (named n) (users d).
Proof.
  unfold username_taken. cbn.
  assert (∀ {A} (l : list A), existsb (λ _, false) l = false) as Hnone by (intros A l; by induction l).
  rewrite !Hnone, !orb_false_r. induction (users d) as [|u l IH]; [done|]. simpl. rewrite IH. f_equal.
  unfold named. destruct (String.eqb_spec (user_username u) n); case_bool_decide; congruence.
Qed.

(** *** Properties *)

(** The declared keys hold in every database that the operations lead to. *)
Lemma db_reachable_wf : ∀ d, db_reachable d → db_wf d.
Proof.
  apply reachable_invariant.
  - intros d ->. apply database_new_wf.
  - intros d d' Hwf [op ->]. by apply db_exec_wf.
Qed.

(** Without an invite, what is reserved is not looked at. *)
Lemma CreateAccount_reserved n p k ip salt now reserved d :
  (CreateAccount hash_password bind_blob n p k None ip salt now (with_unavailable reserved d)).1
  = (CreateAccount hash_password bind_blob n p k None ip salt now d).1.
Proof.
  unfold CreateAccount. rewrite !username_taken_users. cbn. destruct (existsb _ _); [done|].
  unfold CreateUser. destruct (user_not_null _ _); [|done]. unfold session_conflict. cbn.
  destruct (bind_blob []) as [b|]; [|done]. by destruct (existsb _ _).
Qed.

(** C37: after a registration succeeds, logging in with the registered name
    succeeds (or asks for the second factor with the registered key) exactly
    when the password hashes to the stored hash, what every other name gets
    is unchanged, the account is an administrator's if the invite says so or it
    is the first one, and a registration without an invite only succeeds for a
    name that no account has - but it does whether or not the name is
    reserved. *)
Theorem register_then_login n p k i ip salt now d d' :
  CreateAccount hash_password bind_blob n p k i ip salt now d = (Register_SUCCESS, d') →
  (∀ p', Login hash_password n p' d' =
     if bool_decide (hash_password p' salt = hash_password p salt)
     then Some (match default [] k with [] => (Login_SUCCESS, []) | key => (TWO_FACTOR_REQUIRED, key) end)
     else Some (INVALID_PASSWORD, [])) ∧
  (∀ n' p', n' ≠ n → Login hash_password n' p' d' = Login hash_password n' p' d) ∧
  (i = None → GetUser n d = None ∧ ∀ reserved,
     (CreateAccount hash_password bind_blob n p k i ip salt now (with_unavailable reserved d)).1
       = Register_SUCCESS) ∧
  (∃ u, GetUser n d' = Some u ∧
     user_is_admin u =
       match i with None => bool_decide (users d = []) | Some id => invite_admin id d end).
Proof.
  intros Hc0. pose proof (CreateAccount_success _ _ _ _ _ _ _ _ _ Hc0) as Hc.
  assert (Hadm : ∀ id, invite_admin id (snd (accept_invite id d)) = invite_admin id d).
  { intros id. unfold invite_admin. simpl. induction (invites d) as [|v l IH]; simpl; [done|].
    unfold open_invite. destruct (has_invite_id id v) eqn:Hv; simpl.
    - by destruct (invite_accepted v); simpl; rewrite ?Hv; unfold has_invite_id in *; simpl; rewrite ?Hv.
    - by rewrite Hv. }
  destruct (match i with None => _ | Some _ => _ end) as [admin d1] eqn:Hd1.
  destruct Hc as [Htaken Hc].
  assert (users d1 = users d) as Hsame by (by destruct i; simplify_eq/=).
  apply CreateUser_GetUser in Hc as [Hg Hother]. simpl in Hg, Hother. split_and!.
  - intros p'. erewrite Login_answer; [|exact Hg|apply hash_length]. done.
  - intros n' p' Hne. unfold Login. rewrite Hother by done. unfold GetUser. by rewrite Hsame.
  - intros ->. specialize (Htaken eq_refl). rewrite username_taken_users in Htaken. split; [by apply GetUser_None|].
    intros reserved. by rewrite CreateAccount_reserved, Hc0.
  - eexists. split; [exact Hg|]. simpl. destruct i; simplify_eq/=; [apply Hadm|done].
Qed.

(** A password change that is accepted makes the new password the one
    that logs in, under the same salt, and touches no other name; one that is
    refused was refused because there is no such user or the old password is
    wrong, and changes nothing. *)
Theorem ChangePassword_then_login n o p b d d' :
  db_wf d →
  (∀ u, GetUser n d = Some u → length (user_password_hash u) = password_hash_len) →
  ChangePassword hash_password bind_blob n o p d = Some (inr (b, d')) →
  if b then
    ∃ u, GetUser n d = Some u ∧ user_password_hash u = hash_password o (user_password_salt u) ∧
      (∀ p', Login hash_password n p' d' =
         login_answer (with_password_hash (hash_password p (user_password_salt u)) u) p') ∧
      (∀ n' p', n' ≠ n → Login hash_password n' p' d' = Login hash_password n' p' d)
  else d' = d ∧
    (∀ u, GetUser n d = Some u → user_password_hash u ≠ hash_password o (user_password_salt u)).
Proof.
  intros Hwf Hlen. unfold ChangePassword.
  destruct (GetUser n d) as [u|] eqn:Hg; [|by intros [= <- <-]].
  specialize (Hlen u eq_refl). unfold HashPassword.
  rewrite std_equal_same_length by (by rewrite hash_length). simpl.
  case_bool_decide as Heq; simpl; [|intros [= <- <-]; split; [done|by intros ? [= <-]]].
  destruct (UpdateUser _ _ _) eqn:Hu; [done|]. intros [= <- <-].
  pose proof (GetUser_In _ _ _ Hg) as (r & _ & -> & Hn).
  apply UpdateUser_GetUser with (n := n) (u0 := read_user r) in Hu as [Hg' Hother]; try done.
  eexists. split_and!; [done|done| |].
  - intros p'. by erewrite Login_answer; [|exact Hg'|apply hash_length].
  - intros n' p' Hne. unfold Login. by rewrite Hother.
Qed.


(** An invite that is spent stays spent under everything but the creation
    of an invite, which could draw the same identifier again. *)
Definition invite_spent (id : blob) d : Prop := existsb (open_invite id) (invites d) = false.

Lemma invite_spent_incl id d d' :
  (∀ i, In i (invites d') → open_invite id i = true →
     ∃ j, In j (invites d) ∧ open_invite id j = true) →
  invite_spent id d → invite_spent id d'.
Proof.
  unfold invite_spent. intros Hincl Hs.
  destruct (existsb _ (invites d')) eqn:He; [|done].
  apply existsb_exists in He as (i & Hi & Ho).
  destruct (Hincl i Hi Ho) as (j & Hj & Hoj).
  by rewrite (existsb_false _ _ Hs j Hj) in Hoj.
Qed.

Lemma accept_invite_spends id d : invite_spent id (snd (accept_invite id d)).
Proof.
  unfold invite_spent. simpl. induction (invites d) as [|i l IH]; simpl; [done|].
  rewrite IH, orb_false_r. destruct (open_invite id i) eqn:Ho; [|done].
  unfold open_invite. simpl. apply andb_false_r.
Qed.

Definition creates_invite (op : db_op) : bool :=
  match op with OpCreateInvite _ _ _ _ => true | _ => false end.

Lemma UpdateUser_invites u d d' : UpdateUser bind_blob u d = inr d' → invites d' = invites d.
Proof. unfold UpdateUser. by repeat case_match; intros; simplify_eq/=. Qed.

Lemma CreateSession_invites t n ip random s d d' :
  CreateSession bind_blob t n ip random d = Some (s, d') → invites d' = invites d.
Proof.
  induction random as [|x random IH]; simpl; [done|].
  destruct (GetUser n d); [|by intros [= _ <-]]. destruct (user_is_disabled u); [by intros [= _ <-]|].
  destruct (UpdateUser _ _ _) eqn:Hu; [done|]. intros [= _ <-]. by eapply UpdateUser_invites.
Qed.

Lemma db_exec_spent id op d :
  creates_invite op = false → invite_spent id d → invite_spent id (db_exec op d).
Proof.
  intros Hop. apply invite_spent_incl. intros i Hi Ho. destruct op; cbn [db_exec] in Hi; try done.
  - assert (Hacc : ∀ x, In i (invites (snd (accept_invite x d))) →
       ∃ j, In j (invites d) ∧ open_invite id j = true).
    { intros x (j & <- & Hj)%List.in_map_iff. exists j. split; [done|].
      destruct (open_invite x j) eqn:E; [|done].
      unfold open_invite in Ho. simpl in Ho. by rewrite andb_false_r in Ho. }
    assert (Hsame : ∀ u d1 d2, CreateUser bind_blob u d1 = inr d2 → invites d2 = invites d1).
    { intros u d1 d2. unfold CreateUser. by repeat case_match; intros; simplify_eq/=. }
    revert Hi. unfold CreateAccount. destruct invite_id0 as [x|].
    + specialize (Hacc x). destruct (accept_invite x d) as [b d1]. simpl in Hacc.
      destruct b; simpl; [|apply Hacc].
      destruct (CreateUser _ _ d1) eqn:Hc; [apply Hacc|]. simpl.
      rewrite (Hsame _ _ _ Hc). apply Hacc.
    + destruct (username_taken _ _); [eauto|].
      destruct (CreateUser _ _ d) eqn:Hc; [eauto|]. simpl. rewrite (Hsame _ _ _ Hc). eauto.
  - revert Hi. unfold ChangePassword. destruct (GetUser _ _); [|eauto].
    destruct (std_equal _ _) as [[]|]; simpl; eauto.
    destruct (UpdateUser _ _ _) eqn:Hu; [eauto|]. rewrite (UpdateUser_invites _ _ _ Hu). eauto.
  - destruct (CreateSession _ _ _ _ _ d) as [[s d']|] eqn:Hc; simpl in Hi; [|eauto].
    rewrite (CreateSession_invites _ _ _ _ _ _ _ Hc) in Hi. eauto.
  - revert Hi. unfold CreateReservedUsername. destruct (existsb _ _); simpl; eauto.
  - simpl in Hi. eauto.
  - revert Hi. unfold UpdateInvite. destruct (existsb (has_invite_id _) _); [|eauto].
    destruct (existsb _ _); [eauto|].
    intros (j & <- & Hj)%List.in_map_iff. exists j. split; [done|].
    destruct (has_invite_id id0 j) eqn:E; [|done]. exact Ho.
  - apply List.filter_In in Hi as [Hi _]. eauto.
  - revert Hi. unfold SetRecordingStartStopTime. repeat case_match; simpl; eauto.
Qed.

Lemma db_execs_spent id ops d :
  Forall (λ op, creates_invite op = false) ops → invite_spent id d →
  invite_spent id (foldl (λ d op, db_exec op d) d ops).
Proof.
  intros Hops. revert d. induction Hops; intros d Hd; simpl; [done|].
  by apply IHHops, db_exec_spent.
Qed.

Lemma accept_invite_validates id d : fst (accept_invite id d) = fst (ValidateInvite id d).
Proof.
  unfold ValidateInvite. simpl. induction (invites d) as [|i l IH]; simpl; [done|].
  by destruct (open_invite id i).
Qed.

(** C14: an invite admits one registration.  A registration with an invite
    is refused as [INVITE_INVALID] exactly when [ValidateInvite] refuses it;
    otherwise the invite is spent, and whatever the server does afterwards
    short of creating invites, every further registration with it is refused
    and changes nothing about the users. *)
Theorem invite_single_use n p k id ip salt now d r d' :
  CreateAccount hash_password bind_blob n p k (Some id) ip salt now d = (r, d') →
  (r = INVITE_INVALID ↔ fst (ValidateInvite id d) = false) ∧
  ∀ ops n' p' k' ip' salt' now',
    Forall (λ op, creates_invite op = false) ops →
    let d2 := foldl (λ d op, db_exec op d) d' ops in
    fst (CreateAccount hash_password bind_blob n' p' k' (Some id) ip' salt' now' d2) = INVITE_INVALID ∧
    users (snd (CreateAccount hash_password bind_blob n' p' k' (Some id) ip' salt' now' d2)) = users d2.
Proof.
  intros Hc.
  assert (Hspent : invite_spent id d').
  { revert Hc. unfold CreateAccount. pose proof (accept_invite_spends id d) as Ha.
    destruct (accept_invite id d) as [b d1]; simpl in Ha.
    destruct b; simpl; [|by intros [= _ <-]].
    unfold CreateUser. by repeat case_match; intros; simplify_eq/=. }
  split.
  - rewrite <-accept_invite_validates. revert Hc. unfold CreateAccount.
    destruct (accept_invite id d) as [b d1]; simpl.
    destruct b; simpl; [|by intros [= <- _]].
    destruct (CreateUser _ _ _); intros [= <- _]; done.
  - intros ops n' p' k' ip' salt' now' Hops d2.
    assert (Hs2 : invite_spent id d2) by by apply db_execs_spent.
    unfold CreateAccount, accept_invite. rewrite Hs2. done.
Qed.

(** A second invite without a user name cannot exist: the name is bound as
    an empty string, which the UNIQUE column compares like any other. *)
Lemma one_invite_without_username nm admin random i d r d' :
  In i (invites d) → invite_username i = EmptyString →
  CreateInvite nm EmptyString admin random d = Some (r, d') → r = None ∧ d' = d.
Proof.
  intros Hi He. unfold CreateInvite. simpl.
  induction random as [|x random IH]; simpl; [done|]. unfold InsertInvite.
  destruct (existsb (has_invite_id _) _); [done|]. simpl.
  rewrite (proj2 (existsb_exists _ _)).
  - by intros [= <- <-].
  - exists i. split; [done|]. by apply String.eqb_eq.
Qed.

End DatabaseLemmas.

(** ** Concrete runs *)

Module DatabaseDemo.
Definition hash (p : string) (s : blob) : blob :=
  replicate password_hash_len (Z.of_nat (String.length p) + foldr Z.add 0%Z s)%Z.
Definition bind (b : blob) : option blob := match b with [] => None | _ => Some b end.

Definition hash_len p s : length (hash p s) = password_hash_len := length_replicate _ _.

Definition ip : blob := [1%Z].
Definition salt : blob := [7%Z].
Definition db1 : database :=
  snd (CreateAccount hash bind "alice" "pw" None None ip salt 5 database_new).
Definition db2 : database :=
  from_option snd db1 (CreateInvite "invite" "bob" false [[9%Z]] db1).


Lemma db1_wf : db_wf bind db1.
Proof.
  unfold db1. apply CreateAccount_wf. apply database_new_wf.
Qed.

Lemma register_then_login_witness :
  Login hash "alice" "pw" db1 = Some (Login_SUCCESS, []) ∧
  Login hash "alice" "other" db1 = Some (INVALID_PASSWORD, []) ∧
  GetUser "alice" database_new = None.
Proof.
  destruct (register_then_login hash bind hash_len
    "alice" "pw" None None ip salt 5 database_new db1 eq_refl) as (Hl & _ & Hn & _).
  split_and!; [rewrite Hl; by vm_compute | rewrite Hl; by vm_compute | by apply (proj1 (Hn eq_refl))].
Defined.

Lemma ChangePassword_then_login_witness :
  ∃ d', ChangePassword hash bind "alice" "pw" "longer" db1 = Some (inr (true, d')) ∧
    Login hash "alice" "longer" d' = Some (Login_SUCCESS, []) ∧
    Login hash "alice" "pw" d' = Some (INVALID_PASSWORD, []).
Proof.
  destruct (ChangePassword hash bind "alice" "pw" "longer" db1) as [[|[[] d']]|] eqn:E;
    try (by vm_compute in E).
  exists d'. split; [done|].
  destruct (ChangePassword_then_login hash bind hash_len "alice" "pw" "longer" true db1 d'
    db1_wf ltac:(intros u Hu; vm_compute in Hu; injection Hu as <-; reflexivity) E) as (u & Hu & _ & Hl & _).
  vm_compute in Hu. injection Hu as <-. by rewrite !Hl.
Defined.


Lemma invite_single_use_witness :
  ∃ d', CreateAccount hash bind "bob" "pw" None (Some [9%Z]) ip salt 8 db2 = (Register_SUCCESS, d') ∧
    fst (CreateAccount hash bind "eve" "pw" None (Some [9%Z]) ip salt 9 d') = INVITE_INVALID.
Proof.
  destruct (CreateAccount hash bind "bob" "pw" None (Some [9%Z]) ip salt 8 db2) as [r d'] eqn:E.
  assert (r = Register_SUCCESS) as -> by (vm_compute in E; by injection E).
  exists d'. split; [done|].
  by apply (invite_single_use hash bind _ _ _ _ _ _ _ _ _ _ E) with (ops := []).
Defined.
End DatabaseDemo.
