(* ===== verification/ConfigStore.v ===== *)
(** * The configuration tables (Database::CreateVm, ReadVmSettings, ...)

    [VmConfig] holds one row per machine and setting, [ServerConfig] one per
    server setting.  A row's setting is the stored blob: [CreateBlob] and
    [readMessageUnchecked] are Cap'n Proto's copy of a struct and its
    inverse, so a row holds the setting itself.  [None] stands for an
    exception: a violated primary key, or an index that the union's field list
    does not have.  The constructor of [VirtualMachinesList], which turns the
    rows into machines when the server starts, is here too. *)

From S2P Require Import Prelude Settings.
From stdpp Require Import sorting.

Section ConfigStore.
Context {V : Type} (fields_count : nat) (clear_value : nat → V).
Abbreviation S := (setting V).
Implicit Types (s : S) (l : list S).

(** [PRIMARY KEY (IDs_VmId, IDs_SettingID)] *)
Abbreviation vm_table := (gmap (Z * Z) S).
Implicit Types t : vm_table.

Definition setting_key s : Z := u8 (Z.of_nat (which s)).

Definition InsertVmSetting (vm_id setting_id : Z) s t : option vm_table :=
  match t !! (vm_id, setting_id) with
  | Some _ => None
  | None => Some (<[(vm_id, setting_id) := s]> t)
  end.

Fixpoint CreateVm (vm_id : Z) (settings_list : list S) t : option vm_table :=
  match settings_list with
  | [] => Some t
  | s :: settings_list =>
      t ← InsertVmSetting vm_id (setting_key s) s t;
      CreateVm vm_id settings_list t
  end.

Fixpoint UpdateVmSettings (vm_id : Z) (settings_list : list S) t : vm_table :=
  match settings_list with
  | [] => t
  | s :: settings_list =>
      UpdateVmSettings vm_id settings_list (alter (λ _, s) (vm_id, setting_key s) t)
  end.

Definition DeleteVm (id : Z) t : vm_table := filter (λ p : Z * Z * S, p.1.1 ≠ id) t.

Definition vm_ids t : gset Z := set_map fst (dom t).

(** [SELECT MAX(IDs_VmId) + 1]: NULL, for an empty table, reads as 0. *)
Definition GetNewVmId t : Z :=
  let new_vm_id := if decide (vm_ids t = ∅) then 0%Z
                   else u32 (set_fold Z.max 0%Z (vm_ids t) + 1) in
  Z.max new_vm_id 1.

Definition GetVmCount t : Z := u32 (Z.of_nat (size (vm_ids t))).

(** [ORDER BY IDs_VmId, IDs_SettingID] *)
Definition key_le (p q : Z * Z) : Prop := (p.1 < q.1 ∨ p.1 = q.1 ∧ p.2 ≤ q.2)%Z.
#[export] Instance key_le_dec : RelDecision key_le.
Proof. intros p q. unfold key_le. apply _. Defined.

Definition rows_of t (keys : list (Z * Z)) : list (Z * Z * S) :=
  omap (λ k, (k,.) <$> t !! k) keys.
Definition order_by t : list (Z * Z * S) := rows_of t (merge_sort key_le (elements (dom t))).

(** [generateNewSettings]: the [n] settings from [expected_setting_id] on. *)
Fixpoint generateNewSettings (n : nat) (vm_id : Z) (expected_setting_id : nat) t
    : option (vm_table * list (Z * S)) :=
  match n with
  | O => Some (t, [])
  | Datatypes.S n =>
      let vm_setting := cleared clear_value expected_setting_id in
      t ← InsertVmSetting vm_id (Z.of_nat expected_setting_id) vm_setting t;
      '(t, out) ← generateNewSettings n vm_id (Datatypes.S expected_setting_id) t;
      Some (t, (vm_id, vm_setting) :: out)
  end.

Definition finish_vm (previous_vm_id : option Z) (expected_setting_id : nat) t :=
  match previous_vm_id with
  | None => Some (t, [])
  | Some vm_id =>
      generateNewSettings (fields_count - expected_setting_id) vm_id expected_setting_id t
  end.

(** One call of the row callback; the list is what it passes on. *)
Definition ReadRow (previous_vm_id : option Z) (expected_setting_id : nat)
    (row : Z * Z * S) t : option (vm_table * list (Z * S) * nat) :=
  let '(vm_id, setting_id, db_setting) := row in
  '(t, out, expected_setting_id) ←
    match previous_vm_id with
    | Some previous =>
        if decide (previous ≠ vm_id) then
          '(t, out) ← finish_vm (Some previous) expected_setting_id t; Some (t, out, 0)
        else Some (t, [], expected_setting_id)
    | None => Some (t, [], expected_setting_id)
    end;
  if decide (setting_id < Z.of_nat fields_count)%Z then
    if decide (Z.of_nat (which db_setting) ≠ setting_id) then
      (* the row that is inserted is the one that is being read *)
      t ← InsertVmSetting vm_id setting_id (cleared clear_value (Z.to_nat setting_id)) t;
      Some (t, out, Datatypes.S expected_setting_id)
    else Some (t, out ++ [(vm_id, db_setting)], Datatypes.S expected_setting_id)
  else None.

Fixpoint ReadRows (previous_vm_id : option Z) (expected_setting_id : nat)
    (rows : list (Z * Z * S)) t : option (vm_table * list (Z * S)) :=
  match rows with
  | [] => finish_vm previous_vm_id expected_setting_id t
  | row :: rows =>
      '(t, out, expected_setting_id) ← ReadRow previous_vm_id expected_setting_id row t;
      '(t, out') ← ReadRows (Some row.1.1) expected_setting_id rows t;
      Some (t, out ++ out')
  end.

Definition ReadVmSettings t : option (vm_table * list (Z * S)) :=
  ReadRows None 0 (order_by t) t.

(** ** Starting the machines

    [vm_settings] is a list of settings that is filled and then truncated;
    its assignment operator returns a new list and leaves it as it is. *)
Record loading := Loading {
  vm_settings : list S;
  vm_setting_index : nat;
  previous_vm_id : option Z;
  created : list (Z * list S)
}.

Definition create_vm (w : loading) : option loading :=
  let truncated := take (vm_setting_index w) (vm_settings w) in
  vm_id ← previous_vm_id w;
  Some (Loading truncated 0 (Some vm_id) (created w ++ [(vm_id, truncated)])).

Definition LoadSetting (row : Z * S) (w : loading) : option loading :=
  w ← match previous_vm_id w with
      | Some previous => if decide (previous ≠ row.1) then create_vm w else Some w
      | None => Some w
      end;
  if decide (vm_setting_index w < length (vm_settings w)) then
    Some (Loading (<[vm_setting_index w := row.2]> (vm_settings w))
            (Datatypes.S (vm_setting_index w)) (Some row.1) (created w))
  else None.

Fixpoint LoadRows (rows : list (Z * S)) (w : loading) : option loading :=
  match rows with
  | [] => match previous_vm_id w with Some _ => create_vm w | None => Some w end
  | row :: rows => w ← LoadSetting row w; LoadRows rows w
  end.

(** The machines, with the settings their constructors receive. *)
Definition LoadVms t : option (vm_table * list (Z * list S)) :=
  '(t, rows) ← ReadVmSettings t;
  w ← LoadRows rows (Loading (InitSettings clear_value fields_count) 0 None []);
  Some (t, created w).

(** ** The server's settings *)

Abbreviation server_table := (gmap Z S).

Definition InsertServerSetting (id : Z) s (t : server_table) : option server_table :=
  match t !! id with Some _ => None | None => Some (<[id := s]> t) end.

(** One row: [setting_id] counts the rows; [DynamicStruct::set] copies the
    field [id], which must be the member that is set. *)
Definition LoadServerRow (setting_id : nat) (row : Z * S) (settings_list : list S)
    (t : server_table) : option (list S * server_table) :=
  let '(id, db_setting) := row in
  let id := Z.to_nat (u8 id) in
  if decide (id < length settings_list ∧ id < fields_count) then
    if decide (which db_setting ≠ setting_id) then
      let server_setting := cleared clear_value id in
      t ← InsertServerSetting (Z.of_nat setting_id) server_setting t;
      Some (<[id := server_setting]> settings_list, t)
    else if decide (which db_setting = id) then Some (<[id := db_setting]> settings_list, t)
    else None
  else None.

Fixpoint LoadServerRows (setting_id : nat) (rows : list (Z * S)) (settings_list : list S)
    (t : server_table) : option (nat * list S * server_table) :=
  match rows with
  | [] => Some (setting_id, settings_list, t)
  | row :: rows =>
      '(settings_list, t) ← LoadServerRow setting_id row settings_list t;
      LoadServerRows (Datatypes.S setting_id) rows settings_list t
  end.

(** The [n] missing settings from [setting_id] on. *)
Fixpoint LoadServerDefaults (n setting_id : nat) (settings_list : list S) (t : server_table)
    : option (list S * server_table) :=
  match n with
  | O => Some (settings_list, t)
  | Datatypes.S n =>
      if decide (setting_id < length settings_list) then
        let server_setting := cleared clear_value setting_id in
        t ← InsertServerSetting (Z.of_nat setting_id) server_setting t;
        LoadServerDefaults n (Datatypes.S setting_id) (<[setting_id := server_setting]> settings_list) t
      else None
  end.

Definition server_rows (t : server_table) : list (Z * S) :=
  omap (λ k, (k,.) <$> t !! k) (merge_sort Z.le (elements (dom t))).

Definition LoadServerSettings (settings_list : list S) (t : server_table)
    : option (list S * server_table) :=
  '(setting_id, settings_list, t) ← LoadServerRows 0 (server_rows t) settings_list t;
  LoadServerDefaults (fields_count - setting_id) setting_id settings_list t.

Fixpoint SaveServerSettings (settings_list : list S) (t : server_table) : server_table :=
  match settings_list with
  | [] => t
  | s :: settings_list => SaveServerSettings settings_list (alter (λ _, s) (setting_key s) t)
  end.
End ConfigStore.
Arguments key_le_dec : simpl never.

(** ** Rows in the order of their keys *)

Section Rows.
Context {V : Type}.
Abbreviation S := (setting V).
Implicit Types (s : S) (l : list S) (t : gmap (Z * Z) S).

Definition sorted_ids {A} (m : gmap Z A) : list Z := merge_sort Z.le (elements (dom m)).

Lemma sorted_ids_spec {A} (m : gmap Z A) :
  NoDup (sorted_ids m) ∧ Sorted Z.le (sorted_ids m) ∧
  ∀ vm, vm ∈ sorted_ids m ↔ is_Some (m !! vm).
Proof.
  unfold sorted_ids. pose proof (merge_sort_Permutation Z.le (elements (dom m))) as Hp.
  split_and!.
  - rewrite Hp. apply NoDup_elements.
  - apply Sorted_merge_sort. intros x y. lia.
  - intros vm. rewrite Hp, elem_of_elements. apply elem_of_dom.
Qed.

(** The keys of one machine from [k] on, and its rows. *)
Definition keys_from (vm : Z) (k n : nat) : list (Z * Z) := (λ i, (vm, Z.of_nat i)) <$> seq k n.
Fixpoint entries (vm : Z) (k : nat) l : list (Z * Z * S) :=
  match l with [] => [] | s :: l => (vm, Z.of_nat k, s) :: entries vm (Datatypes.S k) l end.

Lemma keys_from_sorted vm k n rest :
  StronglySorted key_le rest → (∀ p, p ∈ rest → vm < p.1)%Z →
  StronglySorted key_le (keys_from vm k n ++ rest).
Proof.
  intros Hrest Hlt. revert k. induction n as [|n IH]; intros k; [done|].
  simpl. constructor; [apply IH|]. apply list.Forall_forall. intros p [Hp|Hp]%elem_of_app.
  - apply list_elem_of_fmap in Hp as (i & -> & Hi%elem_of_seq). right. simpl. lia.
  - left. simpl. by apply Hlt.
Qed.

Lemma all_keys_sorted (ids : list Z) (n : Z → nat) :
  NoDup ids → StronglySorted Z.le ids → StronglySorted key_le (ids ≫= λ vm, keys_from vm 0 (n vm)).
Proof.
  induction ids as [|vm ids IH]; intros Hnd Hs; [constructor|].
  apply list.NoDup_cons in Hnd as [Hvm Hnd]. inversion Hs as [|? ? Hs' Hall]; subst.
  rewrite bind_cons. apply keys_from_sorted; [by apply IH|].
  intros p (vm' & Hp & Hin)%list_elem_of_bind. apply list_elem_of_fmap in Hp as (i & -> & _). simpl.
  rewrite list.Forall_forall in Hall. specialize (Hall _ Hin).
  assert (vm ≠ vm') by (intros ->; done). lia.
Qed.

Lemma key_le_antisym : AntiSymm (=) key_le.
Proof. intros [a b] [c d]. unfold key_le. simpl. intros. f_equal; lia. Qed.

Lemma rows_of_entries t vm k l :
  (∀ i s, l !! i = Some s → t !! (vm, Z.of_nat (k + i)) = Some s) →
  rows_of t (keys_from vm k (length l)) = entries vm k l.
Proof.
  revert k. induction l as [|s l IH]; intros k Hl; [done|].
  pose proof (Hl 0 s eq_refl) as Hs. rewrite Nat.add_0_r in Hs.
  unfold rows_of, keys_from. simpl. rewrite Hs. simpl. f_equal.
  apply IH. intros i x Hx. rewrite <-(Hl (Datatypes.S i) x Hx). do 2 f_equal. lia.
Qed.

End Rows.

(** ** The table as a map from machines to setting lists *)

Section ConfigStoreProperties.
Context {V : Type} (fields_count : nat) (clear_value : nat → V).
(** A setting number is stored in a byte. *)
Context (Hcount : (0 < fields_count ≤ 256)%nat).
Abbreviation S := (setting V).
Implicit Types (s : S) (l : list S) (t : gmap (Z * Z) S) (m : gmap Z (list S)).

Definition cell (k : Z) l : option S := if decide (0 ≤ k)%Z then l !! Z.to_nat k else None.

Definition represents m t : Prop :=
  (∀ vm k, t !! (vm, k) = l ← m !! vm; cell k l) ∧
  (∀ vm l, m !! vm = Some l → settings_wf fields_count l).

Definition known_setting s : Prop := which s < fields_count.

(** The first rows of a list; the ones after them are missing, as they are
    after an upgrade that adds settings. *)
Definition prefix_wf l : Prop :=
  0 < length l ≤ fields_count ∧ ∀ i s, l !! i = Some s → which s = i.

Definition holds m t : Prop :=
  (∀ vm k, t !! (vm, k) = l ← m !! vm; cell k l) ∧
  (∀ vm l, m !! vm = Some l → prefix_wf l).

(** The missing settings are those that [DynamicStruct::clear] gives. *)
Definition missing l : list S := cleared clear_value <$> seq (length l) (fields_count - length l).
Definition completed l : list S := l ++ missing l.

Lemma represents_holds m t : represents m t → holds m t.
Proof. intros [Ht Hm]. split; [done|]. intros vm l Hl. destruct (Hm vm l Hl). by split; [lia|]. Qed.

Lemma completed_wf l :
  length l ≤ fields_count → (∀ i s, l !! i = Some s → which s = i) → settings_wf fields_count (completed l).
Proof.
  intros Hle Hl. unfold completed, missing. split; [rewrite length_app, length_fmap, length_seq; lia|].
  intros i s [?|[Hi Hs]]%lookup_app_Some; [by apply Hl|].
  apply list_lookup_fmap_Some in Hs as (j & -> & [-> ?]%lookup_seq). cbn. lia.
Qed.

Lemma completed_full l : length l = fields_count → completed l = l.
Proof. intros Hl. unfold completed, missing. by rewrite Hl, Nat.sub_diag, app_nil_r. Qed.

Lemma setting_key_known s : known_setting s → setting_key s = Z.of_nat (which s).
Proof. intros Hs. unfold setting_key. apply u8_small. unfold known_setting in Hs. lia. Qed.

Lemma represents_ids m t vm : represents m t → vm ∈ vm_ids t ↔ is_Some (m !! vm).
Proof.
  intros [Ht Hwf]. unfold vm_ids. rewrite elem_of_map. split.
  - intros ([vm' k] & -> & [s Hs]%elem_of_dom). rewrite Ht in Hs. simpl.
    destruct (m !! vm'); [by eexists|done].
  - intros [l Hl]. exists (vm, 0%Z). split; [done|]. apply elem_of_dom. rewrite Ht, Hl.
    destruct (Hwf vm l Hl) as [Hlen _]. cbn. apply lookup_lt_is_Some. lia.
Qed.

(** ** Writing *)

Lemma CreateVm_lookup vm l k t :
  (∀ j s, l !! j = Some s → which s = k + j) → k + length l ≤ fields_count →
  (∀ i, (Z.of_nat k ≤ i)%Z → t !! (vm, i) = None) →
  ∃ t', CreateVm vm l t = Some t' ∧
    ∀ vm' i, t' !! (vm', i) =
      if decide (vm' = vm ∧ (Z.of_nat k ≤ i)%Z) then l !! (Z.to_nat i - k) else t !! (vm', i).
Proof.
  revert k t. induction l as [|s l IH]; intros k t Hl Hlen Hnone; cbn [CreateVm].
  { exists t. split; [done|]. intros vm' i. case_decide as Hd; [|done]. destruct Hd as [-> ?]. by apply Hnone. }
  cbn [length] in Hlen.
  assert (Hk : which s = k) by (rewrite (Hl 0 s eq_refl); lia).
  unfold InsertVmSetting. rewrite setting_key_known by (unfold known_setting; lia).
  rewrite Hk, Hnone by lia. cbn [mbind option_bind].
  destruct (IH (Datatypes.S k) (<[(vm, Z.of_nat k) := s]> t)) as (t' & Ht' & Hlk).
  - intros j s' Hj. rewrite (Hl (Datatypes.S j) s' Hj). lia.
  - lia.
  - intros i Hi. rewrite lookup_insert_ne by (intros [=]; lia). apply Hnone. lia.
  - exists t'. split; [done|]. intros vm' i. rewrite Hlk. clear Hlk Ht'.
    destruct (decide (vm' = vm ∧ (Z.of_nat (Datatypes.S k) ≤ i)%Z)) as [[-> Hi]|Hn].
    + rewrite decide_True by (split; [done|lia]).
      replace (Z.to_nat i - k) with (Datatypes.S (Z.to_nat i - Datatypes.S k)) by lia. done.
    + destruct (decide (vm' = vm ∧ (Z.of_nat k ≤ i)%Z)) as [[-> Hi]|Hn'].
      * assert (Hik : i = Z.of_nat k).
        { destruct (decide (i = Z.of_nat k)); [done|]. exfalso; apply Hn; split; [done|lia]. }
        subst i. by rewrite lookup_insert_eq, Nat2Z.id, Nat.sub_diag.
      * rewrite lookup_insert_ne; [done|]. intros [= <- <-]. apply Hn'. split; [done|lia].
Qed.

Lemma CreateVm_represents m t vm l :
  represents m t → m !! vm = None → settings_wf fields_count l →
  ∃ t', CreateVm vm l t = Some t' ∧ represents (<[vm := l]> m) t'.
Proof.
  intros [Ht Hm] Hvm [Hlen Hwf].
  destruct (CreateVm_lookup vm l 0 t) as (t' & Ht' & Hlk); [done|lia| |].
  { intros i _. by rewrite Ht, Hvm. }
  exists t'. split; [done|]. split.
  - intros vm' i. rewrite Hlk. destruct (decide (vm' = vm)) as [->|Hne].
    + rewrite lookup_insert_eq. cbn. unfold cell. destruct (decide (0 ≤ i)%Z) as [Hi|Hi].
      * rewrite decide_True by (split; [done|lia]). by rewrite Nat.sub_0_r.
      * rewrite decide_False by (intros [_ ?]; lia). by rewrite Ht, Hvm.
    + rewrite lookup_insert_ne by done. rewrite decide_False by (by intros [? _]). apply Ht.
  - intros vm' l' [[_ <-]|[_ ?]]%lookup_insert_Some; [done|eauto].
Qed.

Lemma update_represents m t vm s :
  represents m t → known_setting s →
  represents (alter (λ l, <[which s := s]> l) vm m) (alter (λ _, s) (vm, setting_key s) t).
Proof.
  intros [Ht Hm] Hs. rewrite setting_key_known by done. split.
  - intros vm' i. destruct (decide ((vm', i) = (vm, Z.of_nat (which s)))) as [[= -> ->]|Hne].
    + rewrite !lookup_alter_eq, Ht. destruct (m !! vm) as [l|] eqn:Hl; [|done].
      cbn. unfold cell. rewrite !decide_True by lia. rewrite !Nat2Z.id.
      destruct (Hm vm l Hl) as [Hlen _]. unfold known_setting in Hs.
      destruct (lookup_lt_is_Some_2 l (which s)) as [x Hx]; [lia|].
      rewrite Hx, list_lookup_insert_eq by lia. done.
    + rewrite lookup_alter_ne, Ht by congruence. destruct (decide (vm' = vm)) as [->|Hvm].
      * rewrite lookup_alter_eq. destruct (m !! vm) as [l|] eqn:Hl; [|done]. cbn.
        unfold cell. case_decide; [|done]. rewrite list_lookup_insert_ne; [done|]. intros Hw. apply Hne. f_equal. lia.
      * by rewrite lookup_alter_ne.
  - intros vm' l Hl. destruct (decide (vm' = vm)) as [->|Hne].
    + rewrite lookup_alter_eq in Hl. destruct (m !! vm) as [l0|] eqn:Hl0; [|done]. injection Hl as <-.
      destruct (Hm vm l0 Hl0) as [Hlen Hwf]. split; [by rewrite length_insert|].
      intros i x. rewrite list_lookup_insert_Some. intros [(<- & <- & _)|[_ ?]]; eauto.
    + rewrite lookup_alter_ne in Hl by done. eauto.
Qed.

Lemma pick_cons s updates l :
  which s ∉ which <$> updates → settings_wf fields_count l →
  pick (s :: updates) <$> l = pick updates <$> <[which s := s]> l.
Proof.
  intros Hs [Hlen Hwf]. apply list_eq. intros i. rewrite !list_lookup_fmap.
  destruct (decide (i = which s)) as [->|Hne].
  - destruct (l !! which s) as [x|] eqn:Hx.
    + rewrite list_lookup_insert_eq by (by eapply lookup_lt_Some). simpl. f_equal.
      assert (Hxs := Hwf _ _ Hx). unfold pick at 1. simpl. unfold same_type at 1.
      rewrite Hxs, Nat.eqb_refl.
      unfold pick. destruct (List.find _ updates) eqn:Hf; [|done]. exfalso.
      apply List.find_some in Hf as [Hin Hw%Nat.eqb_eq]. apply Hs. rewrite <-Hw.
      apply list_elem_of_fmap_2. by apply list_elem_of_In.
    + rewrite list_insert_ge by (by apply lookup_ge_None). by rewrite Hx.
  - rewrite list_lookup_insert_ne by done. destruct (l !! i) as [x|] eqn:Hx; [|done]. simpl. f_equal.
    assert (Hxi := Hwf _ _ Hx). unfold pick. simpl. unfold same_type at 1.
    by rewrite (proj2 (Nat.eqb_neq _ _)) by congruence.
Qed.

Lemma UpdateVmSettings_represents m t vm updates :
  represents m t → NoDup (which <$> updates) → Forall known_setting updates →
  represents (alter (fmap (pick updates)) vm m) (UpdateVmSettings vm updates t).
Proof.
  revert m t. induction updates as [|s updates IH]; intros m t Ht Hnd Hk; cbn [UpdateVmSettings].
  - replace (alter _ vm m) with m; [done|]. apply map_eq. intros vm'.
    destruct (decide (vm' = vm)) as [->|Hne]; [|by rewrite lookup_alter_ne].
    rewrite lookup_alter_eq. destruct (m !! vm) as [l|]; [|done]. simpl. f_equal.
    symmetry. rewrite <-(list_fmap_id l) at 2. apply list_fmap_ext. by intros.
  - rewrite fmap_cons in Hnd. apply list.NoDup_cons in Hnd as [Hs Hnd].
    apply list.Forall_cons in Hk as [Hks Hk].
    pose proof (IH _ _ (update_represents m t vm s Ht Hks) Hnd Hk) as Hr.
    replace (alter (fmap (pick (s :: updates))) vm m)
      with (alter (fmap (pick updates)) vm (alter (λ l, <[which s := s]> l) vm m)); [done|].
    apply map_eq. intros vm'. destruct (decide (vm' = vm)) as [->|Hne]; [|by rewrite !lookup_alter_ne].
    rewrite !lookup_alter_eq. destruct (m !! vm) as [l|] eqn:Hl; [|done]. simpl. f_equal.
    symmetry. apply pick_cons; [done|]. by apply (proj2 Ht vm).
Qed.

Lemma DeleteVm_represents m t vm : represents m t → represents (delete vm m) (DeleteVm vm t).
Proof.
  intros [Ht Hm]. split.
  - intros vm' k. unfold DeleteVm. destruct (decide (vm' = vm)) as [->|Hne].
    + rewrite lookup_delete_eq. apply map_lookup_filter_None_2. right. intros s Hs Hn. by apply Hn.
    + rewrite lookup_delete_ne by done. rewrite <-Ht.
      destruct (t !! (vm', k)) as [s|] eqn:Hs.
      * by apply map_lookup_filter_Some_2.
      * apply map_lookup_filter_None_2. by left.
  - intros vm' l [_ Hl]%lookup_delete_Some. eauto.
Qed.

(** ** Reading *)

Lemma keys_perm m t :
  holds m t → elements (dom t) ≡ₚ (sorted_ids m ≫= λ vm, keys_from vm 0 (length (default [] (m !! vm)))).
Proof.
  intros [Ht Hm]. destruct (sorted_ids_spec m) as (Hnd & Hsort & Hids).
  apply list.NoDup_Permutation; [apply NoDup_elements| |].
  - clear Hsort Hids. induction Hnd as [|vm ids Hvm Hnd IH]; [constructor|].
    rewrite bind_cons. apply list.NoDup_app. split_and!; [| |done].
    + apply NoDup_fmap_2; [intros ? ? [= ?]; lia|apply NoDup_seq].
    + intros p (i & -> & _)%list_elem_of_fmap (vm' & Hp & Hin)%list_elem_of_bind.
      apply list_elem_of_fmap in Hp as (j & [= <- _] & _). done.
  - intros [vm k]. rewrite elem_of_elements, elem_of_dom, Ht, list_elem_of_bind. split.
    + intros [s Hs]. destruct (m !! vm) as [l|] eqn:Hl; [|done]. cbn in Hs.
      exists vm. split; [|apply Hids; by exists l]. unfold cell in Hs. case_decide as Hk; [|done].
      apply list_elem_of_fmap. exists (Z.to_nat k). rewrite Z2Nat.id by done. split; [done|].
      apply elem_of_seq. rewrite Hl. split; [lia|]. by eapply lookup_lt_Some.
    + intros (vm' & Hp & [l Hl]%Hids). apply list_elem_of_fmap in Hp as (i & [= -> ->] & Hi%elem_of_seq).
      rewrite Hl in *. cbn in *. unfold cell. rewrite decide_True, Nat2Z.id by lia.
      apply lookup_lt_is_Some. lia.
Qed.

Lemma sorted_keys m t :
  holds m t →
  merge_sort key_le (elements (dom t)) = sorted_ids m ≫= λ vm, keys_from vm 0 (length (default [] (m !! vm))).
Proof.
  intros Ht. destruct (sorted_ids_spec m) as (Hnd & Hsort & _).
  assert (Transitive key_le) by (intros [a b] [c d] [e f]; unfold key_le; simpl; lia).
  apply (Sorted_unique_strong key_le).
  - intros. by apply key_le_antisym.
  - apply Sorted_merge_sort. intros [a b] [c d]. unfold key_le. simpl. lia.
  - apply StronglySorted_Sorted, all_keys_sorted; [done|].
    apply Sorted_StronglySorted; [|done]. intros x y z. lia.
  - rewrite merge_sort_Permutation. by apply keys_perm.
Qed.

Lemma order_by_holds m t :
  holds m t → order_by t = sorted_ids m ≫= λ vm, entries vm 0 (default [] (m !! vm)).
Proof.
  intros Ht. unfold order_by. rewrite (sorted_keys m t Ht).
  destruct (sorted_ids_spec m) as (_ & _ & Hids). destruct Ht as [Ht Hm].
  assert (Hall : ∀ vm, vm ∈ sorted_ids m → is_Some (m !! vm)) by (intros; by apply Hids).
  clear Hids. induction (sorted_ids m) as [|vm ids IH]; [done|]. rewrite !bind_cons.
  unfold rows_of. rewrite omap_app. f_equal; [|apply IH; intros; apply Hall; by right].
  destruct (Hall vm) as [l Hl]; [by left|]. rewrite Hl. simpl.
  apply rows_of_entries. intros i s Hs.
  rewrite Ht, Hl. cbn. unfold cell. by rewrite decide_True, Nat2Z.id by lia.
Qed.

Lemma ReadRows_entries vm k l rest t :
  (∀ i s, l !! i = Some s → which s = k + i) → k + length l ≤ fields_count →
  ReadRows fields_count clear_value (Some vm) k (entries vm k l ++ rest) t =
    ('(t, out) ← ReadRows fields_count clear_value (Some vm) (k + length l) rest t;
     Some (t, ((vm,.) <$> l) ++ out)).
Proof.
  revert k. induction l as [|s l IH]; intros k Hl Hlen; cbn [entries length app].
  { rewrite Nat.add_0_r. by destruct (ReadRows _ _ _ _ _ _) as [[??]|]. }
  cbn [length] in Hlen. pose proof (Hl 0 s eq_refl) as Hs. cbn [ReadRows].
  assert (Hrow : ReadRow fields_count clear_value (Some vm) k (vm, Z.of_nat k, s) t
    = Some (t, [(vm, s)], Datatypes.S k)).
  { unfold ReadRow. rewrite decide_False by (intros Hn; by apply Hn). cbn [mbind option_bind].
    rewrite decide_True by lia. by rewrite decide_False by lia. }
  rewrite Hrow. cbn [mbind option_bind fst]. rewrite IH.
  - rewrite Nat.add_succ_r. cbn [Nat.add].
    destruct (ReadRows _ _ _ _ _ _) as [[??]|]; [|done]. by cbn.
  - intros i x Hx. rewrite (Hl (Datatypes.S i) x Hx). lia.
  - lia.
Qed.

Lemma generateNewSettings_missing n vm k t :
  (∀ i, (Z.of_nat k ≤ i)%Z → t !! (vm, i) = None) →
  ∃ t', generateNewSettings clear_value n vm k t = Some (t', (vm,.) <$> (cleared clear_value <$> seq k n)) ∧
    ∀ vm' i, t' !! (vm', i) =
      if decide (vm' = vm ∧ Z.of_nat k ≤ i < Z.of_nat (k + n))%Z then Some (cleared clear_value (Z.to_nat i))
      else t !! (vm', i).
Proof.
  revert k t. induction n as [|n IH]; intros k t Hnone; cbn [generateNewSettings seq fmap list_fmap].
  { exists t. split; [done|]. intros vm' i. by rewrite decide_False by lia. }
  unfold InsertVmSetting. rewrite Hnone by lia. cbn [mbind option_bind].
  destruct (IH (Datatypes.S k) (<[(vm, Z.of_nat k) := cleared clear_value k]> t)) as (t' & -> & Hlk).
  { intros i Hi. rewrite lookup_insert_ne by (intros [=]; lia). apply Hnone. lia. }
  cbn [mbind option_bind]. exists t'. split; [done|]. intros vm' i. rewrite Hlk.
  destruct (decide ((vm', i) = (vm, Z.of_nat k))) as [[= -> ->]|Hne].
  - rewrite decide_False by lia. by rewrite decide_True, lookup_insert_eq, Nat2Z.id by lia.
  - rewrite (lookup_insert_ne t) by congruence.
    destruct (decide (vm' = vm)) as [->|]; [|by rewrite !decide_False by tauto].
    assert (i ≠ Z.of_nat k) by congruence. repeat case_decide; try done; lia.
Qed.

(** The rows of a machine [vm], of which [t] has [l], and what it lacks. *)
Lemma finish_vm_missing vm l t :
  length l ≤ fields_count → (∀ k, t !! (vm, k) = cell k l) →
  ∃ t', finish_vm fields_count clear_value (Some vm) (length l) t = Some (t', (vm,.) <$> missing l) ∧
    ∀ vm' k, t' !! (vm', k) = if decide (vm' = vm) then cell k (completed l) else t !! (vm', k).
Proof.
  intros Hl Ht. cbn [finish_vm].
  destruct (generateNewSettings_missing (fields_count - length l) vm (length l) t) as (t' & Ht' & Hlk).
  { intros i Hi. rewrite Ht. unfold cell. rewrite decide_True by lia. apply lookup_ge_None. lia. }
  exists t'. split; [exact Ht'|]. intros vm' k. rewrite Hlk.
  destruct (decide (vm' = vm)) as [->|]; [|by rewrite decide_False by tauto].
  unfold completed, missing, cell in *. rewrite Ht. case_decide as Hk.
  - rewrite decide_True by lia. rewrite lookup_app_r by lia. rewrite list_lookup_fmap, lookup_seq_lt by lia.
    cbn. repeat f_equal. lia.
  - destruct (decide (0 ≤ k)%Z); [|done]. destruct (decide (Z.to_nat k < length l)) as [|Hge].
    + by rewrite lookup_app_l.
    + rewrite !(proj2 (lookup_ge_None _ _)); [done|rewrite length_app, length_fmap, length_seq; lia|lia].
Qed.

(** A row of another machine finishes the previous one first. *)
Lemma ReadRows_start previous expected vm k s rows t t1 out1 :
  (previous = None → expected = 0) → previous ≠ Some vm →
  finish_vm fields_count clear_value previous expected t = Some (t1, out1) →
  ReadRows fields_count clear_value previous expected ((vm, k, s) :: rows) t =
  '(t, out) ← ReadRows fields_count clear_value (Some vm) 0 ((vm, k, s) :: rows) t1; Some (t, out1 ++ out).
Proof.
  intros Hn Hne Hf. cbn [ReadRows]. unfold ReadRow.
  assert (match previous with
    | Some previous => if decide (previous ≠ vm) then
          '(t, out) ← finish_vm fields_count clear_value (Some previous) expected t; Some (t, out, 0)
        else Some (t, [], expected)
    | None => Some (t, [], expected) end = Some (t1, out1, 0)) as ->.
  { destruct previous as [p|].
    - rewrite decide_True by congruence. by rewrite Hf.
    - injection Hf as <- <-. by rewrite (Hn eq_refl). }
  rewrite (decide_False (P := vm ≠ vm)) by (intros Hx; by apply Hx). cbn [mbind option_bind].
  destruct (decide (k < _)%Z); [|done]. destruct (decide (_ ≠ k)).
  - destruct (InsertVmSetting _ _ _ t1) as [t2|]; [|done]. cbn [mbind option_bind].
    by destruct (ReadRows _ _ _ _ _ _) as [[??]|].
  - cbn [mbind option_bind]. destruct (ReadRows _ _ _ _ _ _) as [[??]|]; [|done]. cbn. by rewrite <-app_assoc.
Qed.

Lemma prefix_wf_cons l : prefix_wf l → ∃ s l', l = s :: l'.
Proof. destruct l; [intros [? _]; simpl in *; lia|eauto]. Qed.

Lemma settings_wf_cons l : settings_wf fields_count l → ∃ s l', l = s :: l'.
Proof. destruct l; [intros [? _]; simpl in *; lia|eauto]. Qed.

Lemma ReadRows_all m t t1 out1 ids previous expected :
  (∀ vm, vm ∈ ids → ∃ l, m !! vm = Some l ∧ prefix_wf l ∧ ∀ k, t1 !! (vm, k) = cell k l) → NoDup ids →
  (previous = None → expected = 0) → (∀ vm, previous = Some vm → vm ∉ ids) →
  finish_vm fields_count clear_value previous expected t = Some (t1, out1) →
  ∃ t', ReadRows fields_count clear_value previous expected
      (ids ≫= λ vm, entries vm 0 (default [] (m !! vm))) t =
    Some (t', out1 ++ (ids ≫= λ vm, (vm,.) <$> completed (default [] (m !! vm)))) ∧
    ∀ vm k, t' !! (vm, k) =
      if decide (vm ∈ ids) then cell k (completed (default [] (m !! vm))) else t1 !! (vm, k).
Proof.
  revert previous expected t t1 out1.
  induction ids as [|vm ids IH]; intros previous expected t t1 out1 Hall Hnd Hnone Hprev Hf.
  { exists t1. split; [cbn; by rewrite app_nil_r|]. intros vm k. by rewrite decide_False by apply not_elem_of_nil. }
  apply list.NoDup_cons in Hnd as [Hvm Hnd].
  destruct (Hall vm) as (l & Hl & Hwf & Ht1); [by left|]. rewrite !bind_cons, Hl. change (default [] (Some l)) with l.
  destruct (prefix_wf_cons l Hwf) as (s & l' & Heq). assert (entries vm 0 l = (vm, Z.of_nat 0, s) :: entries vm 1 l') as Hent by (by rewrite Heq).
  rewrite Hent. cbn [app].
  rewrite (ReadRows_start _ _ _ _ _ _ _ t1 out1 Hnone) by (try done; intros ->; by eapply Hprev; [|left]).
  rewrite app_comm_cons, <-Hent.
  destruct Hwf as [Hlen Hwf]. rewrite ReadRows_entries by (try done; lia).
  destruct (finish_vm_missing vm l t1) as (t2 & Hf2 & Ht2); [lia|done|].
  destruct (IH (Some vm) (length l) t1 t2 ((vm,.) <$> missing l)) as (t' & Hr & Ht'); try done.
  - intros vm' Hin. destruct (Hall vm') as (l2 & Hl2 & Hwf2 & Hc2); [by right|]. exists l2. split_and!; [done..|].
    intros k. rewrite Ht2, decide_False by (by intros ->). apply Hc2.
  - by intros ? [= <-].
  - change (0 + length l) with (length l). rewrite Hr. cbn [mbind option_bind].
    exists t'. split; [f_equal; f_equal; unfold completed; by rewrite fmap_app, <-!app_assoc|].
    intros vm' k. rewrite Ht', Ht2. destruct (decide (vm' = vm)) as [->|Hne].
    + rewrite decide_False by done. rewrite decide_True by (by left). by rewrite Hl.
    + destruct (decide (vm' ∈ ids)); [by rewrite decide_True by (by right)|].
      rewrite decide_False; [done|]. by intros [?|?]%elem_of_cons.
Qed.

Lemma LoadRows_block vm l rest w :
  previous_vm_id w = Some vm → length (vm_settings w) = vm_setting_index w + length l →
  LoadRows (((vm,.) <$> l) ++ rest) w =
  LoadRows rest (Loading (take (vm_setting_index w) (vm_settings w) ++ l)
    (vm_setting_index w + length l) (Some vm) (created w)).
Proof.
  revert w. induction l as [|s l IH]; intros [b k prev out]; cbn; intros -> Hlen.
  { f_equal. rewrite app_nil_r, Nat.add_0_r in *. f_equal. by rewrite take_ge by lia. }
  unfold LoadSetting. cbn [previous_vm_id]. rewrite decide_False by (intros Hn; by apply Hn).
  cbn [mbind option_bind vm_setting_index vm_settings]. rewrite decide_True by lia. cbn [mbind option_bind].
  rewrite IH; [|done|by cbn; rewrite length_insert; lia]. cbn. f_equal. f_equal; [|lia].
  rewrite (take_S_r _ _ s) by (apply list_lookup_insert_eq; lia).
  rewrite take_insert_ge by lia. by rewrite <-app_assoc.
Qed.

(** The machines created so far, with the one being read. *)
Definition flushed (w : loading (V := V)) : list (Z * list S) :=
  created w ++ match previous_vm_id w with Some vm => [(vm, vm_settings w)] | None => [] end.

Definition loading_ok (w : loading (V := V)) : Prop :=
  length (vm_settings w) = fields_count ∧
  match previous_vm_id w with
  | Some _ => vm_setting_index w = fields_count | None => vm_setting_index w = 0
  end.

Lemma create_vm_ok w vm :
  loading_ok w → previous_vm_id w = Some vm →
  create_vm w = Some (Loading (vm_settings w) 0 (Some vm) (flushed w)).
Proof.
  destruct w as [b k prev out]. unfold loading_ok, create_vm, flushed. cbn. intros [Hlen Hk] ->.
  cbn. by rewrite take_ge by lia.
Qed.

Lemma LoadRows_start vm s l rest w :
  loading_ok w → previous_vm_id w ≠ Some vm → length (s :: l) = fields_count →
  LoadRows (((vm,.) <$> s :: l) ++ rest) w =
  LoadRows rest (Loading (s :: l) fields_count (Some vm) (flushed w)).
Proof.
  intros Hok Hne Hlen.
  assert (Hstart : LoadSetting (vm, s) w = LoadSetting (vm, s) (Loading (vm_settings w) 0 (Some vm) (flushed w))).
  { unfold LoadSetting at 2. cbn [previous_vm_id]. rewrite decide_False by (intros Hn; by apply Hn).
    unfold LoadSetting. destruct (previous_vm_id w) as [p|] eqn:Hp.
    - rewrite decide_True by (cbn; congruence). by rewrite (create_vm_ok w p).
    - destruct Hok as [Hl Hk]. rewrite Hp in Hk. cbn. rewrite Hk. unfold flushed. by rewrite Hp, app_nil_r. }
  trans (LoadRows (((vm,.) <$> s :: l) ++ rest) (Loading (vm_settings w) 0 (Some vm) (flushed w))).
  { cbn [fmap list_fmap app LoadRows]. by rewrite Hstart. }
  rewrite LoadRows_block; [|done|destruct Hok as [Hb _]; cbn in *; lia]. cbn in *. by rewrite Hlen.
Qed.

Lemma LoadRows_all m ids w :
  (∀ vm, vm ∈ ids → ∃ l, m !! vm = Some l ∧ settings_wf fields_count l) → NoDup ids →
  loading_ok w → (∀ vm, previous_vm_id w = Some vm → vm ∉ ids) →
  ∃ w', LoadRows (ids ≫= λ vm, (vm,.) <$> default [] (m !! vm)) w = Some w' ∧
    created w' = flushed w ++ ((λ vm, (vm, default [] (m !! vm))) <$> ids).
Proof.
  revert w. induction ids as [|vm ids IH]; intros w Hall Hnd Hok Hprev.
  { cbn. rewrite app_nil_r. destruct (previous_vm_id w) as [p|] eqn:Hp.
    - eexists. split; [by apply create_vm_ok|done].
    - exists w. split; [done|]. unfold flushed. by rewrite Hp, app_nil_r. }
  apply list.NoDup_cons in Hnd as [Hvm Hnd].
  destruct (Hall vm) as (l & Hl & Hwf); [by left|]. rewrite bind_cons, Hl. change (default [] (Some l)) with l.
  destruct (settings_wf_cons l Hwf) as (s & l' & ->).
  rewrite LoadRows_start; [|done|intros Hp; eapply Hprev; [exact Hp|by left]|apply Hwf].
  destruct (IH (Loading (s :: l') fields_count (Some vm) (flushed w))) as (w' & Hw' & Hc).
  - intros; apply Hall; by right.
  - done.
  - split; [apply Hwf|done].
  - by intros ? [= <-].
  - exists w'. split; [exact Hw'|]. rewrite Hc. unfold flushed at 1. cbn. by rewrite Hl, <-app_assoc.
Qed.

Lemma sorted_ids_fmap {A B} (f : A → B) (m : gmap Z A) : sorted_ids (f <$> m) = sorted_ids m.
Proof. unfold sorted_ids. by rewrite dom_fmap_L. Qed.

Lemma LoadVms_holds m t :
  holds m t →
  ∃ t', LoadVms fields_count clear_value t =
      Some (t', (λ vm, (vm, completed (default [] (m !! vm)))) <$> sorted_ids m) ∧
    represents (completed <$> m) t'.
Proof.
  intros Ht. destruct (sorted_ids_spec m) as (Hnd & _ & Hids).
  assert (Hall : ∀ vm, vm ∈ sorted_ids m → ∃ l, m !! vm = Some l ∧ prefix_wf l ∧ ∀ k, t !! (vm, k) = cell k l).
  { intros vm [l Hl]%Hids. exists l. split_and!; [done|by apply (proj2 Ht vm)|]. intros k. by rewrite (proj1 Ht), Hl. }
  unfold LoadVms, ReadVmSettings. rewrite (order_by_holds m t Ht).
  destruct (ReadRows_all m t t [] (sorted_ids m) None 0) as (t' & -> & Ht'); try done. cbn [mbind option_bind app].
  destruct (LoadRows_all (completed <$> m) (sorted_ids m) (Loading (InitSettings clear_value fields_count) 0 None []))
    as (w & Hw & Hc); [|done| |done|].
  - intros vm (l & Hl & [Hlen Hl'] & _)%Hall. exists (completed l). rewrite lookup_fmap, Hl. split; [done|].
    apply completed_wf; [lia|done].
  - split; [apply length_replicate|done].
  - assert (∀ vm, vm ∈ sorted_ids m → default [] ((completed <$> m) !! vm) = completed (default [] (m !! vm))) as Heq.
    { intros vm (l & Hl & _)%Hall. by rewrite lookup_fmap, Hl. }
    exists t'. split.
    + rewrite (Forall_bind_ext _ (λ vm, (vm,.) <$> default [] ((completed <$> m) !! vm))).
      2:{ apply list.Forall_forall. intros vm Hin. by rewrite Heq. }
      rewrite Hw. cbn [mbind option_bind]. rewrite Hc. cbn. do 2 f_equal. apply list_fmap_ext.
      intros i vm Hin%list_elem_of_lookup_2. by rewrite Heq.
    + split.
      * intros vm k. rewrite Ht', lookup_fmap. destruct (decide (vm ∈ sorted_ids m)) as [Hin|Hin].
        -- destruct (Hall vm Hin) as (l & Hl & _). by rewrite Hl.
        -- destruct (m !! vm) as [l|] eqn:Hl; [by destruct Hin; apply Hids; exists l|]. by rewrite (proj1 Ht), Hl.
      * intros vm l' Hl'. rewrite lookup_fmap in Hl'. destruct (m !! vm) as [l|] eqn:Hl; [|done]. injection Hl' as <-.
        destruct (proj2 Ht vm l Hl). apply completed_wf; [lia|done].
Qed.

Lemma represents_unique m t t' : represents m t → represents m t' → t = t'.
Proof. intros [Ht _] [Ht' _]. apply map_eq. intros [vm k]. by rewrite Ht, Ht'. Qed.

Lemma LoadVms_represents m t :
  represents m t →
  LoadVms fields_count clear_value t =
    Some (t, (λ vm, (vm, default [] (m !! vm))) <$> sorted_ids m).
Proof.
  intros Ht. destruct (LoadVms_holds m t (represents_holds m t Ht)) as (t' & -> & Ht').
  assert (∀ vm, completed (default [] (m !! vm)) = default [] (m !! vm) ∨ m !! vm = None) as Hc.
  { intros vm. destruct (m !! vm) as [l|] eqn:Hl; [left|by right]. apply completed_full. by destruct (proj2 Ht vm l Hl). }
  assert (completed <$> m = m) as Hm.
  { apply map_eq. intros vm. rewrite lookup_fmap. destruct (Hc vm) as [Hl|Hl]; [|by rewrite Hl].
    destruct (m !! vm) as [l|]; [|done]. change (Some (completed l) = Some l). by f_equal. }
  rewrite Hm in Ht'. rewrite (represents_unique m t' t Ht' Ht). do 2 f_equal. apply list_fmap_ext.
  intros i vm Hin%list_elem_of_lookup_2. destruct (sorted_ids_spec m) as (_ & _ & Hids). apply Hids in Hin as [l Hl].
  destruct (Hc vm) as [->|]; [done|congruence].
Qed.

Lemma foldr_max_spec (l : list Z) (b : Z) :
  (∀ x, x ∈ l → x ≤ foldr Z.max 0 l)%Z ∧
  (0 < b → (∀ x, x ∈ l → x < b) → 0 ≤ foldr Z.max 0 l < b)%Z.
Proof.
  induction l as [|y l [IH1 IH2]]; cbn [foldr].
  { split; [by intros ? ?%not_elem_of_nil|lia]. }
  split.
  - intros x [->|Hx]%elem_of_cons; [lia|]. specialize (IH1 x Hx). lia.
  - intros Hb Hlt. pose proof (Hlt y ltac:(by left)).
    pose proof (IH2 Hb (λ x Hx, Hlt x (list_elem_of_further _ _ _ Hx))). lia.
Qed.

Lemma GetNewVmId_fresh m t :
  represents m t → (∀ vm, is_Some (m !! vm) → (vm < 2 ^ 32 - 1)%Z) →
  m !! GetNewVmId t = None ∧ (1 ≤ GetNewVmId t < 2 ^ 32)%Z.
Proof.
  intros Ht Hlt. unfold GetNewVmId.
  destruct (foldr_max_spec (elements (vm_ids t)) (2 ^ 32 - 1)) as [Hmax Hbound].
  assert (Hids : ∀ vm, vm ∈ elements (vm_ids t) ↔ is_Some (m !! vm)).
  { intros vm. rewrite elem_of_elements. by apply represents_ids. }
  specialize (Hbound ltac:(lia) (λ x Hx, Hlt x (proj1 (Hids x) Hx))).
  assert (Hnot : ∀ k, (foldr Z.max 0 (elements (vm_ids t)) < k)%Z → m !! k = None).
  { intros k Hk. apply eq_None_not_Some. intros Hs%Hids%Hmax. lia. }
  case_decide as Hempty.
  - split; [|lia]. apply Hnot. rewrite Hempty, elements_empty. cbn. lia.
  - unfold set_fold. cbn. rewrite u32_small by lia. rewrite Z.max_l by lia. split; [apply Hnot; lia|lia].
Qed.

(** C10: the [VmConfig] table implements a map from machine identifiers to
    complete setting lists.  Creating a machine adds its list, an update
    replaces the members it names, deleting a machine removes its list, the
    new identifier is one that is not in use, and what the server reads when
    it starts is the map, with the same settings, in the order of the
    identifiers: no row is invalid or missing, so nothing is inserted. *)
Theorem config_store_refines m t :
  represents m t →
  (∀ vm l, m !! vm = None → settings_wf fields_count l →
    ∃ t', CreateVm vm l t = Some t' ∧ represents (<[vm := l]> m) t') ∧
  (∀ vm updates, NoDup (which <$> updates) → Forall known_setting updates →
    represents (alter (fmap (pick updates)) vm m) (UpdateVmSettings vm updates t)) ∧
  (∀ vm, represents (delete vm m) (DeleteVm vm t)) ∧
  ((∀ vm, is_Some (m !! vm) → (vm < 2 ^ 32 - 1)%Z) →
    m !! GetNewVmId t = None ∧ (1 ≤ GetNewVmId t < 2 ^ 32)%Z) ∧
  ∃ vms, LoadVms fields_count clear_value t = Some (t, vms) ∧
    Sorted Z.le (fst <$> vms) ∧ NoDup (fst <$> vms) ∧
    ∀ vm l, (vm, l) ∈ vms ↔ m !! vm = Some l.
Proof.
  intros Ht. split_and!.
  - intros vm l. by apply CreateVm_represents.
  - intros vm updates. by apply UpdateVmSettings_represents.
  - intros vm. by apply DeleteVm_represents.
  - by apply GetNewVmId_fresh.
  - eexists. split; [by apply LoadVms_represents|].
    destruct (sorted_ids_spec m) as (Hnd & Hsort & Hids).
    rewrite <-list_fmap_compose, (list_fmap_ext (fst ∘ _) id), list_fmap_id by done.
    split_and!; [done|done|]. intros vm l. rewrite list_elem_of_fmap. split.
    + intros (vm' & [= -> ->] & [l' Hl]%Hids). by rewrite Hl.
    + intros Hl. exists vm. rewrite Hl. split; [done|]. apply Hids. by exists l.
Qed.

(** ** The server's settings

    [holds_server l t]: the table has the rows of [l], one after the other. *)
Implicit Types st : gmap Z S.

Definition holds_server l st : Prop := ∀ k, st !! k = cell k l.

Fixpoint server_entries (k : nat) l : list (Z * S) :=
  match l with [] => [] | s :: l => (Z.of_nat k, s) :: server_entries (Datatypes.S k) l end.

Lemma server_rows_holds l st : holds_server l st → server_rows st = server_entries 0 l.
Proof.
  intros Ht. unfold server_rows.
  assert (merge_sort Z.le (elements (dom st)) = Z.of_nat <$> seq 0 (length l)) as ->.
  { apply (Sorted_unique_strong Z.le).
    - intros. lia.
    - apply Sorted_merge_sort. intros x y. lia.
    - generalize 0. induction (length l) as [|n IH]; intros k; cbn; [constructor|]. constructor; [apply IH|].
      destruct n; cbn; constructor. lia.
    - rewrite merge_sort_Permutation. apply list.NoDup_Permutation; [apply NoDup_elements| |].
      + apply NoDup_fmap_2; [intros ? ? ?; lia|apply NoDup_seq].
      + intros k. rewrite elem_of_elements, elem_of_dom, Ht, list_elem_of_fmap. unfold cell. split.
        * intros [s Hs]. case_decide; [|done]. exists (Z.to_nat k). split; [lia|]. apply elem_of_seq.
          apply lookup_lt_Some in Hs. lia.
        * intros (i & -> & Hi%elem_of_seq). rewrite decide_True, Nat2Z.id by lia. apply lookup_lt_is_Some. lia. }
  assert (∀ k l', (∀ i, l' !! i = l !! (k + i)) →
    omap (λ k, (k,.) <$> st !! k) (Z.of_nat <$> seq k (length l')) = server_entries k l') as Hrows.
  { intros k l'. revert k. induction l' as [|s l' IH]; intros k Hl; [done|]. cbn.
    rewrite Ht. unfold cell at 1. rewrite decide_True, Nat2Z.id by lia.
    pose proof (Hl 0) as Hs. rewrite Nat.add_0_r in Hs. rewrite <-Hs. cbn. f_equal. apply IH.
    intros i. specialize (Hl (Datatypes.S i)). by rewrite Nat.add_succ_r in Hl. }
  by apply Hrows.
Qed.

Lemma LoadServerRows_holds k l b st :
  (∀ i s, l !! i = Some s → which s = k + i) → k + length l ≤ length b → length b = fields_count →
  LoadServerRows fields_count clear_value k (server_entries k l) b st =
  Some (k + length l, take k b ++ l ++ drop (k + length l) b, st).
Proof.
  revert k b. induction l as [|s l IH]; intros k b Hl Hle Hb; cbn [server_entries LoadServerRows length app].
  { by rewrite Nat.add_0_r, take_drop. }
  cbn [length] in Hle. pose proof (Hl 0 s eq_refl) as Hs. rewrite Nat.add_0_r in Hs.
  unfold LoadServerRow. rewrite u8_small by lia. rewrite Nat2Z.id, decide_True by lia.
  rewrite decide_False by lia. rewrite decide_True by done. cbn [mbind option_bind].
  rewrite IH; [|intros i x Hx; rewrite (Hl (Datatypes.S i) x Hx); lia|rewrite length_insert; lia|by rewrite length_insert].
  do 3 f_equal; [lia|].
  rewrite (take_S_r _ _ s) by (apply list_lookup_insert_eq; lia). rewrite take_insert_ge by lia.
  rewrite drop_insert_lt by lia. rewrite <-app_assoc. cbn. by rewrite Nat.add_succ_r.
Qed.

Lemma LoadServerDefaults_missing n k b st :
  k + n ≤ length b → (∀ i, (Z.of_nat k ≤ i)%Z → st !! i = None) →
  ∃ st', LoadServerDefaults clear_value n k b st =
      Some (take k b ++ (cleared clear_value <$> seq k n) ++ drop (k + n) b, st') ∧
    ∀ i, st' !! i = if decide (Z.of_nat k ≤ i < Z.of_nat (k + n))%Z then Some (cleared clear_value (Z.to_nat i))
                    else st !! i.
Proof.
  revert k b st. induction n as [|n IH]; intros k b st Hle Hnone; cbn [LoadServerDefaults seq fmap list_fmap app].
  { exists st. split; [by rewrite Nat.add_0_r, take_drop|]. intros i. by rewrite decide_False by lia. }
  rewrite decide_True by lia. unfold InsertServerSetting. rewrite Hnone by lia. cbn [mbind option_bind].
  destruct (IH (Datatypes.S k) (<[k := cleared clear_value k]> b) (<[Z.of_nat k := cleared clear_value k]> st))
    as (st' & -> & Hlk).
  - rewrite length_insert. lia.
  - intros i Hi. rewrite lookup_insert_ne by lia. apply Hnone. lia.
  - exists st'. split.
    + f_equal. f_equal. rewrite (take_S_r _ _ (cleared clear_value k)) by (apply list_lookup_insert_eq; lia).
      rewrite take_insert_ge by lia. rewrite drop_insert_lt by lia. rewrite <-app_assoc. cbn. by rewrite Nat.add_succ_r.
    + intros i. rewrite Hlk. destruct (decide (i = Z.of_nat k)) as [->|Hne].
      * rewrite decide_False by lia. by rewrite decide_True, lookup_insert_eq, Nat2Z.id by lia.
      * rewrite lookup_insert_ne by done. repeat case_decide; try done; lia.
Qed.

(** Whatever the list that is filled contains, what is loaded is the stored
    settings and the defaults of the missing ones, which are then stored. *)
Lemma LoadServerSettings_holds l b st :
  length l ≤ fields_count → (∀ i s, l !! i = Some s → which s = i) → length b = fields_count → holds_server l st →
  ∃ st', LoadServerSettings fields_count clear_value b st = Some (completed l, st') ∧
    holds_server (completed l) st'.
Proof.
  intros Hle Hl Hb Ht. unfold LoadServerSettings. rewrite (server_rows_holds l st Ht).
  rewrite LoadServerRows_holds by (done || lia). cbn [mbind option_bind Nat.add]. change (take 0 b ++ ?x) with x.
  destruct (LoadServerDefaults_missing (fields_count - length l) (length l) (l ++ drop (length l) b) st)
    as (st' & -> & Hlk).
  - rewrite length_app, length_drop. lia.
  - intros i Hi. rewrite Ht. unfold cell. rewrite decide_True by lia. apply lookup_ge_None. lia.
  - exists st'. split.
    + rewrite take_app_length. unfold completed, missing. rewrite drop_ge, app_nil_r; [done|].
      rewrite length_app, length_drop. lia.
    + intros k. rewrite Hlk, Ht. unfold completed, missing, cell. case_decide as Hk.
      * rewrite decide_True by lia. rewrite lookup_app_r by lia. rewrite list_lookup_fmap, lookup_seq_lt by lia.
        cbn. repeat f_equal. lia.
      * destruct (decide (0 ≤ k)%Z); [|done]. destruct (decide (Z.to_nat k < length l)); [by rewrite lookup_app_l|].
        rewrite !(proj2 (lookup_ge_None _ _)); [done|rewrite length_app, length_fmap, length_seq; lia|lia].
Qed.

Lemma SaveServerSettings_holds l updates st :
  settings_wf fields_count l → NoDup (which <$> updates) → Forall known_setting updates → holds_server l st →
  holds_server (pick updates <$> l) (SaveServerSettings updates st).
Proof.
  revert l st. induction updates as [|s updates IH]; intros l st Hwf Hnd Hk Ht; cbn [SaveServerSettings].
  { intros k. rewrite Ht. unfold cell. case_decide; [|done]. rewrite list_lookup_fmap.
    by destruct (l !! Z.to_nat k). }
  rewrite fmap_cons in Hnd. apply list.NoDup_cons in Hnd as [Hs Hnd].
  apply list.Forall_cons in Hk as [Hks Hk]. rewrite pick_cons by done.
  destruct Hwf as [Hlen Hwf]. apply IH; [|done..|].
  - split; [by rewrite length_insert|]. intros i x. rewrite list_lookup_insert_Some. intros [(<- & <- & _)|[_ ?]]; eauto.
  - rewrite setting_key_known by done. intros k. destruct (decide (k = Z.of_nat (which s))) as [->|Hne].
    + rewrite lookup_alter_eq, Ht. unfold cell. rewrite !decide_True, !Nat2Z.id by lia.
      unfold known_setting in Hks. destruct (lookup_lt_is_Some_2 l (which s)) as [x Hx]; [lia|].
      by rewrite Hx, list_lookup_insert_eq by lia.
    + rewrite lookup_alter_ne, Ht by done. unfold cell. case_decide; [|done].
      rewrite list_lookup_insert_ne; [done|]. intros Hw. apply Hne. lia.
Qed.
End ConfigStoreProperties.

(** ** A concrete table *)

Module ConfigStoreDemo.
Definition clear (i : nat) : nat := i.
Definition vm1 : list (setting nat) := [Setting 0 7; Setting 1 8].
Definition table : gmap (Z * Z) (setting nat) := default ∅ (CreateVm 4 vm1 ∅).

Lemma empty_represents : represents 2 (∅ : gmap Z (list (setting nat))) ∅.
Proof. split; [intros; by rewrite !lookup_empty|by intros ? ? ?%lookup_empty_Some]. Qed.

Lemma vm1_wf : settings_wf 2 vm1.
Proof. split; [done|]. by intros [|[|i]] s [= <-]. Qed.

Lemma table_represents : represents 2 {[4%Z := vm1]} table.
Proof.
  destruct (CreateVm_represents 2 ltac:(lia) ∅ ∅ 4 vm1 empty_represents eq_refl vm1_wf)
    as (t' & Ht' & Hr).
  assert (table = t') as -> by (unfold table; by rewrite Ht'). by rewrite insert_empty in Hr.
Qed.

Lemma config_store_refines_witness :
  ∃ vms, LoadVms 2 clear table = Some (table, vms) ∧ (4%Z, vm1) ∈ vms.
Proof.
  destruct (config_store_refines 2 clear ltac:(lia) {[4%Z := vm1]} table table_represents)
    as (_ & _ & _ & _ & vms & Hload & _ & _ & Hin).
  exists vms. split; [exact Hload|]. apply Hin, lookup_singleton_eq.
Defined.

(** A list with two settings of the same type: the machine keeps the first,
    the table the last. *)
Example duplicate_update :
  (pick [Setting 0 1; Setting 0 2] <$> vm1) !! 0 = Some (Setting 0 1) ∧
  UpdateVmSettings 4 [Setting 0 1; Setting 0 2] table !! (4, 0)%Z = Some (Setting 0 2).
Proof. split; by vm_compute. Qed.
End ConfigStoreDemo.

