(* ===== verification/Messages.v ===== *)
(** * The messages the server writes (CollabVmServerMessage)

    Cap'n Proto schemas live in a submodule, so a message is modelled by the
    calls the source makes on its builder: one constructor per member of the
    union that the code initialises, with the fields that it sets.  Guacamole
    instructions are opaque ([G]); what the code asks of them (their
    discriminant and a few fields) is the class [GuacSchema]. *)

From S2P Require Import Prelude ChatRoom Database.
From Stdlib Require Import String.

(** The members of [Guacamole::GuacServerInstruction] that the source tells
    apart, with the fields it reads. *)
Inductive guac_view :=
| G_SYNC (timestamp : Z) | G_BLOB (stream : Z) | G_END (stream : Z) | G_AUDIO (stream : Z)
| G_MOUSE | G_KEY | G_IMG (layer : Z) | G_NOP | G_DISCONNECT | G_ERROR | G_OTHER.

Class GuacSchema (G : Type) := guac_which : G → guac_view.

Inductive TurnState := TURNS_DISABLED | TURNS_ENABLED_ | TURNS_PAUSED.
Inductive VmStatus := VM_STOPPED | VM_STARTING | VM_RUNNING.
Inductive VoteStatus :=
| VOTE_DISABLED | VOTE_COOLING_DOWN
| VOTE_IDLE (disallow_guest_votes : bool)
| VOTE_IN_PROGRESS (time_remaining yes no : Z) (disallow_guest_votes : bool).
Inductive ChatMessageResponse :=
| USER_NOT_FOUND | USER_CHAT_LIMIT | RECIPIENT_CHAT_LIMIT.

#[export] Instance TurnState_eq_dec : EqDecision TurnState.
Proof. solve_decision. Defined.
#[export] Instance VmStatus_eq_dec : EqDecision VmStatus.
Proof. solve_decision. Defined.

Record UserInfo := MkUserInfo { info_username : string; info_user_type : UserType }.
Record UserAdmin := MkUserAdmin {
  ua_username : string; ua_user_type : UserType; ua_ip_first : Z; ua_ip_second : Z }.

Record AdminVmInfo := MkAdminVmInfo { avi_id : Z; avi_name : string; avi_status : VmStatus }.

(** [vi_host] is never set by the source: it keeps the default. *)
Record VmInfo := MkVmInfo {
  vi_id : Z;
  vi_name : string;
  vi_host : string;
  vi_operating_system : string;
  vi_uploads : bool;
  vi_input : bool;
  vi_ram : Z;
  vi_disk_space : Z;
  vi_safe_for_work : bool;
  vi_viewer_count : Z
}.

Section Messages.
Context {G S : Type}.

Inductive server_message :=
| MUserList (channel : Z) (users : list UserInfo)
| MAdminUserList (channel : Z) (users : list UserAdmin)
| MUserListAdd (channel : Z) (user : UserInfo)
| MAdminUserListAdd (channel : Z) (user : UserAdmin)
| MUserListRemove (channel : Z) (username : string)
| MChangeUsername (old_username new_username : string)
| MVmDescription (description : string)
| MVmTurnInfo (state : TurnState) (time_remaining : Z) (users : list string)
| MVoteStatus (status : VoteStatus)
| MVoteResult (vote_passed : bool)
| MGuacInstr (instr : G)
| MConnectSuccess (history : list chat_message) (username : string) (captcha_required : bool)
| MConnectFail
| MUsernameTaken
| MChatMessage (msg : channel_chat_message)
| MChatChannel (channel : Z)
| MNewChatChannel (channel : Z) (message : string)
| MChatMessageResponse (result : ChatMessageResponse)
| MChangePasswordResponse (success : bool)
| MCaptchaRequired (required : bool)
| MReadVmsResponse (vms : list AdminVmInfo)
| MVmListResponse (vms : list VmInfo)
| MVmThumbnail (vm_id : Z) (png_bytes : list Z)
| MCreateVmResponse (vm_id : Z)
| MReadVmConfigResponse (settings : list S)
| MServerSettings (settings : list S)
| MCreateInviteResult (id : list Z)
| MReadInvitesResponse (invites : list (list Z * string))
| MUpdateInviteResult (result : bool)
| MInviteValidation (is_valid : bool) (username : string)
| MReservedUsernames (usernames : list string)
| MLoginResult (result : LoginResult)
| MLoginSession (session_id : list Z) (username : string) (is_admin : bool)
| MRegisterError (error : RegisterAccountError)
| MRegisterSession (session_id : list Z) (username : string)
| MRecordingTimestamp (timestamp : Z)
| MRecordingPlaybackPreview (timestamp : Z) (vm_id : Z) (png_bytes : list Z)
| MRecordingPlaybackResult (result : bool).
End Messages.
Arguments server_message : clear implicits.
