(* ===== verification/UserChannel.v ===== *)
(** * Channels (src/UserChannel.hpp, src/IPData.hpp)

    The users of a channel, the data the channel keeps per IP address with a
    reference count, and the membership messages.  The class that derives from
    [UserChannel] ([TBase]) is the interface [ChannelBase]: what it sends to a
    user who joins, what it does when a user leaves, and whether it has a
    recording that receives broadcasts.  The users are a finite map, as the
    iteration order of [std::unordered_map] is unspecified. *)

From S2P Require Import Prelude Timer VoteController ChatRoom Messages.
From Stdlib Require Import String.

Record UserData := MkUserData {
  username : string;
  user_type : UserType;
  ip_address : list Z;
  vote_data : UserVoteData
}.

Definition IsAdmin (d : UserData) : bool := bool_decide (user_type d = ADMIN).
Definition IsRegistered (d : UserData) : bool := negb (bool_decide (user_type d = GUEST)).

Definition with_vote_data (v : UserVoteData) (d : UserData) : UserData :=
  MkUserData (username d) (user_type d) (ip_address d) v.

(** [IPData::ChannelData] with the channel's reference count. *)
Record ChannelIPData := MkChannelIPData { voted : bool; reference_count_ : nat }.

(** Where a message goes: to a socket, or into the channel's recording. *)
Inductive action (U M : Type) :=
| Queue (u : U) (m : M)
| Record_ (m : M)
| CloseSocket (u : U).
Arguments Queue {U M}.
Arguments Record_ {U M}.
Arguments CloseSocket {U M}.

Section UserChannel.
Context {U : Type} `{Countable U} {G S : Type}.
Abbreviation msg := (server_message G S).
Implicit Types (u v : U) (d : UserData) (now : Z).

Record user_channel := UserChannel {
  users_ : gmap U UserData;
  ip_data_ : gmap (list Z) ChannelIPData;
  admins_count_ : Z;
  chat_room_ : chat_room
}.
Implicit Types ch : user_channel.

Definition with_users (us : gmap U UserData) ch : user_channel :=
  UserChannel us (ip_data_ ch) (admins_count_ ch) (chat_room_ ch).
Definition with_ip_data (ips : gmap (list Z) ChannelIPData) ch : user_channel :=
  UserChannel (users_ ch) ips (admins_count_ ch) (chat_room_ ch).
Definition with_admins (n : Z) ch : user_channel :=
  UserChannel (users_ ch) (ip_data_ ch) n (chat_room_ ch).
Definition with_chat_room (r : chat_room) ch : user_channel :=
  UserChannel (users_ ch) (ip_data_ ch) (admins_count_ ch) r.

Definition channel_new (room : chat_room) : user_channel := UserChannel ∅ ∅ 0 room.

Definition ChannelId ch : Z := GetId (chat_room_ ch).
Definition GetUserData u ch : option UserData := users_ ch !! u.
Definition ClearUsers ch : user_channel := with_users ∅ ch.

Class ChannelBase (B : Type) := {
  join_messages : Z → user_channel → B → list msg;
  on_remove_user : Z → U → user_channel → B →
    option (user_channel * B * list (action U msg));
  has_recording : bool
}.

(** ** Messages *)

Definition AddUserToList d : UserInfo := MkUserInfo (username d) (user_type d).
Definition AddAdminUserToList d : UserAdmin :=
  MkUserAdmin (username d) (user_type d)
    (be64 (take 8 (ip_address d))) (be64 (take 8 (drop 8 (ip_address d)))).

Definition members ch : list (U * UserData) := map_to_list (users_ ch).

Definition CreateUserListMessage ch : msg :=
  MUserList (ChannelId ch) ((λ p, AddUserToList p.2) <$> members ch).
Definition CreateAdminUserListMessage ch : msg :=
  MAdminUserList (ChannelId ch) ((λ p, AddAdminUserToList p.2) <$> members ch).

(** [ForEachUser] with a callback for sockets only. *)
Definition ForEachSocket (f : U → UserData → list (action U msg)) ch : list (action U msg) :=
  members ch ≫= λ p, f p.1 p.2.

Section Base.
Context {B : Type} `{ChannelBase B}.

(** The recording, when there is one, comes first. *)
Definition BroadcastMessage (m : msg) ch : list (action U msg) :=
  (if has_recording then [Record_ m] else []) ++ ForEachSocket (λ u _, [Queue u m]) ch.

Definition AddUser now (initial_user_data : UserData) u ch (base : B)
    : user_channel * list (action U msg) :=
  let join := Queue u <$> join_messages now ch base in
  let ip := ip_address initial_user_data in
  let ip_data := default (MkChannelIPData false 0) (ip_data_ ch !! ip) in
  let ip_data := MkChannelIPData (voted ip_data) (reference_count_ ip_data + 1) in
  (* [emplace] keeps the entry of a user who is already there *)
  let user_data := default initial_user_data (users_ ch !! u) in
  let ch :=
    UserChannel (<[u := user_data]> (users_ ch)) (<[ip := ip_data]> (ip_data_ ch))
      (u32 (admins_count_ ch + if IsAdmin user_data then 1 else 0)) (chat_room_ ch) in
  let list_message :=
    Queue u (if IsAdmin user_data then CreateAdminUserListMessage ch
             else CreateUserListMessage ch) in
  if decide (size (users_ ch) ≤ 1) then (ch, join ++ [list_message])
  else
    let user_message := MUserListAdd (ChannelId ch) (AddUserToList user_data) in
    let admin_user_message := MAdminUserListAdd (ChannelId ch) (AddAdminUserToList user_data) in
    let others := ForEachSocket (λ v d,
      if decide (v = u) then []
      else [Queue v (if IsAdmin d then admin_user_message else user_message)]) ch in
    (ch, join ++ [list_message] ++ others).

(** The reference [UserData::ip_data] of a user points into [ip_data_]:
    [None] when the entry is gone, or when its count is already zero. *)
Definition release_ip (ip : list Z) (ips : gmap (list Z) ChannelIPData)
    : option (gmap (list Z) ChannelIPData) :=
  d ← ips !! ip;
  match reference_count_ d with
  | 0 => None
  | 1 => Some (delete ip ips)
  | Datatypes.S n => Some (<[ip := MkChannelIPData (voted d) n]> ips)
  end.

Definition RemoveUser now u ch (base : B)
    : option (user_channel * B * list (action U msg)) :=
  match users_ ch !! u with
  | None => Some (ch, base, [])
  | Some user_data =>
      ips ← release_ip (ip_address user_data) (ip_data_ ch);
      let ch := with_ip_data ips ch in
      let ch := with_admins
        (u32 (admins_count_ ch - if IsAdmin user_data then 1 else 0)) ch in
      let message := MUserListRemove (ChannelId ch) (username user_data) in
      '(ch, base, acts) ← on_remove_user now u ch base;
      let ch := with_users (delete u (users_ ch)) ch in
      Some (ch, base, acts ++ BroadcastMessage message ch)
  end.
End Base.

(** ** What the server does to a channel

    The callbacks that CollabVmServer.hpp passes to [GetUserChannel]; each is
    generic in what the channel derives from. *)
Definition channel_fn : Type := ∀ B : Type, ChannelBase B →
  user_channel → B → option (user_channel * B * list (action U msg)).

Definition remove_user now u : channel_fn := λ B _ ch b, RemoveUser now u ch b.

(** The user's type is overwritten, [admins_count_] is left as it was. *)
Definition update_username u (new_username : string) (type : UserType) : channel_fn := λ B _ ch b,
  match GetUserData u ch with
  | None => Some (ch, b, [])
  | Some d =>
      let message := MChangeUsername (username d) new_username in
      let d := MkUserData new_username type (ip_address d) (vote_data d) in
      let ch := with_users (<[u := d]> (users_ ch)) ch in
      Some (ch, b, BroadcastMessage message ch)
  end.

Definition join_channel now u (data : UserData) (captcha_required : bool) : channel_fn := λ B _ ch b,
  history ← GetChatHistory (chat_room_ ch);
  let '(ch, acts) := AddUser now data u ch b in
  Some (ch, b, Queue u (MConnectSuccess history (username data) captcha_required) :: acts).

Definition send_message (name : string) (type : UserType) (message : string) (timestamp : Z)
    : channel_fn := λ B _ ch b,
  '(room, chat_room_message) ← AddUserMessage name type message timestamp (chat_room_ ch);
  let ch := with_chat_room room ch in
  Some (ch, b, BroadcastMessage (MChatMessage chat_room_message) ch).

(** When a machine is deleted; the data about addresses stays. *)
Definition clear_users : channel_fn := λ B _ ch b, Some (ClearUsers ch, b, []).
End UserChannel.
Arguments user_channel U {_ _}.
Arguments channel_fn U {_ _} G S.

(** The global chat room derives from nothing. *)
#[export] Instance no_base {U} `{Countable U} {G S} : ChannelBase (U := U) (G := G) (S := S) unit := {
  join_messages _ _ _ := [];
  on_remove_user _ _ ch b := Some (ch, b, []);
  has_recording := false
}.

(** ** What a derived class may do *)

Section Laws.
Context {U : Type} `{Countable U} {G S : Type}.
Implicit Types (ch : user_channel U) (d : UserData).

(** Two user records that only differ in their votes. *)
Definition same_identity d d' : Prop :=
  username d = username d' ∧ user_type d = user_type d' ∧ ip_address d = ip_address d'.

(** Two channels that agree on everything but votes. *)
Record same_members ch ch' : Prop := {
  sm_users : ∀ u, option_relation same_identity (λ _, False) (λ _, False) (users_ ch !! u) (users_ ch' !! u);
  sm_ips : ip_data_ ch = ip_data_ ch';
  sm_admins : admins_count_ ch = admins_count_ ch';
  sm_room : chat_room_ ch = chat_room_ ch'
}.

(** Messages that tell a client about the members of a channel. *)
Definition is_membership (m : server_message G S) : bool :=
  match m with
  | MUserList _ _ | MAdminUserList _ _ | MUserListAdd _ _ | MAdminUserListAdd _ _
  | MUserListRemove _ _ | MChangeUsername _ _ => true
  | _ => false
  end.

Definition act_membership (a : action U (server_message G S)) : bool :=
  match a with Queue _ m | Record_ m => is_membership m | CloseSocket _ => false end.

Class ChannelBaseLaws (B : Type) (HB : ChannelBase (U := U) (G := G) (S := S) B) := {
  base_ok : user_channel U → B → Prop;
  join_not_membership now ch b m :
    In m (join_messages (G := G) (S := S) now ch b) → is_membership m = false;
  on_remove_total now u ch b :
    base_ok ch b → is_Some (users_ ch !! u) →
    is_Some (on_remove_user (G := G) (S := S) now u ch b);
  on_remove_members now u ch b ch' b' acts :
    on_remove_user (G := G) (S := S) now u ch b = Some (ch', b', acts) →
    same_members ch ch' ∧ ∀ a, In a acts → act_membership a = false
}.
End Laws.

#[export] Program Instance no_base_laws {U} `{Countable U} {G S} :
    ChannelBaseLaws (U := U) (G := G) (S := S) unit no_base := {
  base_ok _ _ := True
}.
Next Obligation. done. Qed.
Next Obligation. intros. by eexists. Qed.
Next Obligation.
  intros U ?? G S now u ch b ch' b' acts [= <- <- <-]. split; [|done].
  split; try done. intros v. by destruct (users_ ch !! v); constructor.
Qed.

Section UserChannelProperties.
Context {U : Type} `{Countable U} {G S : Type} {B : Type}
  {HB : ChannelBase (U := U) (G := G) (S := S) B} {HL : ChannelBaseLaws B HB}.
Implicit Types (ch : user_channel U) (d : UserData) (u v : U).

(** The number of users that satisfy [f]. *)
Definition count_users (f : UserData → bool) ch : nat :=
  size (filter (λ p : U * UserData, f p.2 = true) (users_ ch)).

Definition has_ip (ip : list Z) d : bool := bool_decide (ip_address d = ip).

(** The counters of the channel are exact: an address has an entry as long as
    somebody uses it, with the number of its users. *)
Record channel_wf ch : Prop := {
  cw_ips : ∀ ip, reference_count_ <$> ip_data_ ch !! ip =
    (if decide (count_users (has_ip ip) ch = 0) then None else Some (count_users (has_ip ip) ch));
  cw_admins : admins_count_ ch = u32 (Z.of_nat (count_users IsAdmin ch))
}.

Lemma count_users_insert f u d ch us :
  users_ ch !! u = None → us = <[u := d]> (users_ ch) →
  size (filter (λ p : U * UserData, f p.2 = true) us) =
    count_users f ch + (if f d then 1 else 0).
Proof.
  intros Hu ->. unfold count_users. rewrite map_filter_insert. case_decide as Hf; simpl in Hf.
  - rewrite Hf, map_size_insert_None; [lia|]. by apply map_lookup_filter_None_2; left.
  - rewrite delete_id by done. destruct (f d); [done|lia].
Qed.

Lemma count_users_delete f u d ch us :
  users_ ch !! u = Some d → us = delete u (users_ ch) →
  count_users f ch = size (filter (λ p : U * UserData, f p.2 = true) us) + (if f d then 1 else 0).
Proof.
  intros Hu ->.
  assert (users_ ch = <[u := d]> (delete u (users_ ch))) as Heq by by rewrite insert_delete_id.
  unfold count_users. rewrite Heq at 1.
  rewrite (count_users_insert f u d (with_users (delete u (users_ ch)) ch)); simpl; try done.
  by rewrite lookup_delete_eq.
Qed.

Lemma count_users_same f ch ch' :
  (∀ d d', same_identity d d' → f d = f d') → same_members ch ch' →
  count_users f ch = count_users f ch'.
Proof.
  intros Hf Hs. unfold count_users.
  (* both filters have the same domain *)
  rewrite <-!(size_dom (D := gset U)). f_equal. apply set_eq. intros v.
  rewrite !elem_of_dom. unfold is_Some. setoid_rewrite map_lookup_filter_Some.
  pose proof (sm_users _ _ Hs v) as Hv.
  destruct (users_ ch !! v) as [d|], (users_ ch' !! v) as [d'|]; inversion Hv; subst; simpl;
    [|naive_solver].
  split; intros (x & [= <-] & Hx); eexists; (split; [done|]); [by rewrite <-(Hf d d')|by rewrite (Hf d d')].
Qed.

Lemma IsAdmin_identity d d' : same_identity d d' → IsAdmin d = IsAdmin d'.
Proof. intros (_ & Ht & _). unfold IsAdmin. by rewrite Ht. Qed.

Lemma has_ip_identity ip d d' : same_identity d d' → has_ip ip d = has_ip ip d'.
Proof. intros (_ & _ & Hi). unfold has_ip. by rewrite Hi. Qed.

Lemma same_members_wf ch ch' : same_members ch ch' → channel_wf ch → channel_wf ch'.
Proof.
  intros Hs [Hi Ha]. split.
  - intros ip. rewrite <-(sm_ips _ _ Hs), Hi.
    by rewrite (count_users_same _ ch ch' (has_ip_identity ip) Hs).
  - rewrite <-(sm_admins _ _ Hs), Ha.
    by rewrite (count_users_same _ ch ch' IsAdmin_identity Hs).
Qed.
Lemma count_pos f ch u d : users_ ch !! u = Some d → f d = true → 0 < count_users f ch.
Proof. intros Hu Hf. rewrite (count_users_delete f u d ch _ Hu eq_refl), Hf. lia. Qed.

(** The state [AddUser] leaves behind. *)
Definition added (d : UserData) u ch : user_channel U :=
  let ip := default (MkChannelIPData false 0) (ip_data_ ch !! ip_address d) in
  UserChannel (<[u := default d (users_ ch !! u)]> (users_ ch))
    (<[ip_address d := MkChannelIPData (voted ip) (reference_count_ ip + 1)]> (ip_data_ ch))
    (u32 (admins_count_ ch + if IsAdmin (default d (users_ ch !! u)) then 1 else 0)) (chat_room_ ch).

Lemma AddUser_state now d u ch b : (AddUser (G := G) (S := S) now d u ch b).1 = added d u ch.
Proof. unfold AddUser, added. by case_decide. Qed.

Lemma added_wf d u ch : users_ ch !! u = None → channel_wf ch → channel_wf (added d u ch).
Proof.
  intros Hu [Hi Ha]. unfold added. rewrite Hu. simpl. split; simpl.
  - intros ip. pose proof (Hi ip) as Hip.
    pose proof (count_users_insert (has_ip ip) u d ch _ Hu eq_refl) as Hc.
    match goal with |- context [count_users (has_ip ip) ?c] =>
      change (count_users (has_ip ip) c) with
        (size (filter (λ p : U * UserData, has_ip ip p.2 = true) (<[u := d]> (users_ ch)))) end.
    rewrite Hc. clear Hc.
    destruct (decide (ip_address d = ip)) as [<-|Hne].
    + rewrite lookup_insert_eq.
      replace (has_ip (ip_address d) d) with true by (symmetry; by apply bool_decide_eq_true).
      simpl.
      rewrite decide_False by lia. f_equal.
      destruct (ip_data_ ch !! ip_address d); simpl in *; case_decide; simplify_eq; lia.
    + rewrite lookup_insert_ne by done.
      replace (has_ip ip d) with false by (symmetry; by apply bool_decide_eq_false).
      by rewrite Nat.add_0_r.
  - unfold count_users at 1. simpl. rewrite (count_users_insert IsAdmin u d ch _ Hu eq_refl), Ha, u32_add.
    f_equal. destruct (IsAdmin d); lia.
Qed.

Lemma release_ip_spec u d ch :
  channel_wf ch → users_ ch !! u = Some d →
  ∃ ips, release_ip (ip_address d) (ip_data_ ch) = Some ips ∧
    ∀ ip, reference_count_ <$> ips !! ip =
      let n := count_users (has_ip ip) ch - (if has_ip ip d then 1 else 0) in
      if decide (n = 0) then None else Some n.
Proof.
  intros [Hi _] Hu. unfold release_ip.
  assert (Hpos : 0 < count_users (has_ip (ip_address d)) ch).
  { apply (count_pos _ _ u d Hu). unfold has_ip. by apply bool_decide_eq_true. }
  pose proof (Hi (ip_address d)) as Hd. rewrite decide_False in Hd by lia.
  apply fmap_Some in Hd as (x & Hx & Hcount). rewrite Hx. simpl. rewrite <-Hcount.
  assert (Hself : has_ip (ip_address d) d = true) by (unfold has_ip; by apply bool_decide_eq_true).
  assert (Hother : ∀ ip, ip ≠ ip_address d → has_ip ip d = false)
    by (intros; unfold has_ip; by apply bool_decide_eq_false).
  destruct (count_users (has_ip (ip_address d)) ch) as [|[|n]] eqn:Hn; [lia| |];
    eexists; (split; [done|]); intros ip; destruct (decide (ip = ip_address d)) as [->|Hne];
    rewrite ?lookup_delete_eq, ?lookup_insert_eq, ?Hself, ?Hn; simpl; try done;
    rewrite ?lookup_delete_ne, ?lookup_insert_ne by done; rewrite Hi, (Hother ip Hne); simpl;
    by rewrite Nat.sub_0_r.
Qed.

(** Removing a user of a well-formed channel succeeds and keeps the
    counters exact. *)
Lemma RemoveUser_wf now u ch b :
  channel_wf ch → (∀ ch', users_ ch' = users_ ch → base_ok ch' b) →
  ∃ ch' b' acts, RemoveUser (G := G) (S := S) now u ch b = Some (ch', b', acts) ∧ channel_wf ch'.
Proof.
  intros Hwf Hok. unfold RemoveUser. destruct (users_ ch !! u) as [d|] eqn:Hu; [|by eexists _, _, _].
  destruct (release_ip_spec u d ch Hwf Hu) as (ips & -> & Hips). simpl.
  set (ch1 := with_admins _ _).
  destruct (on_remove_total (G := G) (S := S) now u ch1 b (Hok ch1 eq_refl)) as [[[ch2 b2] acts] Hrem];
    [simpl; by rewrite Hu|].
  rewrite Hrem. simpl. eexists _, _, _. split; [done|].
  destruct (on_remove_members _ _ _ _ _ _ _ Hrem) as [Hs _].
  pose proof (sm_users _ _ Hs u) as Hu2. simpl in Hu2. rewrite Hu in Hu2.
  destruct (users_ ch2 !! u) as [d2|] eqn:Hu2'; [|by inversion Hu2].
  assert (Hd : same_identity d d2) by by inversion Hu2.
  assert (Hdel : ∀ f, (∀ d d', same_identity d d' → f d = f d') →
    count_users f (with_users (delete u (users_ ch2)) ch2) =
    count_users f ch - (if f d then 1 else 0)).
  { intros f Hf. change (count_users f ch) with (count_users f ch1).
    rewrite (count_users_same f _ _ Hf Hs), (count_users_delete f u d2 ch2 _ Hu2' eq_refl).
    rewrite (Hf _ _ Hd). unfold count_users. simpl. lia. }
  split.
  - intros ip. rewrite Hdel by apply has_ip_identity. simpl. rewrite <-(sm_ips _ _ Hs). apply Hips.
  - rewrite Hdel by apply IsAdmin_identity. simpl. rewrite <-(sm_admins _ _ Hs). simpl.
    rewrite (cw_admins _ Hwf), u32_sub. f_equal.
    assert (IsAdmin d = true → 0 < count_users IsAdmin ch) by apply (count_pos _ _ u d Hu).
    destruct (IsAdmin d); lia.
Qed.
(** What is left of the counters when the server changes the users' types,
    adds a user twice or deletes the machine: no address is released while it
    is in use. *)
Definition channel_ok ch : Prop :=
  ∀ ip, count_users (has_ip ip) ch ≤ default 0 (reference_count_ <$> ip_data_ ch !! ip).

Lemma channel_wf_ok ch : channel_wf ch → channel_ok ch.
Proof. intros [Hi _] ip. rewrite Hi. case_decide; simpl; lia. Qed.

Lemma same_members_ok ch ch' : same_members ch ch' → channel_ok ch → channel_ok ch'.
Proof.
  intros Hs Hok ip. rewrite <-(sm_ips _ _ Hs), <-(count_users_same _ _ _ (has_ip_identity ip) Hs). apply Hok.
Qed.

(** The members and their addresses may change, as long as the counts of the
    addresses in use do not. *)
Lemma channel_ok_mono ch ch' :
  (∀ ip, count_users (has_ip ip) ch' ≤ count_users (has_ip ip) ch) →
  (∀ ip, default 0 (reference_count_ <$> ip_data_ ch !! ip)
         ≤ default 0 (reference_count_ <$> ip_data_ ch' !! ip)) →
  channel_ok ch → channel_ok ch'.
Proof. intros Hu Hi Hok ip. specialize (Hu ip). specialize (Hi ip). specialize (Hok ip). lia. Qed.

Lemma channel_ok_entry ch u d :
  channel_ok ch → users_ ch !! u = Some d →
  ∃ x, ip_data_ ch !! ip_address d = Some x ∧ 0 < reference_count_ x.
Proof.
  intros Hok Hu. specialize (Hok (ip_address d)).
  assert (0 < count_users (has_ip (ip_address d)) ch) as Hpos
    by (apply (count_pos _ _ u d Hu); by apply bool_decide_eq_true).
  destruct (ip_data_ ch !! ip_address d) as [x|]; simpl in Hok; [|lia]. exists x. split; [done|lia].
Qed.

Lemma count_users_overwrite f u d d' ch us :
  users_ ch !! u = Some d → f d = f d' → us = <[u := d']> (users_ ch) →
  count_users f (with_users us ch) = count_users f ch.
Proof.
  intros Hu Hf ->. rewrite (count_users_delete f u d ch _ Hu eq_refl).
  unfold count_users at 1. simpl. rewrite <-insert_delete_eq, Hf.
  rewrite (count_users_insert f u d' (with_users (delete u (users_ ch)) ch)); [done| |done].
  simpl. by rewrite lookup_delete_eq.
Qed.

Lemma added_ok d u ch : channel_ok ch → channel_ok (added d u ch).
Proof.
  intros Hok ip. specialize (Hok ip). unfold added.
  set (us := <[u := _]> (users_ ch)).
  assert (size (filter (λ p : U * UserData, has_ip ip p.2 = true) us)
          ≤ count_users (has_ip ip) ch + (if has_ip ip d then 1 else 0)) as Hc.
  { unfold us. destruct (users_ ch !! u) as [d0|] eqn:Hu; simpl.
    - rewrite insert_id by done. unfold count_users. lia.
    - by rewrite (count_users_insert (has_ip ip) u d ch _ Hu eq_refl). }
  unfold count_users at 1. simpl. etrans; [exact Hc|].
  destruct (decide (ip_address d = ip)) as [<-|Hne].
  - rewrite lookup_insert_eq. replace (has_ip (ip_address d) d) with true by (symmetry; by apply bool_decide_eq_true).
    simpl. destruct (ip_data_ ch !! ip_address d); simpl in *; lia.
  - rewrite lookup_insert_ne by done. replace (has_ip ip d) with false by (symmetry; by apply bool_decide_eq_false).
    lia.
Qed.

Lemma update_username_ok u name type b ch :
  channel_ok ch →
  ∃ ch' acts, update_username (G := G) (S := S) u name type B HB ch b = Some (ch', b, acts) ∧ channel_ok ch'.
Proof.
  intros Hok. unfold update_username, GetUserData. destruct (users_ ch !! u) as [d|] eqn:Hu; [|by eexists _, _].
  eexists _, _. split; [done|]. eapply channel_ok_mono; [| |exact Hok]; intros ip; [|done].
  by rewrite (count_users_overwrite (has_ip ip) u d (MkUserData name type (ip_address d) (vote_data d)) ch _ Hu eq_refl eq_refl).
Qed.

Lemma ClearUsers_ok ch : channel_ok (ClearUsers ch).
Proof. intros ip. unfold count_users, ClearUsers. simpl. rewrite map_filter_empty, map_size_empty. lia. Qed.

Lemma release_ip_ok u d ch :
  channel_ok ch → users_ ch !! u = Some d →
  ∃ ips, release_ip (ip_address d) (ip_data_ ch) = Some ips ∧
    ∀ ip, default 0 (reference_count_ <$> ips !! ip) =
      default 0 (reference_count_ <$> ip_data_ ch !! ip) - (if has_ip ip d then 1 else 0).
Proof.
  intros Hok Hu. destruct (channel_ok_entry ch u d Hok Hu) as (x & Hx & Hpos). unfold release_ip. rewrite Hx. simpl.
  assert (∀ ips y, ips = <[ip_address d := y]> (ip_data_ ch) ∨ ips = delete (ip_address d) (ip_data_ ch) →
    default 0 (reference_count_ <$> ips !! ip_address d) = reference_count_ x - 1 →
    ∀ ip, default 0 (reference_count_ <$> ips !! ip) =
      default 0 (reference_count_ <$> ip_data_ ch !! ip) - (if has_ip ip d then 1 else 0)) as Hall.
  { intros ips y Hips Hself ip. destruct (decide (ip_address d = ip)) as [<-|Hne].
    - rewrite Hself, Hx. replace (has_ip (ip_address d) d) with true by (symmetry; by apply bool_decide_eq_true). done.
    - replace (has_ip ip d) with false by (symmetry; by apply bool_decide_eq_false). rewrite Nat.sub_0_r.
      destruct Hips as [->| ->]; by rewrite ?lookup_insert_ne, ?lookup_delete_ne. }
  destruct (reference_count_ x) as [|[|n]] eqn:Hn; [lia| |]; eexists; (split; [done|]).
  - apply (Hall _ x); [by right|]. by rewrite lookup_delete_eq.
  - eapply Hall; [by left|]. by rewrite lookup_insert_eq.
Qed.

(** Removing a user never meets a missing entry. *)
Lemma RemoveUser_ok now u ch b :
  channel_ok ch → (∀ ch', users_ ch' = users_ ch → base_ok ch' b) →
  ∃ ch' b' acts, RemoveUser (G := G) (S := S) now u ch b = Some (ch', b', acts) ∧ channel_ok ch' ∧
    chat_room_ ch' = chat_room_ ch.
Proof.
  intros Hwf Hok. unfold RemoveUser. destruct (users_ ch !! u) as [d|] eqn:Hu; [|by eexists _, _, _].
  destruct (release_ip_ok u d ch Hwf Hu) as (ips & -> & Hips). simpl. set (ch1 := with_admins _ _).
  destruct (on_remove_total (G := G) (S := S) now u ch1 b (Hok ch1 eq_refl)) as [[[ch2 b2] acts] Hrem];
    [simpl; by rewrite Hu|].
  rewrite Hrem. simpl. eexists _, _, _. split; [done|].
  destruct (on_remove_members _ _ _ _ _ _ _ Hrem) as [Hs _]. split; [|symmetry; exact (sm_room _ _ Hs)].
  pose proof (sm_users _ _ Hs u) as Hu2. simpl in Hu2. rewrite Hu in Hu2.
  destruct (users_ ch2 !! u) as [d2|] eqn:Hu2'; [|by inversion Hu2].
  assert (Hd : same_identity d d2) by by inversion Hu2.
  intros ip. simpl. rewrite <-(sm_ips _ _ Hs). simpl. rewrite Hips.
  pose proof (count_users_same _ _ _ (has_ip_identity ip) Hs) as Hsame.
  rewrite (count_users_delete (has_ip ip) u d2 ch2 _ Hu2' eq_refl) in Hsame.
  rewrite (has_ip_identity ip _ _ Hd). specialize (Hwf ip).
  change (count_users (has_ip ip) ch1) with (count_users (has_ip ip) ch) in Hsame.
  unfold count_users at 1. simpl. lia.
Qed.

(** ** What a client learns about the members

    A client keeps a set of names and updates it with the membership
    messages it is sent. *)

Definition apply_view (w : gset string) (m : server_message G S) : gset string :=
  match m with
  | MUserList _ us => list_to_set (info_username <$> us)
  | MAdminUserList _ us => list_to_set (ua_username <$> us)
  | MUserListAdd _ x => {[ info_username x ]} ∪ w
  | MAdminUserListAdd _ x => {[ ua_username x ]} ∪ w
  | MUserListRemove _ n => w ∖ {[ n ]}
  | _ => w
  end.

Definition view_step v (w : gset string) (a : action U (server_message G S)) : gset string :=
  match a with Queue u m => if decide (u = v) then apply_view w m else w | _ => w end.

Definition view_of v (acts : list (action U (server_message G S))) (w : gset string) : gset string :=
  foldl (view_step v) w acts.

Definition names ch : gset string := list_to_set ((λ p, username p.2) <$> members ch).

Definition names_distinct ch : Prop :=
  ∀ u v d d', users_ ch !! u = Some d → users_ ch !! v = Some d' → username d = username d' → u = v.

Lemma elem_of_names n ch : n ∈ names ch ↔ ∃ u d, users_ ch !! u = Some d ∧ username d = n.
Proof.
  unfold names, members. rewrite elem_of_list_to_set, list_elem_of_fmap. split.
  - intros ([u d] & -> & Hin%elem_of_map_to_list). by exists u, d.
  - intros (u & d & Hu & <-). exists (u, d). split; [done|]. by apply elem_of_map_to_list.
Qed.

Lemma view_of_app v a1 a2 w : view_of v (a1 ++ a2) w = view_of v a2 (view_of v a1 w).
Proof. apply foldl_app. Qed.

Lemma apply_view_other w m : is_membership m = false → apply_view w m = w.
Proof. by destruct m. Qed.

Lemma view_of_other v acts w :
  (∀ a, In a acts → act_membership a = false) → view_of v acts w = w.
Proof.
  revert w. induction acts as [|a acts IH]; intros w Ha; [done|]. simpl.
  rewrite (IH (view_step v w a)) by (intros; apply Ha; by right).
  specialize (Ha a (or_introl eq_refl)). destruct a; simpl in *; try done.
  case_decide; [by apply apply_view_other|done].
Qed.

Lemma view_of_foreach v f (l : list (U * UserData)) w :
  NoDup l.*1 → (∀ u d w, u ≠ v → view_of v (f u d) w = w) →
  view_of v (l ≫= λ p, f p.1 p.2) w =
    match list_find (λ p, p.1 = v) l with Some (_, (_, d)) => view_of v (f v d) w | None => w end.
Proof.
  intros Hnd Hf. revert w. induction l as [|[u d] l IH]; intros w; [done|].
  simpl in Hnd. apply list.NoDup_cons in Hnd as [Hu Hnd].
  cbn [mbind list_bind]. rewrite view_of_app, IH by done. simpl.
  case_decide as Heq; simpl in Heq; simpl.
  - subst u. destruct (list_find _ l) as [[i [u d']]|] eqn:Hfind; [|done].
    exfalso. apply list_find_Some in Hfind as (Hl & Hv & _). simpl in Hv. subst u.
    apply Hu. apply list_elem_of_fmap. exists (v, d'). split; [done|].
    by eapply list_elem_of_lookup_2.
  - rewrite Hf by done.
    destruct (list_find _ l) as [[i [u' d']]|]; done.
Qed.

Lemma view_of_ForEachSocket v f ch w :
  (∀ u d w, u ≠ v → view_of v (f u d) w = w) →
  view_of v (ForEachSocket f ch) w =
    match users_ ch !! v with Some d => view_of v (f v d) w | None => w end.
Proof.
  intros Hf. unfold ForEachSocket, members.
  rewrite view_of_foreach by (done || apply NoDup_fst_map_to_list).
  destruct (list_find _ _) as [[i [u d]]|] eqn:Hfind.
  - apply list_find_Some in Hfind as (Hl & Hv & _). simpl in Hv. subst u.
    apply list_elem_of_lookup_2, elem_of_map_to_list in Hl. by rewrite Hl.
  - destruct (users_ ch !! v) as [d|] eqn:Hd; [|done].
    apply list_find_None in Hfind. rewrite list.Forall_forall in Hfind.
    by destruct (Hfind (v, d)); [apply elem_of_map_to_list|].
Qed.

Lemma view_of_broadcast v m ch w :
  view_of v (BroadcastMessage (B := B) m ch) w =
    match users_ ch !! v with Some _ => apply_view w m | None => w end.
Proof.
  unfold BroadcastMessage. rewrite view_of_app.
  replace (view_of v (if has_recording then _ else _) w) with w by by destruct has_recording.
  rewrite view_of_ForEachSocket.
  - destruct (users_ ch !! v); [|done]. simpl. by rewrite decide_True.
  - intros u d w' Hne. simpl. by rewrite decide_False.
Qed.
Lemma names_added d u ch : users_ ch !! u = None → names (added d u ch) = {[ username d ]} ∪ names ch.
Proof.
  intros Hu. apply set_eq. intros n. rewrite elem_of_union, elem_of_singleton, !elem_of_names.
  unfold added. rewrite Hu. simpl. split.
  - intros (v & d' & Hv & <-). apply lookup_insert_Some in Hv as [[<- <-]|[_ Hv]]; [by left|right].
    by exists v, d'.
  - intros [->|(v & d' & Hv & <-)].
    + exists u, d. by rewrite lookup_insert_eq.
    + exists v, d'. split; [|done]. apply lookup_insert_Some. right. split; [congruence|done].
Qed.

(** What happens to one client's view while a user is added. *)
Lemma AddUser_view now d u v ch b w :
  users_ ch !! u = None →
  let acts := (AddUser (G := G) (S := S) now d u ch b).2 in
  view_of v acts w =
    if decide (v = u) then names (added d u ch)
    else match users_ ch !! v with Some _ => {[ username d ]} ∪ w | None => w end.
Proof.
  intros Hu acts. subst acts.
  assert (Hjoin : ∀ w, view_of v (Queue u <$> join_messages (G := G) (S := S) now ch b) w = w).
  { intros w'. apply view_of_other. intros a (m & <- & Hm)%List.in_map_iff.
    simpl. by eapply join_not_membership. }
  set (ch' := added d u ch).
  assert (Hlist : ∀ (b : bool) w, view_of v [Queue u (if b then CreateAdminUserListMessage ch'
                                               else CreateUserListMessage ch')] w =
                  if decide (v = u) then names ch' else w).
  { intros bb w'. simpl. destruct (decide (v = u)) as [->|]; [rewrite decide_True by done|by rewrite decide_False].
    unfold CreateAdminUserListMessage, CreateUserListMessage, names.
    destruct bb; simpl; by rewrite <-list_fmap_compose. }
  unfold AddUser. cbv zeta.
  repeat match goal with |- context [UserChannel ?a ?b ?c ?e] =>
    change (UserChannel a b c e) with ch' end.
  rewrite Hu. change (default d None) with d.
  destruct (decide (size (users_ ch') ≤ 1)) as [Hsize|Hsize]; cbn [snd].
  - rewrite view_of_app, Hjoin, Hlist. case_decide as Hv; [done|].
    destruct (users_ ch !! v) as [dv|] eqn:Hdv; [|done]. exfalso.
    unfold ch', added in Hsize. rewrite Hu in Hsize. simpl in Hsize.
    rewrite map_size_insert_None in Hsize by done.
    assert (size (users_ ch) ≠ 0); [|lia]. intros Hz%map_size_empty_inv. by rewrite Hz in Hdv.
  - rewrite view_of_app, Hjoin. rewrite view_of_app, Hlist.
    rewrite view_of_ForEachSocket.
    + assert (Hlook : users_ ch' !! v = if decide (v = u) then Some d else users_ ch !! v).
      { unfold ch', added. rewrite Hu. simpl. rewrite lookup_insert.
        by destruct (decide (v = u)) as [->|]; [rewrite decide_True|rewrite decide_False]. }
      rewrite Hlook. destruct (decide (v = u)) as [Hv|Hv]; [done|].
      destruct (users_ ch !! v) as [dv|]; [|done]. simpl. rewrite decide_True by done.
      by destruct (IsAdmin dv).
    + intros v' d' w' Hne. destruct (decide (v' = u)); [done|]. simpl. by rewrite decide_False.
Qed.

Lemma names_removed u d ch : users_ ch !! u = Some d → names_distinct ch →
  names (with_users (delete u (users_ ch)) ch) = names ch ∖ {[ username d ]}.
Proof.
  intros Hu Hd. apply set_eq. intros n. rewrite elem_of_difference, elem_of_singleton, !elem_of_names.
  simpl. split.
  - intros (v & d' & [Hne Hv]%lookup_delete_Some & <-). split; [by exists v, d'|].
    intros He. apply Hne. by eapply Hd.
  - intros [(v & d' & Hv & <-) Hne]. exists v, d'. split; [|done].
    apply lookup_delete_Some. split; [|done]. intros <-. congruence.
Qed.

Lemma same_members_names ch ch' : same_members ch ch' → names ch = names ch'.
Proof.
  intros Hs. apply set_eq. intros n. rewrite !elem_of_names.
  split; intros (u & d & Hu & <-); pose proof (sm_users _ _ Hs u) as Hr; rewrite Hu in Hr.
  - destruct (users_ ch' !! u) as [d'|] eqn:Hu'; [|by inversion Hr].
    assert (same_identity d d') as (Hn & _) by by inversion Hr. by exists u, d'.
  - destruct (users_ ch !! u) as [d'|] eqn:Hu'; [|by inversion Hr].
    assert (same_identity d' d) as (Hn & _) by by inversion Hr. by exists u, d'.
Qed.

Lemma same_members_distinct ch ch' : same_members ch ch' → names_distinct ch → names_distinct ch'.
Proof.
  intros Hs Hd u v du' dv' Hu' Hv' Hn.
  pose proof (sm_users _ _ Hs u) as Hu. pose proof (sm_users _ _ Hs v) as Hv.
  rewrite Hu' in Hu. rewrite Hv' in Hv.
  destruct (users_ ch !! u) as [du|] eqn:Eu; [|by inversion Hu].
  destruct (users_ ch !! v) as [dv|] eqn:Ev; [|by inversion Hv].
  assert (same_identity du du') as (Hnu & _) by by inversion Hu.
  assert (same_identity dv dv') as (Hnv & _) by by inversion Hv.
  eapply Hd; [exact Eu|exact Ev|congruence].
Qed.
(** *** Properties *)

(** What happens to a channel: users who are not in it are added, users are
    removed, and in between their votes change. *)
Inductive channel_step ch : user_channel U → Prop :=
| step_add now d u b :
    users_ ch !! u = None → channel_step ch (AddUser (G := G) (S := S) now d u ch b).1
| step_remove now u b ch' b' acts :
    (∀ ch', users_ ch' = users_ ch → base_ok (G := G) (S := S) ch' b) →
    RemoveUser (G := G) (S := S) now u ch b = Some (ch', b', acts) → channel_step ch ch'
| step_votes ch' : same_members ch ch' → channel_step ch ch'.

Definition channel_reachable : user_channel U → Prop :=
  reachable (λ ch, ∃ room, ch = channel_new room) channel_step.

Lemma channel_reachable_wf ch : channel_reachable ch → channel_wf ch.
Proof.
  apply reachable_invariant; clear ch.
  - intros ch [room ->]. split; [|done]. intros ip. done.
  - intros ch ch' Hwf Hstep. destruct Hstep as [now d u b Hu|now u b ch' b' acts Hok Hr|ch' Hs].
    + rewrite AddUser_state. by apply added_wf.
    + destruct (RemoveUser_wf now u ch b Hwf Hok) as (? & ? & ? & Hr' & Hwf'). congruence.
    + by eapply same_members_wf.
Qed.


(** C29: the members of a channel know its members.  If every member's view
    is the set of user names of the channel, it is again after a new user
    with an unused name has been added - the newcomer's view becomes exact
    whatever it was before - and after a user has been removed; a client who
    is not in the channel learns nothing. *)
Theorem members_know_members now ch b :
  names_distinct ch →
  (∀ d u, users_ ch !! u = None → username d ∉ names ch →
     let '(ch', acts) := AddUser (G := G) (S := S) now d u ch b in
     names_distinct ch' ∧
     (∀ v w, users_ ch' !! v = None → view_of v acts w = w) ∧
     (∀ v w, is_Some (users_ ch' !! v) → (v ≠ u → w = names ch) → view_of v acts w = names ch')) ∧
  (∀ u ch' b' acts, RemoveUser (G := G) (S := S) now u ch b = Some (ch', b', acts) →
     names_distinct ch' ∧
     (∀ v w, users_ ch' !! v = None → view_of v acts w = w) ∧
     (∀ v, is_Some (users_ ch' !! v) → view_of v acts (names ch) = names ch')).
Proof.
  intros Hdist. split.
  - intros d u Hu Hfresh.
    pose proof (AddUser_state now d u ch b) as Hst.
    pose proof (λ v w, AddUser_view now d u v ch b w Hu) as Hview. simpl in Hview.
    destruct (AddUser now d u ch b) as [ch' acts]. simpl in Hst, Hview. subst ch'.
    assert (Hlook : ∀ v, users_ (added d u ch) !! v = if decide (v = u) then Some d else users_ ch !! v).
    { intros v. unfold added. rewrite Hu. simpl. rewrite lookup_insert.
      by destruct (decide (v = u)) as [->|]; [rewrite decide_True|rewrite decide_False]. }
    split_and!.
    + intros v v' dv dv'. rewrite !Hlook.
      destruct (decide (v = u)) as [->|], (decide (v' = u)) as [->|]; intros Hv Hv' Hn; try done;
        simplify_eq; [| |by eapply Hdist]; exfalso; apply Hfresh, elem_of_names; eauto.
    + intros v w. rewrite Hlook, Hview. destruct (decide (v = u)); [done|].
      by destruct (users_ ch !! v).
    + intros v w. rewrite Hlook, Hview. destruct (decide (v = u)); [done|].
      intros [dv Hv] Hw. rewrite Hv, names_added by done. by rewrite Hw.
  - intros u ch' b' acts. unfold RemoveUser.
    destruct (users_ ch !! u) as [d|] eqn:Hu.
    + destruct (release_ip _ _) as [ips|]; [|done]. simpl. set (ch1 := with_admins _ _).
      destruct (on_remove_user now u ch1 b) as [[[ch2 b2] acts2]|] eqn:Hr; [|done].
      intros [= <- <- <-]. destruct (on_remove_members _ _ _ _ _ _ _ Hr) as [Hs Hacts].
      pose proof (same_members_names ch1 ch2 Hs) as Hnames.
      assert (Hd1 : names_distinct ch1) by exact Hdist.
      pose proof (same_members_distinct ch1 ch2 Hs Hd1) as Hd2.
      pose proof (sm_users _ _ Hs u) as Hu2. simpl in Hu2. rewrite Hu in Hu2.
      destruct (users_ ch2 !! u) as [d2|] eqn:E2; [|by inversion Hu2].
      assert (username d = username d2) as Hn by (by assert (same_identity d d2) as (? & _) by by inversion Hu2).
      split_and!.
      * intros v v' dv dv'. simpl. intros [_ Hv]%lookup_delete_Some [_ Hv']%lookup_delete_Some.
        by eapply Hd2.
      * intros v w Hv. rewrite view_of_app, (view_of_other _ acts2) by done.
        rewrite view_of_broadcast. by rewrite Hv.
      * intros v [dv Hv]. rewrite view_of_app, (view_of_other _ acts2) by done.
        rewrite view_of_broadcast, Hv. simpl.
        rewrite (names_removed u d2 ch2 E2 Hd2), <-Hnames, Hn. done.
    + intros [= <- <- <-]. split_and!; done.
Qed.
End UserChannelProperties.

Module UserChannelDemo.
Definition room : chat_room := chat_room_new 20 200 GUEST 5.
Definition ch0 : user_channel nat := channel_new room.
Definition alice : UserData := MkUserData "alice" ADMIN [1%Z] no_vote_data.
Definition bob : UserData := MkUserData "bob" GUEST [1%Z] no_vote_data.
Definition ch1 : user_channel nat := (AddUser (G := unit) (S := unit) 0 alice 1 ch0 tt).1.


Lemma ch1_distinct : names_distinct ch1.
Proof.
  intros u v d d' Hu Hv _.
  change (users_ ch1) with (<[1 := alice]> (∅ : gmap nat UserData)) in *.
  apply lookup_insert_Some in Hu as [[<- _]|[_ Hu]]; [|by rewrite lookup_empty in Hu].
  by apply lookup_insert_Some in Hv as [[<- _]|[_ Hv]]; [|by rewrite lookup_empty in Hv].
Qed.

Lemma members_know_members_witness :
  let '(ch2, acts) := AddUser (G := unit) (S := unit) 0 bob 2 ch1 tt in
  view_of 1 acts {[ "alice" ]} = names ch2 ∧ view_of 2 acts ∅ = names ch2.
Proof.
  pose proof (proj1 (members_know_members (G := unit) (S := unit) 0 ch1 tt ch1_distinct)
    bob 2 eq_refl ltac:(by vm_compute)) as Hadd.
  destruct (AddUser (G := unit) (S := unit) 0 bob 2 ch1 tt) as [ch2 acts] eqn:E.
  destruct Hadd as (_ & _ & Hview). injection E as <- <-.
  split.
  - apply Hview; [by eexists|]. intros _. by vm_compute.
  - apply Hview; [by eexists|]. by intros [].
Defined.
End UserChannelDemo.
