(* ===== verification/Recording.v ===== *)
(** * Recordings (src/RecordingController.hpp)

    A recording is a file with a header and a sequence of messages.  The
    controller opens and closes files, filters what is written by the capture
    settings, restarts itself when the file is full, and writes keyframes.
    What the operating system answers ([create_directories], the date, whether
    a file could be opened, whether a write succeeds) is a record [rec_env]
    that each operation takes; the serialised sizes are parameters.  A failed
    write leaves the stream open and not good, and ends all recordings. *)

From S2P Require Import Prelude Timer Messages.
From Stdlib Require Import String.

Record recording_settings := RecordingSettings {
  getCaptureDisplay : bool;
  getCaptureAudio : bool;
  getCaptureInput : bool;
  getFileDuration : Z;       (* minutes *)
  getKeyframeInterval : Z    (* seconds *)
}.

(** [initRoot]: everything is zero. *)
Definition default_recording_settings : recording_settings :=
  RecordingSettings false false false 0 0.

Record keyframe := Keyframe { kf_offset : Z; kf_timestamp : Z }.

Record file_header := FileHeader {
  fh_vm_id : Z;
  fh_start_time : Z;
  fh_stop_time : Z;
  fh_keyframes : list keyframe;      (* those that are filled in *)
  fh_keyframes_capacity : Z
}.

Inductive recording_event :=
| OnRecordingStarted (filename : string) (time : Z)
| OnRecordingStopped (filename : string) (time : Z)
| OnKeyframeInRecording.

(** What the environment answers during one operation; times in nanoseconds
    ([steady_now]) and in milliseconds ([system_now]). *)
Record rec_env := RecEnv {
  steady_now : Z;
  system_now : Z;
  directories_error : bool;
  date_time : string;
  file_opens : bool;
  write_ok : nat → bool;     (* the [n]th message of the file *)
  close_ok : bool;           (* the header that [Stop] writes *)
  header_ok : bool           (* the header of a new file or key frame *)
}.

(** The disk takes everything. *)
Definition disk_ok (env : rec_env) : Prop :=
  (∀ n, write_ok env n = true) ∧ close_ok env = true ∧ header_ok env = true.

(** The client instructions that are recorded, and the server instructions
    they are turned into. *)
Inductive guac_client_view := C_MOUSE (x y button_mask : Z) | C_KEY (keysym : Z) (pressed : bool) | C_OTHER.
Class GuacClientSchema (C G : Type) := {
  client_which : C → guac_client_view;
  server_mouse : Z → Z → Z → Z → G;
  server_key : Z → bool → Z → G
}.

Section Recording.
Context {T : Type → Type} `{SteadyTimer T}.
Context {G S C : Type} `{GuacSchema G} `{GuacClientSchema C G}.
Abbreviation msg := (server_message G S).
Context (message_size : msg → Z) (header_size : Z → Z).
(** The decimal form of a number ([std::to_string]). *)
Context (to_string : Z → string).
(** What [OnKeyframeInRecording] writes. *)
Implicit Types (keyframe_messages : list msg) (env : rec_env).

(** [stream_open_] and [stream_good_] are the state of the [ofstream];
    [file_body_] is what has been written behind the header. *)
Record recording := Recording {
  vm_id_ : Z;
  stream_open_ : bool;
  stream_good_ : bool;
  file_header_ : file_header;
  file_body_ : list msg;
  stop_timer_ : T unit;
  keyframe_timer_ : T unit;
  file_duration_ : Z;       (* nanoseconds *)
  keyframe_interval_ : Z;   (* nanoseconds *)
  filename_ : string;
  rec_settings_ : recording_settings;
  ignored_streams_ : gset Z
}.
Implicit Types r : recording.

Definition empty_header : file_header := FileHeader 0 0 0 [] 0.

Definition recording_new (vm_id : Z) : recording :=
  Recording vm_id false true empty_header [] timer_new timer_new 0 0 EmptyString
    default_recording_settings ∅.

Definition IsRecording r : bool := stream_open_ r && stream_good_ r.

Definition with_stream (o g : bool) (h : file_header) (body : list msg) r : recording :=
  Recording (vm_id_ r) o g h body (stop_timer_ r) (keyframe_timer_ r) (file_duration_ r)
    (keyframe_interval_ r) (filename_ r) (rec_settings_ r) (ignored_streams_ r).
Definition with_header (h : file_header) r : recording :=
  with_stream (stream_open_ r) (stream_good_ r) h (file_body_ r) r.
Definition with_body (body : list msg) r : recording :=
  with_stream (stream_open_ r) (stream_good_ r) (file_header_ r) body r.
Definition with_timers (st kt : T unit) r : recording :=
  Recording (vm_id_ r) (stream_open_ r) (stream_good_ r) (file_header_ r) (file_body_ r) st kt
    (file_duration_ r) (keyframe_interval_ r) (filename_ r) (rec_settings_ r) (ignored_streams_ r).
Definition with_filename (f : string) r : recording :=
  Recording (vm_id_ r) (stream_open_ r) (stream_good_ r) (file_header_ r) (file_body_ r)
    (stop_timer_ r) (keyframe_timer_ r) (file_duration_ r) (keyframe_interval_ r) f
    (rec_settings_ r) (ignored_streams_ r).
Definition with_ignored (s : gset Z) r : recording :=
  Recording (vm_id_ r) (stream_open_ r) (stream_good_ r) (file_header_ r) (file_body_ r)
    (stop_timer_ r) (keyframe_timer_ r) (file_duration_ r) (keyframe_interval_ r) (filename_ r)
    (rec_settings_ r) s.
Definition with_settings (s : recording_settings) (duration interval : Z) r : recording :=
  Recording (vm_id_ r) (stream_open_ r) (stream_good_ r) (file_header_ r) (file_body_ r)
    (stop_timer_ r) (keyframe_timer_ r) duration interval (filename_ r) s (ignored_streams_ r).

(** ** Writing *)

Definition ShouldRecordMessage (m : msg) r : bool * recording :=
  let s := rec_settings_ r in
  match m with
  | MGuacInstr g =>
      match guac_which g with
      | G_SYNC _ => (getCaptureDisplay s || getCaptureInput s || getCaptureAudio s, r)
      | G_BLOB stream => (bool_decide (stream ∉ ignored_streams_ r), r)
      | G_END stream =>
          (bool_decide (stream ∉ ignored_streams_ r),
           with_ignored (ignored_streams_ r ∖ {[ stream ]}) r)
      | G_AUDIO stream =>
          if getCaptureAudio s then (true, r)
          else (false, with_ignored ({[ stream ]} ∪ ignored_streams_ r) r)
      | G_MOUSE | G_KEY => (getCaptureInput s, r)
      | _ => (getCaptureDisplay s, r)
      end
  | _ => (true, r)
  end.

Definition IncludeTimestamp (m : msg) (system_time : Z) : list msg :=
  match m with
  | MAdminUserListAdd _ _ | MUserListRemove _ _ | MChangeUsername _ _ | MVmTurnInfo _ _ _
  | MVoteResult _ => [MRecordingTimestamp system_time]
  | _ => []
  end.

(** Writing to the stream; a stream that is not good takes nothing. *)
Definition write env (m : msg) r : recording :=
  if negb (stream_good_ r) then r
  else if write_ok env (List.length (file_body_ r)) then with_body (file_body_ r ++ [m]) r
  else with_stream (stream_open_ r) false (file_header_ r) (file_body_ r) r.

Definition WriteFileHeader (ok : bool) r : recording :=
  with_stream (stream_open_ r) (stream_good_ r && ok) (file_header_ r) (file_body_ r) r.

Definition WriteMessage env (m : msg) r : recording :=
  if negb (IsRecording r) then r
  else
    let '(record, r) := ShouldRecordMessage m r in
    if negb record then r
    else foldl (λ r m, write env m r) r (IncludeTimestamp m (system_now env) ++ [m]).

Definition WriteInput env (instr : C) r : recording :=
  if negb (IsRecording r) || negb (getCaptureInput (rec_settings_ r)) then r
  else match client_which instr with
  | C_MOUSE x y mask => WriteMessage env (MGuacInstr (server_mouse x y mask (system_now env))) r
  | C_KEY keysym pressed => WriteMessage env (MGuacInstr (server_key keysym pressed (system_now env))) r
  | C_OTHER => r
  end.

Fixpoint WriteMessages env (ms : list msg) r : recording :=
  match ms with [] => r | m :: ms => WriteMessages env ms (WriteMessage env m r) end.

(** [tellp]: behind the header and the messages, or an error. *)
Definition tellp r : Z :=
  if IsRecording r then
    foldr (λ m n, message_size m + n)%Z (header_size (fh_keyframes_capacity (file_header_ r)))
      (file_body_ r)
  else (-1)%Z.

(** ** Starting, stopping, keyframes *)

(** The result is the stop time, or [None] for [time_point::min()]. *)
Definition Stop env r : option Z * recording * list recording_event :=
  if negb (IsRecording r) then (None, r, [])
  else
    let r := with_timers (cancel (stop_timer_ r)) (cancel (keyframe_timer_ r)) r in
    let now := system_now env in
    let h := file_header_ r in
    let h := FileHeader (fh_vm_id h) (fh_start_time h) now (fh_keyframes h) (fh_keyframes_capacity h) in
    let r := WriteFileHeader (close_ok env) (with_header h r) in
    let r := with_stream false (stream_good_ r) h (file_body_ r) r in
    let ev := OnRecordingStopped (filename_ r) now in
    (Some now, with_filename EmptyString r, [ev]).

Definition StartKeyframeTimer env keyframe_messages r : recording * list recording_event :=
  let r := WriteMessages env keyframe_messages (with_ignored ∅ r) in
  let timer :=
    if Z.eqb (keyframe_interval_ r) 0 then cancel (keyframe_timer_ r)
    else async_wait tt (expires_after (steady_now env) (keyframe_interval_ r) (keyframe_timer_ r)) in
  (with_timers (stop_timer_ r) timer r, [OnKeyframeInRecording]).

Definition recordings_directory : string := "./recordings/".

Definition recording_path env r : string :=
  String.concat "" [recordings_directory; "vm"; to_string (vm_id_ r); "_"; date_time env; ".bin"]%string.

(** The part of [Start] behind a successful [open]. *)
Definition StartFile env keyframe_messages (start_time : Z) r : recording * list recording_event :=
  let capacity :=
    if Z.eqb (keyframe_interval_ r) 0 then 0%Z
    else Z.quot (file_duration_ r) (keyframe_interval_ r) in
  let r := with_stream true true (FileHeader (vm_id_ r) start_time 0 [] capacity) [] r in
  let r := with_timers
    (async_wait tt (expires_after (steady_now env) (file_duration_ r) (stop_timer_ r)))
    (keyframe_timer_ r) r in
  let r := WriteFileHeader (header_ok env) r in
  let '(r', evs) := StartKeyframeTimer env keyframe_messages r in
  (r', OnRecordingStarted (filename_ r) start_time :: evs).

Definition Start env keyframe_messages r : recording * list recording_event :=
  if Z.eqb (file_duration_ r) 0 then (r, [])
  else
    let '(start_time, r, stopped) := Stop env r in
    if directories_error env then (r, stopped)
    else if String.eqb (date_time env) EmptyString then (r, stopped)
    else
      let r := with_filename (recording_path env r) r in
      (* opening an open stream fails; opening a closed one clears its errors *)
      if negb (negb (stream_open_ r) && file_opens env)
      then (with_stream (stream_open_ r) false (file_header_ r) (file_body_ r) r, stopped)
      else
        let '(r, evs) := StartFile env keyframe_messages (default (system_now env) start_time) r in
        (r, stopped ++ evs).

Definition SetRecordingSettings env keyframe_messages (settings : recording_settings) r
    : recording * list recording_event :=
  let keyframe_interval := from_s (getKeyframeInterval settings) in
  let create_keyframe :=
    negb (Z.eqb (keyframe_interval_ r) keyframe_interval)
    || negb (Bool.eqb (getCaptureDisplay (rec_settings_ r)) (getCaptureDisplay settings))
    || negb (Bool.eqb (getCaptureAudio (rec_settings_ r)) (getCaptureAudio settings)) in
  let r := with_settings settings (from_s (60 * getFileDuration settings)) keyframe_interval r in
  if negb (IsRecording r) then (r, [])
  else if (expiry (stop_timer_ r) - steady_now env <? file_duration_ r)%Z
  then Start env keyframe_messages r
  else if create_keyframe then StartKeyframeTimer env keyframe_messages r
  else (r, []).

(** The completion handler of [stop_timer_]. *)
Definition OnStopTimer env keyframe_messages (ec : error_code) r : recording * list recording_event :=
  if ec_is_error ec then let '(_, r, evs) := Stop env r in (r, evs)
  else Start env keyframe_messages r.

(** The completion handler of [keyframe_timer_]. *)
Definition OnKeyframeTimer env keyframe_messages (ec : error_code) r : recording * list recording_event :=
  if ec_is_error ec then (r, [])
  else
    let h := file_header_ r in
    if (Z.of_nat (List.length (fh_keyframes h)) =? fh_keyframes_capacity h)%Z
    then Start env keyframe_messages r
    else
      let kf := Keyframe (u64 (tellp r)) (system_now env) in
      let h := FileHeader (fh_vm_id h) (fh_start_time h) (fh_stop_time h)
                 (fh_keyframes h ++ [kf]) (fh_keyframes_capacity h) in
      StartKeyframeTimer env keyframe_messages (WriteFileHeader (header_ok env) (with_header h r)).

Definition RunStopHandler env keyframe_messages r : recording * list recording_event :=
  match posted (stop_timer_ r) with
  | [] => (r, [])
  | (_, ec) :: _ =>
      OnStopTimer env keyframe_messages ec (with_timers (run_next (stop_timer_ r)) (keyframe_timer_ r) r)
  end.

Definition RunKeyframeHandler env keyframe_messages r : recording * list recording_event :=
  match posted (keyframe_timer_ r) with
  | [] => (r, [])
  | (_, ec) :: _ =>
      OnKeyframeTimer env keyframe_messages ec (with_timers (stop_timer_ r) (run_next (keyframe_timer_ r)) r)
  end.

(** ** Recording as a state machine *)

Inductive rec_op :=
| RStart | RStop | RSettings (s : recording_settings) | RWrite (m : msg) | RInput (i : C)
| RStopElapse | RKeyframeElapse | RRunStop | RRunKeyframe.

Definition rec_exec env keyframe_messages (op : rec_op) r : recording * list recording_event :=
  match op with
  | RStart => Start env keyframe_messages r
  | RStop => let '(_, r, evs) := Stop env r in (r, evs)
  | RSettings s => SetRecordingSettings env keyframe_messages s r
  | RWrite m => (WriteMessage env m r, [])
  | RInput i => (WriteInput env i r, [])
  | RStopElapse => (with_timers (elapse (stop_timer_ r)) (keyframe_timer_ r) r, [])
  | RKeyframeElapse => (with_timers (stop_timer_ r) (elapse (keyframe_timer_ r)) r, [])
  | RRunStop => RunStopHandler env keyframe_messages r
  | RRunKeyframe => RunKeyframeHandler env keyframe_messages r
  end.

Fixpoint rec_run (ops : list (rec_env * list msg * rec_op)) r : recording * list recording_event :=
  match ops with
  | [] => (r, [])
  | (env, kms, op) :: ops =>
      let '(r, evs) := rec_exec env kms op r in
      let '(r, evs') := rec_run ops r in
      (r, evs ++ evs')
  end.

(** The files that the event handler (the database) believes open. *)
Definition trace_step (open : option string) (ev : recording_event) : option (option string) :=
  match ev, open with
  | OnRecordingStarted f _, None => Some (Some f)
  | OnRecordingStopped f _, Some f' => if String.eqb f f' then Some None else None
  | OnKeyframeInRecording, _ => Some open
  | _, _ => None
  end.

Fixpoint trace (open : option string) (evs : list recording_event) : option (option string) :=
  match evs with
  | [] => Some open
  | ev :: evs => open ← trace_step open ev; trace open evs
  end.

Record rec_wf r : Prop := {
  rw_keyframes :
    (Z.of_nat (List.length (fh_keyframes (file_header_ r))) <= fh_keyframes_capacity (file_header_ r))%Z;
  rw_duration : (0 <= file_duration_ r)%Z;
  rw_interval : (0 <= keyframe_interval_ r)%Z
}.

(** A write has failed: the stream is open for good, and takes nothing. *)
Definition broken r : Prop := stream_open_ r = true ∧ stream_good_ r = false.

(** [open] is the file that the database believes open. *)
Definition tracks (open : option string) r : Prop :=
  if stream_open_ r then is_Some open ∧ (stream_good_ r = true → open = Some (filename_ r)) else open = None.

(** Moving on from [r] to [r'] with the events [evs] is consistent. *)
Record rec_step env r r' (evs : list recording_event) : Prop := {
  rs_wf : rec_wf r';
  rs_tracks open : tracks open r → ∃ open', trace open evs = Some open' ∧ tracks open' r';
  rs_broken : broken r → broken r' ∧ Forall (λ ev, ev = OnKeyframeInRecording) evs;
  rs_disk : disk_ok env → ¬ broken r → ¬ broken r'
}.
Definition rec_ok env r (p : recording * list recording_event) : Prop := rec_step env r p.1 p.2.

(** [r'] differs from [r] in what has been written, the ignored streams and
    the timers, and possibly in that a write has failed. *)
Record same_file env r r' : Prop := {
  sf_open : stream_open_ r' = stream_open_ r;
  sf_good : stream_good_ r' = true → stream_good_ r = true;
  sf_disk : disk_ok env → stream_good_ r' = stream_good_ r;
  sf_header : file_header_ r' = file_header_ r;
  sf_name : filename_ r' = filename_ r;
  sf_duration : file_duration_ r' = file_duration_ r;
  sf_interval : keyframe_interval_ r' = keyframe_interval_ r;
  sf_stop : stop_timer_ r' = stop_timer_ r
}.

Lemma same_file_refl env r : same_file env r r.
Proof. by split. Qed.

Lemma same_file_trans env r1 r2 r3 : same_file env r1 r2 → same_file env r2 r3 → same_file env r1 r3.
Proof. intros [] []. split; try congruence; auto. intros Hd. by rewrite sf_disk1, sf_disk0. Qed.

(** What only writes leaves the database's view alone. *)
Lemma same_file_step env r r' evs :
  same_file env r r' → Forall (λ ev, ev = OnKeyframeInRecording) evs → rec_wf r → rec_step env r r' evs.
Proof.
  intros [Ho Hg Hd Hh Hn Hdu Hi _] Hevs [Hk Hdn Hin]. split.
  - split; congruence.
  - intros open Ht. exists open. split; [|unfold tracks in *; rewrite Ho, Hn; destruct (stream_open_ r); naive_solver].
    clear Ht. induction Hevs as [|ev evs -> _ IH]; [done|exact IH].
  - intros [Hb1 Hb2]. split; [|done]. split; [congruence|]. destruct (stream_good_ r'); [|done]. by rewrite Hg in Hb2.
  - intros Hok Hno [Hb1 Hb2]. apply Hno. split; [congruence|]. by rewrite <-Hd.
Qed.

Lemma rec_step_trans env r1 r2 r3 e1 e2 :
  rec_step env r1 r2 e1 → rec_step env r2 r3 e2 → rec_step env r1 r3 (e1 ++ e2).
Proof.
  intros [_ Ht1 Hb1 Hd1] [Hw Ht2 Hb2 Hd2]. split; [done| | |auto].
  2:{ intros Hb. destruct (Hb1 Hb) as [Hb' He1]. destruct (Hb2 Hb') as [? He2]. split; [done|by apply Forall_app_2]. }
  intros open (o1 & Htr1 & Ho1)%Ht1. destruct (Ht2 o1 Ho1) as (o2 & Htr2 & Ho2). exists o2.
  split; [|done]. clear -Htr1 Htr2. revert open Htr1. induction e1 as [|e e1 IH]; intros open; cbn; [by intros [= ->]|].
  destruct (trace_step open e); cbn; [apply IH|done].
Qed.

Lemma write_same env m r : same_file env r (write env m r).
Proof.
  unfold write. destruct (stream_good_ r) eqn:Hg; cbn [negb]; [|by apply same_file_refl].
  destruct (write_ok env _) eqn:Hw; [by split|]. split; try done. cbn. intros [Hd _]. by rewrite Hd in Hw.
Qed.

Lemma WriteMessage_same env m r : same_file env r (WriteMessage env m r).
Proof.
  unfold WriteMessage. destruct (IsRecording r); simpl; [|apply same_file_refl].
  destruct (ShouldRecordMessage m r) as [b r'] eqn:Hs.
  assert (∃ s, r' = with_ignored s r) as [s' ->].
  { assert (r = with_ignored (ignored_streams_ r) r) as Hrefl by by destruct r.
    unfold ShouldRecordMessage in Hs. destruct m; simplify_eq/=; eauto.
    destruct (guac_which instr); try (destruct (getCaptureAudio _)); simplify_eq/=; eauto. }
  destruct b; cbn [negb]; [|by split].
  assert (∀ ms r, same_file env r (foldl (λ r m, write env m r) r ms)) as Hall.
  { induction ms as [|m' ms IH]; intros r0; [apply same_file_refl|].
    cbn. eapply same_file_trans; [apply write_same|apply IH]. }
  eapply same_file_trans; [|apply Hall]. by split.
Qed.

Lemma WriteMessages_same env ms r : same_file env r (WriteMessages env ms r).
Proof.
  revert r. induction ms as [|m ms IH]; intros r; simpl; [apply same_file_refl|].
  eapply same_file_trans; [apply WriteMessage_same|apply IH].
Qed.

Lemma WriteFileHeader_same env ok r : (disk_ok env → ok = true) → same_file env r (WriteFileHeader ok r).
Proof.
  intros Hok. split; try done; cbn.
  - by intros [? _]%andb_prop.
  - intros Hd. by rewrite Hok, andb_true_r.
Qed.

Lemma StartKeyframeTimer_same env kms r :
  same_file env r (StartKeyframeTimer env kms r).1 ∧ (StartKeyframeTimer env kms r).2 = [OnKeyframeInRecording].
Proof.
  unfold StartKeyframeTimer. split; [|done]. cbn [fst].
  destruct (WriteMessages_same env kms (with_ignored ∅ r)). by split.
Qed.

Lemma StartKeyframeTimer_ok env kms r : rec_wf r → rec_ok env r (StartKeyframeTimer env kms r).
Proof.
  intros Hwf. destruct (StartKeyframeTimer_same env kms r) as [Hs He]. unfold rec_ok. rewrite He.
  apply same_file_step; try done. by repeat constructor.
Qed.

Lemma Stop_spec env r :
  rec_wf r →
  let '(t, r', evs) := Stop env r in
  rec_step env r r' evs ∧ (stream_open_ r' = false ∨ broken r' ∧ r' = r ∧ evs = []) ∧
  file_duration_ r' = file_duration_ r ∧ keyframe_interval_ r' = keyframe_interval_ r.
Proof.
  intros [Hk Hd Hi]. unfold Stop, IsRecording.
  destruct (stream_open_ r) eqn:Ho, (stream_good_ r) eqn:Hg; cbn [andb negb].
  - split_and!; [|by left|done..]. split; [by split| |intros [? ?]; congruence|by intros _ _ [? _]].
    unfold tracks. rewrite Ho. intros open [_ Hopen]. exists None. split; [|done]. rewrite Hopen by done.
    cbn. by rewrite String.eqb_refl.
  - split_and!; [|by right; split_and!|done..]. apply same_file_step; [apply same_file_refl|done|by split].
  - split_and!; [|by left|done..]. apply same_file_step; [apply same_file_refl|done|by split].
  - split_and!; [|by left|done..]. apply same_file_step; [apply same_file_refl|done|by split].
Qed.

Lemma trace_app open e1 e2 : trace open (e1 ++ e2) = open ← trace open e1; trace open e2.
Proof.
  revert open. induction e1 as [|e e1 IH]; intros open; simpl; [done|].
  destruct (trace_step open e); simpl; [apply IH|done].
Qed.

(** A file that cannot be opened; a stream that is still open cannot. *)
Lemma open_fails env r (name : string) :
  rec_wf r → stream_open_ r = false ∨ broken r →
  rec_step env r (with_stream (stream_open_ r) false (file_header_ r) (file_body_ r) (with_filename name r)) [].
Proof.
  intros [Hk Hd Hi] Hc. split; [by split| |by intros [? ?]|].
  - intros open Ht. exists open. split; [done|]. unfold tracks in *. cbn. destruct (stream_open_ r); naive_solver.
  - intros _ Hno [Ho _]. cbn in Ho. destruct Hc as [Hc|Hc]; [congruence|done].
Qed.

(** A file that is opened; its header may not get written. *)
Lemma StartFile_ok env kms start_time r :
  rec_wf r → stream_open_ r = false → rec_ok env r (StartFile env kms start_time r).
Proof.
  intros [_ Hd Hi] Ho. unfold rec_ok, StartFile.
  match goal with |- context [StartKeyframeTimer env kms ?x] => set (r2 := x) end.
  assert (rec_step env r r2 [OnRecordingStarted (filename_ r) start_time]) as Hs.
  { split; [split; cbn; try done| |intros [? _]; congruence|].
    - destruct (Z.eqb_spec (keyframe_interval_ r) 0); [lia|apply Z.quot_pos; lia].
    - unfold tracks. rewrite Ho. intros open ->. exists (Some (filename_ r)). split; [done|]. cbn. split; [by eexists|done].
    - intros (_ & _ & Hok) _ [_ Hg]. cbn in Hg. congruence. }
  pose proof (StartKeyframeTimer_ok env kms r2 (rs_wf _ _ _ _ Hs)) as Hk.
  destruct (StartKeyframeTimer env kms r2) as [r3 evs]. exact (rec_step_trans env r r2 r3 [_] evs Hs Hk).
Qed.

Lemma Start_ok env kms r : rec_wf r → rec_ok env r (Start env kms r).
Proof.
  intros Hwf. unfold Start, rec_ok. destruct (Z.eqb _ 0) eqn:Hd.
  { apply same_file_step; [apply same_file_refl|done|done]. }
  pose proof (Stop_spec env r Hwf) as Hstop.
  destruct (Stop env r) as [[t r1] stopped]. destruct Hstop as (Hs1 & Hc & _).
  destruct (directories_error env); [done|]. destruct (String.eqb (date_time env) EmptyString); [done|].
  pose proof (rs_wf _ _ _ _ Hs1) as Hwf1. set (r2 := with_filename _ r1).
  assert (rec_wf r2) as Hwf2 by by destruct Hwf1. change (stream_open_ r2) with (stream_open_ r1).
  destruct (negb (stream_open_ r1) && file_opens env) eqn:Hop; cbn [negb].
  - apply andb_prop in Hop as [Ho%negb_true_iff _].
    pose proof (StartFile_ok env kms (default (system_now env) t) r2 Hwf2 Ho) as Hf.
    destruct (StartFile _ _ _ r2) as [r3 evs]. apply (rec_step_trans env r r1 r3 stopped evs Hs1).
    destruct Hf as [Hw Ht Hb Hk]. split; [done| |intros [? _]; congruence|].
    + intros open Hopen. apply Ht. unfold tracks in *. cbn. rewrite Ho in *. done.
    + intros Hdisk _. apply Hk; [done|]. intros [? _]. cbn in *. congruence.
  - rewrite <-(app_nil_r stopped). eapply rec_step_trans; [exact Hs1|].
    assert (stream_open_ r1 = false ∨ broken r1) as Hc' by (destruct Hc as [?|[? _]]; auto).
    exact (open_fails env r1 (recording_path env r1) Hwf1 Hc').
Qed.

(** The settings come from unsigned fields. *)
Definition op_ok (op : rec_op) : Prop :=
  match op with
  | RSettings s => (0 <= getFileDuration s)%Z ∧ (0 <= getKeyframeInterval s)%Z
  | _ => True
  end.

(** Timers and settings are not what the database sees. *)
Lemma rec_step_from env r0 r r' evs :
  stream_open_ r = stream_open_ r0 → stream_good_ r = stream_good_ r0 → filename_ r = filename_ r0 →
  rec_step env r r' evs → rec_step env r0 r' evs.
Proof.
  intros Ho Hg Hn [Hw Ht Hb Hd]. unfold broken, tracks in *. rewrite Ho, Hg, Hn in *. by split.
Qed.

Lemma rec_step_refl env r : rec_wf r → rec_step env r r [].
Proof. intros Hwf. by apply same_file_step; [apply same_file_refl|..]. Qed.

Lemma rec_exec_ok env kms op r : rec_wf r → op_ok op → rec_ok env r (rec_exec env kms op r).
Proof.
  intros Hwf Hop. unfold rec_ok.
  assert (∀ st kt, rec_wf (with_timers st kt r)) as Htimers by (intros; by destruct Hwf).
  destruct op; cbn [rec_exec].
  - by apply Start_ok.
  - pose proof (Stop_spec env r Hwf) as Hs. destruct (Stop env r) as [[t r'] evs]. apply Hs.
  - unfold SetRecordingSettings. destruct Hop as [Hd Hi]. set (r1 := with_settings _ _ _ _).
    assert (rec_wf r1) as Hwf1.
    { destruct Hwf. unfold r1, from_s, ns_per_s. split; simpl; try done; lia. }
    apply (rec_step_from env r r1); try done.
    destruct (negb (IsRecording r1)); [by apply rec_step_refl|].
    destruct (Z.ltb _ _); [by apply Start_ok|]. case_match; [by apply StartKeyframeTimer_ok|by apply rec_step_refl].
  - apply same_file_step; [apply WriteMessage_same|done|done].
  - apply same_file_step; [|done|done]. cbn [fst]. unfold WriteInput. destruct (_ || _); [apply same_file_refl|].
    destruct (client_which i); [apply WriteMessage_same..|apply same_file_refl].
  - refine (rec_step_from env r _ _ _ _ _ _ (rec_step_refl env _ (Htimers _ _))); done.
  - refine (rec_step_from env r _ _ _ _ _ _ (rec_step_refl env _ (Htimers _ _))); done.
  - unfold RunStopHandler. destruct (posted _) as [|[? ec] ?]; [by apply rec_step_refl|].
    apply (rec_step_from env r (with_timers (run_next (stop_timer_ r)) (keyframe_timer_ r) r)); try done.
    unfold OnStopTimer. destruct (ec_is_error ec); [|apply Start_ok, Htimers].
    match goal with |- context [Stop env ?x] => pose proof (Stop_spec env x (Htimers _ _)) as Hs;
      destruct (Stop env x) as [[t r'] evs] end. apply Hs.
  - unfold RunKeyframeHandler. destruct (posted _) as [|[? ec] ?]; [by apply rec_step_refl|].
    set (r1 := with_timers _ _ r). apply (rec_step_from env r r1); try done.
    unfold OnKeyframeTimer. destruct (ec_is_error ec); [apply rec_step_refl, Htimers|].
    case_match eqn:Hfull; [apply Start_ok, Htimers|]. apply Z.eqb_neq in Hfull. set (r2 := with_header _ r1).
    apply (rec_step_from env r1 r2); try done.
    assert (rec_wf r2) as Hwf2.
    { destruct Hwf as [Hk Hd Hi]. split; cbn; try done. rewrite length_app. cbn in *. lia. }
    pose proof (WriteFileHeader_same env (header_ok env) r2 ltac:(by intros (_ & _ & ?))) as Hh.
    pose proof (same_file_step env r2 _ [] Hh (List.Forall_nil _) Hwf2) as Hs.
    pose proof (StartKeyframeTimer_ok env kms _ (rs_wf _ _ _ _ Hs)) as Hs'.
    exact (rec_step_trans env r2 _ _ [] _ Hs Hs').
Qed.

(** *** Properties *)

Lemma rec_run_ok ops r :
  rec_wf r → Forall (λ p, op_ok p.2) ops →
  let p := rec_run ops r in
  rec_wf p.1 ∧ (∀ open, tracks open r → ∃ open', trace open p.2 = Some open' ∧ tracks open' p.1) ∧
  (broken r → broken p.1 ∧ Forall (λ ev, ev = OnKeyframeInRecording) p.2) ∧
  (Forall (λ p, disk_ok p.1.1) ops → ¬ broken r → ¬ broken p.1).
Proof.
  intros Hwf Hops. revert r Hwf. induction Hops as [|[[env kms] op] ops Hop _ IH]; intros r Hwf; cbn [rec_run].
  { split_and!; [done| |done|done]. intros open Ho. by exists open. }
  pose proof (rec_exec_ok env kms op r Hwf Hop) as Hok. unfold rec_ok in Hok.
  destruct (rec_exec env kms op r) as [r1 evs1]. cbn in Hok.
  destruct (IH r1 (rs_wf _ _ _ _ Hok)) as (Hw & Ht & Hb & Hd). destruct (rec_run ops r1) as [r2 evs2]. cbn in *.
  destruct Hok as [_ Ht1 Hb1 Hd1]. split_and!; [done| | |].
  2:{ intros Hbr. destruct (Hb1 Hbr) as [Hb' He1]. destruct (Hb Hb') as [? He2]. split; [done|by apply Forall_app_2]. }
  - intros open (o1 & Htr1 & Ho1)%Ht1. destruct (Ht o1 Ho1) as (o2 & Htr2 & Ho2). exists o2.
    by rewrite trace_app, Htr1.
  - intros [? ?]%Forall_cons_1. auto.
Qed.


Context `{!SteadyTimerLaws T}.

(** A restart of a running recording, on a disk that takes everything. *)
Record restarts env r : Prop := {
  rt_recording : IsRecording r = true;
  rt_duration : file_duration_ r ≠ 0%Z;
  rt_directories : directories_error env = false;
  rt_date : date_time env ≠ EmptyString;
  rt_opens : file_opens env = true;
  rt_disk : disk_ok env
}.

Lemma Start_timer env kms r :
  restarts env r →
  let r' := (Start env kms r).1 in
  IsRecording r' = true ∧
  posted (stop_timer_ r') = posted (stop_timer_ r) ++ abort_all (waits (stop_timer_ r)) ∧
  waits (stop_timer_ r') = [tt] ∧ expiry (stop_timer_ r') = (steady_now env + file_duration_ r)%Z ∧
  (Start env kms r).2 = [OnRecordingStopped (filename_ r) (system_now env);
    OnRecordingStarted (recording_path env r) (system_now env); OnKeyframeInRecording] ∧
  fh_start_time (file_header_ r') = system_now env.
Proof.
  intros [Hrec Hdur Hdir Hdate Hopen Hdisk]. unfold Start. rewrite (proj2 (Z.eqb_neq _ _) Hdur).
  unfold Stop. rewrite Hrec. cbn [negb]. rewrite Hdir.
  rewrite (proj2 (String.eqb_neq _ _) Hdate). cbn [stream_open_ with_filename with_stream with_timers].
  rewrite Hopen. cbn [negb andb]. unfold StartFile.
  match goal with |- context [StartKeyframeTimer env kms ?x] =>
    destruct (StartKeyframeTimer_same env kms x) as [[Ho _ Hg Hh _ _ _ Hst] He];
    destruct (StartKeyframeTimer env kms x) as [r3 evs] end.
  cbn [fst snd] in *. subst evs. specialize (Hg Hdisk). destruct Hdisk as (_ & _ & Hok).
  rewrite Hst, Hh. unfold IsRecording. rewrite Ho, Hg. cbn. rewrite Hok.
  unfold expires_after. autorewrite with cvm. rewrite app_nil_r. by split_and!.
Qed.

(** A recording whose time is up goes on in a new file without a gap:
    the completion handler stops the old file and starts the next one with
    the same time stamp, and nothing that is pending stops the new file
    before its own time is up. *)
Theorem rollover_is_contiguous env kms r :
  restarts env r → waits (stop_timer_ r) = [tt] → posted (stop_timer_ r) = [] →
  let '(r', evs) := RunStopHandler env kms
    (with_timers (elapse (stop_timer_ r)) (keyframe_timer_ r) r) in
  IsRecording r' = true ∧
  evs = [OnRecordingStopped (filename_ r) (system_now env);
    OnRecordingStarted (recording_path env r) (system_now env); OnKeyframeInRecording] ∧
  fh_start_time (file_header_ r') = system_now env ∧
  posted (stop_timer_ r') = [] ∧ waits (stop_timer_ r') = [tt] ∧
  expiry (stop_timer_ r') = (steady_now env + file_duration_ r)%Z.
Proof.
  intros Hr Hw Hp. unfold RunStopHandler.
  cbn [stop_timer_ with_timers]. autorewrite with cvm. rewrite Hw, Hp.
  cbn [app complete_all fmap list_fmap]. unfold OnStopTimer. cbn [ec_is_error].
  set (r1 := with_timers _ _ _). assert (restarts env r1) as Hr1 by by destruct Hr.
  destruct (Start_timer env kms r1 Hr1) as (Ha & Hb & Hc & Hd & He & Hf).
  destruct (Start env kms r1) as [r' evs]. cbn [fst snd] in *.
  unfold r1 in Hb. cbn [stop_timer_ with_timers] in Hb. autorewrite with cvm in Hb.
  rewrite Hp, Hw in Hb. exact (conj Ha (conj He (conj Hf (conj Hb (conj Hc Hd))))).
Qed.

(** A recording that is restarted while it runs - because the settings
    have changed or its keyframe list is full - does not survive: restarting
    cancels the old stop timer, and the aborted completion handler stops the
    file that has just been started. *)
Theorem restart_stops_itself env kms env' kms' r :
  restarts env r → waits (stop_timer_ r) = [tt] → posted (stop_timer_ r) = [] →
  let r1 := (Start env kms r).1 in
  IsRecording r1 = true ∧ IsRecording (RunStopHandler env' kms' r1).1 = false.
Proof.
  intros Hr Hw Hp r1. destruct (Start_timer env kms r Hr) as (Hr1 & Hpost & _).
  split; [done|]. fold r1 in Hpost, Hr1. rewrite Hp, Hw in Hpost. simpl in Hpost.
  unfold RunStopHandler. rewrite Hpost. unfold OnStopTimer. cbn [ec_is_error].
  unfold Stop. change (IsRecording (with_timers _ _ r1)) with (IsRecording r1). by rewrite Hr1.
Qed.
End Recording.

Module RecordingDemo.
#[local] Instance unit_guac : GuacSchema unit := λ _, G_OTHER.
#[local] Instance unit_client : GuacClientSchema unit unit := {
  client_which _ := C_OTHER; server_mouse _ _ _ _ := tt; server_key _ _ _ := tt }.
Definition env (t : Z) : rec_env := RecEnv t (1000 + t) false "now" true (λ _, true) true true.
Definition settings : recording_settings := RecordingSettings true true true 1 10.
Abbreviation rec := (recording (T := list_timer) (G := unit) (S := unit)).
Definition r1 : rec :=
  (Start (λ _, "1") (env 1) [] (SetRecordingSettings (λ _, "1") (env 0) [] settings (recording_new 1)).1).1.

(** The disk is full when the first message is written. *)
Definition full (t : Z) : rec_env := RecEnv t (1000 + t) false "now" true (λ _, false) true true.
Definition message : server_message unit unit := MVmDescription "a".
Definition broken_ops : list (rec_env * list (server_message unit unit) * rec_op (G := unit) (S := unit) (C := unit)) :=
  [(env 0, [], RSettings settings); (env 1, [], RStart); (full 2, [], RWrite message)].
Abbreviation run := (rec_run (T := list_timer) (λ _, 8%Z) (λ _, 16%Z) (λ _, "1")).


Lemma r1_restarts t : restarts (env t) r1.
Proof. by split. Qed.

Lemma rollover_is_contiguous_witness :
  let '(r', evs) := RunStopHandler (λ _, "1") (env 9) []
    (with_timers (elapse (stop_timer_ r1)) (keyframe_timer_ r1) r1) in
  IsRecording r' = true ∧ List.length evs = 3.
Proof.
  pose proof (rollover_is_contiguous (λ _, "1") (env 9) [] r1 (r1_restarts 9) eq_refl eq_refl) as Hr.
  destruct (RunStopHandler _ _ _ _) as [r' evs]. destruct Hr as (Hr & -> & _). by split.
Defined.

Lemma restart_stops_itself_witness :
  IsRecording (Start (λ _, "1") (env 2) [] r1).1 = true ∧
  IsRecording (RunStopHandler (λ _, "1") (env 3) [] (Start (λ _, "1") (env 2) [] r1).1).1 = false.
Proof. exact (restart_stops_itself (λ _, "1") (env 2) [] (env 3) [] r1 (r1_restarts 2) eq_refl eq_refl). Defined.
End RecordingDemo.
