(* ===== verification/GuacamoleClient.v ===== *)
(** * The Guacamole client (src/GuacamoleClient.hpp, src/CollabVmGuacamoleClient.hpp)

    The wrapper around libguac's client: its state machine, the broadcast
    socket whose write handler is replaced twice, and the instruction queue
    that is handed over on every flush.  libguac itself is not part of the
    repository; it appears as the operations that its threads perform
    ([guac_write], [guac_flush], [guac_thread_exit]) in any order, and as the
    events by which the wrapper calls it. *)

From S2P Require Import Prelude Settings Messages.
From Stdlib Require Import String.

Inductive GuacState := kStopped | kStarting | kRunning | kStopping.

#[export] Instance GuacState_eq_dec : EqDecision GuacState.
Proof. solve_decision. Defined.

(** Which of the three functions [socket->write_handler] points to. *)
Inductive write_handler := first_write | await_image | SocketWriteHandler_.

Inductive guac_event (G : Type) :=
| guac_client_stop
| PostOnStart
| PostOnStop
| OnGuacamoleInstructions (instructions : list G).
Arguments guac_client_stop {G}.
Arguments PostOnStart {G}.
Arguments PostOnStop {G}.
Arguments OnGuacamoleInstructions {G}.

Section GuacamoleClient.
Context {G : Type} `{GuacSchema G}.
(** The argument names a protocol's client declares, and whether its
    initialisation succeeds. *)
Context (arg_names : Protocol → list string) (init_succeeds : Protocol → bool).
Implicit Types (g : G).

Record guac_client := GuacClient {
  guac_state_ : GuacState;
  client_ : option Protocol;
  guac_user_ : bool;
  args_ : list string;
  args_map_ : gmap string string;
  write_handler_ : write_handler;
  instruction_queue_ : list G;
  in_flight_ : list (list G)   (* taken off the queue by a flush, not yet handed over *)
}.
Implicit Types c : guac_client.

(** [state_] has no initialiser; the model starts it at zero, [kStopped]. *)
Definition guac_new : guac_client := GuacClient kStopped None false [] ∅ first_write [] [].

Definition with_state (s : GuacState) c : guac_client :=
  GuacClient s (client_ c) (guac_user_ c) (args_ c) (args_map_ c) (write_handler_ c)
    (instruction_queue_ c) (in_flight_ c).
Definition with_handler (h : write_handler) c : guac_client :=
  GuacClient (guac_state_ c) (client_ c) (guac_user_ c) (args_ c) (args_map_ c) h
    (instruction_queue_ c) (in_flight_ c).
Definition with_instructions (q : list G) c : guac_client :=
  GuacClient (guac_state_ c) (client_ c) (guac_user_ c) (args_ c) (args_map_ c)
    (write_handler_ c) q (in_flight_ c).

(** One argument per declared name, empty when it is not configured. *)
Definition CreateArgsArray (args_map : gmap string string) (names : list string) : list string :=
  if decide (args_map = ∅) then replicate (List.length names) EmptyString
  else (λ n, default EmptyString (args_map !! n)) <$> names.

Definition SetArguments (args : gmap string string) c : guac_client :=
  let a :=
    match client_ c with
    | Some p => CreateArgsArray args (arg_names p)
    | None => args_ c
    end in
  GuacClient (guac_state_ c) (client_ c) (guac_user_ c) a args (write_handler_ c)
    (instruction_queue_ c) (in_flight_ c).

Definition GuacStop c : guac_client * list (guac_event G) :=
  (with_state kStopping c,
   if decide (guac_state_ c = kRunning) then [guac_client_stop] else []).

Definition CreateClient (p : Protocol) c : guac_client :=
  GuacClient kStarting (Some p) (guac_user_ c) (args_ c) (args_map_ c) first_write
    (instruction_queue_ c) (in_flight_ c).

Definition CreateUser c : guac_client :=
  GuacClient (guac_state_ c) (client_ c) true (args_ c) (args_map_ c) (write_handler_ c)
    (instruction_queue_ c) (in_flight_ c).

(** [None] when the initialisation throws. *)
Definition GuacStart (p : Protocol) c : option guac_client :=
  let c := CreateClient p c in
  if negb (init_succeeds p) then None
  else
    let c := CreateUser c in
    let a := CreateArgsArray (args_map_ c) (arg_names p) in
    Some (GuacClient (guac_state_ c) (client_ c) (guac_user_ c) a (args_map_ c)
            (write_handler_ c) (instruction_queue_ c) (in_flight_ c)).

(** The instructions that bring a joining user up to date, [join]. *)
Definition GuacAddUser (join : list G) c : list G :=
  if decide (guac_state_ c = kRunning) then join else [].

(** The instruction that is handed to [guac_call_instruction_handler]. *)
Definition GuacReadInstruction {C : Type} (instr : C) c : list C :=
  if guac_user_ c then [instr] else [].

(** The picture, when the client is running and one could be made. *)
Definition CreateScreenshot (png : option (list Z)) c : option (list Z) :=
  if decide (guac_state_ c = kRunning) then png else None.

(** [CollabVmGuacamoleClient::OnInstruction]. *)
Definition OnInstruction g c : guac_client :=
  with_instructions (instruction_queue_ c ++ [g]) c.

Definition SocketWriteHandler g c : guac_client :=
  let c :=
    match guac_which g with
    | G_DISCONNECT | G_ERROR => with_state kStopping c
    | _ => c
    end in
  OnInstruction g c.

(** The broadcast socket's write handler, whichever it is at the time. *)
Definition guac_write g c : guac_client * list (guac_event G) :=
  match write_handler_ c with
  | first_write =>
      match guac_which g with
      | G_NOP => (SocketWriteHandler g c, [])
      | _ => (SocketWriteHandler g (with_handler await_image c), [])
      end
  | await_image =>
      match guac_which g with
      | G_IMG layer =>
          if Z.eqb layer 0 then
            match guac_state_ c with
            | kStarting =>
                (SocketWriteHandler g (with_handler SocketWriteHandler_ (with_state kRunning c)),
                 [PostOnStart])
            | kStopping =>
                (SocketWriteHandler g (with_handler SocketWriteHandler_ c), [guac_client_stop])
            | _ => (SocketWriteHandler g (with_handler SocketWriteHandler_ c), [])
            end
          else (SocketWriteHandler g c, [])
      | _ => (SocketWriteHandler g c, [])
      end
  | SocketWriteHandler_ => (SocketWriteHandler g c, [])
  end.

(** [CollabVmGuacamoleClient::OnFlush]: the queue is taken while the mutex is
    held, and handed over after it has been released, when another thread may
    flush as well. *)
Definition OnFlush c : guac_client :=
  match instruction_queue_ c with
  | [] => c
  | q => GuacClient (guac_state_ c) (client_ c) (guac_user_ c) (args_ c) (args_map_ c)
           (write_handler_ c) [] (in_flight_ c ++ [q])
  end.

(** The rest of the flush that took the [i]th of the batches. *)
Definition OnFlushUnlocked (i : nat) c : guac_client * list (guac_event G) :=
  match in_flight_ c !! i with
  | None => (c, [])
  | Some batch =>
      (GuacClient (guac_state_ c) (client_ c) (guac_user_ c) (args_ c) (args_map_ c)
         (write_handler_ c) (instruction_queue_ c) (delete i (in_flight_ c)),
       [OnGuacamoleInstructions batch])
  end.

Definition GuacamoleThreadDestructor c : guac_client * list (guac_event G) :=
  (with_state kStopped c, [PostOnStop]).

(** The posted function: [client_.reset(); user_.reset()], then [OnStop]. *)
Definition ReleaseClient c : guac_client :=
  GuacClient (guac_state_ c) None false (args_ c) (args_map_ c) (write_handler_ c)
    (instruction_queue_ c) (in_flight_ c).

(** ** One connection: what can happen between a start and the thread's exit *)

Inductive guac_op := GWrite (g : G) | GFlush | GFlushUnlocked (i : nat) | GStop | GArgs (args : gmap string string).

Definition guac_exec (op : guac_op) c : guac_client * list (guac_event G) :=
  match op with
  | GWrite g => guac_write g c
  | GFlush => (OnFlush c, [])
  | GFlushUnlocked i => OnFlushUnlocked i c
  | GStop => GuacStop c
  | GArgs a => (SetArguments a c, [])
  end.

Fixpoint guac_run (ops : list guac_op) c : guac_client * list (guac_event G) :=
  match ops with
  | [] => (c, [])
  | op :: ops =>
      let '(c, evs) := guac_exec op c in
      let '(c, evs') := guac_run ops c in
      (c, evs ++ evs')
  end.

Definition written (ops : list guac_op) : list G :=
  omap (λ op, match op with GWrite g => Some g | _ => None end) ops.

(** The batches that the virtual machine has been given. *)
Definition delivered (evs : list (guac_event G)) : list (list G) :=
  omap (λ ev, match ev with OnGuacamoleInstructions l => Some l | _ => None end) evs.

(** No flush overtakes another. *)
Definition in_turn (op : guac_op) : Prop := match op with GFlushUnlocked i => i = 0 | _ => True end.

Definition is_stop (op : guac_op) : bool := match op with GStop => true | _ => false end.
Definition disconnects (op : guac_op) : bool :=
  match op with
  | GWrite g => match guac_which g with G_DISCONNECT | G_ERROR => true | _ => false end
  | _ => false
  end.

Lemma SocketWriteHandler_queue g c :
  instruction_queue_ (SocketWriteHandler g c) = instruction_queue_ c ++ [g].
Proof. unfold SocketWriteHandler. by destruct (guac_which g). Qed.

Lemma guac_write_queue g c :
  instruction_queue_ (guac_write g c).1 = instruction_queue_ c ++ [g] ∧
  in_flight_ (guac_write g c).1 = in_flight_ c ∧ delivered (guac_write g c).2 = [].
Proof.
  assert (∀ c', in_flight_ (SocketWriteHandler g c') = in_flight_ c') as Hf
    by (intros c'; unfold SocketWriteHandler; by destruct (guac_which g)).
  unfold guac_write. destruct (write_handler_ c), (guac_which g) eqn:Hg;
    try (destruct (Z.eqb layer 0)); try (destruct (guac_state_ c));
    cbn [fst snd]; by rewrite ?SocketWriteHandler_queue, ?Hf.
Qed.

(** The batches that are taken are what has been written, in order; they are
    handed over once each, and in order if no flush overtakes another. *)
Definition moves (ops : list guac_op) c c' (evs : list (guac_event G)) : Prop :=
  ∃ batches, List.concat batches ++ instruction_queue_ c' = instruction_queue_ c ++ written ops ∧
    delivered evs ++ in_flight_ c' ≡ₚ in_flight_ c ++ batches ∧
    (Forall in_turn ops → delivered evs ++ in_flight_ c' = in_flight_ c ++ batches).

Lemma moves_none op c c' evs :
  written [op] = [] → instruction_queue_ c' = instruction_queue_ c → in_flight_ c' = in_flight_ c →
  delivered evs = [] → moves [op] c c' evs.
Proof. intros Hw Hq Hf Hd. exists []. by rewrite Hw, Hq, Hf, Hd, !app_nil_r. Qed.

Lemma guac_exec_moves op c : moves [op] c (guac_exec op c).1 (guac_exec op c).2.
Proof.
  destruct op; cbn [guac_exec].
  - destruct (guac_write_queue g c) as (Hq & Hf & Hd). exists []. by rewrite Hq, Hf, Hd, app_nil_r.
  - unfold OnFlush. destruct (instruction_queue_ c) as [|g q] eqn:Hq; [by apply moves_none|].
    exists [g :: q]. cbn. rewrite Hq, !app_nil_r. by split_and!.
  - unfold OnFlushUnlocked. destruct (in_flight_ c !! i) as [b|] eqn:Hb; [|by apply moves_none].
    exists []. cbn. rewrite !app_nil_r. split_and!; [done|symmetry; by apply delete_Permutation|].
    intros [->%(λ H : in_turn (GFlushUnlocked i), H) _]%Forall_cons_1. by destruct (in_flight_ c); simplify_eq/=.
  - apply moves_none; try done. unfold GuacStop. cbn. by case_decide.
  - by apply moves_none.
Qed.

Lemma delivered_app e1 e2 : delivered (e1 ++ e2) = delivered e1 ++ delivered e2.
Proof. apply omap_app. Qed.

(** The events a state can still be owed: [started] says whether [OnStart]
    has been posted, [stopped] whether the client was told to stop, [asked]
    whether [Stop] was called, [over] whether the peer ended the session. *)
Record guac_inv (started stopped asked over : bool) c : Prop := {
  gi_started : started = true → write_handler_ c = SocketWriteHandler_;
  gi_running : guac_state_ c = kRunning → started = true ∧ asked = false;
  gi_starting : guac_state_ c = kStarting → asked = false ∧ write_handler_ c ≠ SocketWriteHandler_;
  gi_stop : asked = true → write_handler_ c = SocketWriteHandler_ → stopped = true ∨ over = true;
  gi_asked : asked = true → guac_state_ c = kStopping;
  gi_early : guac_state_ c ≠ kStopped;
  gi_over : guac_state_ c = kStopping → asked = true ∨ over = true
}.

Definition count_start (evs : list (guac_event G)) : nat :=
  List.length (List.filter (λ ev, match ev with PostOnStart => true | _ => false end) evs).
Definition has_stop (evs : list (guac_event G)) : bool :=
  existsb (λ ev, match ev with guac_client_stop => true | _ => false end) evs.

Lemma SocketWriteHandler_inv g c started stopped asked over :
  guac_inv started stopped asked over c →
  guac_inv started stopped asked (over || disconnects (GWrite g)) (SocketWriteHandler g c).
Proof.
  intros [Hst Hrun Hstart Hstop Hasked Hearly Hover]. unfold SocketWriteHandler, disconnects.
  destruct (guac_which g); rewrite ?orb_false_r, ?orb_true_r; split; simpl; try done; auto; by right.
Qed.

Lemma await_image_inv c stopped asked over :
  guac_inv false stopped asked over c → guac_inv false stopped asked over (with_handler await_image c).
Proof. intros [Hst Hrun Hstart Hstop Hasked Hearly Hover]. split; simpl; try done. naive_solver. Qed.

Lemma guac_exec_inv op c started stopped asked over :
  guac_inv started stopped asked over c →
  let '(c', evs) := guac_exec op c in
  (count_start evs = 0 ∨ count_start evs = 1 ∧ started = false ∧ asked = false) ∧
  guac_inv (started || (0 <? count_start evs)) (stopped || has_stop evs)
    (asked || is_stop op) (over || disconnects op) c'.
Proof.
  intros Hinv. pose proof Hinv as [Hst Hrun Hstart Hstop Hasked Hearly Hover].
  destruct op; cbn [guac_exec is_stop]; rewrite ?orb_false_r.
  - assert (Hplain : (count_start [] = 0 ∨ count_start [] = 1 ∧ started = false ∧ asked = false) ∧
      guac_inv (started || (0 <? count_start [])) (stopped || has_stop [])
        asked (over || disconnects (GWrite g)) (SocketWriteHandler g c)).
    { split; [by left|]. cbn. rewrite !orb_false_r. by apply SocketWriteHandler_inv. }
    unfold guac_write. destruct (write_handler_ c) eqn:Hw; [| |exact Hplain].
    + assert (started = false) as -> by (destruct started; [by specialize (Hst eq_refl)|done]).
      destruct (guac_which g); try exact Hplain; (split; [by left|]); cbn [count_start has_stop existsb List.filter List.length Nat.ltb Nat.leb orb];
        rewrite ?orb_false_r; by apply SocketWriteHandler_inv, await_image_inv.
    + assert (started = false) as -> by (destruct started; [by specialize (Hst eq_refl)|done]).
      destruct (guac_which g); try exact Hplain. destruct (Z.eqb layer 0); [|exact Hplain].
      destruct (guac_state_ c) eqn:Hs.
      * done.
      * destruct (Hstart eq_refl) as [-> _]. split; [by right|]. cbn. rewrite orb_false_r.
        apply SocketWriteHandler_inv. by split.
      * by destruct (Hrun eq_refl).
      * split; [by left|]. cbn. rewrite orb_true_r. apply SocketWriteHandler_inv.
        split; simpl; try done; try congruence; auto.
  - unfold OnFlush. destruct (instruction_queue_ c); simpl;
      (split; [by left|]); rewrite ?orb_false_r; by split.
  - unfold OnFlushUnlocked. destruct (in_flight_ c !! i); simpl;
      (split; [by left|]); rewrite ?orb_false_r; by split.
  - unfold GuacStop. split; [left; by case_decide|].
    assert (count_start (if decide (guac_state_ c = kRunning) then [guac_client_stop] else []) = 0)
      as -> by by case_decide.
    rewrite orb_true_r. cbn [Nat.ltb Nat.leb]. rewrite !orb_false_r.
    split; simpl; try done; auto. intros _ Hw.
    destruct (decide (guac_state_ c = kRunning)) as [Hr|Hr]; simpl; [left; apply orb_true_r|].
    rewrite orb_false_r. destruct (guac_state_ c) eqn:Hs; try done.
    + by destruct (Hstart eq_refl) as [_ Hh].
    + destruct (Hover eq_refl) as [Ha|Ha]; [by apply Hstop|by right].
  - simpl. split; [by left|]. rewrite ?orb_false_r. by split.
Qed.
Lemma count_start_app e1 e2 : count_start (e1 ++ e2) = count_start e1 + count_start e2.
Proof. unfold count_start. by rewrite List.filter_app, length_app. Qed.

Lemma has_stop_app e1 e2 : has_stop (e1 ++ e2) = has_stop e1 || has_stop e2.
Proof. apply existsb_app. Qed.

Lemma guac_run_inv ops c started stopped asked over :
  guac_inv started stopped asked over c →
  let '(c', evs) := guac_run ops c in
  guac_inv (started || (0 <? count_start evs)) (stopped || has_stop evs)
    (asked || existsb is_stop ops) (over || existsb disconnects ops) c' ∧
  (count_start evs ≤ 1) ∧ (started = true ∨ asked = true → count_start evs = 0).
Proof.
  revert c started stopped asked over.
  induction ops as [|op ops IH]; intros c started stopped asked over Hinv; cbn [guac_run existsb].
  { simpl. rewrite !orb_false_r. split; [done|]. split; [by constructor|done]. }
  pose proof (guac_exec_inv op c _ _ _ _ Hinv) as Hop.
  destruct (guac_exec op c) as [c1 e1]. destruct Hop as [Hcount Hinv1].
  pose proof (IH c1 _ _ _ _ Hinv1) as Hops.
  destruct (guac_run ops c1) as [c2 e2]. destruct Hops as (Hinv2 & Hle & Hzero).
  rewrite count_start_app, has_stop_app. split_and!.
  - rewrite !orb_assoc.
    replace (started || (0 <? count_start e1 + count_start e2)) with
      (started || (0 <? count_start e1) || (0 <? count_start e2)); [done|].
    destruct (count_start e1), (count_start e2), started; done.
  - destruct Hcount as [Hc|(Hc & -> & ->)]; [lia|].
    rewrite Hc, Hzero; [lia|]. rewrite Hc. by left.
  - intros Hsa. destruct Hcount as [Hc|(_ & -> & ->)]; [|by destruct Hsa].
    rewrite Hc, Hzero; [done|]. destruct Hsa as [->| ->]; [by left|by right].
Qed.

Lemma moves_trans op ops c c1 c2 e1 e2 :
  moves [op] c c1 e1 → moves ops c1 c2 e2 → moves (op :: ops) c c2 (e1 ++ e2).
Proof.
  intros (b1 & Hq1 & Hf1 & Ho1) (b2 & Hq2 & Hf2 & Ho2). exists (b1 ++ b2).
  assert (written (op :: ops) = written [op] ++ written ops) as -> by by destruct op.
  rewrite List.concat_app, delivered_app, <-!app_assoc. split_and!.
  - by rewrite Hq2, !app_assoc, Hq1.
  - by rewrite Hf2, !(assoc_L (++)), Hf1.
  - intros [Hop Hops]%Forall_cons_1. rewrite Ho2, !(assoc_L (++)), Ho1; [done|by repeat constructor|done].
Qed.

Lemma guac_run_moves ops c : moves ops c (guac_run ops c).1 (guac_run ops c).2.
Proof.
  revert c. induction ops as [|op ops IH]; intros c; cbn [guac_run].
  { exists []. cbn. by rewrite !app_nil_r. }
  pose proof (guac_exec_moves op c) as Hop. destruct (guac_exec op c) as [c1 e1]. cbn in Hop.
  specialize (IH c1). destruct (guac_run ops c1) as [c2 e2]. by eapply moves_trans.
Qed.

Lemma guac_run_app ops1 ops2 c :
  guac_run (ops1 ++ ops2) c =
    ((guac_run ops2 (guac_run ops1 c).1).1,
     (guac_run ops1 c).2 ++ (guac_run ops2 (guac_run ops1 c).1).2).
Proof.
  revert c. induction ops1 as [|op ops1 IH]; intros c; simpl; [by destruct (guac_run ops2 c)|].
  destruct (guac_exec op c) as [c1 e1]. rewrite IH. destruct (guac_run ops1 c1) as [c2 e2]. simpl.
  by rewrite app_assoc.
Qed.

Lemma GuacStart_inv p c c0 : GuacStart p c = Some c0 → guac_inv false false false false c0.
Proof. unfold GuacStart. destruct (init_succeeds p); [|done]. intros [= <-]. by split. Qed.

(** *** Property *)

End GuacamoleClient.

Module GuacamoleDemo.
Definition view (g : guac_view) : guac_view := g.
#[local] Instance view_schema : GuacSchema guac_view := view.
Definition names (p : Protocol) : list string := ["hostname"; "port"]%string.

Definition started : guac_client (G := guac_view) :=
  default guac_new (GuacStart names (λ _, true) VNC guac_new).

(** Two threads flush; the second one is faster. *)
Definition overtaken : list (guac_op (G := guac_view)) :=
  [GWrite (G_SYNC 1); GFlush; GWrite (G_SYNC 2); GFlush; GFlushUnlocked 1; GFlushUnlocked 0].

Example batches_swap : delivered (guac_run names overtaken started).2 = [[G_SYNC 2]; [G_SYNC 1]].
Proof. reflexivity. Qed.

End GuacamoleDemo.
