(* ===== verification/Screenshot.v ===== *)
(** * Screenshots (GuacamoleScreenshot.hpp)

    The size of a scaled picture, in the arithmetic of the source: single
    precision, with every operation rounded to 24 bits, half to even, and the
    results cut off.  The picture itself is drawn by libguac's encoder and
    cairo, which are parameters.  [client_screenshot] is the picture of a
    machine (GuacamoleClient::CreateScreenshot). *)

From S2P Require Import Prelude Messages GuacamoleClient.
From Stdlib Require Import Ascii String.
From stdpp Require Import list.

(** ** Single precision

    A positive number is [mant / 2^shift] with [mant] of 24 bits; exponents
    are not bounded, as the sizes of pictures stay far from their limits. *)
Record f32 := F32 { mant : Z; shift : Z }.

Definition num (x : f32) : Z := if decide (0 ≤ shift x)%Z then mant x else (mant x * 2 ^ (- shift x))%Z.
Definition den (x : f32) : Z := if decide (0 ≤ shift x)%Z then (2 ^ shift x)%Z else 1%Z.

Definition round_half_even (n d : Z) : Z :=
  let q := (n / d)%Z in
  let r := (n mod d)%Z in
  match (2 * r ?= d)%Z with Lt => q | Gt => q + 1 | Eq => if Z.even q then q else q + 1 end%Z.

(** [n / d * 2^s], rounded. *)
Definition scaled (n d s : Z) : f32 :=
  F32 (if decide (0 ≤ s)%Z then round_half_even (n * 2 ^ s) d else round_half_even n (d * 2 ^ (- s))) s.

(** The shift for which [n / d * 2^s] is in [[2^23, 2^24)]. *)
Definition shift_of (n d : Z) : Z :=
  let s := (23 - (Z.log2 n - Z.log2 d))%Z in
  let enough := if decide (0 ≤ s)%Z then (2 ^ 23 * d <=? n * 2 ^ s)%Z else (2 ^ 23 * (d * 2 ^ (- s)) <=? n)%Z in
  if enough then s else (s + 1)%Z.

(** The number nearest to [n / d]. *)
Definition to_f32 (n d : Z) : f32 := if decide (n = 0)%Z then F32 0 0 else scaled n d (shift_of n d).

Definition of_int (n : Z) : f32 := to_f32 n 1.
Definition div (x y : f32) : f32 := to_f32 (num x * den y) (den x * num y).
Definition mul (x y : f32) : f32 := to_f32 (num x * num y) (den x * den y).
Definition to_int (x : f32) : Z := (num x / den x)%Z.

Example one_third : div (of_int 1) (of_int 3) = F32 11184811 25.
Proof. reflexivity. Qed.
Example large : to_f32 (2 ^ 30 + 63) 1 = F32 (2 ^ 23) (-7) ∧ to_f32 (2 ^ 30 + 65) 1 = F32 (2 ^ 23 + 1) (-7).
Proof. split; reflexivity. Qed.

(** ** The picture *)

Section Screenshot.
(** A surface of cairo, and [cairo_surface_write_to_png_stream] of the scaled
    surface; [None] when it fails. *)
Context {surface : Type} (surface_width surface_height : surface → Z).
Context (write_to_png : surface → f32 → Z → Z → option (list Z)).

(** The size and the scale. *)
Definition scaled_size (max_width max_height width height : Z) : Z * Z * f32 :=
  if (Z.eqb max_width 0 || Z.eqb max_height 0) then (width, height, of_int 1)
  else if (height <? width)%Z then
    let scale_xy := div (of_int max_width) (of_int width) in
    (max_width, to_int (mul scale_xy (of_int height)), scale_xy)
  else
    let scale_xy := div (of_int max_height) (of_int height) in
    (to_int (mul scale_xy (of_int width)), max_height, scale_xy).

(** [layer] is the default layer's surface, if it has one. *)
Definition CreateScreenshot (max_width max_height : Z) (layer : option surface) : option (list Z) :=
  s ← layer;
  let '(width, height, scale_xy) := scaled_size max_width max_height (surface_width s) (surface_height s) in
  write_to_png s scale_xy width height.

(** [GuacamoleClient::CreateScreenshot]: what a user who joins is sent is
    drawn. *)
Definition client_screenshot {G} (guac_join : guac_client (G := G) → list G) (draw : list G → option surface)
    (c : guac_client (G := G)) : option (list Z) :=
  GuacamoleClient.CreateScreenshot (CreateScreenshot 400 400 (draw (GuacAddUser (guac_join c) c))) c.
End Screenshot.

Example landscape : scaled_size 400 400 1024 768 = (400, 300, F32 13107200 25)%Z.
Proof. reflexivity. Qed.
(** Only the larger side is bounded. *)
Example not_in_the_box : (scaled_size 400 100 1000 900).1 = (400, 360)%Z.
Proof. reflexivity. Qed.
Example no_height : (scaled_size 400 400 2000 4).1 = (400, 0)%Z.
Proof. reflexivity. Qed.

(** ** Rounding errors *)

Lemma den_pos x : (0 < den x)%Z.
Proof. unfold den. case_decide; [|lia]. by apply Z.pow_pos_nonneg. Qed.

Lemma round_half_even_error n d : (0 < d)%Z → (Z.abs (2 * (round_half_even n d * d - n)) ≤ d)%Z.
Proof.
  intros Hd. pose proof (Z.div_mod n d ltac:(lia)) as Hn. pose proof (Z.mod_pos_bound n d Hd) as Hr.
  unfold round_half_even. destruct (Z.compare_spec (2 * (n mod d)) d); [destruct (Z.even _)|..]; nia.
Qed.

(** [2^23 ≤ n / d * 2^s] *)
Definition enough_bits (n d s : Z) : Prop :=
  if decide (0 ≤ s)%Z then (2 ^ 23 * d ≤ n * 2 ^ s)%Z else (2 ^ 23 * (d * 2 ^ (- s)) ≤ n)%Z.

Lemma shift_of_enough n d : (0 < n)%Z → (0 < d)%Z → enough_bits n d (shift_of n d).
Proof.
  intros Hn Hd. unfold shift_of. set (s := (23 - (Z.log2 n - Z.log2 d))%Z).
  destruct (if decide (0 ≤ s)%Z then _ else _) eqn:He.
  { unfold enough_bits. case_decide; by apply Z.leb_le. }
  clear He. pose proof (Z.log2_spec n Hn) as [Hn1 _]. pose proof (Z.log2_spec d Hd) as [_ Hd2].
  pose proof (Z.log2_nonneg n) as Hln. pose proof (Z.log2_nonneg d) as Hld. unfold enough_bits.
  assert (2 ^ 23 * 2 ^ Z.succ (Z.log2 d) = 2 ^ (Z.log2 d + 24))%Z as Hpow
    by (rewrite <-Z.pow_add_r by lia; f_equal; lia).
  case_decide as Hs.
  - assert (2 ^ (Z.log2 d + 24) = 2 ^ Z.log2 n * 2 ^ (s + 1))%Z as Heq
      by (rewrite <-Z.pow_add_r by lia; f_equal; unfold s; lia).
    pose proof (Z.pow_pos_nonneg 2 (s + 1)). nia.
  - assert (2 ^ (Z.log2 d + 24) * 2 ^ (- (s + 1)) = 2 ^ Z.log2 n)%Z as Heq
      by (rewrite <-Z.pow_add_r by lia; f_equal; unfold s; lia).
    pose proof (Z.pow_pos_nonneg 2 (- (s + 1))). nia.
Qed.

(** The relative error is at most [2^-24]. *)
Lemma to_f32_error n d :
  (0 < n)%Z → (0 < d)%Z →
  let x := to_f32 n d in (Z.abs (num x * d - n * den x) * 2 ^ 24 ≤ n * den x)%Z.
Proof.
  intros Hn Hd x. subst x. unfold to_f32. rewrite decide_False by lia.
  pose proof (shift_of_enough n d Hn Hd) as He. revert He. unfold scaled, enough_bits, num, den. cbn.
  generalize (shift_of n d). intros s. destruct (decide (0 ≤ s)%Z) as [Hs|Hs]; intros He.
  - pose proof (round_half_even_error (n * 2 ^ s) d Hd). lia.
  - pose proof (Z.pow_pos_nonneg 2 (- s)). pose proof (round_half_even_error n (d * 2 ^ (- s)) ltac:(nia)) as Hr.
    replace (round_half_even n (d * 2 ^ (- s)) * 2 ^ (- s) * d - n * 1)%Z
      with (round_half_even n (d * 2 ^ (- s)) * (d * 2 ^ (- s)) - n)%Z by ring. lia.
Qed.

(** Integers of 24 bits are exact. *)
Lemma of_int_exact n : (0 ≤ n < 2 ^ 24)%Z → num (of_int n) = (n * den (of_int n))%Z.
Proof.
  intros Hn. unfold of_int, to_f32. destruct (decide (n = 0)%Z) as [->|Hne]; [done|].
  assert (Z.log2 n ≤ 23)%Z as Hl by (apply Z.lt_succ_r, Z.log2_lt_pow2; lia).
  unfold shift_of. change (Z.log2 1) with 0%Z. rewrite Z.sub_0_r. rewrite (decide_True (P := (0 ≤ 23 - Z.log2 n)%Z)) by lia.
  assert (2 ^ 23 * 1 <=? n * 2 ^ (23 - Z.log2 n) = true)%Z as ->.
  { apply Z.leb_le. pose proof (Z.log2_spec n ltac:(lia)) as [Hn1 _].
    assert (2 ^ 23 = 2 ^ Z.log2 n * 2 ^ (23 - Z.log2 n))%Z as Heq by (rewrite <-Z.pow_add_r by (try apply Z.log2_nonneg; lia); f_equal; lia).
    pose proof (Z.pow_pos_nonneg 2 (23 - Z.log2 n)). nia. }
  unfold scaled, num, den. cbn [mant shift]. rewrite !decide_True by lia. unfold round_half_even.
  by rewrite Z.div_1_r, Z.mod_1_r.
Qed.

Lemma to_f32_pos n d : (0 < n)%Z → (0 < d)%Z → (0 < num (to_f32 n d))%Z.
Proof. intros Hn Hd. pose proof (to_f32_error n d Hn Hd) as He. pose proof (den_pos (to_f32 n d)). cbn in He. nia. Qed.

(** The side that follows from the other: two roundings away from exact. *)
Lemma scaled_side_error (M big small : Z) :
  (0 < M < 2 ^ 24)%Z → (0 < big < 2 ^ 24)%Z → (0 < small < 2 ^ 24)%Z →
  let p := mul (div (of_int M) (of_int big)) (of_int small) in
  ((2 ^ 24 - 1) ^ 2 * (small * M) * den p ≤ num p * big * 2 ^ 48 ≤ (2 ^ 24 + 1) ^ 2 * (small * M) * den p)%Z.
Proof.
  intros HM Hb Hs p. pose proof (of_int_exact M ltac:(lia)) as EM. pose proof (of_int_exact big ltac:(lia)) as Eb.
  pose proof (of_int_exact small ltac:(lia)) as Es. pose proof (den_pos (of_int M)) as DM.
  pose proof (den_pos (of_int big)) as Db. pose proof (den_pos (of_int small)) as Ds.
  set (q := div (of_int M) (of_int big)) in *.
  assert (Hq : (Z.abs (num q * big - M * den q) * 2 ^ 24 ≤ M * den q)%Z).
  { pose proof (to_f32_error (num (of_int M) * den (of_int big)) (den (of_int M) * num (of_int big))
      ltac:(nia) ltac:(nia)) as He. cbv zeta in He. fold (div (of_int M) (of_int big)) in He. fold q in He.
    rewrite EM, Eb in He. set (k := (den (of_int M) * den (of_int big))%Z) in *. assert (0 < k)%Z by (subst k; nia).
    replace (num q * (den (of_int M) * (big * den (of_int big))) - M * den (of_int M) * den (of_int big) * den q)%Z
      with ((num q * big - M * den q) * k)%Z in He by (subst k; ring).
    replace (M * den (of_int M) * den (of_int big) * den q)%Z with (M * den q * k)%Z in He by (subst k; ring).
    rewrite Z.abs_mul, (Z.abs_eq k) in He by lia. nia. }
  assert (Hqpos : (0 < num q)%Z) by (apply to_f32_pos; nia). pose proof (den_pos q) as Dq.
  assert (Hp : (Z.abs (num p * den q - num q * small * den p) * 2 ^ 24 ≤ num q * small * den p)%Z).
  { pose proof (to_f32_error (num q * num (of_int small)) (den q * den (of_int small)) ltac:(nia) ltac:(nia)) as He.
    cbv zeta in He. fold (mul q (of_int small)) in He. fold p in He. rewrite Es in He.
    set (k := den (of_int small)) in *.
    replace (num p * (den q * k) - num q * (small * k) * den p)%Z with ((num p * den q - num q * small * den p) * k)%Z in He by ring.
    replace (num q * (small * k) * den p)%Z with (num q * small * den p * k)%Z in He by ring.
    rewrite Z.abs_mul, (Z.abs_eq k) in He by lia. nia. }
  pose proof (den_pos p) as Dp. set (a := num q) in *. set (b := den q) in *. set (c := num p) in *. set (d := den p) in *.
  clearbody a b c d. clear EM Eb Es DM Db Ds q p.
  assert (Hlow : ((2 ^ 24 - 1) * M * b ≤ a * big * 2 ^ 24)%Z) by lia.
  assert (Hup : (a * big * 2 ^ 24 ≤ (2 ^ 24 + 1) * M * b)%Z) by lia.
  assert (Hlow' : ((2 ^ 24 - 1) * (a * small * d) ≤ c * b * 2 ^ 24)%Z) by lia.
  assert (Hup' : (c * b * 2 ^ 24 ≤ (2 ^ 24 + 1) * (a * small * d))%Z) by lia.
  clear Hq Hp. split; apply (Zmult_le_reg_r _ _ b); [lia| |lia|].
  - assert ((2 ^ 24 - 1) * M * b * ((2 ^ 24 - 1) * (small * d)) ≤ a * big * 2 ^ 24 * ((2 ^ 24 - 1) * (small * d)))%Z as H1
      by (apply Z.mul_le_mono_nonneg_r; nia).
    assert ((2 ^ 24 - 1) * (a * small * d) * (big * 2 ^ 24) ≤ c * b * 2 ^ 24 * (big * 2 ^ 24))%Z as H2
      by (apply Z.mul_le_mono_nonneg_r; lia). lia.
  - assert (a * big * 2 ^ 24 * ((2 ^ 24 + 1) * (small * d)) ≤ (2 ^ 24 + 1) * M * b * ((2 ^ 24 + 1) * (small * d)))%Z as H1
      by (apply Z.mul_le_mono_nonneg_r; nia).
    assert (c * b * 2 ^ 24 * (big * 2 ^ 24) ≤ (2 ^ 24 + 1) * (a * small * d) * (big * 2 ^ 24))%Z as H2
      by (apply Z.mul_le_mono_nonneg_r; lia). lia.
Qed.

Lemma scaled_side (M big small : Z) :
  (0 < M < 2 ^ 22)%Z → (0 < small ≤ big)%Z → (big < 2 ^ 24)%Z →
  let side := to_int (mul (div (of_int M) (of_int big)) (of_int small)) in
  (0 ≤ side ≤ M)%Z ∧ ((side - 1) * big < small * M < (side + 2) * big)%Z.
Proof.
  intros HM Hs Hb side. pose proof (scaled_side_error M big small ltac:(lia) ltac:(lia) ltac:(lia)) as He.
  unfold side, to_int. set (p := mul _ _) in *. pose proof (den_pos p) as Dp.
  pose proof (Z.div_mod (num p) (den p) ltac:(lia)) as Hdiv. pose proof (Z.mod_pos_bound (num p) (den p) Dp) as Hmod.
  cbv zeta in He. set (c := num p) in *. set (d := den p) in *. set (q := (c / d)%Z) in *. set (r := (c mod d)%Z) in *.
  clearbody c d q r. clear p side. destruct He as [Hlow Hup].
  assert (small * M ≤ big * M)%Z as Hsm by nia.
  set (sm := (small * M)%Z) in *. clearbody sm.
  assert (big * M < big * 2 ^ 22)%Z as Hbm by nia.
  assert (q * big * 2 ^ 48 ≤ (2 ^ 24 + 1) ^ 2 * sm)%Z as Hu.
  { apply (Zmult_le_reg_r _ _ d); [lia|]. assert (d * q * (big * 2 ^ 48) ≤ c * (big * 2 ^ 48))%Z
      by (apply Z.mul_le_mono_nonneg_r; lia). lia. }
  assert ((2 ^ 24 - 1) ^ 2 * sm < (q + 1) * big * 2 ^ 48)%Z as Hl.
  { apply (Zmult_lt_reg_r _ _ d); [lia|]. assert (c * (big * 2 ^ 48) < d * (q + 1) * (big * 2 ^ 48))%Z
      by (apply Z.mul_lt_mono_pos_r; lia). lia. }
  assert (0 ≤ c)%Z as Hc. { apply (Zmult_le_reg_r _ _ (big * 2 ^ 48)); [lia|]. assert (0 ≤ sm * d)%Z by nia. lia. }
  assert (0 ≤ q)%Z as Hq by nia. split; [split; [done|]|split; lia].
  apply Z.lt_succ_r, (Zmult_lt_reg_r _ _ (big * 2 ^ 48)); lia.
Qed.

(** What a picture that fits into a square of [M] is like. *)
Record fits (M width height w h : Z) : Prop := {
  fits_width : (0 ≤ w ≤ M)%Z;
  fits_height : (0 ≤ h ≤ M)%Z;
  fits_one : w = M ∨ h = M;
  fits_ratio : ((Z.min w h - 1) * Z.max width height < Z.min width height * M
                < (Z.min w h + 2) * Z.max width height)%Z
}.

Lemma scaled_size_fits M width height :
  (0 < M < 2 ^ 22)%Z → (0 < width < 2 ^ 24)%Z → (0 < height < 2 ^ 24)%Z →
  let '(w, h, _) := scaled_size M M width height in fits M width height w h.
Proof.
  intros HM Hw Hh. unfold scaled_size. rewrite (proj2 (Z.eqb_neq M 0)) by lia. cbn [orb].
  destruct (Z.ltb_spec height width).
  - destruct (scaled_side M width height) as [Hs Hr]; [lia..|].
    split; [lia|done|by left|]. by rewrite Z.min_r, Z.max_l, (Z.min_r width) by lia.
  - destruct (scaled_side M height width) as [Hs Hr]; [lia..|].
    split; [done|lia|by right|]. by rewrite Z.min_l, Z.max_r, (Z.min_l width) by lia.
Qed.

Section ClientScreenshot.
Context {surface : Type} (surface_width surface_height : surface → Z).
Context (write_to_png : surface → f32 → Z → Z → option (list Z)).
Context {G : Type} (guac_join : guac_client (G := G) → list G) (draw : list G → option surface).

(** C24: the picture of a machine.  There is none unless the Guacamole client
    runs and the display has a surface.  Otherwise the surface, of any size
    that a display can have, is drawn into a picture of at most 400 by 400
    pixels, one side of which is exactly 400; the other keeps the ratio up to
    two pixels, in spite of the rounding of single precision. *)
Theorem screenshot_fits c :
  let picture := client_screenshot surface_width surface_height write_to_png guac_join draw c in
  match guac_state_ c, draw (guac_join c) with
  | kRunning, Some s =>
      (0 < surface_width s < 2 ^ 24)%Z → (0 < surface_height s < 2 ^ 24)%Z →
      ∃ w h scale, picture = write_to_png s scale w h ∧ fits 400 (surface_width s) (surface_height s) w h
  | _, _ => picture = None
  end.
Proof.
  cbv zeta. unfold client_screenshot, GuacamoleClient.CreateScreenshot, GuacAddUser.
  destruct (guac_state_ c); try by rewrite !decide_False by done.
  rewrite !decide_True by done. unfold CreateScreenshot. destruct (draw (guac_join c)) as [s|]; [|done].
  intros Hw Hh. pose proof (scaled_size_fits 400 _ _ ltac:(lia) Hw Hh) as Hf. cbn [mbind option_bind].
  destruct (scaled_size _ _ _ _) as [[w h] scale]. by exists w, h, scale.
Qed.
End ClientScreenshot.

Module ScreenshotDemo.
Definition png (s : Z * Z) (scale : f32) (w h : Z) : option (list Z) := Some [w; h].
Definition running : guac_client (G := unit) := with_state kRunning guac_new.

Lemma screenshot_fits_witness :
  ∃ w h scale, client_screenshot fst snd png (λ _, []) (λ _, Some (1024, 768)%Z) running = png (1024, 768)%Z scale w h ∧
    fits 400 1024 768 w h.
Proof. exact (screenshot_fits fst snd png (λ _, []) (λ _, Some (1024, 768)%Z) running ltac:(done) ltac:(done)). Defined.
End ScreenshotDemo.
