(* ===== verification/AdminVm.v ===== *)
(** * A virtual machine (src/AdminVirtualMachine.hpp)

    [VmState] derives from the turn controller, the vote controller, the user
    channel and the recording controller, and owns the Guacamole client.  Here
    it is a pair: the channel, and a record [vm_base] with everything else,
    which implements the interface [ChannelBase].  Every handler that the class
    dispatches to its strand is one definition; it returns the new state and
    the effects in the order in which the code performs them.  [None] stands
    for undefined behaviour or an exception; [vm_never_stuck] names every
    operation and state that leads to it.  The turn positions of the
    machine's users are part of its state: what happens when a user's position
    is overwritten by another machine's queue is shown in TurnController. *)

From S2P Require Import Prelude Timer TurnController VoteController ChatRoom Settings.
From S2P Require Import Messages UserChannel Recording GuacamoleClient.
From Stdlib Require Import String.

Section VirtualMachine.
Context {T : Type → Type} `{SteadyTimer T}.
Context {U : Type} `{Countable U}.
Context {G V C : Type} `{GuacSchema G, VmSchema V, GuacClientSchema C G}.
Abbreviation S := (setting V).
Abbreviation msg := (server_message G S).
Abbreviation act := (action U msg).
Context (vote_limit : Z).
Context (message_size : msg → Z) (header_size : Z → Z) (to_string : Z → string).
Context (arg_names : Protocol → list string) (init_succeeds : Protocol → bool).
(** What libguac's join handler writes, and the picture of the screen. *)
Context (guac_join : guac_client (G := G) → list G).
Context (screenshot : guac_client (G := G) → option (list Z)).

Record vm_base := VmBase {
  vm_turns : turn_controller T U;
  vm_votes : vote_controller T;
  vm_recording : recording (T := T) (G := G) (S := S);
  vm_guac : guac_client (G := G);
  active_ : bool;
  connected_ : bool;
  connect_delay_timer_ : T unit;
  viewer_count_ : Z;
  settings_ : list S
}.
Implicit Types (b : vm_base) (ch : user_channel U) (env : rec_env) (u : U).

Definition vm_state : Type := user_channel U * vm_base.
Implicit Types vm : vm_state.

Inductive vm_event :=
| Act (a : act)
| ExecuteCommandAsync (command : string)
| UpdateVmInfo
| GuacStarted (p : Protocol)
| GuacEvent (ev : guac_event G)
| GuacInput (instr : C)
| RecordingEvent (ev : recording_event)
| DbUpdateVmSettings (vm_id : Z) (modified : list S).

Definition with_turns (t : turn_controller T U) b : vm_base :=
  VmBase t (vm_votes b) (vm_recording b) (vm_guac b) (active_ b) (connected_ b)
    (connect_delay_timer_ b) (viewer_count_ b) (settings_ b).
Definition with_votes (v : vote_controller T) b : vm_base :=
  VmBase (vm_turns b) v (vm_recording b) (vm_guac b) (active_ b) (connected_ b)
    (connect_delay_timer_ b) (viewer_count_ b) (settings_ b).
Definition with_recording (r : recording) b : vm_base :=
  VmBase (vm_turns b) (vm_votes b) r (vm_guac b) (active_ b) (connected_ b)
    (connect_delay_timer_ b) (viewer_count_ b) (settings_ b).
Definition with_guac (g : guac_client) b : vm_base :=
  VmBase (vm_turns b) (vm_votes b) (vm_recording b) g (active_ b) (connected_ b)
    (connect_delay_timer_ b) (viewer_count_ b) (settings_ b).
Definition with_active (a : bool) b : vm_base :=
  VmBase (vm_turns b) (vm_votes b) (vm_recording b) (vm_guac b) a (connected_ b)
    (connect_delay_timer_ b) (viewer_count_ b) (settings_ b).
Definition with_connected (c : bool) b : vm_base :=
  VmBase (vm_turns b) (vm_votes b) (vm_recording b) (vm_guac b) (active_ b) c
    (connect_delay_timer_ b) (viewer_count_ b) (settings_ b).
Definition with_delay_timer (t : T unit) b : vm_base :=
  VmBase (vm_turns b) (vm_votes b) (vm_recording b) (vm_guac b) (active_ b) (connected_ b)
    t (viewer_count_ b) (settings_ b).
Definition with_viewer_count (n : Z) b : vm_base :=
  VmBase (vm_turns b) (vm_votes b) (vm_recording b) (vm_guac b) (active_ b) (connected_ b)
    (connect_delay_timer_ b) n (settings_ b).
Definition with_vm_settings (s : list S) b : vm_base :=
  VmBase (vm_turns b) (vm_votes b) (vm_recording b) (vm_guac b) (active_ b) (connected_ b)
    (connect_delay_timer_ b) (viewer_count_ b) s.

Definition setting_of (w : nat) b : V := GetSetting (settings_ b) w.

Definition VotesEnabled b : bool := getVotesEnabled (setting_of VOTES_ENABLED b).
Definition vote_settings b : vote_base :=
  VoteBase (VotesEnabled b) (from_s (getVoteTime (setting_of VOTE_TIME b)))
    (from_s (getVoteCooldownTime (setting_of VOTE_COOLDOWN_TIME b))).

(** ** Messages *)

Definition SetAdminVmInfo vm : AdminVmInfo :=
  MkAdminVmInfo (ChannelId vm.1) (getName (setting_of NAME vm.2))
    (if connected_ vm.2 then VM_RUNNING else if active_ vm.2 then VM_STARTING else VM_STOPPED).

Definition GetVmDescriptionMessage b : msg :=
  MVmDescription (getDescription (setting_of DESCRIPTION b)).

(** [initUsers] reserves a name for every queued user; those who are not in
    the channel leave theirs empty at the end. *)
Definition GetTurnQueueMessage (now : Z) ch b : msg :=
  let users_queue := GetTurnQueue (vm_turns b) in
  let found := omap (λ u, username <$> users_ ch !! u) users_queue in
  let state :=
    if getTurnsEnabled (setting_of TURNS_ENABLED b)
    then if IsPaused (vm_turns b) then TURNS_PAUSED else TURNS_ENABLED_
    else TURNS_DISABLED in
  MVmTurnInfo state (GetTimeRemaining now (vm_turns b))
    (found ++ replicate (List.length users_queue - List.length found) EmptyString).

Definition GetVoteStatus (now : Z) b : msg :=
  let no_guests := getDisallowGuestVotes (setting_of DISALLOW_GUEST_VOTES b) in
  let status :=
    if negb (VotesEnabled b) then VOTE_DISABLED
    else if IsCoolingDown (vm_votes b) then VOTE_COOLING_DOWN
    else
      let time_remaining := VoteTimeRemaining now (vm_votes b) in
      if Z.eqb time_remaining 0 then VOTE_IDLE no_guests
      else VOTE_IN_PROGRESS time_remaining (GetYesVoteCount (vm_votes b))
             (GetNoVoteCount (vm_votes b)) no_guests in
  MVoteStatus status.

Definition WriteChannelJoinMessages (now : Z) ch b : list msg :=
  [GetVmDescriptionMessage b; GetTurnQueueMessage now ch b; GetVoteStatus now b]
  ++ (MGuacInstr <$> GuacAddUser (guac_join (vm_guac b)) (vm_guac b)).

(** [ForEachUser] with a generic callback: the recording user, then the
    sockets. *)
Definition SendToAll (m : msg) ch : list act :=
  Record_ m :: ForEachSocket (λ u _, [Queue u m]) ch.

(** One turn-queue message per callback of the turn controller. *)
Definition BroadcastTurnQueue (now : Z) (evs : list (turn_event U)) ch b : list act :=
  evs ≫= λ _, SendToAll (GetTurnQueueMessage now ch b) ch.

Definition set_vote_data u (d : UserVoteData) ch : user_channel U :=
  UserChannel.with_users (alter (with_vote_data d) u (users_ ch)) ch.

Definition OnRemoveUser (now : Z) u ch b : option (user_channel U * vm_base * list act) :=
  '(_, t, evs) ← TurnController.RemoveUser now u (vm_turns b);
  let b := with_turns t b in
  let acts := BroadcastTurnQueue now evs ch b in
  match GetUserData u ch with
  | None => Some (ch, b, acts)
  | Some user_data =>
      let '(votes_changed, d, v) := RemoveVote (vote_data user_data) (vm_votes b) in
      let ch := set_vote_data u d ch in
      let b := with_votes v b in
      Some (ch, b, acts ++ if votes_changed : bool then SendToAll (GetVoteStatus now b) ch else [])
  end.

#[export] Instance vm_channel_base : ChannelBase (U := U) (G := G) (S := S) vm_base := {
  join_messages := WriteChannelJoinMessages;
  on_remove_user := OnRemoveUser;
  has_recording := true
}.

(** ** Performing actions

    What is addressed to the recording user is written into the recording;
    the rest is an effect. *)
Definition recorded (acts : list act) : list msg :=
  omap (λ a, match a with Record_ m => Some m | _ => None end) acts.
Definition effects (acts : list act) : list vm_event :=
  omap (λ a, match a with Record_ _ => None | _ => Some (Act a) end) acts.

Definition perform env (acts : list act) vm : vm_state * list vm_event :=
  ((vm.1, with_recording (WriteMessages env (recorded acts) (vm_recording vm.2)) vm.2), effects acts).

Definition OnKeyframeMessages env vm : list msg :=
  [CreateAdminUserListMessage vm.1;
   MConnectSuccess (default [] (GetChatHistory (chat_room_ vm.1))) EmptyString false]
  ++ WriteChannelJoinMessages (steady_now env) vm.1 vm.2.

(** Running an operation of the recording controller. *)
Definition with_recorder env (f : list msg → recording → recording * list recording_event) vm
    : vm_state * list vm_event :=
  let '(r, evs) := f (OnKeyframeMessages env vm) (vm_recording vm.2) in
  ((vm.1, with_recording r vm.2), RecordingEvent <$> evs).

Definition StartRecording env vm := with_recorder env (Start to_string env) vm.
Definition StopRecording env vm :=
  with_recorder env (λ _ r, let '(_, r, evs) := Recording.Stop env r in (r, evs)) vm.

(** ** Joining and leaving the channel *)

(** The server joins, leaves, renames, posts to and empties the channel of a
    machine with callbacks of this kind. *)
Definition GetUserChannel env (callback : channel_fn U G S) vm : option (vm_state * list vm_event) :=
  '(ch, b, acts) ← callback _ vm_channel_base vm.1 vm.2;
  Some (perform env acts (ch, b)).

Definition VmAddUser env (d : UserData) u (captcha_required : bool) vm : option (vm_state * list vm_event) :=
  GetUserChannel env (join_channel (steady_now env) u d captcha_required) vm.

Definition VmRemoveUser env u vm : option (vm_state * list vm_event) :=
  GetUserChannel env (remove_user (steady_now env) u) vm.

(** ** Turns *)

Definition TurnsEnabled b : bool := getTurnsEnabled (setting_of TURNS_ENABLED b).

Definition turn_result env (r : turn_controller T U * list (turn_event U)) vm
    : vm_state * list vm_event :=
  let b := with_turns r.1 vm.2 in
  perform env (BroadcastTurnQueue (steady_now env) r.2 vm.1 b) (vm.1, b).

Definition VmRequestTurn env u vm : vm_state * list vm_event :=
  if TurnsEnabled vm.2
  then let '(_, t, evs) := RequestTurn (steady_now env) u (vm_turns vm.2) in turn_result env (t, evs) vm
  else (vm, []).

Definition VmPauseTurnTimer env vm : vm_state * list vm_event :=
  if TurnsEnabled vm.2
  then turn_result env (PauseTurnTimer (steady_now env) (vm_turns vm.2)) vm else (vm, []).

Definition VmResumeTurnTimer env vm : vm_state * list vm_event :=
  if TurnsEnabled vm.2
  then turn_result env (ResumeTurnTimer (steady_now env) (vm_turns vm.2)) vm else (vm, []).

Definition HasCurrentTurn u vm : bool := bool_decide (GetCurrentUser (vm_turns vm.2) = Some u).

Definition VmIsAdmin u vm : bool :=
  match GetUserData u vm.1 with Some d => UserChannel.IsAdmin d | None => false end.

Definition VmEndCurrentTurn env u vm : option (vm_state * list vm_event) :=
  if TurnsEnabled vm.2 && (HasCurrentTurn u vm || VmIsAdmin u vm)
  then r ← EndCurrentTurn (vm_turns vm.2); Some (turn_result env r vm)
  else Some (vm, []).

(** The completion handler of [turn_timer_]. *)
Definition VmRunTurnHandler env vm : option (vm_state * list vm_event) :=
  r ← RunTurnHandler (steady_now env) (vm_turns vm.2); Some (turn_result env r vm).

(** ** Votes *)

Definition VmRestart vm : vm_state * list vm_event :=
  if negb (active_ vm.2) then (vm, [])
  else
    let restart_command := getRestartCommand (setting_of RESTART_COMMAND vm.2) in
    (vm, if String.eqb restart_command EmptyString then [] else [ExecuteCommandAsync restart_command]).

Definition clear_voted ch : gmap (list Z) ChannelIPData :=
  foldr (λ p ips, alter (λ d, MkChannelIPData false (reference_count_ d)) (ip_address p.2) ips)
    (ip_data_ ch) (members ch).

Definition OnVoteEnd env (vote_passed : bool) vm : vm_state * list vm_event :=
  if negb (active_ vm.2) || negb (VotesEnabled vm.2) then (vm, [])
  else
    let '(vm, restart) := if vote_passed then VmRestart vm else (vm, []) in
    let ch := vm.1 in
    let ch' := with_ip_data (clear_voted ch)
      (UserChannel.with_users (with_vote_data no_vote_data <$> users_ ch) ch) in
    let '(vm, evs) := perform env (SendToAll (MVoteResult vote_passed) ch') (ch', vm.2) in
    (vm, restart ++ evs).

Definition OnVoteIdle env vm : vm_state * list vm_event :=
  if active_ vm.2 && VotesEnabled vm.2
  then perform env (SendToAll (GetVoteStatus (steady_now env) vm.2) vm.1) vm
  else (vm, []).

Definition OnVoteEvent env (ev : vote_event) vm : vm_state * list vm_event :=
  match ev with
  | VoteController.OnVoteStart => (vm, [])
  | VoteController.OnVoteIdle => OnVoteIdle env vm
  | VoteController.OnVoteEnd passed => OnVoteEnd env passed vm
  end.

Fixpoint OnVoteEvents env (evs : list vote_event) vm : vm_state * list vm_event :=
  match evs with
  | [] => (vm, [])
  | ev :: evs =>
      let '(vm, e1) := OnVoteEvent env ev vm in
      let '(vm, e2) := OnVoteEvents env evs vm in
      (vm, e1 ++ e2)
  end.

(** A completion handler of [vote_timer_]. *)
Definition VmRunVoteHandler env vm : vm_state * list vm_event :=
  let '(v, evs) := RunVoteHandler (vote_settings vm.2) (steady_now env) (vm_votes vm.2) in
  OnVoteEvents env evs (vm.1, with_votes v vm.2).

(** [None] when the IP data that the user's record refers to is gone. *)
Definition Vote env u (voted_yes : bool) vm : option (vm_state * list vm_event) :=
  match GetUserData u vm.1 with
  | None => Some (vm, [])
  | Some user_data =>
      if getDisallowGuestVotes (setting_of DISALLOW_GUEST_VOTES vm.2)
         && negb (IsRegistered user_data) then Some (vm, [])
      else
        ip_data ← ip_data_ vm.1 !! ip_address user_data;
        if voted ip_data then Some (vm, [])
        else
          let '(vote_counted, d, v, _) :=
            AddVote vote_limit (vote_settings vm.2) (steady_now env) (vote_data user_data)
              voted_yes (vm_votes vm.2) in
          let ch := set_vote_data u d vm.1 in
          let b := with_votes v vm.2 in
          if vote_counted : bool then
            let ch := with_ip_data (<[ip_address user_data :=
              MkChannelIPData true (reference_count_ ip_data)]> (ip_data_ ch)) ch in
            Some (perform env (SendToAll (GetVoteStatus (steady_now env) b) ch) (ch, b))
          else Some ((ch, b), [])
  end.

Definition CancelVote vm : vm_state := (vm.1, with_votes (StopVote (vm_votes vm.2)) vm.2).

(** ** Guacamole *)

Definition SetGuacamoleArguments b : vm_base :=
  let params := getGuacamoleParameters (setting_of GUACAMOLE_PARAMETERS b) in
  with_guac (SetArguments arg_names (list_to_map params) (vm_guac b)) b.

Definition StartGuacamoleClient b : option (vm_base * list vm_event) :=
  let protocol := getProtocol (setting_of PROTOCOL b) in
  g ← GuacStart arg_names init_succeeds protocol (vm_guac b);
  Some (with_guac g b, [GuacStarted protocol]).

Definition StopGuacamoleClient b : vm_base * list vm_event :=
  let '(g, evs) := GuacStop (vm_guac b) in (with_guac g b, GuacEvent <$> evs).

(** Every user gets the whole batch. *)
Definition VmOnGuacamoleInstructions env (instructions : list G) vm : vm_state * list vm_event :=
  perform env ((Record_ <$> (MGuacInstr <$> instructions)) ++
    ForEachSocket (λ u _, Queue u <$> (MGuacInstr <$> instructions)) vm.1) vm.

Definition ReadInstruction env u (instr : C) vm : vm_state * list vm_event :=
  if connected_ vm.2 && ((HasCurrentTurn u vm && negb (IsPaused (vm_turns vm.2))) || VmIsAdmin u vm)
  then
    let inputs := GuacInput <$> GuacReadInstruction instr (vm_guac vm.2) in
    ((vm.1, with_recording (WriteInput env instr (vm_recording vm.2)) vm.2), inputs)
  else (vm, []).

(** ** Starting and stopping *)

Definition VmStart env vm : option (vm_state * list vm_event) :=
  if active_ vm.2 then Some (vm, [])
  else
    let '(vm, recording_evs) :=
      if getRecordingsEnabled (setting_of RECORDINGS_ENABLED vm.2)
      then StartRecording env vm else (vm, []) in
    let start_command := getStartCommand (setting_of START_COMMAND vm.2) in
    let command :=
      if String.eqb start_command EmptyString then [] else [ExecuteCommandAsync start_command] in
    let b := SetGuacamoleArguments (with_active true vm.2) in
    '(b, guac_evs) ← StartGuacamoleClient b;
    Some ((vm.1, b), recording_evs ++ command ++ [UpdateVmInfo] ++ guac_evs).

Definition VmStop env vm : vm_state * list vm_event :=
  let '(vm, recording_evs) := StopRecording env vm in
  if negb (active_ vm.2) then (vm, recording_evs)
  else
    let stop_command := getStopCommand (setting_of STOP_COMMAND vm.2) in
    let command :=
      if String.eqb stop_command EmptyString then [] else [ExecuteCommandAsync stop_command] in
    let b := with_active false vm.2 in
    let b := with_delay_timer (cancel (connect_delay_timer_ b)) b in
    let '(b, guac_evs) := StopGuacamoleClient b in
    ((vm.1, b), recording_evs ++ command ++ guac_evs).

(** The client's first image has been drawn.  Every user's queue is handed a
    function that refers to the local vector of messages.  A queue whose
    strand another thread is in ([busy]) runs it later, when the vector is
    gone. *)
Definition OnStart env (busy : U → bool) vm : option (vm_state * list vm_event) :=
  if negb (active_ vm.2)
  then let '(b, evs) := StopGuacamoleClient vm.2 in Some ((vm.1, b), evs)
  else if existsb (λ p, busy p.1) (members vm.1) then None
  else
    let vm := (vm.1, with_connected true vm.2) in
    let messages := GuacAddUser (guac_join (vm_guac vm.2)) (vm_guac vm.2) in
    let '(vm, evs) := VmOnGuacamoleInstructions env messages vm in
    Some (vm, UpdateVmInfo :: evs).

(** The client's thread has ended. *)
Definition OnStop env vm : vm_state * list vm_event :=
  let b := with_guac (ReleaseClient (vm_guac vm.2)) vm.2 in
  let '(b, evs) :=
    if connected_ b || negb (active_ b) then (with_connected false b, [UpdateVmInfo]) else (b, []) in
  if negb (active_ b) then ((vm.1, b), evs)
  else
    let t := async_wait tt
      (expires_after (steady_now env) (from_s 1) (connect_delay_timer_ b)) in
    ((vm.1, with_delay_timer t b), evs).

(** The completion handler of [connect_delay_timer_]. *)
Definition OnConnectDelay (ec : error_code) vm : option (vm_state * list vm_event) :=
  if ec_is_error ec || negb (active_ vm.2) then Some (vm, [UpdateVmInfo])
  else
    let start_command := getStartCommand (setting_of START_COMMAND vm.2) in
    let command :=
      if negb (String.eqb start_command EmptyString)
         && getRunStartCommandAfterDisconnect (setting_of RUN_START_COMMAND_AFTER_DISCONNECT vm.2)
      then [ExecuteCommandAsync start_command] else [] in
    '(b, guac_evs) ← StartGuacamoleClient vm.2;
    Some ((vm.1, b), command ++ guac_evs).

Definition RunConnectDelayHandler vm : option (vm_state * list vm_event) :=
  match posted (connect_delay_timer_ vm.2) with
  | [] => Some (vm, [])
  | (_, ec) :: _ =>
      OnConnectDelay ec (vm.1, with_delay_timer (run_next (connect_delay_timer_ vm.2)) vm.2)
  end.

(** ** Settings *)

Definition close_guests ch : list act :=
  ForEachSocket (λ u d, if negb (IsRegistered d) then [CloseSocket u] else []) ch.

(** Performing one step of [ApplySettings] after the others. *)
Definition and_then (p : vm_state * list vm_event) (f : vm_state → vm_state * list vm_event)
    : vm_state * list vm_event :=
  let '(vm, evs') := f p.1 in (vm, p.2 ++ evs').

Definition ApplyTurnSettings env (settings previous : list S) vm : vm_state * list vm_event :=
  let t := SetTurnTime (from_s (getTurnTime (GetSetting settings TURN_TIME))) (vm_turns vm.2) in
  let vm := (vm.1, with_turns t vm.2) in
  if negb (getTurnsEnabled (GetSetting settings TURNS_ENABLED))
     && getTurnsEnabled (GetSetting previous TURNS_ENABLED)
  then turn_result env (Clear t) vm else (vm, []).

Definition ApplyVoteSettings env (settings previous : list S) vm : vm_state * list vm_event :=
  let votes_enabled := getVotesEnabled (GetSetting settings VOTES_ENABLED) in
  if Bool.eqb votes_enabled (getVotesEnabled (GetSetting previous VOTES_ENABLED)) then (vm, [])
  else
    let vm := if votes_enabled then vm else CancelVote vm in
    perform env (SendToAll (GetVoteStatus (steady_now env) vm.2) vm.1) vm.

Definition ApplyDescription env (settings previous : list S) vm : vm_state * list vm_event :=
  if String.eqb (getDescription (GetSetting previous DESCRIPTION))
       (getDescription (GetSetting settings DESCRIPTION)) then (vm, [])
  else perform env (SendToAll (GetVmDescriptionMessage vm.2) vm.1) vm.

Definition ApplyDisallowGuests env (settings previous : list S) vm : vm_state * list vm_event :=
  if getDisallowGuests (GetSetting settings DISALLOW_GUESTS)
     && negb (getDisallowGuests (GetSetting previous DISALLOW_GUESTS))
  then perform env (close_guests vm.1) vm else (vm, []).

Definition ApplyRecordings env (settings previous : list S) vm : vm_state * list vm_event :=
  let recordings_enabled := getRecordingsEnabled (GetSetting settings RECORDINGS_ENABLED) in
  if active_ vm.2
     && negb (Bool.eqb recordings_enabled (getRecordingsEnabled (GetSetting previous RECORDINGS_ENABLED)))
  then if recordings_enabled then StartRecording env vm else StopRecording env vm
  else (vm, []).

Definition ApplySettings env (settings previous : list S) vm : vm_state * list vm_event :=
  let r := ApplyTurnSettings env settings previous vm in
  let r := and_then r (ApplyVoteSettings env settings previous) in
  let r := and_then r (ApplyDescription env settings previous) in
  let r := and_then r (ApplyDisallowGuests env settings previous) in
  let r := and_then r (ApplyRecordings env settings previous) in
  and_then r (λ vm, ((vm.1, SetGuacamoleArguments vm.2), [])).

(** The result is what the continuation receives. *)
Definition UpdateSettings env (modified_settings : list S) vm
    : option (bool * vm_state * list vm_event) :=
  let current_settings := settings_ vm.2 in
  new_settings ← UpdateList vm_fields_count current_settings
    (InitSettings vm_clear_value vm_fields_count) modified_settings;
  valid ← ValidateSettings new_settings;
  if valid : bool then
    let update := DbUpdateVmSettings (ChannelId vm.1) modified_settings in
    let '(vm, evs) := ApplySettings env new_settings current_settings
                        (vm.1, with_vm_settings new_settings vm.2) in
    Some (true, vm, update :: evs)
  else Some (false, vm, []).

Definition VmSetRecordingSettings env (s : recording_settings) vm : vm_state * list vm_event :=
  let r := with_recorder env (λ kms r, SetRecordingSettings to_string env kms s r) vm in
  and_then r (λ vm,
    if active_ vm.2 && getRecordingsEnabled (setting_of RECORDINGS_ENABLED vm.2)
       && negb (IsRecording (vm_recording vm.2))
    then StartRecording env vm else (vm, [])).

(** ** Reporting *)

(** The administrators' information always, the public information and the
    thumbnail when the machine is active. *)
Definition SetVmInfo vm : vm_state * AdminVmInfo * option VmInfo * option (list Z) :=
  let admin_vm_info := SetAdminVmInfo vm in
  if negb (active_ vm.2) then (vm, admin_vm_info, None, None)
  else
    let b := with_viewer_count (Z.of_nat (size (users_ vm.1))) vm.2 in
    let vm_info := MkVmInfo (ChannelId vm.1) (getName (setting_of NAME b)) EmptyString
      (getOperatingSystem (setting_of OPERATING_SYSTEM b))
      (getUploadsEnabled (setting_of UPLOADS_ENABLED b))
      (getTurnsEnabled (setting_of TURNS_ENABLED b))
      (getRam (setting_of RAM b)) (getDiskSpace (setting_of DISK_SPACE b))
      (getSafeForWork (setting_of SAFE_FOR_WORK b)) (viewer_count_ b) in
    ((vm.1, b), admin_vm_info, Some vm_info, CreateScreenshot (screenshot (vm_guac b)) (vm_guac b)).

(** ** A new machine *)

Definition vm_new (id : Z) (room : chat_room) (initial_settings : list S) : vm_state :=
  let settings := GetInitialSettings vm_fields_count vm_clear_value initial_settings in
  let b := VmBase (turn_new ∅) vote_new (recording_new id) guac_new false false timer_new 0 settings in
  (channel_new room,
   with_turns (SetTurnTime (from_s (getTurnTime (setting_of TURN_TIME b))) (vm_turns b)) b).

(** ** The machine as a state machine: what its strand executes *)

Inductive vm_op :=
| VAddUser (d : UserData) u (captcha_required : bool) | VRemoveUser u
| VUserData u (name : string) (type : UserType) | VClearUsers
| VChatMessage (name : string) (type : UserType) (message : string) (timestamp : Z)
| VVote u (voted_yes : bool) | VCancelVote
| VRequestTurn u | VPauseTurnTimer | VResumeTurnTimer | VEndCurrentTurn u
| VGuacamoleInstructions (l : list G) | VReadInstruction u (instr : C)
| VSetRecordingSettings (s : recording_settings) | VUpdateSettings (modified : list S)
| VStart | VStop | VRestart | VSetVmInfo | VOnStart (busy : U → bool) | VOnStop
| VTurnElapse | VTurnHandler | VVoteElapse | VVoteHandler | VDelayElapse | VDelayHandler
| VStopRecordingHandler | VKeyframeHandler | VGuacOp (op : guac_op (G := G)).

Definition vm_exec env (op : vm_op) vm : option (vm_state * list vm_event) :=
  match op with
  | VAddUser d u captcha_required => VmAddUser env d u captcha_required vm
  | VRemoveUser u => VmRemoveUser env u vm
  | VUserData u name type => GetUserChannel env (update_username u name type) vm
  | VClearUsers => GetUserChannel env clear_users vm
  | VChatMessage name type message timestamp =>
      GetUserChannel env (send_message name type message timestamp) vm
  | VVote u yes => Vote env u yes vm
  | VCancelVote => Some (CancelVote vm, [])
  | VRequestTurn u => Some (VmRequestTurn env u vm)
  | VPauseTurnTimer => Some (VmPauseTurnTimer env vm)
  | VResumeTurnTimer => Some (VmResumeTurnTimer env vm)
  | VEndCurrentTurn u => VmEndCurrentTurn env u vm
  | VGuacamoleInstructions l => Some (VmOnGuacamoleInstructions env l vm)
  | VReadInstruction u i => Some (ReadInstruction env u i vm)
  | VSetRecordingSettings s => Some (VmSetRecordingSettings env s vm)
  | VUpdateSettings m => '(_, vm, evs) ← UpdateSettings env m vm; Some (vm, evs)
  | VStart => VmStart env vm
  | VStop => Some (VmStop env vm)
  | VRestart => Some (VmRestart vm)
  | VSetVmInfo => Some ((SetVmInfo vm).1.1.1, [])
  | VOnStart busy => OnStart env busy vm
  | VOnStop => Some (OnStop env vm)
  | VTurnElapse =>
      Some ((vm.1, with_turns (with_timer (elapse (turn_timer_ (vm_turns vm.2))) (vm_turns vm.2)) vm.2), [])
  | VTurnHandler => VmRunTurnHandler env vm
  | VVoteElapse =>
      Some ((vm.1, with_votes (with_vote_timer (elapse (vote_timer_ (vm_votes vm.2))) (vm_votes vm.2)) vm.2), [])
  | VVoteHandler => Some (VmRunVoteHandler env vm)
  | VDelayElapse => Some ((vm.1, with_delay_timer (elapse (connect_delay_timer_ vm.2)) vm.2), [])
  | VDelayHandler => RunConnectDelayHandler vm
  | VStopRecordingHandler => Some (with_recorder env (RunStopHandler to_string env) vm)
  | VKeyframeHandler =>
      Some (with_recorder env (RunKeyframeHandler message_size header_size to_string env) vm)
  | VGuacOp op =>
      let '(g, evs) := guac_exec arg_names op (vm_guac vm.2) in
      Some ((vm.1, with_guac g vm.2), GuacEvent <$> evs)
  end.

(** What the invariant is about; the recording and the Guacamole client have
    invariants of their own. *)
Definition core b := (vm_turns b, vm_votes b, settings_ b).
Definition status b := (active_ b, connected_ b).

Record vm_wf vm : Prop := {
  vw_channel : channel_ok vm.1;
  vw_turns : turn_inv (vm_turns vm.2);
  vw_votes : vote_inv (vm_votes vm.2);
  vw_settings : settings_wf vm_fields_count (settings_ vm.2)
}.

Lemma vm_wf_core vm vm' :
  vm_wf vm → channel_ok vm'.1 → core vm'.2 = core vm.2 → vm_wf vm'.
Proof. unfold core. intros [] ? [= Ht Hv Hs]. split; by rewrite ?Ht, ?Hv, ?Hs. Qed.

Lemma perform_same env acts vm :
  (perform env acts vm).1.1 = vm.1 ∧ core (perform env acts vm).1.2 = core vm.2 ∧
  status (perform env acts vm).1.2 = status vm.2.
Proof. done. Qed.

Lemma perform_wf env acts vm : vm_wf vm → vm_wf (perform env acts vm).1.
Proof. intros []. by split. Qed.

Lemma with_recorder_same env f vm :
  (with_recorder env f vm).1.1 = vm.1 ∧ core (with_recorder env f vm).1.2 = core vm.2 ∧
  status (with_recorder env f vm).1.2 = status vm.2.
Proof. unfold with_recorder. by destruct (f _ _). Qed.

Lemma with_recorder_wf env f vm : vm_wf vm → vm_wf (with_recorder env f vm).1.
Proof.
  intros Hwf. destruct (with_recorder_same env f vm) as (Hch & Hc & _).
  eapply vm_wf_core; [exact Hwf| |exact Hc]. rewrite Hch. apply Hwf.
Qed.

(** ** The class of the channel *)

Lemma with_vote_data_identity d v : same_identity d (with_vote_data v d).
Proof. by split_and!. Qed.

Lemma same_members_refl ch : same_members ch ch.
Proof. split; try done. intros v. destruct (users_ ch !! v); [by split_and!|done]. Qed.

Lemma set_vote_data_same u d ch : same_members ch (set_vote_data u d ch).
Proof.
  split; try done. intros v. unfold set_vote_data. simpl.
  destruct (decide (v = u)) as [->|Hne].
  - rewrite lookup_alter_eq. destruct (users_ ch !! u); [apply with_vote_data_identity|done].
  - rewrite lookup_alter_ne by done. destruct (users_ ch !! v); [by split_and!|done].
Qed.

Lemma SendToAll_membership m ch a :
  is_membership m = false → In a (SendToAll m ch) → act_membership a = false.
Proof.
  intros Hm [<-|Hin]; [done|]. unfold ForEachSocket in Hin.
  apply list_elem_of_In, list_elem_of_bind in Hin as (p & Hin & _).
  by apply list_elem_of_singleton in Hin as ->.
Qed.

Lemma BroadcastTurnQueue_membership now evs ch b a :
  In a (BroadcastTurnQueue now evs ch b) → act_membership a = false.
Proof.
  unfold BroadcastTurnQueue.
  intros (ev & Hin & _)%list_elem_of_In%list_elem_of_bind.
  eapply SendToAll_membership; [|by apply list_elem_of_In]. done.
Qed.

Context `{!SteadyTimerLaws T}.

#[export] Program Instance vm_channel_laws :
    ChannelBaseLaws (U := U) (G := G) (S := S) vm_base vm_channel_base := {
  base_ok ch b := turn_inv (vm_turns b)
}.
Next Obligation.
  intros now ch b m. simpl. intros [<-|[<-|[<-|Hin]]]; try done.
  by apply List.in_map_iff in Hin as (g & <- & _).
Qed.
Next Obligation.
  intros now u ch b Hok _. simpl. unfold OnRemoveUser.
  destruct (RemoveUser_inv now u _ Hok) as (bb & t & evs & -> & _). simpl.
  destruct (GetUserData u ch) as [d|]; [|by eexists].
  destruct (RemoveVote _ _) as [[bv d'] v]. by eexists.
Qed.
Next Obligation.
  intros now u ch b ch' b' acts. simpl. unfold OnRemoveUser.
  destruct (TurnController.RemoveUser _ _ _) as [[[bb t] evs]|]; [|done]. simpl.
  destruct (GetUserData u ch) as [d|].
  - destruct (RemoveVote _ _) as [[bv d'] v]. intros [= <- <- <-].
    split; [apply set_vote_data_same|]. intros a [Hin|Hin]%List.in_app_iff.
    + by eapply BroadcastTurnQueue_membership.
    + destruct bv; [|done]. eapply SendToAll_membership; [|exact Hin]. done.
  - intros [= <- <- <-]. split; [apply same_members_refl|].
    intros a Hin. by eapply BroadcastTurnQueue_membership.
Qed.

(** ** Every operation preserves the invariant *)

Lemma channel_ok_votes ch ch' :
  (∀ u, option_relation same_identity (λ _, False) (λ _, False) (users_ ch !! u) (users_ ch' !! u)) →
  (∀ ip, reference_count_ <$> ip_data_ ch' !! ip = reference_count_ <$> ip_data_ ch !! ip) →
  channel_ok ch → channel_ok ch'.
Proof.
  intros Hu Hip Hok.
  assert (Hs : same_members ch (UserChannel (users_ ch') (ip_data_ ch) (admins_count_ ch) (chat_room_ ch)))
    by by split.
  apply (same_members_ok _ _ Hs) in Hok. revert Hok. apply channel_ok_mono; intros ip; [done|]. cbn. by rewrite Hip.
Qed.

Lemma clear_voted_counts ch ip :
  reference_count_ <$> clear_voted ch !! ip = reference_count_ <$> ip_data_ ch !! ip.
Proof.
  unfold clear_voted. induction (members ch) as [|p l IH]; simpl; [done|].
  destruct (decide (ip = ip_address p.2)) as [->|Hne].
  - rewrite lookup_alter_eq, <-IH. by destruct (foldr _ _ _ !! _).
  - by rewrite lookup_alter_ne.
Qed.

Lemma set_vote_data_ok u d ch : channel_ok ch → channel_ok (set_vote_data u d ch).
Proof. apply same_members_ok, set_vote_data_same. Qed.

Lemma reset_votes_ok ch :
  channel_ok ch →
  channel_ok (with_ip_data (clear_voted ch)
    (UserChannel.with_users (with_vote_data no_vote_data <$> users_ ch) ch)).
Proof.
  apply channel_ok_votes; simpl; [|apply clear_voted_counts].
  intros u. rewrite lookup_fmap. destruct (users_ ch !! u); [|done]. by split_and!.
Qed.

(** The operations of the turn and the vote controller, on the machine. *)
Lemma turn_result_wf env op t evs vm :
  vm_wf vm → turn_exec (steady_now env) op (vm_turns vm.2) = Some t →
  vm_wf (turn_result env (t, evs) vm).1.
Proof.
  intros [Hch Ht Hv Hs] Hop.
  split; simpl; try done. by eapply turn_exec_some.
Qed.

Lemma vote_result_wf env op vm :
  vm_wf vm → vm_wf (vm.1, with_votes (vote_exec vote_limit (steady_now env) op (vm_votes vm.2)) vm.2).
Proof. intros [Hch Ht Hv Hs]. split; simpl; try done. by apply vote_exec_inv. Qed.

Lemma OnVoteEvents_wf env evs vm : vm_wf vm → vm_wf (OnVoteEvents env evs vm).1.
Proof.
  revert vm. induction evs as [|ev evs IH]; intros vm Hwf; [done|]. cbn [OnVoteEvents].
  assert (Hev : vm_wf (OnVoteEvent env ev vm).1).
  { destruct ev; cbn [OnVoteEvent]; [done| |].
    - unfold OnVoteIdle. case_match; [|done]. by apply perform_wf.
    - unfold OnVoteEnd. case_match; [done|].
      assert (Hre : (if vote_passed then VmRestart vm else (vm, [])).1 = vm)
        by (destruct vote_passed; [unfold VmRestart; by case_match|done]).
      destruct (if vote_passed then _ else _) as [vm0 restart]. simpl in Hre. subst vm0.
      eapply vm_wf_core; [exact Hwf| |done]. simpl. apply reset_votes_ok, Hwf. }
  destruct (OnVoteEvent env ev vm) as [vm1 e1]. simpl in Hev.
  specialize (IH vm1 Hev). by destruct (OnVoteEvents env evs vm1).
Qed.

(** What [ApplySettings] and the like leave alone. *)
Lemma and_then_wf p f : vm_wf p.1 → (∀ vm, vm_wf vm → vm_wf (f vm).1) → vm_wf (and_then p f).1.
Proof. intros Hp Hf. unfold and_then. specialize (Hf p.1 Hp). by destruct (f p.1). Qed.

Lemma ApplySettings_wf env settings previous vm : vm_wf vm → vm_wf (ApplySettings env settings previous vm).1.
Proof.
  intros Hwf. unfold ApplySettings.
  repeat match goal with |- vm_wf (and_then _ _).1 => apply and_then_wf; [|intros vm1 Hwf1] end.
  - unfold ApplyTurnSettings.
    set (t := SetTurnTime _ _).
    assert (Ht : vm_wf (vm.1, with_turns t vm.2)).
    { exact (turn_result_wf env (op_SetTurnTime _) t [] vm Hwf eq_refl). }
    case_match; [|done].
    pose proof (turn_result_wf env op_Clear (Clear t).1 (Clear t).2 _ Ht eq_refl) as Hr.
    by rewrite <-surjective_pairing in Hr.
  - unfold ApplyVoteSettings. case_match; [done|].
    apply perform_wf. destruct (getVotesEnabled _); [done|].
    exact (vote_result_wf env op_StopVote vm1 Hwf1).
  - unfold ApplyDescription. case_match; [done|]. by apply perform_wf.
  - unfold ApplyDisallowGuests. case_match; [|done]. by apply perform_wf.
  - unfold ApplyRecordings. case_match; [|done]. case_match; by apply with_recorder_wf.
  - eapply vm_wf_core; [exact Hwf1|apply Hwf1|done].
Qed.

Lemma UpdateSettings_wf env modified vm :
  vm_wf vm → ∃ valid vm' evs, UpdateSettings env modified vm = Some (valid, vm', evs) ∧ vm_wf vm'.
Proof.
  intros Hwf. pose proof (vw_settings _ Hwf) as Hs. unfold UpdateSettings.
  rewrite UpdateList_pick by (done || apply length_replicate). cbn [mbind option_bind].
  pose proof (pick_settings_wf vm_fields_count modified _ Hs) as Hs'.
  destruct (ValidateSettings_wf _ Hs') as [valid ->].
  destruct valid; [cbn [mbind option_bind]|by eexists _, _, _].
  set (vm1 := (vm.1, with_vm_settings _ vm.2)).
  assert (Hwf1 : vm_wf vm1) by (destruct Hwf; split; assumption).
  pose proof (ApplySettings_wf env (pick modified <$> settings_ vm.2) (settings_ vm.2) vm1 Hwf1) as Ha.
  destruct (ApplySettings _ _ _ vm1) as [vm2 evs].
  eexists _, _, _. split; [reflexivity|exact Ha].
Qed.

Lemma Vote_wf env u yes vm :
  vm_wf vm → ∃ vm' evs, Vote env u yes vm = Some (vm', evs) ∧ vm_wf vm'.
Proof.
  intros Hwf. unfold Vote, GetUserData.
  destruct (users_ vm.1 !! u) as [d|] eqn:Hu; [|by eexists _, _].
  case_match; [by eexists _, _|].
  destruct (channel_ok_entry _ u d (vw_channel _ Hwf) Hu) as (x & Hx & _). rewrite Hx. simpl. destruct (voted x); [by eexists _, _|].
  pose proof (vote_result_wf env (op_AddVote (vote_settings vm.2) (vote_data d) yes) vm Hwf) as Hv.
  cbn [vote_exec] in Hv. destruct (AddVote _ _ _ _ _ _) as [[[counted d'] v] evs]. cbn [fst snd] in Hv.
  assert (Hch : channel_ok (set_vote_data u d' vm.1)) by apply set_vote_data_ok, Hwf.
  assert (Hvm : ∀ ch, channel_ok ch → vm_wf (ch, with_votes v vm.2))
    by (intros ch Hc; eapply vm_wf_core; [exact Hv|exact Hc|done]).
  destruct counted; (eexists _, _; split; [done|]); [|by apply Hvm].
  apply perform_wf, Hvm.
  apply (channel_ok_votes (set_vote_data u d' vm.1)); [| |exact Hch]; simpl.
  - intros v'. destruct (alter _ _ _ !! v'); [by split_and!|done].
  - intros ip. destruct (decide (ip = ip_address d)) as [->|Hne].
    + by rewrite lookup_insert_eq, Hx.
    + by rewrite lookup_insert_ne.
Qed.

(** Whether libguac refuses the machine's settings. *)
Definition init_fails b : Prop := init_succeeds (getProtocol (setting_of PROTOCOL b)) = false.

(** An operation whose result is well formed, or that has none because of
    [P]. *)
Definition outcome (P : Prop) (r : option (vm_state * list vm_event)) : Prop :=
  match r with Some p => vm_wf p.1 ∧ ¬ P | None => P end.

Abbreviation total_wf := (outcome False).

Lemma outcome_some (P : Prop) p : ¬ P → vm_wf p.1 → outcome P (Some p).
Proof. done. Qed.

Lemma total_wf_some p : vm_wf p.1 → total_wf (Some p).
Proof. intros Hp. split; [done|by intros []]. Qed.

Lemma total_wf_exists r : (∃ vm' evs, r = Some (vm', evs) ∧ vm_wf vm') → total_wf r.
Proof. intros (vm' & evs & -> & Hwf). by apply total_wf_some. Qed.

Lemma outcome_iff (P Q : Prop) r : (P ↔ Q) → outcome P r → outcome Q r.
Proof. unfold outcome. destruct r; tauto. Qed.

Lemma StartGuacamoleClient_cases b :
  match StartGuacamoleClient b with
  | Some (b', _) => ¬ init_fails b ∧ core b' = core b ∧ status b' = status b
  | None => init_fails b
  end.
Proof.
  unfold StartGuacamoleClient, GuacStart, init_fails.
  destruct (init_succeeds _); simpl; [by split_and!|done].
Qed.

Lemma vm_wf_base vm b : vm_wf vm → core b = core vm.2 → vm_wf (vm.1, b).
Proof. intros Hwf Hb. eapply vm_wf_core; [exact Hwf|apply Hwf|exact Hb]. Qed.

Lemma turn_call_wf env op p vm :
  vm_wf vm → turn_exec (steady_now env) op (vm_turns vm.2) = Some p.1 → vm_wf (turn_result env p vm).1.
Proof. destruct p as [t evs]. apply turn_result_wf. Qed.

Lemma turn_partial_wf env op (r : option (turn_controller T U * list (turn_event U))) vm :
  vm_wf vm → turn_exec (steady_now env) op (vm_turns vm.2) = fst <$> r →
  outcome (ends_turn op (vm_turns vm.2)) (r ← r; Some (turn_result env r vm)).
Proof.
  intros Hwf Hr. destruct (decide (ends_turn op (vm_turns vm.2))) as [He|He].
  - destruct r as [p|]; [|done]. destruct He as [-> Hq]. cbn in Hr.
    rewrite EndCurrentTurn_undefined in Hr by apply Hwf. by destruct (turn_queue_ _).
  - destruct (turn_exec_inv (steady_now env) op _ (vw_turns _ Hwf) He) as (t & Ht & _).
    destruct r as [p|]; [|by rewrite Ht in Hr]. apply outcome_some; [done|]. apply (turn_call_wf env op); [done|].
    by rewrite Hr.
Qed.

(** ** The server's callbacks *)

(** A callback that changes nothing but the channel. *)
Definition leaves_base (callback : channel_fn U G S) : Prop :=
  ∀ ch b ch' b' acts, callback _ vm_channel_base ch b = Some (ch', b', acts) → b' = b.

Lemma join_leaves now u d captcha : leaves_base (join_channel now u d captcha).
Proof.
  intros ch b ch' b' acts. unfold join_channel. destruct (GetChatHistory _); [|done]. cbn [mbind option_bind].
  destruct (AddUser _ _ _ _ _) as [ch1 a1]. by intros [= <- <- <-].
Qed.
Lemma update_username_leaves u name type : leaves_base (update_username u name type).
Proof. intros ch b ch' b' acts. unfold update_username. by destruct (GetUserData u ch); intros [= <- <- <-]. Qed.
Lemma send_message_leaves name type message timestamp : leaves_base (send_message name type message timestamp).
Proof.
  intros ch b ch' b' acts. unfold send_message. destruct (AddUserMessage _ _ _ _ _) as [[room m]|]; [|done].
  by intros [= <- <- <-].
Qed.
Lemma clear_users_leaves : leaves_base clear_users.
Proof. intros ch b ch' b' acts. by intros [= <- <- <-]. Qed.
Hint Resolve join_leaves update_username_leaves send_message_leaves clear_users_leaves : core.

Lemma GetUserChannel_wf env (callback : channel_fn U G S) (P : Prop) vm :
  vm_wf vm → leaves_base callback →
  match callback _ vm_channel_base vm.1 vm.2 with Some (ch, _, _) => channel_ok ch ∧ ¬ P | None => P end →
  outcome P (GetUserChannel env callback vm).
Proof.
  intros Hwf Hb Hc. unfold GetUserChannel.
  destruct (callback _ _ _ _) as [[[ch b] acts]|] eqn:Hx; [|done]. destruct Hc as [Hch Hp].
  apply outcome_some; [done|]. apply perform_wf. rewrite (Hb _ _ _ _ _ Hx). by eapply vm_wf_core.
Qed.

(** What the machine's chat room holds, for slots of the given widths. *)
Definition vm_chat (name_len message_len : nat) vm : Prop :=
  ∃ type log, ChatRoom.refines name_len message_len type log (chat_room_ vm.1).

Lemma VmAddUser_wf env d u captcha name_len message_len vm :
  vm_wf vm → vm_chat name_len message_len vm → total_wf (VmAddUser env d u captcha vm).
Proof.
  intros Hwf (type & log & Hroom). apply GetUserChannel_wf; [done..|]. unfold join_channel.
  rewrite (GetChatHistory_log _ _ _ _ _ Hroom). cbn [mbind option_bind].
  pose proof (AddUser_state (G := G) (S := S) (steady_now env) d u vm.1 vm.2) as Hst.
  destruct (AddUser _ _ _ _ _) as [ch acts]. simpl in Hst. subst ch. split; [|by intros []]. apply added_ok, Hwf.
Qed.

Lemma update_username_wf env u name type vm :
  vm_wf vm → total_wf (GetUserChannel env (update_username u name type) vm).
Proof.
  intros Hwf. apply GetUserChannel_wf; [done..|].
  destruct (update_username_ok (G := G) (S := S) u name type vm.2 vm.1 (vw_channel _ Hwf)) as (ch & acts & -> & Hch).
  split; [exact Hch|by intros []].
Qed.

Lemma send_message_wf env name type message timestamp name_len message_len vm :
  vm_wf vm → vm_chat name_len message_len vm →
  outcome (name_len < String.length name ∨ message_len < String.length message)
    (GetUserChannel env (send_message name type message timestamp) vm).
Proof.
  intros Hwf (dtype & log & Hroom). apply GetUserChannel_wf; [done..|]. unfold send_message.
  pose (e := ChatEntry name type message timestamp).
  change (AddUserMessage name type message timestamp (chat_room_ vm.1)) with
    (AddUserMessage (entry_username e) (entry_user_type e) (entry_message e) (entry_timestamp e) (chat_room_ vm.1)).
  destruct (decide (String.length name ≤ name_len ∧ String.length message ≤ message_len)) as [Hfit|Hfit].
  - destruct (AddUserMessage_refines _ _ _ _ _ e Hroom Hfit) as (room & -> & _).
    cbn [mbind option_bind]. split; [apply Hwf|lia].
  - rewrite (AddUserMessage_too_long _ _ _ _ _ e Hroom Hfit). cbn [mbind option_bind]. lia.
Qed.

(** The part of [RemoveUser] that the machine adds. *)
Lemma OnRemoveUser_invs now u ch b :
  turn_inv (vm_turns b) → vote_inv (vm_votes b) →
  ∃ ch' b' acts, OnRemoveUser now u ch b = Some (ch', b', acts) ∧
    turn_inv (vm_turns b') ∧ vote_inv (vm_votes b') ∧ settings_ b' = settings_ b ∧ status b' = status b.
Proof.
  intros Ht Hv. unfold OnRemoveUser.
  destruct (RemoveUser_inv now u _ Ht) as (bb & t & evs & -> & Hti & _). simpl.
  destruct (GetUserData _ _) as [d|]; [|by eexists _, _, _].
  pose proof (vote_exec_inv vote_limit now (op_RemoveVote (vote_data d)) _ Hv) as Hvi.
  cbn [vote_exec] in Hvi. destruct (RemoveVote _ _) as [[bv d2] v]. by eexists _, _, _.
Qed.

Lemma VmRemoveUser_wf env u vm : vm_wf vm → total_wf (VmRemoveUser env u vm).
Proof.
  intros Hwf. unfold VmRemoveUser, GetUserChannel, remove_user.
  destruct (UserChannel.RemoveUser_ok (G := G) (S := S) (steady_now env) u vm.1 vm.2 (vw_channel _ Hwf))
    as (ch & b & acts & Hr & Hch & _); [intros ch' _; apply Hwf|].
  rewrite Hr. apply total_wf_some, (perform_wf env acts (ch, b)).
  revert Hr. unfold UserChannel.RemoveUser.
  destruct (users_ vm.1 !! u) as [d|]; [|intros [= <- <- <-]; by apply vm_wf_base].
  destruct (release_ip _ _) as [ips|]; [|done]. cbn [mbind option_bind on_remove_user vm_channel_base].
  match goal with |- context [OnRemoveUser ?n ?w ?c ?b0] =>
    destruct (OnRemoveUser_invs n w c b0 (vw_turns _ Hwf) (vw_votes _ Hwf))
      as (ch2 & b2 & acts2 & -> & Ht & Hv & Hs & _) end.
  intros [= <- <- <-]. split; [exact Hch|exact Ht|exact Hv|]. simpl. rewrite Hs. apply Hwf.
Qed.

Lemma VmRequestTurn_wf env u vm : vm_wf vm → vm_wf (VmRequestTurn env u vm).1.
Proof.
  intros Hwf. unfold VmRequestTurn. case_match; [|done].
  pose proof (λ evs, turn_result_wf env (op_RequestTurn u) _ evs vm Hwf eq_refl) as Hr.
  destruct (RequestTurn _ _ _) as [[bb t] evs]. apply Hr.
Qed.

Lemma VmPauseTurnTimer_wf env vm : vm_wf vm → vm_wf (VmPauseTurnTimer env vm).1.
Proof. intros Hwf. unfold VmPauseTurnTimer. case_match; [by apply (turn_call_wf env op_PauseTurnTimer)|done]. Qed.

Lemma VmResumeTurnTimer_wf env vm : vm_wf vm → vm_wf (VmResumeTurnTimer env vm).1.
Proof. intros Hwf. unfold VmResumeTurnTimer. case_match; [by apply (turn_call_wf env op_ResumeTurnTimer)|done]. Qed.

(** The turn of the user in front may be ended, and somebody is there. *)
Definition may_end_turn u vm : Prop :=
  TurnsEnabled vm.2 && (HasCurrentTurn u vm || VmIsAdmin u vm) = true ∧ turn_queue_ (vm_turns vm.2) ≠ [].

Lemma VmEndCurrentTurn_wf env u vm : vm_wf vm → outcome (may_end_turn u vm) (VmEndCurrentTurn env u vm).
Proof.
  intros Hwf. unfold VmEndCurrentTurn, may_end_turn. destruct (TurnsEnabled _ && _).
  - eapply outcome_iff; [|by apply (turn_partial_wf env op_EndCurrentTurn)]. unfold ends_turn. tauto.
  - apply outcome_some; [by intros []|done].
Qed.

Lemma ReadInstruction_wf env u i vm : vm_wf vm → vm_wf (ReadInstruction env u i vm).1.
Proof. intros Hwf. unfold ReadInstruction. case_match; [by apply vm_wf_base|done]. Qed.

Lemma VmSetRecordingSettings_wf env s vm : vm_wf vm → vm_wf (VmSetRecordingSettings env s vm).1.
Proof.
  intros Hwf. unfold VmSetRecordingSettings. apply and_then_wf; [by apply with_recorder_wf|].
  intros vm1 Hwf1. case_match; [by apply with_recorder_wf|done].
Qed.

Lemma VmStart_wf env vm : vm_wf vm → outcome (active_ vm.2 = false ∧ init_fails vm.2) (VmStart env vm).
Proof.
  intros Hwf. unfold VmStart. destruct (active_ vm.2); [by apply outcome_some; [intros []|]|].
  assert (Hrec : vm_wf (if getRecordingsEnabled (setting_of RECORDINGS_ENABLED vm.2)
                        then StartRecording env vm else (vm, [])).1 ∧
    core (if getRecordingsEnabled (setting_of RECORDINGS_ENABLED vm.2)
                        then StartRecording env vm else (vm, [])).1.2 = core vm.2)
    by (case_match; [split; [by apply with_recorder_wf|apply with_recorder_same]|done]).
  destruct (if getRecordingsEnabled _ then _ else _) as [vm1 evs1]. simpl in Hrec.
  destruct Hrec as [Hwf1 [= _ _ Hs]].
  pose proof (StartGuacamoleClient_cases (SetGuacamoleArguments (with_active true vm1.2))) as Hg.
  unfold init_fails, setting_of in *. simpl in Hg. rewrite Hs in Hg.
  destruct (StartGuacamoleClient _) as [[b' evs2]|]; [|done]. destruct Hg as (Hi & Hb & _).
  apply outcome_some; [tauto|]. by apply (vm_wf_base vm1).
Qed.

Lemma VmStop_wf env vm : vm_wf vm → vm_wf (VmStop env vm).1.
Proof.
  intros Hwf. unfold VmStop.
  pose proof (with_recorder_wf env (λ _ r, let '(_, r, evs) := Recording.Stop env r in (r, evs)) vm Hwf) as Hr.
  fold (StopRecording env vm) in Hr. destruct (StopRecording env vm) as [vm1 evs1].
  case_match; [done|]. by apply (vm_wf_base vm1).
Qed.

(** The delay is over and the next attempt to connect is due. *)
Definition reconnects vm : Prop :=
  active_ vm.2 = true ∧ head (posted (connect_delay_timer_ vm.2)) = Some (tt, success).

Lemma RunConnectDelayHandler_wf vm :
  vm_wf vm → outcome (reconnects vm ∧ init_fails vm.2) (RunConnectDelayHandler vm).
Proof.
  intros Hwf. unfold RunConnectDelayHandler, reconnects.
  destruct (posted _) as [|[[] ec] ?]; [by apply outcome_some; [intros [[]]|]|].
  unfold OnConnectDelay. simpl. destruct ec; simpl; [|by split; [apply vm_wf_base|intros [[_ ?] _]]].
  destruct (active_ vm.2); simpl; [|by split; [apply vm_wf_base|intros [[]]]].
  pose proof (StartGuacamoleClient_cases (with_delay_timer (run_next (connect_delay_timer_ vm.2)) vm.2)) as Hg.
  unfold init_fails, setting_of in *. simpl in Hg.
  destruct (StartGuacamoleClient _) as [[b' evs2]|]; [|done]. destruct Hg as (Hi & Hb & _).
  apply outcome_some; [tauto|]. by apply vm_wf_base.
Qed.

(** The first image is drawn while another thread is in the queue of a user. *)
Definition meets_busy (busy : U → bool) vm : Prop :=
  active_ vm.2 = true ∧ ∃ u, is_Some (users_ vm.1 !! u) ∧ busy u = true.

Lemma busy_member busy vm :
  existsb (λ p, busy p.1) (members vm.1) = true ↔ ∃ u, is_Some (users_ vm.1 !! u) ∧ busy u = true.
Proof.
  rewrite existsb_exists. unfold members. split.
  - intros ([u d] & Hin & Hb). apply list_elem_of_In, elem_of_map_to_list in Hin. exists u. split; [by eexists|done].
  - intros (u & [d Hu] & Hb). exists (u, d). split; [|done]. by apply list_elem_of_In, elem_of_map_to_list.
Qed.

Lemma OnStart_wf env busy vm : vm_wf vm → outcome (meets_busy busy vm) (OnStart env busy vm).
Proof.
  intros Hwf. unfold OnStart, meets_busy.
  destruct (active_ vm.2); simpl; [|by split; [apply (vm_wf_base vm)|intros []]].
  pose proof (busy_member busy vm) as Hbusy. destruct (existsb _ _); [by split; [|apply Hbusy]|].
  apply outcome_some; [|by apply (vm_wf_base vm)]. intros [_ Hb]. by apply Hbusy in Hb.
Qed.

Lemma OnStop_wf env vm : vm_wf vm → vm_wf (OnStop env vm).1.
Proof. intros Hwf. unfold OnStop. destruct (connected_ _ || _); simpl; case_match; by apply (vm_wf_base vm). Qed.

Lemma VmRunVoteHandler_wf env vm : vm_wf vm → vm_wf (VmRunVoteHandler env vm).1.
Proof.
  intros Hwf. unfold VmRunVoteHandler.
  pose proof (vote_result_wf env (op_vote_run (vote_settings vm.2)) vm Hwf) as Hv.
  cbn [vote_exec] in Hv. destruct (RunVoteHandler _ _ _) as [v evs]. by apply OnVoteEvents_wf.
Qed.

(** What each operation needs in order to have a result. *)
Definition vm_stuck (name_len message_len : nat) (op : vm_op) vm : Prop :=
  match op with
  | VEndCurrentTurn u => may_end_turn u vm
  | VStart => active_ vm.2 = false ∧ init_fails vm.2
  | VDelayHandler => reconnects vm ∧ init_fails vm.2
  | VOnStart busy => meets_busy busy vm
  | VChatMessage name _ message _ => name_len < String.length name ∨ message_len < String.length message
  | _ => False
  end.

Lemma vm_exec_wf env op name_len message_len vm :
  vm_wf vm → vm_chat name_len message_len vm →
  outcome (vm_stuck name_len message_len op vm) (vm_exec env op vm).
Proof.
  intros Hwf Hroom. destruct op; cbn [vm_exec vm_stuck].
  - by eapply VmAddUser_wf.
  - by apply VmRemoveUser_wf.
  - by apply update_username_wf.
  - apply GetUserChannel_wf; [done..|]. split; [apply ClearUsers_ok|by intros []].
  - by apply send_message_wf.
  - by apply total_wf_exists, Vote_wf.
  - exact (total_wf_some (_, []) (vote_result_wf env op_StopVote vm Hwf)).
  - by apply total_wf_some, VmRequestTurn_wf.
  - by apply total_wf_some, VmPauseTurnTimer_wf.
  - by apply total_wf_some, VmResumeTurnTimer_wf.
  - by apply VmEndCurrentTurn_wf.
  - by apply total_wf_some, perform_wf.
  - by apply total_wf_some, ReadInstruction_wf.
  - by apply total_wf_some, VmSetRecordingSettings_wf.
  - destruct (UpdateSettings_wf env modified vm Hwf) as (v & vm' & evs & -> & Hwf'). by apply total_wf_some.
  - by apply VmStart_wf.
  - by apply total_wf_some, VmStop_wf.
  - unfold VmRestart. case_match; by apply total_wf_some.
  - apply total_wf_some. unfold SetVmInfo. case_match; [done|by apply (vm_wf_base vm)].
  - by apply OnStart_wf.
  - by apply total_wf_some, OnStop_wf.
  - apply total_wf_some. destruct (turn_result_wf env op_elapse _ [] vm Hwf eq_refl). by split.
  - eapply outcome_iff; [|by apply (turn_partial_wf env op_run)]. by split; [intros []|].
  - exact (total_wf_some (_, []) (vote_result_wf env op_vote_elapse vm Hwf)).
  - by apply total_wf_some, VmRunVoteHandler_wf.
  - by apply total_wf_some, vm_wf_base.
  - by apply RunConnectDelayHandler_wf.
  - by apply total_wf_some, with_recorder_wf.
  - by apply total_wf_some, with_recorder_wf.
  - destruct (guac_exec _ _ _) as [g evs]. by apply total_wf_some, vm_wf_base.
Qed.

(** ** Only an update of the settings changes them *)

Definition same_settings vm (p : vm_state * list vm_event) : Prop := settings_ p.1.2 = settings_ vm.2.

Lemma with_recorder_settings env f vm : same_settings vm (with_recorder env f vm).
Proof. unfold same_settings, with_recorder. by destruct (f _ _). Qed.

Lemma OnVoteEvents_settings env evs vm : same_settings vm (OnVoteEvents env evs vm).
Proof.
  unfold same_settings. revert vm. induction evs as [|ev evs IH]; intros vm; cbn [OnVoteEvents]; [done|].
  assert (settings_ (OnVoteEvent env ev vm).1.2 = settings_ vm.2) as Hev.
  { destruct ev; cbn [OnVoteEvent]; [done| |].
    - unfold OnVoteIdle. by case_match.
    - unfold OnVoteEnd, VmRestart. case_match; [done|]. destruct vote_passed; [destruct (negb _); done|done]. }
  destruct (OnVoteEvent env ev vm) as [vm1 e1]. specialize (IH vm1).
  destruct (OnVoteEvents env evs vm1). cbn in *. congruence.
Qed.

Lemma VmSetRecordingSettings_settings env rs vm : same_settings vm (VmSetRecordingSettings env rs vm).
Proof.
  unfold VmSetRecordingSettings, and_then.
  pose proof (with_recorder_settings env (λ kms r, SetRecordingSettings to_string env kms rs r) vm) as Hr.
  destruct (with_recorder _ _ _) as [vm1 e1]. cbn [fst snd]. destruct (_ && _); [|exact Hr].
  pose proof (with_recorder_settings env (Start to_string env) vm1) as Hr1. unfold StartRecording.
  destruct (with_recorder _ _ _) as [vm2 e2]. unfold same_settings in *. cbn in *. congruence.
Qed.

(** What a callback leaves of the machine. *)
Lemma GetUserChannel_base env (callback : channel_fn U G S) vm vm' evs :
  leaves_base callback → GetUserChannel env callback vm = Some (vm', evs) →
  core vm'.2 = core vm.2 ∧ status vm'.2 = status vm.2 ∧
  ∃ acts, evs = effects acts ∧ callback _ vm_channel_base vm.1 vm.2 = Some (vm'.1, vm.2, acts).
Proof.
  intros Hb. unfold GetUserChannel. destruct (callback _ _ _ _) as [[[ch b] acts]|] eqn:Hx; [|done].
  cbn [mbind option_bind]. intros [= <- <-]. rewrite (Hb _ _ _ _ _ Hx) in *. split_and!; [done..|]. by exists acts.
Qed.

Lemma GetUserChannel_settings env (callback : channel_fn U G S) vm vm' evs :
  leaves_base callback → GetUserChannel env callback vm = Some (vm', evs) → settings_ vm'.2 = settings_ vm.2.
Proof. intros Hb Hx. by destruct (GetUserChannel_base _ _ _ _ _ Hb Hx) as ([= _ _ Hs] & _). Qed.

Lemma VmRemoveUser_settings env u vm vm' evs :
  VmRemoveUser env u vm = Some (vm', evs) → settings_ vm'.2 = settings_ vm.2.
Proof.
  unfold VmRemoveUser, GetUserChannel, remove_user, UserChannel.RemoveUser.
  destruct (users_ vm.1 !! u); [|by intros [= <- <-]].
  destruct (release_ip _ _); [|done]. cbn [mbind option_bind on_remove_user vm_channel_base].
  unfold OnRemoveUser. destruct (TurnController.RemoveUser _ _ _) as [[[bb t] e]|]; [|done].
  cbn [mbind option_bind]. destruct (GetUserData _ _); [|by intros [= <- <-]].
  destruct (RemoveVote _ _) as [[bv d2] v]. by intros [= <- <-].
Qed.

Lemma VmStart_settings env vm vm' evs :
  VmStart env vm = Some (vm', evs) → settings_ vm'.2 = settings_ vm.2.
Proof.
  unfold VmStart. destruct (active_ _); [by intros [= <- <-]|].
  assert (settings_ (if getRecordingsEnabled (setting_of RECORDINGS_ENABLED vm.2)
    then StartRecording env vm else (vm, [])).1.2 = settings_ vm.2) as Hr
    by (destruct (getRecordingsEnabled _); [apply with_recorder_settings|done]).
  destruct (if getRecordingsEnabled _ then _ else _) as [vm1 e1]. unfold StartGuacamoleClient.
  destruct (GuacStart _ _ _ _); [|done]. by intros [= <- <-].
Qed.

Definition updates_settings (op : vm_op) : bool := match op with VUpdateSettings _ => true | _ => false end.

Lemma vm_exec_settings env op vm vm' evs :
  updates_settings op = false → vm_exec env op vm = Some (vm', evs) → settings_ vm'.2 = settings_ vm.2.
Proof.
  intros Hop Hx. change (same_settings vm (vm', evs)).
  assert (∀ p, Some p = Some (vm', evs) → same_settings vm p → same_settings vm (vm', evs)) as Hsome by (by intros ? [= ->]).
  destruct op; try done; cbn [vm_exec] in Hx; unfold same_settings in *;
    try (eapply Hsome; [exact Hx|]; first [done|apply with_recorder_settings]).
  - by eapply GetUserChannel_settings; [|exact Hx].
  - by eapply VmRemoveUser_settings.
  - by eapply GetUserChannel_settings; [|exact Hx].
  - by eapply GetUserChannel_settings; [|exact Hx].
  - unfold Vote in Hx. destruct (GetUserData _ _); [|by eapply Hsome]. destruct (_ && _); [by eapply Hsome|].
    destruct (ip_data_ _ !! _) as [x|]; [|done]. cbn [mbind option_bind] in Hx. destruct (voted x); [by eapply Hsome|].
    destruct (AddVote _ _ _ _ _ _) as [[[[] d'] v] e]; by eapply Hsome.
  - unfold VmRequestTurn in Hx. destruct (TurnsEnabled _); [|by eapply Hsome].
    destruct (RequestTurn _ _ _) as [[b t] e]. by eapply Hsome.
  - unfold VmPauseTurnTimer in Hx. destruct (TurnsEnabled _); by eapply Hsome.
  - unfold VmResumeTurnTimer in Hx. destruct (TurnsEnabled _); by eapply Hsome.
  - unfold VmEndCurrentTurn in Hx. destruct (_ && _); [|by eapply Hsome].
    destruct (EndCurrentTurn _); [by eapply Hsome|done].
  - eapply Hsome; [exact Hx|]. unfold ReadInstruction. by destruct (_ && _).
  - eapply Hsome; [exact Hx|]. apply VmSetRecordingSettings_settings.
  - by eapply VmStart_settings.
  - eapply Hsome; [exact Hx|]. unfold VmStop.
    pose proof (with_recorder_settings env (λ _ r, let '(_, r, evs) := Recording.Stop env r in (r, evs)) vm) as Hr.
    fold (StopRecording env vm) in Hr. destruct (StopRecording env vm) as [vm1 e1]. by destruct (negb _).
  - eapply Hsome; [exact Hx|]. unfold VmRestart. by destruct (negb _).
  - eapply Hsome; [exact Hx|]. unfold SetVmInfo. by destruct (negb _).
  - unfold OnStart in Hx. destruct (negb _); [by eapply Hsome; [exact Hx|]|].
    destruct (existsb _ _); [done|]. by eapply Hsome; [exact Hx|].
  - eapply Hsome; [exact Hx|]. unfold OnStop. destruct (_ || _); by destruct (negb _).
  - unfold VmRunTurnHandler in Hx. destruct (RunTurnHandler _ _); [|done]. by eapply Hsome; [exact Hx|].
  - eapply Hsome; [exact Hx|]. unfold VmRunVoteHandler. destruct (RunVoteHandler _ _ _) as [v e].
    apply (OnVoteEvents_settings env e (vm.1, with_votes v vm.2)).
  - unfold RunConnectDelayHandler in Hx. destruct (posted _) as [|[? ec] ?]; [by eapply Hsome|].
    unfold OnConnectDelay in Hx. destruct (_ || _); [by eapply Hsome|]. unfold StartGuacamoleClient in Hx.
    destruct (GuacStart _ _ _ _); [|done]. by eapply Hsome; [exact Hx|].
  - destruct (guac_exec _ _ _) as [g e]. by eapply Hsome.
Qed.

(** ** What an inactive machine does *)

Definition quiet (ev : vm_event) : bool :=
  match ev with ExecuteCommandAsync _ | GuacStarted _ => false | _ => true end.

(** An inactive machine stays inactive and does not become connected. *)
Definition idle_step vm '((vm', evs) : vm_state * list vm_event) : Prop :=
  active_ vm'.2 = false ∧ (connected_ vm.2 = false → connected_ vm'.2 = false) ∧
  Forall (λ ev, quiet ev = true) evs.

Lemma effects_quiet acts : Forall (λ ev, quiet ev = true) (effects acts).
Proof. unfold effects. induction acts as [|[] acts IH]; simpl; auto. Qed.

Lemma recording_quiet evs : Forall (λ ev, quiet ev = true) (RecordingEvent <$> evs).
Proof. induction evs; simpl; auto. Qed.

Lemma guac_quiet evs : Forall (λ ev, quiet ev = true) (GuacEvent <$> evs).
Proof. induction evs; simpl; auto. Qed.

Hint Resolve effects_quiet recording_quiet guac_quiet : core.

Lemma perform_idle env acts vm0 vm :
  status vm.2 = status vm0.2 → active_ vm0.2 = false → idle_step vm0 (perform env acts vm).
Proof. unfold status. intros [= Ha Hc] Hact. split_and!; simpl; auto; congruence. Qed.

Lemma with_recorder_idle env f vm : active_ vm.2 = false → idle_step vm (with_recorder env f vm).
Proof. intros Ha. unfold with_recorder. destruct (f _ _). by split_and!. Qed.

Lemma idle_refl vm : active_ vm.2 = false → idle_step vm (vm, []).
Proof. intros Ha. by split_and!. Qed.

Hint Resolve idle_refl with_recorder_idle : core.

Lemma and_then_idle vm p f :
  idle_step vm p → (∀ vm', active_ vm'.2 = false → idle_step vm' (f vm')) → idle_step vm (and_then p f).
Proof.
  intros Hp Hf. unfold and_then. destruct p as [vm1 e1]. destruct Hp as (Ha & Hc & He).
  specialize (Hf vm1 Ha). simpl. destruct (f vm1) as [vm2 e2]. destruct Hf as (Ha2 & Hc2 & He2).
  split_and!; auto. by apply Forall_app.
Qed.

Lemma OnVoteEvents_idle env evs vm : active_ vm.2 = false → idle_step vm (OnVoteEvents env evs vm).
Proof.
  revert vm. induction evs as [|ev evs IH]; intros vm Ha; cbn [OnVoteEvents]; [auto|].
  replace (OnVoteEvent env ev vm) with (vm, @nil vm_event)
    by (destruct ev; simpl; unfold OnVoteIdle, OnVoteEnd; by rewrite ?Ha).
  specialize (IH vm Ha). by destruct (OnVoteEvents env evs vm).
Qed.

Lemma ApplySettings_idle env settings previous vm0 vm :
  status vm.2 = status vm0.2 → active_ vm0.2 = false →
  idle_step vm0 (ApplySettings env settings previous vm).
Proof.
  intros Hs Ha. unfold ApplySettings.
  repeat match goal with |- idle_step _ (and_then _ _) => apply and_then_idle; [|intros vm1 Ha1] end.
  - unfold ApplyTurnSettings. case_match; [by apply perform_idle|].
    unfold status in Hs. simplify_eq/=. split_and!; simpl; auto; congruence.
  - unfold ApplyVoteSettings. case_match; [auto|]. apply perform_idle; [|done].
    by destruct (getVotesEnabled _).
  - unfold ApplyDescription. case_match; [auto|by apply perform_idle].
  - unfold ApplyDisallowGuests. case_match; [by apply perform_idle|auto].
  - unfold ApplyRecordings. case_match; [|auto]. case_match; by apply with_recorder_idle.
  - by split_and!.
Qed.

(** [idle_step] of an operation that may fail, and of one that does not. *)
Definition idle_result vm (r : option (vm_state * list vm_event)) : Prop :=
  match r with Some p => idle_step vm p | None => True end.

Lemma OnRemoveUser_status now u ch b ch' b' acts :
  OnRemoveUser now u ch b = Some (ch', b', acts) → status b' = status b.
Proof.
  unfold OnRemoveUser. destruct (TurnController.RemoveUser _ _ _) as [[[bb t] e]|]; [|done]. simpl.
  destruct (GetUserData _ _); [|by intros [= <- <- <-]].
  destruct (RemoveVote _ _) as [[bv d2] v]. by intros [= <- <- <-].
Qed.

Lemma VmRemoveUser_idle env u vm : active_ vm.2 = false → idle_result vm (VmRemoveUser env u vm).
Proof.
  intros Ha. unfold VmRemoveUser, GetUserChannel, remove_user.
  destruct (UserChannel.RemoveUser _ _ _ _) as [[[ch b] acts]|] eqn:Hr; [|done].
  apply perform_idle; [|done]. revert Hr. unfold UserChannel.RemoveUser.
  destruct (users_ vm.1 !! u); [|by intros [= <- <- <-]].
  destruct (release_ip _ _); [|done]. cbn [mbind option_bind on_remove_user vm_channel_base].
  destruct (OnRemoveUser _ _ _ _) as [[[ch2 b2] acts2]|] eqn:Hr; [|done].
  intros [= <- <- <-]. by apply OnRemoveUser_status in Hr.
Qed.

Lemma GetUserChannel_idle env (callback : channel_fn U G S) vm :
  leaves_base callback → active_ vm.2 = false → idle_result vm (GetUserChannel env callback vm).
Proof.
  intros Hb Ha. destruct (GetUserChannel env callback vm) as [[vm' evs]|] eqn:Hx; [|done].
  destruct (GetUserChannel_base _ _ _ _ _ Hb Hx) as (_ & [= Hact Hc] & acts & -> & _).
  split_and!; [congruence|congruence|apply effects_quiet].
Qed.

Lemma Vote_idle env u yes vm : active_ vm.2 = false → idle_result vm (Vote env u yes vm).
Proof.
  intros Ha. unfold Vote. destruct (GetUserData _ _) as [d|]; [|by apply idle_refl].
  case_match; [by apply idle_refl|]. destruct (ip_data_ _ !! _) as [x|]; [|done]. simpl.
  destruct (voted x); [by apply idle_refl|].
  destruct (AddVote _ _ _ _ _ _) as [[[counted d'] v] e].
  destruct counted; [by apply perform_idle|by split_and!].
Qed.

Lemma turn_result_idle env p vm : active_ vm.2 = false → idle_step vm (turn_result env p vm).
Proof. by apply perform_idle. Qed.

Lemma turn_partial_idle env (r : option (turn_controller T U * list (turn_event U))) vm :
  active_ vm.2 = false → idle_result vm (r ← r; Some (turn_result env r vm)).
Proof. intros Ha. destruct r; [by apply turn_result_idle|done]. Qed.

Lemma UpdateSettings_idle env modified vm v vm' evs :
  active_ vm.2 = false → UpdateSettings env modified vm = Some (v, vm', evs) → idle_step vm (vm', evs).
Proof.
  intros Ha. unfold UpdateSettings. destruct (UpdateList _ _ _ _) as [new|]; [|done].
  cbn [mbind option_bind]. destruct (ValidateSettings new) as [[]|]; [| |done]; cbn [mbind option_bind].
  - pose proof (ApplySettings_idle env new (settings_ vm.2) vm (vm.1, with_vm_settings new vm.2) eq_refl Ha) as Hi.
    destruct (ApplySettings _ _ _ _) as [vm2 e2]. intros [= <- <- <-].
    destruct Hi as (? & ? & ?). split_and!; auto.
  - intros [= <- <- <-]. auto.
Qed.

Lemma VmStop_idle env vm : active_ vm.2 = false → idle_step vm (VmStop env vm).
Proof.
  intros Ha. unfold VmStop.
  pose proof (with_recorder_idle env (λ _ r, let '(_, r, evs) := Recording.Stop env r in (r, evs)) vm Ha) as Hr.
  fold (StopRecording env vm) in Hr. destruct (StopRecording env vm) as [vm1 e1].
  destruct Hr as (Ha1 & Hc1 & He1). rewrite Ha1. by split_and!.
Qed.

Lemma OnStop_idle env vm :
  active_ vm.2 = false → idle_step vm (OnStop env vm) ∧ connected_ (OnStop env vm).1.2 = false.
Proof.
  intros Ha. unfold OnStop. simpl. rewrite Ha, orb_true_r. simpl. rewrite Ha. simpl.
  split_and!; simpl; auto.
Qed.

Lemma RunConnectDelayHandler_idle vm : active_ vm.2 = false → idle_result vm (RunConnectDelayHandler vm).
Proof.
  intros Ha. unfold RunConnectDelayHandler. destruct (posted _) as [|[? ec] ?]; [by apply idle_refl|].
  unfold OnConnectDelay. simpl. rewrite Ha, orb_true_r. split_and!; simpl; auto.
Qed.

Lemma VmRunVoteHandler_idle env vm : active_ vm.2 = false → idle_step vm (VmRunVoteHandler env vm).
Proof.
  intros Ha. unfold VmRunVoteHandler. destruct (RunVoteHandler _ _ _) as [v e].
  pose proof (OnVoteEvents_idle env e (vm.1, with_votes v vm.2) Ha) as Hi.
  by destruct (OnVoteEvents _ _ _).
Qed.

Hint Resolve turn_result_idle turn_partial_idle VmRemoveUser_idle Vote_idle VmStop_idle
  RunConnectDelayHandler_idle VmRunVoteHandler_idle : core.

Lemma vm_exec_idle_result env op vm :
  active_ vm.2 = false → op ≠ VStart → idle_result vm (vm_exec env op vm).
Proof.
  intros Ha Hop. destruct op; cbn [vm_exec idle_result]; auto; try (by split_and!).
  - by apply GetUserChannel_idle.
  - by apply GetUserChannel_idle.
  - by apply GetUserChannel_idle.
  - unfold VmRequestTurn. case_match; [|auto]. destruct (RequestTurn _ _ _) as [[? ?] ?]. auto.
  - unfold VmPauseTurnTimer. case_match; auto.
  - unfold VmResumeTurnTimer. case_match; auto.
  - unfold VmEndCurrentTurn. case_match; simpl; auto.
  - unfold ReadInstruction. case_match; [|auto].
    split_and!; simpl; [done|done|]. unfold GuacReadInstruction. destruct (guac_user_ _); simpl; auto.
  - unfold VmSetRecordingSettings. apply and_then_idle; [auto|]. intros vm1 Ha1. rewrite Ha1. auto.
  - destruct (UpdateSettings env modified vm) as [[[v vm1] e]|] eqn:Hu; [|done].
    by eapply UpdateSettings_idle.
  - done.
  - unfold VmRestart. rewrite Ha. auto.
  - unfold SetVmInfo. rewrite Ha. simpl. auto.
  - unfold OnStart. rewrite Ha. simpl. split_and!; simpl; auto.
  - by apply OnStop_idle.
  - exact (turn_partial_idle env _ vm Ha).
  - destruct (guac_exec _ _ _) as [g e]. by split_and!.
Qed.

Lemma vm_exec_idle env op vm vm' evs :
  active_ vm.2 = false → op ≠ VStart → vm_exec env op vm = Some (vm', evs) →
  idle_step vm (vm', evs) ∧ (op = VOnStop → connected_ vm'.2 = false).
Proof.
  intros Ha Hop Hex. pose proof (vm_exec_idle_result env op vm Ha Hop) as Hi. rewrite Hex in Hi.
  split; [exact Hi|]. intros ->. cbn [vm_exec] in Hex. injection Hex as Hex.
  destruct (OnStop_idle env vm Ha) as [_ Hc]. by rewrite Hex in Hc.
Qed.

(** *** Properties *)

(** C21: only the user whose turn it is, while the timer is not paused, and
    the administrators of the channel control a connected machine; their
    input is passed on and nobody else's has any effect at all. *)
Theorem only_the_player_controls vm env u (instr : C) :
  let '(vm', evs) := ReadInstruction env u instr vm in
  let allowed :=
    connected_ vm.2 = true ∧
    ((GetCurrentUser (vm_turns vm.2) = Some u ∧ paused_time_ (vm_turns vm.2) = None) ∨
     ∃ d, users_ vm.1 !! u = Some d ∧ user_type d = ADMIN) in
  (allowed → evs = if guac_user_ (vm_guac vm.2) then [GuacInput instr] else []) ∧
  (¬ allowed → vm' = vm ∧ evs = []).
Proof.
  unfold ReadInstruction. cbv zeta.
  assert (Hcond : connected_ vm.2 && (HasCurrentTurn u vm && negb (IsPaused (vm_turns vm.2)) || VmIsAdmin u vm) = true
    ↔ connected_ vm.2 = true ∧
    ((GetCurrentUser (vm_turns vm.2) = Some u ∧ paused_time_ (vm_turns vm.2) = None) ∨
     ∃ d, users_ vm.1 !! u = Some d ∧ user_type d = ADMIN)).
  { rewrite andb_true_iff, orb_true_iff, andb_true_iff, negb_true_iff.
    unfold HasCurrentTurn, IsPaused, VmIsAdmin, GetUserData, UserChannel.IsAdmin.
    rewrite bool_decide_eq_true, bool_decide_eq_false, <-eq_None_not_Some.
    destruct (users_ vm.1 !! u) as [d|]; [rewrite bool_decide_eq_true|]; naive_solver. }
  destruct (connected_ vm.2 && _) eqn:E.
  - split; [|intros []; by apply Hcond]. intros _. unfold GuacReadInstruction. by destruct (guac_user_ _).
  - split; [|done]. intros Ha%Hcond. done.
Qed.

Lemma and_then_fst p f : (and_then p f).1 = (f p.1).1.
Proof. unfold and_then. by destruct (f p.1). Qed.
Lemma and_then_snd p f : (and_then p f).2 = p.2 ++ (f p.1).2.
Proof. unfold and_then. by destruct (f p.1). Qed.

(** [p] has the turns, settings and users of [vm]. *)
Definition keeps vm vm' : Prop :=
  vm_turns vm'.2 = vm_turns vm.2 ∧ settings_ vm'.2 = settings_ vm.2 ∧ vm'.1 = vm.1.

Lemma with_recorder_keeps env f vm : keeps vm (with_recorder env f vm).1.
Proof. unfold with_recorder. by destruct (f _ _). Qed.

Lemma ApplySettings_turns env settings previous vm :
  let vm1 := (ApplyTurnSettings env settings previous vm).1 in
  let r := ApplySettings env settings previous vm in
  vm_turns r.1.2 = vm_turns vm1.2 ∧ settings_ r.1.2 = settings_ vm1.2 ∧ r.1.1 = vm1.1 ∧
  (getDisallowGuests (GetSetting settings DISALLOW_GUESTS) = true →
   getDisallowGuests (GetSetting previous DISALLOW_GUESTS) = false →
   ∀ ev, In ev (effects (close_guests vm1.1)) → In ev r.2).
Proof.
  intros vm1 r. subst r. unfold ApplySettings. fold vm1.
  repeat rewrite ?and_then_fst, ?and_then_snd. fold vm1.
  set (v2 := (ApplyVoteSettings env settings previous vm1)).
  assert (Hk2 : keeps vm1 v2.1).
  { unfold v2, ApplyVoteSettings. case_match; [done|]. by destruct (getVotesEnabled _). }
  set (v3 := ApplyDescription env settings previous v2.1).
  assert (Hk3 : keeps v2.1 v3.1) by (unfold v3, ApplyDescription; by case_match).
  set (v4 := ApplyDisallowGuests env settings previous v3.1).
  assert (Hk4 : keeps v3.1 v4.1) by (unfold v4, ApplyDisallowGuests; by case_match).
  set (v5 := ApplyRecordings env settings previous v4.1).
  assert (Hk5 : keeps v4.1 v5.1).
  { unfold v5, ApplyRecordings. case_match; [|done]. case_match; apply with_recorder_keeps. }
  destruct Hk2 as (Ha2 & Hb2 & Hc2), Hk3 as (Ha3 & Hb3 & Hc3), Hk4 as (Ha4 & Hb4 & Hc4), Hk5 as (Ha5 & Hb5 & Hc5).
  cbn [fst snd]. split_and!; simpl; try congruence.
  intros Hg Hp ev Hin. rewrite !List.in_app_iff. do 2 left. right.
  unfold v4, ApplyDisallowGuests. rewrite Hg, Hp. simpl. by rewrite Hc3, Hc2.
Qed.

(** What an update stores when it is valid. *)
Lemma UpdateSettings_settings env modified vm valid vm' evs :
  settings_wf vm_fields_count (settings_ vm.2) → UpdateSettings env modified vm = Some (valid, vm', evs) →
  settings_ vm'.2 = (if valid : bool then pick modified <$> settings_ vm.2 else settings_ vm.2) ∧ (valid = false → vm' = vm).
Proof.
  intros Hs. unfold UpdateSettings. rewrite UpdateList_pick by (done || apply length_replicate). cbn [mbind option_bind].
  destruct (ValidateSettings _) as [b|]; [|done]. cbn [mbind option_bind]. destruct b; [|by intros [= <- <- <-]].
  set (vm1 := (vm.1, with_vm_settings (pick modified <$> settings_ vm.2) vm.2)).
  pose proof (ApplySettings_turns env (pick modified <$> settings_ vm.2) (settings_ vm.2) vm1) as (_ & Hset & _).
  destruct (ApplySettings _ _ _ vm1) as [vm2 e]. intros [= <- <- <-]. split; [|done]. cbn in Hset. rewrite Hset.
  unfold ApplyTurnSettings. by case_match.
Qed.

(** C39: changing a machine's settings.  The change is validated as a whole:
    if the resulting configuration is not valid nothing happens.  Otherwise
    every member has the value of its first modification or its old one, the
    modifications are written to the database, the turn time takes effect,
    and disabling turns empties the queue, and disallowing guests closes the
    connection of every guest on the channel. *)
Theorem UpdateSettings_correct vm env modified valid vm' evs :
  vm_wf vm → UpdateSettings env modified vm = Some (valid, vm', evs) →
  let new_settings := pick modified <$> settings_ vm.2 in
  ValidateSettings new_settings = Some valid ∧
  if valid then
    settings_ vm'.2 = new_settings ∧ users_ vm'.1 = users_ vm.1 ∧
    head evs = Some (DbUpdateVmSettings (ChannelId vm.1) modified) ∧
    turn_time_ (vm_turns vm'.2) = from_s (getTurnTime (GetSetting new_settings TURN_TIME)) ∧
    (getTurnsEnabled (GetSetting (settings_ vm.2) TURNS_ENABLED) = true →
     getTurnsEnabled (GetSetting new_settings TURNS_ENABLED) = false →
     turn_queue_ (vm_turns vm'.2) = []) ∧
    (getDisallowGuests (GetSetting (settings_ vm.2) DISALLOW_GUESTS) = false →
     getDisallowGuests (GetSetting new_settings DISALLOW_GUESTS) = true →
     ∀ u d, users_ vm.1 !! u = Some d → IsRegistered d = false → In (Act (CloseSocket u)) evs)
  else vm' = vm ∧ evs = [].
Proof.
  intros Hwf Hup new_settings. revert Hup. unfold UpdateSettings.
  rewrite UpdateList_pick by (done || apply Hwf || apply length_replicate). cbn [mbind option_bind].
  fold new_settings. destruct (ValidateSettings new_settings) as [b|]; [|done]. cbn [mbind option_bind].
  destruct b; [|by intros [= <- <- <-]].
  set (vm1 := (vm.1, with_vm_settings new_settings vm.2)).
  pose proof (ApplySettings_turns env new_settings (settings_ vm.2) vm1) as Ha.
  destruct (ApplySettings env new_settings (settings_ vm.2) vm1) as [vm2 e2]. cbn [fst snd] in Ha.
  destruct Ha as (Ht & Hs & Hch & Hg). intros [= <- <- <-]. split; [done|].
  set (vmt := (ApplyTurnSettings env new_settings (settings_ vm.2) vm1).1) in *.
  assert (Hvmt : settings_ vmt.2 = new_settings ∧ vmt.1 = vm.1 ∧
    turn_time_ (vm_turns vmt.2) = from_s (getTurnTime (GetSetting new_settings TURN_TIME)) ∧
    (getTurnsEnabled (GetSetting (settings_ vm.2) TURNS_ENABLED) = true →
     getTurnsEnabled (GetSetting new_settings TURNS_ENABLED) = false → turn_queue_ (vm_turns vmt.2) = [])).
  { unfold vmt, ApplyTurnSettings. set (t := SetTurnTime _ _).
    assert (Hclear : turn_queue_ (Clear t).1 = [] ∧ turn_time_ (Clear t).1 = turn_time_ t).
    { assert (Htwf : turn_wf t) by (destruct (vw_turns _ Hwf) as [Hw _]; exact Hw).
      pose proof (Clear_wf t Htwf) as Hc. unfold Clear in *. destruct (turn_queue_ _) eqn:Hq; simpl in *; done. }
    destruct (getTurnsEnabled (GetSetting new_settings TURNS_ENABLED)) eqn:E1; simpl; [done|].
    destruct (getTurnsEnabled (GetSetting (settings_ vm.2) TURNS_ENABLED)) eqn:E2; simpl; [|done].
    destruct Hclear as [Hq Htm]. split_and!; try done. }
  destruct Hvmt as (Hs1 & Hch1 & Htime & Hqueue).
  split_and!; [congruence|congruence|done|congruence|by rewrite Ht|].
  intros Hp Hn u d Hu Hr. right. apply (Hg Hn Hp). rewrite Hch1.
  unfold effects. apply list_elem_of_In, list_elem_of_omap. exists (CloseSocket u). split; [|done].
  unfold close_guests, ForEachSocket. apply list_elem_of_bind. exists (u, d).
  split; [simpl; rewrite Hr; by left|]. by apply elem_of_map_to_list.
Qed.

(** Everything an execution of operations does. *)
Fixpoint vm_run (ops : list (rec_env * vm_op)) vm : option (vm_state * list vm_event) :=
  match ops with
  | [] => Some (vm, [])
  | (env, op) :: ops =>
      '(vm, evs) ← vm_exec env op vm;
      '(vm, evs') ← vm_run ops vm;
      Some (vm, evs ++ evs')
  end.

(** C32: a machine that has been stopped stays stopped.  Whatever happens
    afterwards short of a new start - a reconnect timer that had already
    fired, a vote that passes, a restart request, changed settings - it runs
    no command and starts no client; and once the client's thread has ended
    it is reported as stopped. *)
Theorem stop_is_final vm env ops vm' evs :
  Forall (λ p, p.2 ≠ VStart) ops →
  vm_run ops (VmStop env vm).1 = Some (vm', evs) →
  active_ vm'.2 = false ∧
  (∀ command, ¬ In (ExecuteCommandAsync command) evs) ∧ (∀ p, ¬ In (GuacStarted p) evs) ∧
  ((∃ env', In (env', VOnStop) ops) → avi_status (SetAdminVmInfo vm') = VM_STOPPED).
Proof.
  assert (Hgen : ∀ vm0, active_ vm0.2 = false → Forall (λ p, p.2 ≠ VStart) ops →
    vm_run ops vm0 = Some (vm', evs) →
    idle_step vm0 (vm', evs) ∧ ((∃ env', In (env', VOnStop) ops) → connected_ vm'.2 = false)).
  { clear. revert evs. induction ops as [|[env op] ops IH]; intros evs vm0 Ha Hops Hrun; cbn [vm_run] in Hrun.
    { simplify_eq. split; [by apply idle_refl|]. by intros (? & []). }
    inversion Hops as [|? ? Hop Hops']; subst. simpl in Hop.
    destruct (vm_exec env op vm0) as [[vm1 e1]|] eqn:Hex; [|done]. cbn [mbind option_bind] in Hrun.
    destruct (vm_run ops vm1) as [[vm2 e2]|] eqn:Hr; [|done]. cbn [mbind option_bind] in Hrun.
    injection Hrun as -> <-.
    destruct (vm_exec_idle env op vm0 vm1 e1 Ha Hop Hex) as [(Ha1 & Hc1 & He1) Hstop].
    destruct (IH e2 vm1 Ha1 Hops' Hr) as [(Ha2 & Hc2 & He2) Hst2]. split.
    - split_and!; auto. by apply Forall_app.
    - intros (env' & [Heq|Hin]); [|by apply Hst2; exists env'].
      injection Heq as -> ->. apply Hc2. by apply Hstop. }
  intros Hops Hrun.
  assert (Hstop : active_ (VmStop env vm).1.2 = false).
  { unfold VmStop. pose proof (with_recorder_same env (λ _ r, let '(_, r, evs) := Recording.Stop env r in (r, evs)) vm) as (_ & _ & Hs).
    fold (StopRecording env vm) in Hs. destruct (StopRecording env vm) as [vm1 e1].
    destruct (active_ vm1.2) eqn:Ha; [done|exact Ha]. }
  destruct (Hgen _ Hstop Hops Hrun) as [(Ha & _ & He) Hc]. rewrite List.Forall_forall in He.
  split_and!; [done| | |].
  - intros command Hin. by apply He in Hin.
  - intros p Hin. by apply He in Hin.
  - intros Hin. simpl. by rewrite (Hc Hin), Ha.
Qed.

(** ** Operations that do not concern the channel *)

Definition touches_channel (op : vm_op) : bool :=
  match op with
  | VAddUser _ _ _ | VRemoveUser _ | VUserData _ _ _ | VClearUsers | VChatMessage _ _ _ _
  | VVote _ _ | VVoteHandler => true
  | _ => false
  end.

Lemma with_recorder_channel env f vm : (with_recorder env f vm).1.1 = vm.1.
Proof. unfold with_recorder. by destruct (f _ _). Qed.

Lemma ApplySettings_channel env settings previous vm : (ApplySettings env settings previous vm).1.1 = vm.1.
Proof.
  pose proof (ApplySettings_turns env settings previous vm) as (_ & _ & Hch & _). rewrite Hch.
  unfold ApplyTurnSettings. by case_match.
Qed.

(** The channel after an operation that may fail. *)
Definition same_channel vm (r : option (vm_state * list vm_event)) : Prop :=
  match r with Some p => p.1.1 = vm.1 | None => True end.

Lemma UpdateSettings_channel env modified vm v vm' evs :
  UpdateSettings env modified vm = Some (v, vm', evs) → vm'.1 = vm.1.
Proof.
  unfold UpdateSettings. destruct (UpdateList _ _ _ _) as [new|]; [|done]. cbn [mbind option_bind].
  destruct (ValidateSettings new) as [[]|]; [| |done]; cbn [mbind option_bind].
  - pose proof (ApplySettings_channel env new (settings_ vm.2) (vm.1, with_vm_settings new vm.2)) as Hi.
    destruct (ApplySettings _ _ _ _) as [vm2 e2]. by intros [= <- <- <-].
  - by intros [= <- <- <-].
Qed.

Lemma VmStart_channel env vm : same_channel vm (VmStart env vm).
Proof.
  unfold VmStart. destruct (active_ vm.2); [done|].
  assert (Hrec : (if getRecordingsEnabled (setting_of RECORDINGS_ENABLED vm.2)
                  then StartRecording env vm else (vm, [])).1.1 = vm.1)
    by (destruct (getRecordingsEnabled _); [apply with_recorder_channel|done]).
  destruct (if getRecordingsEnabled _ then _ else _) as [vm1 evs1]. simpl in Hrec.
  by destruct (StartGuacamoleClient _) as [[b' e]|].
Qed.

Lemma VmStop_channel env vm : (VmStop env vm).1.1 = vm.1.
Proof.
  unfold VmStop.
  pose proof (with_recorder_channel env (λ _ r, let '(_, r, evs) := Recording.Stop env r in (r, evs)) vm) as Hr.
  fold (StopRecording env vm) in Hr. destruct (StopRecording env vm) as [vm1 e1]. by case_match.
Qed.

Lemma RunConnectDelayHandler_channel vm : same_channel vm (RunConnectDelayHandler vm).
Proof.
  unfold RunConnectDelayHandler. destruct (posted _) as [|[? ec] ?]; [done|].
  unfold OnConnectDelay. case_match; [done|]. by destruct (StartGuacamoleClient _) as [[b' e]|].
Qed.

Lemma vm_exec_same_channel env op vm : touches_channel op = false → same_channel vm (vm_exec env op vm).
Proof.
  intros Ht. destruct op; try done; cbn [vm_exec same_channel].
  - unfold VmRequestTurn. case_match; [|done]. by destruct (RequestTurn _ _ _) as [[? ?] ?].
  - unfold VmPauseTurnTimer. by case_match.
  - unfold VmResumeTurnTimer. by case_match.
  - unfold VmEndCurrentTurn. case_match; [|done]. by destruct (EndCurrentTurn _).
  - unfold ReadInstruction. by case_match.
  - unfold VmSetRecordingSettings. rewrite and_then_fst.
    case_match; rewrite ?with_recorder_channel; [|apply with_recorder_channel].
    unfold StartRecording. by rewrite !with_recorder_channel.
  - destruct (UpdateSettings env modified vm) as [[[v vm1] e]|] eqn:Hu; [|done].
    by eapply UpdateSettings_channel.
  - apply VmStart_channel.
  - apply VmStop_channel.
  - unfold VmRestart. by case_match.
  - unfold SetVmInfo. by case_match.
  - unfold OnStart. destruct (negb _); [done|]. by destruct (existsb _ _).
  - unfold OnStop. destruct (connected_ _ || _); by case_match.
  - unfold VmRunTurnHandler. by destruct (RunTurnHandler _ _).
  - apply RunConnectDelayHandler_channel.
  - apply with_recorder_channel.
  - apply with_recorder_channel.
  - by destruct (guac_exec _ _ _) as [g e].
Qed.

Lemma vm_exec_channel env op vm vm' evs :
  touches_channel op = false → vm_exec env op vm = Some (vm', evs) → vm'.1 = vm.1.
Proof. intros Ht Hex. pose proof (vm_exec_same_channel env op vm Ht) as Hc. by rewrite Hex in Hc. Qed.

(** Somebody with this address has voted in the current round. *)
Definition has_voted (ip : list Z) vm : bool :=
  match ip_data_ vm.1 !! ip with Some x => voted x | None => false end.

Lemma Vote_flag env u yes vm vm' evs d :
  users_ vm.1 !! u = Some d → Vote env u yes vm = Some (vm', evs) →
  (∀ ip, ip ≠ ip_address d → has_voted ip vm' = has_voted ip vm) ∧
  (has_voted (ip_address d) vm = true → vm' = vm ∧ evs = []) ∧
  (vm_votes vm'.2 ≠ vm_votes vm.2 → has_voted (ip_address d) vm' = true).
Proof.
  intros Hu. unfold Vote, GetUserData, has_voted. rewrite Hu.
  case_match; [by intros [= <- <-]|].
  destruct (ip_data_ vm.1 !! ip_address d) as [x|] eqn:Hx; [|done]. simpl.
  destruct (voted x) eqn:Hv; [by intros [= <- <-]|].
  destruct (AddVote _ _ _ _ _ _) as [[[counted d'] v] e] eqn:Hadd. destruct counted; intros [= <- <-]; simpl.
  - split_and!; [|done|by rewrite lookup_insert_eq]. intros ip Hne. by rewrite lookup_insert_ne.
  - split_and!; [done|done|]. intros Hne. exfalso. apply Hne.
    by eapply AddVote_not_counted.
Qed.

Lemma AddUser_flag env d u captcha ip vm vm' evs :
  VmAddUser env d u captcha vm = Some (vm', evs) → has_voted ip vm = true → has_voted ip vm' = true.
Proof.
  unfold VmAddUser, GetUserChannel, join_channel, has_voted.
  destruct (GetChatHistory _); [|done]. cbn [mbind option_bind].
  pose proof (AddUser_state (G := G) (S := S) (steady_now env) d u vm.1 vm.2) as Hst.
  destruct (AddUser _ _ _ _ _) as [ch acts]. simpl in Hst. subst ch. intros [= <- _]. unfold added. simpl.
  destruct (decide (ip = ip_address d)) as [->|Hne].
  - rewrite lookup_insert_eq. simpl. by destruct (ip_data_ vm.1 !! ip_address d).
  - by rewrite lookup_insert_ne.
Qed.

(** Renaming a user, posting a message and emptying the channel keep what is
    known about the addresses. *)
Lemma callback_flag env (callback : channel_fn U G S) ip vm vm' evs :
  leaves_base callback →
  (∀ ch b ch' b' acts, callback _ vm_channel_base ch b = Some (ch', b', acts) → ip_data_ ch' = ip_data_ ch) →
  GetUserChannel env callback vm = Some (vm', evs) → has_voted ip vm' = has_voted ip vm.
Proof.
  intros Hb Hi Hx. destruct (GetUserChannel_base _ _ _ _ _ Hb Hx) as (_ & _ & acts & _ & Hc).
  unfold has_voted. by rewrite (Hi _ _ _ _ _ Hc).
Qed.

Lemma update_username_ips u name type ch b ch' b' acts :
  update_username (G := G) (S := S) u name type vm_base vm_channel_base ch b = Some (ch', b', acts) →
  ip_data_ ch' = ip_data_ ch.
Proof. unfold update_username. by destruct (GetUserData u ch); intros [= <- <- <-]. Qed.

Lemma send_message_ips name type message timestamp ch b ch' b' acts :
  send_message (G := G) (S := S) name type message timestamp vm_base vm_channel_base ch b = Some (ch', b', acts) →
  ip_data_ ch' = ip_data_ ch.
Proof. unfold send_message. by destruct (AddUserMessage _ _ _ _ _) as [[room m]|]; [intros [= <- <- <-]|]. Qed.

(** C33: one vote per address and round.  A vote that changes the tally marks
    the voter's address; while the mark is there, votes of users with that
    address have no effect whatsoever; and the mark survives everything -
    people joining, settings changes, restarts - except the end of the vote
    and people leaving. *)
Theorem one_vote_per_address env vm ip :
  (∀ u yes vm' evs d, users_ vm.1 !! u = Some d → ip_address d = ip →
     Vote env u yes vm = Some (vm', evs) →
     (has_voted ip vm = true → vm' = vm ∧ evs = []) ∧
     (vm_votes vm'.2 ≠ vm_votes vm.2 → has_voted ip vm' = true)) ∧
  (∀ op vm' evs, (∀ u, op ≠ VRemoveUser u) → op ≠ VVoteHandler →
     vm_exec env op vm = Some (vm', evs) → has_voted ip vm = true → has_voted ip vm' = true).
Proof.
  split.
  - intros u yes vm' evs d Hu <- Hv. by destruct (Vote_flag env u yes vm vm' evs d Hu Hv).
  - intros op vm' evs Hr Hh Hex Hf. destruct (touches_channel op) eqn:Ht.
    + destruct op; try done; cbn [vm_exec] in Hex.
      * by eapply AddUser_flag.
      * by destruct (Hr u).
      * rewrite (callback_flag _ _ _ _ _ _ (update_username_leaves _ _ _) (update_username_ips _ _ _) Hex). exact Hf.
      * by injection Hex as <- _.
      * rewrite (callback_flag _ _ _ _ _ _ (send_message_leaves _ _ _ _) (send_message_ips _ _ _ _) Hex). exact Hf.
      * destruct (users_ vm.1 !! u) as [d|] eqn:Hu.
        -- destruct (Vote_flag env u voted_yes vm vm' evs d Hu Hex) as (Hother & Hsame & _).
           destruct (decide (ip = ip_address d)) as [->|Hne]; [by destruct (Hsame Hf) as [-> _]|].
           by rewrite Hother.
        -- unfold Vote, GetUserData in Hex. rewrite Hu in Hex. by simplify_eq.
    + unfold has_voted. by rewrite (vm_exec_channel env op vm vm' evs Ht Hex).
Qed.
(** ** No operation but a message changes the chat *)

Definition posts (op : vm_op) : bool := match op with VChatMessage _ _ _ _ => true | _ => false end.

Lemma OnVoteEvents_room env evs vm : chat_room_ (OnVoteEvents env evs vm).1.1 = chat_room_ vm.1.
Proof.
  revert vm. induction evs as [|ev evs IH]; intros vm; [done|]. cbn [OnVoteEvents].
  assert (chat_room_ (OnVoteEvent env ev vm).1.1 = chat_room_ vm.1) as Hev.
  { destruct ev; cbn [OnVoteEvent]; [done| |].
    - unfold OnVoteIdle. by case_match.
    - unfold OnVoteEnd, VmRestart. case_match; [done|]. destruct vote_passed; [destruct (negb (active_ vm.2)); done|done]. }
  destruct (OnVoteEvent env ev vm) as [vm1 e1]. specialize (IH vm1).
  destruct (OnVoteEvents env evs vm1). simpl in *. congruence.
Qed.

Lemma VmRemoveUser_room env u vm vm' evs :
  vm_wf vm → VmRemoveUser env u vm = Some (vm', evs) → chat_room_ vm'.1 = chat_room_ vm.1.
Proof.
  intros Hwf. unfold VmRemoveUser, GetUserChannel, remove_user.
  destruct (UserChannel.RemoveUser_ok (G := G) (S := S) (steady_now env) u vm.1 vm.2 (vw_channel _ Hwf))
    as (ch & b & acts & -> & _ & Hroom); [intros ch' _; apply Hwf|]. by intros [= <- _].
Qed.

Lemma Vote_room env u yes vm vm' evs :
  Vote env u yes vm = Some (vm', evs) → chat_room_ vm'.1 = chat_room_ vm.1.
Proof.
  unfold Vote. destruct (GetUserData _ _); [|by intros [= <- _]]. case_match; [by intros [= <- _]|].
  destruct (ip_data_ _ !! _) as [x|]; [|done]. cbn [mbind option_bind]. destruct (voted x); [by intros [= <- _]|].
  destruct (AddVote _ _ _ _ _ _) as [[[[] d'] v] e]; by intros [= <- _].
Qed.

Lemma vm_exec_room env op vm vm' evs :
  vm_wf vm → posts op = false → vm_exec env op vm = Some (vm', evs) → chat_room_ vm'.1 = chat_room_ vm.1.
Proof.
  intros Hwf Hp Hex. destruct (touches_channel op) eqn:Ht; [|by rewrite (vm_exec_channel env op vm vm' evs Ht Hex)].
  destruct op; try done; cbn [vm_exec] in Hex.
  - unfold VmAddUser, GetUserChannel, join_channel in Hex. destruct (GetChatHistory _); [|done]. cbn [mbind option_bind] in Hex.
    pose proof (AddUser_state (G := G) (S := S) (steady_now env) d u vm.1 vm.2) as Hst.
    destruct (AddUser _ _ _ _ _) as [ch acts]. simpl in Hst. subst ch. by injection Hex as <- _.
  - by eapply VmRemoveUser_room.
  - destruct (GetUserChannel_base _ _ _ _ _ (update_username_leaves u name type) Hex) as (_ & _ & acts & _ & Hc).
    revert Hc. unfold update_username. destruct (GetUserData u vm.1); by intros [= <- _].
  - by injection Hex as <- _.
  - by eapply Vote_room.
  - injection Hex as Hex. unfold VmRunVoteHandler in Hex. destruct (RunVoteHandler _ _ _) as [v e].
    pose proof (OnVoteEvents_room env e (vm.1, with_votes v vm.2)) as Hr. by rewrite Hex in Hr.
Qed.

Lemma vm_exec_chat env op name_len message_len vm vm' evs :
  vm_wf vm → vm_chat name_len message_len vm → vm_exec env op vm = Some (vm', evs) → vm_chat name_len message_len vm'.
Proof.
  intros Hwf (dtype & log & Hroom) Hex. destruct (posts op) eqn:Hp.
  - destruct op; try done. cbn [vm_exec] in Hex.
    destruct (GetUserChannel_base _ _ _ _ _ (send_message_leaves name type message timestamp) Hex) as (_ & _ & acts & _ & Hc).
    revert Hc. unfold send_message. pose (e := ChatEntry name type message timestamp).
    change (AddUserMessage name type message timestamp (chat_room_ vm.1)) with
      (AddUserMessage (entry_username e) (entry_user_type e) (entry_message e) (entry_timestamp e) (chat_room_ vm.1)).
    destruct (decide (String.length name ≤ name_len ∧ String.length message ≤ message_len)) as [Hfit|Hfit].
    + destruct (AddUserMessage_refines _ _ _ _ _ e Hroom Hfit) as (room & -> & _ & Href).
      intros Heq. injection Heq as Heq _. exists dtype, (log ++ [e]). by rewrite <-Heq.
    + by rewrite (AddUserMessage_too_long _ _ _ _ _ e Hroom Hfit).
  - exists dtype, log. by rewrite (vm_exec_room env op vm vm' evs Hwf Hp Hex).
Qed.

(** A machine whose configuration has one setting per field, in order, and
    whose chat room has slots of the given widths. *)
Definition vm_init (name_len message_len : nat) vm : Prop :=
  ∃ id type initial,
    settings_wf vm_fields_count (GetInitialSettings vm_fields_count vm_clear_value initial) ∧
    vm = vm_new id (chat_room_new name_len message_len type id) initial.
Definition vm_step vm vm' : Prop := ∃ env op evs, vm_exec env op vm = Some (vm', evs).

Lemma vm_reachable_wf name_len message_len vm :
  reachable (vm_init name_len message_len) vm_step vm → vm_wf vm ∧ vm_chat name_len message_len vm.
Proof.
  revert vm. apply reachable_invariant.
  - intros vm (id & type & initial & Hs & ->). split; [|exists type, []; apply refines_new]. split.
    + intros ip. apply Nat.le_0_l.
    + unfold vm_new. cbv zeta. cbn [snd vm_turns with_turns].
      match goal with |- turn_inv (SetTurnTime ?d ?t) =>
        exact (turn_exec_some 0 (op_SetTurnTime d) t _ turn_new_inv eq_refl) end.
    + apply vote_new_inv.
    + exact Hs.
  - intros vm vm' [Hwf Hchat] (env & op & evs & Hex). split; [|by eapply vm_exec_chat].
    pose proof (vm_exec_wf env op _ _ vm Hwf Hchat) as Ho. rewrite Hex in Ho. apply Ho.
Qed.

End VirtualMachine.

(** ** Concrete runs *)

Module AdminVmDemo.
#[local] Instance view_schema : GuacSchema guac_view := id.
#[local] Instance unit_client : GuacClientSchema unit guac_view := {
  client_which _ := C_OTHER; server_mouse _ _ _ _ := G_MOUSE; server_key _ _ _ := G_KEY }.
Definition env (t : Z) : rec_env := RecEnv t t false "now"%string true (λ _, true) true true.
Abbreviation state := (vm_state (T := list_timer) (U := nat) (G := guac_view) (V := demo_value)).
Abbreviation op := (vm_op (U := nat) (G := guac_view) (V := demo_value) (C := unit)).
Definition exec (t : Z) (o : op) (vm : state) :=
  vm_exec 5 (λ _, 8%Z) (λ _, 16%Z) (λ _, "1"%string) (λ _, ["hostname"%string]) (λ _, true)
    (λ _, []) (λ _, None) (env t) o vm.

Definition settings : list (setting demo_value) :=
  demo_settings [Setting 0 (VBool true); Setting 1 (VBool true); Setting 8 (VNum 30);
                 Setting 9 (VNum 60); Setting 15 (VText "start"); Setting 16 (VText "stop")].
Definition vm0 : state := vm_new 1 (chat_room_new 20 200 GUEST 1) settings.
Definition alice : UserData := MkUserData "alice" ADMIN [1%Z] no_vote_data.
Definition bob : UserData := MkUserData "bob" GUEST [1%Z] no_vote_data.
Definition run (l : list op) (vm : state) : state :=
  foldl (λ vm o, from_option fst vm (exec 0 o vm)) vm l.
Definition vm1 : state := run [VAddUser alice 1 false; VStart; VAddUser bob 2 false] vm0.

Definition initially : state → Prop := vm_init 20 200.
Definition steps : state → state → Prop :=
  vm_step 5 (λ _, 8%Z) (λ _, 16%Z) (λ _, "1"%string) (λ _, ["hostname"%string]) (λ _, true)
    (λ _, []) (λ _, None) (C := unit).

Lemma vm0_reachable : reachable initially steps vm0.
Proof.
  apply reachable_init. exists 1%Z, GUEST, settings. split; [|done].
  unfold GetInitialSettings. rewrite decide_True by done. apply demo_settings_wf.
Qed.

Definition queued : state := run [VAddUser alice 1 false; VRequestTurn 1] vm0.


Lemma vm0_wf : vm_wf vm0.
Proof.
  exact (proj1 (vm_reachable_wf 5 (λ _, 8%Z) (λ _, 16%Z) (λ _, "1"%string) (λ _, ["hostname"%string]) (λ _, true)
    (λ _, []) (λ _, None) 20 200 _ vm0_reachable)).
Qed.

(** Enabling turns with a turn time of zero is refused. *)
Lemma UpdateSettings_correct_witness :
  ∃ vm' evs, UpdateSettings (λ _, "1"%string) (λ _, ["hostname"%string]) (λ _, []) (C := unit) (env 0)
    [Setting 8 (VNum 0)] vm0 = Some (false, vm', evs) ∧ vm' = vm0 ∧ evs = [].
Proof.
  destruct (UpdateSettings (λ _, "1"%string) (λ _, ["hostname"%string]) (λ _, []) (C := unit) (env 0)
    [Setting 8 (VNum 0)] vm0) as [[[valid vm'] evs]|] eqn:E.
  - destruct (UpdateSettings_correct _ _ _ vm0 (env 0) _ valid vm' evs vm0_wf E) as [Hv Hres].
    vm_compute in Hv. injection Hv as <-. destruct Hres as [-> ->].
    exists vm0, []. split; [exact E|split; reflexivity].
  - by vm_compute in E.
Defined.

Definition after_stop : list (rec_env * op) := [(env 1, VRestart); (env 2, VOnStop)].

Lemma after_stop_no_start : Forall (λ p : rec_env * op, p.2 ≠ VStart) after_stop.
Proof. by repeat constructor. Qed.

Lemma stop_is_final_witness :
  ∃ vm' evs,
    vm_run 5 (λ _, 8%Z) (λ _, 16%Z) (λ _, "1"%string) (λ _, ["hostname"%string]) (λ _, true)
      (λ _, []) (λ _, None) after_stop
      (VmStop (λ _, []) (C := unit) (env 0) vm1).1 = Some (vm', evs) ∧
    avi_status (SetAdminVmInfo vm') = VM_STOPPED.
Proof.
  destruct (vm_run 5 _ _ _ _ _ _ _ _ _) as [[vm' evs]|] eqn:E.
  - exists vm', evs. split; [done|].
    apply (stop_is_final 5 (λ _, 8%Z) (λ _, 16%Z) (λ _, "1"%string) (λ _, ["hostname"%string]) (λ _, true)
      (λ _, []) (λ _, None) vm1 (env 0) after_stop vm' evs after_stop_no_start E).
    exists (env 2). by right; left.
  - by vm_compute in E.
Defined.

(** Bob shares alice's address, so his vote does not count. *)
Lemma one_vote_per_address_witness :
  let vm2 := run [VVote 1 true] vm1 in
  has_voted [1%Z] vm2 = true ∧ exec 0 (VVote 2 false) vm2 = Some (vm2, []).
Proof.
  intros vm2. assert (Hf : has_voted [1%Z] vm2 = true) by by vm_compute.
  split; [exact Hf|].
  destruct (exec 0 (VVote 2 false) vm2) as [[vm' evs]|] eqn:E.
  - destruct (proj1 (one_vote_per_address 5 (λ _, 8%Z) (λ _, 16%Z) (λ _, "1"%string) (λ _, ["hostname"%string]) (λ _, true)
      (λ _, []) (λ _, None) (C := unit) (env 0) vm2 [1%Z]) 2 false vm' evs bob ltac:(by vm_compute) eq_refl E) as [Hs _].
    by destruct (Hs Hf) as [-> ->].
  - by vm_compute in E.
Defined.
End AdminVmDemo.
