(* ===== verification/VmList.v ===== *)
(** * The list of virtual machines (CollabVmServer::VirtualMachinesList)

    The machines by identifier, the two lists that are broadcast to the
    clients that look at them - public information of the active machines, and
    the administrators' information of all - and the thumbnails.  The lists
    are refreshed in two ways: [UpdateVirtualMachineInfo] asks one machine,
    [UpdateVirtualMachineInfoList] asks all of them and rebuilds the lists
    when the last answer has arrived.  The answers arrive later, as separate
    steps ([OnVmInfo], [OnBulkVmInfo]), with whatever happened in between. *)

From S2P Require Import Prelude Messages UserChannel.
From Stdlib Require Import String.

(** ** ResizableList

    [None] where the source indexes a list out of range or an assertion
    fails. *)
Section ResizableList.
Context {A : Type}.
Implicit Types (l : list A) (predicate : A → bool).

Definition AddElement l (new_element : A) : list A := l ++ [new_element].

Definition RemoveFirst predicate l : option (list A) :=
  let kept := List.filter (λ x, negb (predicate x)) l in
  if decide (S (List.length kept) = List.length l) then Some kept else None.

Definition UpdateElement predicate (new_element : A) l : list A :=
  (λ x, if predicate x then new_element else x) <$> l.

(** [initList(capacity)]: default elements. *)
Definition ResetList (default_element : A) (capacity : nat) : list A :=
  replicate capacity default_element.

(** [setWithCaveats(i, x)] *)
Definition set_element (i : nat) (x : A) l : option (list A) :=
  if decide (i < List.length l) then Some (<[i := x]> l) else None.
End ResizableList.

Definition default_admin_vm_info : AdminVmInfo := MkAdminVmInfo 0 EmptyString VM_STOPPED.
Definition default_vm_info : VmInfo :=
  MkVmInfo 0 EmptyString EmptyString EmptyString false false 0 0 false 0.

(** What [SetVmInfo] has put into the producer. *)
Record vm_info_producer := VmInfoProducer {
  admin_vm_info : option AdminVmInfo;
  vm_info : option VmInfo;
  png_bytes : list Z
}.

Section VirtualMachinesList.
Context {U : Type} `{Countable U} {G S VM : Type}.
Abbreviation msg := (server_message G S).
Abbreviation act := (action U msg).

(** [AdminVm]; [am_object] tells machines that have had the same identifier
    apart, as the pending requests hold on to the object. *)
Record admin_vm := AdminVm {
  am_object : nat;
  am_vm : VM;
  has_vm_info : bool;
  pending_admin_vm_info : option AdminVmInfo;
  pending_vm_info : option VmInfo
}.

Record vm_list := VmList {
  admin_virtual_machines_ : gmap Z admin_vm;
  next_object : nat;
  vm_info_list_ : list VmInfo;
  admin_vm_info_list_ : list AdminVmInfo;
  vm_list_viewers_ : list U;
  admin_vm_list_viewers_ : list U;
  thumbnails_ : gmap Z (list Z);
  pending_vm_info_requests_ : nat;
  pending_vm_info_updates_ : nat
}.
Implicit Types (l : vm_list) (u : U) (v : admin_vm).

Definition vm_list_new : vm_list := VmList ∅ 0 [] [] [] [] ∅ 0 0.

Definition with_machines (m : gmap Z admin_vm) l : vm_list :=
  VmList m (next_object l) (vm_info_list_ l) (admin_vm_info_list_ l) (vm_list_viewers_ l)
    (admin_vm_list_viewers_ l) (thumbnails_ l) (pending_vm_info_requests_ l) (pending_vm_info_updates_ l).
Definition with_vm_info_list (x : list VmInfo) l : vm_list :=
  VmList (admin_virtual_machines_ l) (next_object l) x (admin_vm_info_list_ l) (vm_list_viewers_ l)
    (admin_vm_list_viewers_ l) (thumbnails_ l) (pending_vm_info_requests_ l) (pending_vm_info_updates_ l).
Definition with_admin_list (x : list AdminVmInfo) l : vm_list :=
  VmList (admin_virtual_machines_ l) (next_object l) (vm_info_list_ l) x (vm_list_viewers_ l)
    (admin_vm_list_viewers_ l) (thumbnails_ l) (pending_vm_info_requests_ l) (pending_vm_info_updates_ l).
Definition with_viewers (x : list U) l : vm_list :=
  VmList (admin_virtual_machines_ l) (next_object l) (vm_info_list_ l) (admin_vm_info_list_ l) x
    (admin_vm_list_viewers_ l) (thumbnails_ l) (pending_vm_info_requests_ l) (pending_vm_info_updates_ l).
Definition with_admin_viewers (x : list U) l : vm_list :=
  VmList (admin_virtual_machines_ l) (next_object l) (vm_info_list_ l) (admin_vm_info_list_ l)
    (vm_list_viewers_ l) x (thumbnails_ l) (pending_vm_info_requests_ l) (pending_vm_info_updates_ l).
Definition with_thumbnails (x : gmap Z (list Z)) l : vm_list :=
  VmList (admin_virtual_machines_ l) (next_object l) (vm_info_list_ l) (admin_vm_info_list_ l)
    (vm_list_viewers_ l) (admin_vm_list_viewers_ l) x (pending_vm_info_requests_ l) (pending_vm_info_updates_ l).
Definition with_pending (requests updates : nat) l : vm_list :=
  VmList (admin_virtual_machines_ l) (next_object l) (vm_info_list_ l) (admin_vm_info_list_ l)
    (vm_list_viewers_ l) (admin_vm_list_viewers_ l) (thumbnails_ l) requests updates.

Definition SetPendingVmInfo (a : option AdminVmInfo) (i : option VmInfo) v : admin_vm :=
  AdminVm (am_object v) (am_vm v) (has_vm_info v) a i.
Definition HasPendingAdminVmInfo v : bool := bool_decide (is_Some (pending_admin_vm_info v)).
Definition HasPendingVmInfo v : bool := bool_decide (is_Some (pending_vm_info v)).
Definition FreeVmInfo v : admin_vm := SetPendingVmInfo None None v.
Definition set_has_vm_info (b : bool) v : admin_vm :=
  AdminVm (am_object v) (am_vm v) b (pending_admin_vm_info v) (pending_vm_info v).
Definition set_vm (x : VM) v : admin_vm :=
  AdminVm (am_object v) x (has_vm_info v) (pending_admin_vm_info v) (pending_vm_info v).

Definition GetAdminVirtualMachine (id : Z) l : option VM :=
  am_vm <$> admin_virtual_machines_ l !! id.

(** Writing back a machine that a handler has changed. *)
Definition SetAdminVirtualMachine (id : Z) (x : VM) l : vm_list :=
  with_machines (alter (set_vm x) id (admin_virtual_machines_ l)) l.

(** [info] is what the machine's constructor writes into the new element. *)
Definition AddAdminVirtualMachine (id : Z) (x : VM) (info : AdminVmInfo) l : option vm_list :=
  match admin_virtual_machines_ l !! id with
  | Some _ => None
  | None =>
      Some (VmList (<[id := AdminVm (next_object l) x false None None]> (admin_virtual_machines_ l))
        (Datatypes.S (next_object l)) (vm_info_list_ l) (AddElement (admin_vm_info_list_ l) info)
        (vm_list_viewers_ l) (admin_vm_list_viewers_ l) (thumbnails_ l)
        (pending_vm_info_requests_ l) (pending_vm_info_updates_ l))
  end.

(** The machine that is removed is returned: the caller stops it and clears
    its channel first. *)
Definition RemoveAdminVirtualMachine (id : Z) l : option (option VM * vm_list) :=
  match admin_virtual_machines_ l !! id with
  | None => Some (None, l)
  | Some v =>
      admins ← RemoveFirst (λ info, Z.eqb (avi_id info) id) (admin_vm_info_list_ l);
      Some (Some (am_vm v),
            with_admin_list admins (with_machines (delete id (admin_virtual_machines_ l)) l))
  end.

(** ** Viewers *)

Definition AdminListMessage l : msg := MReadVmsResponse (admin_vm_info_list_ l).
Definition VmListMessage l : msg := MVmListResponse (vm_info_list_ l).
Definition GetThumbnailMessages l : list msg :=
  (λ p, MVmThumbnail p.1 p.2) <$> map_to_list (thumbnails_ l).

Definition SendAdminVmList u l : list act := [Queue u (AdminListMessage l)].
Definition SendThumbnails u l : list act := Queue u <$> VmListMessage l :: GetThumbnailMessages l.

Definition AddVmListViewer u l : vm_list * list act :=
  (with_viewers (vm_list_viewers_ l ++ [u]) l, SendThumbnails u l).
Definition AddAdminVmListViewer u l : vm_list * list act :=
  (with_admin_viewers (admin_vm_list_viewers_ l ++ [u]) l, [Queue u (AdminListMessage l)]).

(** [vector::erase(std::find(...))]: the first occurrence. *)
Fixpoint erase_first u (viewers : list U) : list U :=
  match viewers with
  | [] => []
  | w :: viewers => if decide (w = u) then viewers else w :: erase_first u viewers
  end.

Definition RemoveVmListViewer u l : vm_list := with_viewers (erase_first u (vm_list_viewers_ l)) l.
Definition RemoveAdminVmListViewer u l : vm_list :=
  with_admin_viewers (erase_first u (admin_vm_list_viewers_ l)) l.

Definition BroadcastToViewingAdmins (m : msg) l : list act :=
  (λ u, Queue u m) <$> admin_vm_list_viewers_ l.

Definition BroadcastToViewingAdminsExcluding (m : msg) (exclude : U) l : list act :=
  let viewers := admin_vm_list_viewers_ l in
  if decide (viewers = []) then []
  else if decide (viewers = [exclude]) then []
  else viewers ≫= λ u, if decide (u = exclude) then [] else [Queue u m].

(** ** Refreshing the lists *)

(** The bulk request: the machines that are asked. *)
Definition UpdateVirtualMachineInfoList l : vm_list * list (Z * nat) :=
  if decide (pending_vm_info_requests_ l ≠ 0) then (l, [])
  else
    let asked := (λ p, (p.1, am_object p.2)) <$> map_to_list (admin_virtual_machines_ l) in
    (with_pending (size (admin_virtual_machines_ l)) 0 l, asked).

Definition update_thumbnail (id : Z) (png : list Z) l : vm_list :=
  match png with
  | [] => l
  | _ => with_thumbnails (<[id := png]> (thumbnails_ l)) l
  end.

(** What the loop does to every machine. *)
Definition finish_vm_info v : admin_vm := FreeVmInfo (set_has_vm_info (HasPendingVmInfo v) v).

(** The loop that fills the lists: [machines] are those still to come. *)
Fixpoint collect_infos (machines : list admin_vm) (i j : nat)
    (admins : list AdminVmInfo) (infos : list VmInfo)
    : option (list AdminVmInfo * list VmInfo * nat) :=
  match machines with
  | [] => Some (admins, infos, j)
  | v :: machines =>
      '(i, admins) ←
        match pending_admin_vm_info v with
        | Some a => admins ← set_element i a admins; Some (Datatypes.S i, admins)
        | None => Some (i, admins)
        end;
      '(j, infos) ←
        match pending_vm_info v with
        | Some x => infos ← set_element j x infos; Some (Datatypes.S j, infos)
        | None => Some (j, infos)
        end;
      collect_infos machines i j admins infos
  end.

(** One answer is stored in the machine [id], if it is still the [object]
    that was asked; [None] if no answer was expected. *)
Definition TakeBulkAnswer (id : Z) (object : nat) (p : vm_info_producer) l : option vm_list :=
  let l := update_thumbnail id (png_bytes p) l in
  let updates := pending_vm_info_updates_ l + match vm_info p with Some _ => 1 | None => 0 end in
  let set_pending v :=
    if decide (am_object v = object) then SetPendingVmInfo (admin_vm_info p) (vm_info p) v else v in
  let l := with_machines (alter set_pending id (admin_virtual_machines_ l)) l in
  match pending_vm_info_requests_ l with
  | 0 => None
  | Datatypes.S requests => Some (with_pending requests updates l)
  end.

(** What the last answer triggers. *)
Definition FinishBulkUpdate l : option (vm_list * list act) :=
  let machines := admin_virtual_machines_ l in
  '(admins, infos, j) ←
    collect_infos ((map_to_list machines).*2) 0 0
      (ResetList default_admin_vm_info (size machines))
      (ResetList default_vm_info (pending_vm_info_updates_ l));
  if decide (j = List.length infos) then
    let l := with_machines (finish_vm_info <$> machines) (with_vm_info_list infos (with_admin_list admins l)) in
    let viewers := vm_list_viewers_ l ≫= λ u, Queue u <$> VmListMessage l :: GetThumbnailMessages l in
    Some (l, viewers ++ BroadcastToViewingAdmins (AdminListMessage l) l)
  else None.

Definition OnBulkVmInfo (id : Z) (object : nat) (p : vm_info_producer) l : option (vm_list * list act) :=
  l ← TakeBulkAnswer id object p l;
  if decide (pending_vm_info_requests_ l ≠ 0) then Some (l, []) else FinishBulkUpdate l.

(** The answer to [UpdateVirtualMachineInfo]; [operator[]] of a machine that
    is gone inserts a null pointer, which is dereferenced. *)
Definition OnVmInfo (vm_id : Z) (p : vm_info_producer) l : option (vm_list * list act) :=
  vm_data ← admin_virtual_machines_ l !! vm_id;
  if HasPendingAdminVmInfo vm_data then
    Some (with_machines (<[vm_id := SetPendingVmInfo (admin_vm_info p) (vm_info p) vm_data]>
            (admin_virtual_machines_ l)) l, [])
  else
    info ← admin_vm_info p;
    let l := with_admin_list
      (UpdateElement (λ i, Z.eqb (avi_id i) vm_id) info (admin_vm_info_list_ l)) l in
    let admin_msgs := BroadcastToViewingAdmins (AdminListMessage l) l in
    let predicate i := Z.eqb (vi_id i) vm_id && String.eqb (vi_host i) EmptyString in
    let set_has b l :=
      with_machines (<[vm_id := set_has_vm_info b vm_data]> (admin_virtual_machines_ l)) l in
    let broadcast l := (l, admin_msgs ++ ((λ u, Queue u (VmListMessage l)) <$> vm_list_viewers_ l)) in
    if has_vm_info vm_data then
      match vm_info p with
      | None =>
          infos ← RemoveFirst predicate (vm_info_list_ l);
          Some (broadcast (set_has false (with_vm_info_list infos l)))
      | Some x => Some (broadcast (with_vm_info_list (UpdateElement predicate x (vm_info_list_ l)) l))
      end
    else
      match vm_info p with
      | None => Some (l, admin_msgs)
      | Some x => Some (broadcast (set_has true (with_vm_info_list (AddElement (vm_info_list_ l) x) l)))
      end.

(** ** A bulk refresh *)

(** The answers arrive in some order; the actions of all of them. *)
Fixpoint run_bulk (answers : Z → vm_info_producer) (order : list (Z * nat)) l
    : option (vm_list * list act) :=
  match order with
  | [] => Some (l, [])
  | (id, object) :: order =>
      '(l, acts) ← OnBulkVmInfo id object (answers id) l;
      '(l, acts') ← run_bulk answers order l;
      Some (l, acts ++ acts')
  end.

Lemma set_element_app {A} (pre : list A) x y rest :
  set_element (List.length pre) y (pre ++ x :: rest) = Some (pre ++ y :: rest).
Proof.
  unfold set_element. rewrite decide_True by (rewrite length_app; simpl; lia).
  by rewrite insert_app_r_alt, Nat.sub_diag by lia.
Qed.

Lemma collect_infos_spec ms pa ra pi ri :
  (∀ v, In v ms → is_Some (pending_admin_vm_info v)) →
  List.length ra = List.length ms → List.length ri = List.length (omap pending_vm_info ms) →
  collect_infos ms (List.length pa) (List.length pi) (pa ++ ra) (pi ++ ri) =
    Some (pa ++ omap pending_admin_vm_info ms, pi ++ omap pending_vm_info ms,
          List.length pi + List.length (omap pending_vm_info ms)).
Proof.
  revert pa ra pi ri. induction ms as [|v ms IH]; intros pa ra pi ri Hall Hra Hri; simpl in *.
  { destruct ra, ri; try done. by rewrite !app_nil_r, Nat.add_0_r. }
  destruct ra as [|x ra]; [done|]. destruct (Hall v (or_introl eq_refl)) as [a Ha]. rewrite Ha.
  rewrite set_element_app. simpl.
  replace (Datatypes.S (List.length pa)) with (List.length (pa ++ [a])) by (rewrite length_app; simpl; lia).
  replace (pa ++ a :: ra) with ((pa ++ [a]) ++ ra) by by rewrite <-app_assoc.
  destruct (pending_vm_info v) as [y|].
  - destruct ri as [|z ri]; [done|]. rewrite set_element_app. simpl.
    replace (Datatypes.S (List.length pi)) with (List.length (pi ++ [y])) by (rewrite length_app; simpl; lia).
    replace (pi ++ y :: ri) with ((pi ++ [y]) ++ ri) by by rewrite <-app_assoc.
    rewrite IH by (simpl in *; first [lia|auto]). rewrite <-!app_assoc, length_app. simpl.
    by rewrite <-Nat.add_assoc.
  - simpl. rewrite IH by (simpl in *; first [lia|auto]). by rewrite <-app_assoc.
Qed.

(** The state when the machines [got] have answered. *)
Record bulk_inv (answers : Z → vm_info_producer) (machines : gmap Z admin_vm) (got : list Z) l0 l : Prop := {
  bi_machines id : admin_virtual_machines_ l !! id =
    (λ v, if decide (id ∈ got) then SetPendingVmInfo (admin_vm_info (answers id)) (vm_info (answers id)) v
          else v) <$> machines !! id;
  bi_requests : pending_vm_info_requests_ l + List.length got = size machines;
  bi_updates : pending_vm_info_updates_ l = List.length (omap (λ id, vm_info (answers id)) got);
  bi_viewers : vm_list_viewers_ l = vm_list_viewers_ l0;
  bi_admins : admin_vm_list_viewers_ l = admin_vm_list_viewers_ l0
}.

Lemma update_thumbnail_same id png l :
  admin_virtual_machines_ (update_thumbnail id png l) = admin_virtual_machines_ l ∧
  pending_vm_info_requests_ (update_thumbnail id png l) = pending_vm_info_requests_ l ∧
  pending_vm_info_updates_ (update_thumbnail id png l) = pending_vm_info_updates_ l ∧
  vm_list_viewers_ (update_thumbnail id png l) = vm_list_viewers_ l ∧
  admin_vm_list_viewers_ (update_thumbnail id png l) = admin_vm_list_viewers_ l.
Proof. by destruct png. Qed.

Lemma length_omap_snoc {A B} (f : A → option B) (l : list A) x :
  List.length (omap f (l ++ [x])) = List.length (omap f l) + match f x with Some _ => 1 | None => 0 end.
Proof. rewrite omap_app, length_app. simpl. by destruct (f x). Qed.

Lemma bulk_inv_step answers machines got l0 l id v :
  bulk_inv answers machines got l0 l → machines !! id = Some v → id ∉ got →
  List.length got < size machines →
  ∃ l', TakeBulkAnswer id (am_object v) (answers id) l = Some l' ∧
    bulk_inv answers machines (got ++ [id]) l0 l'.
Proof.
  intros [Hm Hr Hu Hv Ha] Hid Hnew Hlt. unfold TakeBulkAnswer. cbv zeta.
  destruct (update_thumbnail_same id (png_bytes (answers id)) l) as (Em & Er & Eu & Ev & Ea).
  cbn [pending_vm_info_requests_ with_machines]. rewrite Er.
  destruct (pending_vm_info_requests_ l) as [|requests] eqn:Hreq; [simpl in Hr; lia|].
  eexists. split; [done|]. split; simpl; try congruence.
  - intros id'. rewrite Em. destruct (decide (id' = id)) as [->|Hne].
    + rewrite lookup_alter_eq, Hm, Hid. simpl.
      rewrite (decide_False (P := id ∈ got)) by done.
      rewrite decide_True by done. by rewrite decide_True by set_solver.
    + rewrite lookup_alter_ne by done. rewrite Hm.
      destruct (machines !! id') as [w|]; [|done]. simpl. f_equal.
      destruct (decide (id' ∈ got)); [by rewrite decide_True by set_solver|].
      by rewrite decide_False by set_solver.
  - rewrite length_app. simpl. lia.
  - rewrite length_omap_snoc, Eu, Hu. done.
Qed.

Lemma omap_Perm {A B} (f : A → option B) (l1 l2 : list A) : l1 ≡ₚ l2 → omap f l1 ≡ₚ omap f l2.
Proof. by intros ->. Qed.

Lemma omap_fmap_fst {A B D} (f : A → option D) (g : B → option D) (l : list (A * B)) :
  (∀ p, In p l → g p.2 = f p.1) → omap g (l.*2) = omap f (l.*1).
Proof.
  induction l as [|p l IH]; intros Hl; [done|]. cbn [fmap list_fmap omap list_omap].
  rewrite (Hl p (or_introl eq_refl)). destruct (f p.1); [f_equal|]; apply IH; auto with datatypes.
Qed.

Definition ids (m : gmap Z admin_vm) : list Z := (map_to_list m).*1.

Lemma ids_NoDup m : NoDup (ids m).
Proof. apply NoDup_fst_map_to_list. Qed.

Lemma elem_of_ids id m : id ∈ ids m ↔ is_Some (m !! id).
Proof.
  unfold ids. rewrite list_elem_of_fmap. split.
  - intros ([i v] & -> & Hin%elem_of_map_to_list). by exists v.
  - intros [v Hv]. exists (id, v). split; [done|]. by apply elem_of_map_to_list.
Qed.

Lemma length_ids m : List.length (ids m) = size m.
Proof. unfold ids. by rewrite length_fmap, length_map_to_list. Qed.

Lemma FinishBulkUpdate_spec answers machines got l0 l :
  (∀ id, is_Some (admin_vm_info (answers id))) →
  bulk_inv answers machines got l0 l → got ≡ₚ ids machines →
  ∃ l' acts, FinishBulkUpdate l = Some (l', acts) ∧
    admin_vm_info_list_ l' ≡ₚ omap (λ id, admin_vm_info (answers id)) (ids machines) ∧
    vm_info_list_ l' ≡ₚ omap (λ id, vm_info (answers id)) (ids machines) ∧
    (∀ id, admin_virtual_machines_ l' !! id =
      (λ v, AdminVm (am_object v) (am_vm v) (bool_decide (is_Some (vm_info (answers id)))) None None)
        <$> machines !! id) ∧
    pending_vm_info_requests_ l' = 0 ∧
    acts = (vm_list_viewers_ l0 ≫= λ u, Queue u <$> VmListMessage l' :: GetThumbnailMessages l') ++
           ((λ u, Queue u (AdminListMessage l')) <$> admin_vm_list_viewers_ l0).
Proof.
  intros Hans [Hm Hr Hu Hv Ha] Hgot.
  assert (Hall : ∀ id, is_Some (machines !! id) → id ∈ got).
  { intros id Hid. rewrite Hgot. by apply elem_of_ids. }
  assert (Hm' : ∀ id, admin_virtual_machines_ l !! id =
    SetPendingVmInfo (admin_vm_info (answers id)) (vm_info (answers id)) <$> machines !! id).
  { intros id. rewrite Hm. destruct (machines !! id) as [v|] eqn:Hid; [|done]. simpl.
    rewrite decide_True; [done|]. apply Hall. by exists v. }
  assert (Hids : ids (admin_virtual_machines_ l) ≡ₚ ids machines).
  { apply list.NoDup_Permutation; [apply ids_NoDup..|]. intros id. rewrite !elem_of_ids, Hm'.
    by rewrite fmap_is_Some. }
  assert (Hp : ∀ p, In p (map_to_list (admin_virtual_machines_ l)) →
    pending_admin_vm_info p.2 = admin_vm_info (answers p.1) ∧ pending_vm_info p.2 = vm_info (answers p.1)).
  { intros [id v] Hin%list_elem_of_In%elem_of_map_to_list. rewrite Hm' in Hin.
    apply fmap_Some in Hin as (w & _ & ->). done. }
  set (ms := (map_to_list (admin_virtual_machines_ l)).*2).
  assert (Hadm : omap pending_admin_vm_info ms ≡ₚ omap (λ id, admin_vm_info (answers id)) (ids machines)).
  { unfold ms. rewrite (omap_fmap_fst (λ id, admin_vm_info (answers id))) by (intros p Hin; by apply Hp).
    by apply omap_Perm. }
  assert (Hinf : omap pending_vm_info ms ≡ₚ omap (λ id, vm_info (answers id)) (ids machines)).
  { unfold ms. rewrite (omap_fmap_fst (λ id, vm_info (answers id))) by (intros p Hin; by apply Hp).
    by apply omap_Perm. }
  assert (Hlen : pending_vm_info_updates_ l = List.length (omap pending_vm_info ms)).
  { rewrite Hu. apply Permutation_length. rewrite Hinf. by apply omap_Perm. }
  unfold FinishBulkUpdate. fold ms.
  pose proof (collect_infos_spec ms []
    (ResetList default_admin_vm_info (size (admin_virtual_machines_ l))) []
    (ResetList default_vm_info (pending_vm_info_updates_ l))) as Hcol.
  cbn [List.length app Nat.add] in Hcol. rewrite Hcol; clear Hcol.
  - cbn [mbind option_bind]. rewrite decide_True by done.
    eexists _, _. split; [done|]. simpl. split_and!; [done|done| | |].
    + intros id. rewrite lookup_fmap, Hm'. by destruct (machines !! id).
    + apply (f_equal (Nat.add 0)) in Hr. simpl in Hr.
      rewrite (Permutation_length Hgot), length_ids in Hr. lia.
    + unfold BroadcastToViewingAdmins. simpl. by rewrite Hv, Ha.
  - intros v Hin. unfold ms in Hin. apply List.in_map_iff in Hin as (p & <- & Hin).
    destruct (Hp p Hin) as [-> _]. apply Hans.
  - unfold ResetList. rewrite length_replicate. unfold ms. by rewrite length_fmap, length_map_to_list.
  - unfold ResetList. by rewrite length_replicate.
Qed.

Lemma run_bulk_spec answers machines got l0 l order :
  (∀ id, is_Some (admin_vm_info (answers id))) →
  bulk_inv answers machines got l0 l → order ≠ [] →
  got ++ order.*1 ≡ₚ ids machines →
  (∀ p, In p order → ∃ v, machines !! p.1 = Some v ∧ am_object v = p.2) →
  ∃ l1 l' acts, bulk_inv answers machines (got ++ order.*1) l0 l1 ∧
    FinishBulkUpdate l1 = Some (l', acts) ∧ run_bulk answers order l = Some (l', acts).
Proof.
  intros Hans Hinv Hne Hperm Hobj. revert got l Hinv Hperm.
  induction order as [|[id object] order IH]; intros got l Hinv Hperm; [done|]. clear Hne.
  rewrite fmap_cons in *. cbn [fst] in Hperm |- *.
  assert (Hnd : NoDup (got ++ id :: order.*1)) by (rewrite Hperm; apply ids_NoDup).
  assert (Hlen : List.length (got ++ id :: order.*1) = size machines)
    by (rewrite (Permutation_length Hperm); apply length_ids).
  rewrite length_app in Hlen. simpl in Hlen.
  destruct (Hobj (id, object) (or_introl eq_refl)) as (v & Hv & Hob). simpl in Hv, Hob. subst object.
  apply list.NoDup_app in Hnd as (_ & Hdis & _).
  destruct (bulk_inv_step answers machines got l0 l id v Hinv Hv) as (l1 & Htake & Hinv1).
  { intros Hin. apply (Hdis id Hin). by left. }
  { lia. }
  assert (Hreq : pending_vm_info_requests_ l1 = List.length order).
  { pose proof (bi_requests _ _ _ _ _ Hinv1) as Hr. rewrite length_app in Hr. simpl in Hr.
    rewrite length_fmap in Hlen. lia. }
  assert (Hassoc : got ++ id :: order.*1 = (got ++ [id]) ++ order.*1) by by rewrite <-app_assoc.
  cbn [run_bulk]. unfold OnBulkVmInfo. rewrite Htake. cbn [mbind option_bind]. rewrite Hreq.
  destruct order as [|p order].
  - simpl. simpl in Hperm.
    destruct (FinishBulkUpdate_spec answers machines (got ++ [id]) l0 l1 Hans Hinv1 Hperm)
      as (l' & acts & Hfin & _).
    exists l1, l', acts. rewrite Hfin. simpl. by rewrite app_nil_r.
  - rewrite decide_True by done. cbn [mbind option_bind].
    destruct (IH ltac:(done) ltac:(intros q Hq; apply Hobj; by right) (got ++ [id]) l1 Hinv1)
      as (l2 & l' & acts & Hinv2 & Hfin & Hrun); [by rewrite <-Hassoc|].
    exists l2, l', acts. rewrite Hassoc, Hrun. done.
Qed.

(** *** Properties *)

(** C34: a bulk refresh that nothing interferes with is exact.  Whatever the
    order in which the machines answer, nothing is sent before the last
    answer; then the administrators' list has exactly the information of
    every machine, the public list that of the active ones, every machine is
    marked accordingly, and every client that looks at a list is sent it. *)
Theorem bulk_refresh_exact answers l order :
  pending_vm_info_requests_ l = 0 → admin_virtual_machines_ l ≠ ∅ →
  (∀ id, is_Some (admin_vm_info (answers id))) →
  order ≡ₚ (UpdateVirtualMachineInfoList l).2 →
  ∃ l' acts, run_bulk answers order (UpdateVirtualMachineInfoList l).1 = Some (l', acts) ∧
    admin_vm_info_list_ l' ≡ₚ
      omap (λ id, admin_vm_info (answers id)) (ids (admin_virtual_machines_ l)) ∧
    vm_info_list_ l' ≡ₚ omap (λ id, vm_info (answers id)) (ids (admin_virtual_machines_ l)) ∧
    (∀ id, admin_virtual_machines_ l' !! id =
      (λ v, AdminVm (am_object v) (am_vm v) (bool_decide (is_Some (vm_info (answers id)))) None None)
        <$> admin_virtual_machines_ l !! id) ∧
    pending_vm_info_requests_ l' = 0 ∧
    acts = (vm_list_viewers_ l ≫= λ u, Queue u <$> VmListMessage l' :: GetThumbnailMessages l') ++
           ((λ u, Queue u (AdminListMessage l')) <$> admin_vm_list_viewers_ l).
Proof.
  intros Hp Hne Hans. unfold UpdateVirtualMachineInfoList. rewrite Hp, decide_False by (by intros []).
  set (asked := _ <$> map_to_list _). set (l1 := with_pending _ _ l). intros Horder. cbn [fst snd] in *.
  assert (Hasked : asked.*1 = ids (admin_virtual_machines_ l)).
  { unfold asked, ids. rewrite <-list_fmap_compose. done. }
  assert (Hinv : bulk_inv answers (admin_virtual_machines_ l) [] l l1).
  { split; simpl; try done; try lia. intros id. by destruct (admin_virtual_machines_ l !! id). }
  destruct (run_bulk_spec answers (admin_virtual_machines_ l) [] l l1 order Hans Hinv)
    as (l2 & l' & acts & Hinv2 & Hfin & Hrun).
  - intros ->. apply Permutation_nil_l in Horder.
    assert (Hnil : asked = []) by congruence.
    apply Hne. apply map_size_empty_inv. rewrite <-length_ids, <-Hasked. by rewrite Hnil.
  - simpl. by rewrite Horder, Hasked.
  - intros p Hin%list_elem_of_In. rewrite Horder in Hin. unfold asked in Hin.
    apply list_elem_of_fmap in Hin as ([id v] & -> & Hin%elem_of_map_to_list). by exists v.
  - destruct (FinishBulkUpdate_spec answers (admin_virtual_machines_ l) _ l l2 Hans Hinv2) as (l3 & acts3 & Hfin3 & Hrest).
    { simpl. by rewrite Horder, Hasked. }
    rewrite Hfin in Hfin3. simplify_eq. by exists l3, acts3.
Qed.

(** ** Refreshing one machine *)

Definition listed (m : gmap Z admin_vm) : list Z :=
  omap (λ p, if has_vm_info p.2 then Some p.1 else None) (map_to_list m).

Lemma elem_of_listed id m : id ∈ listed m ↔ ∃ v, m !! id = Some v ∧ has_vm_info v = true.
Proof.
  unfold listed. rewrite list_elem_of_omap. split.
  - intros ([i v] & Hin%elem_of_map_to_list & Hx). simpl in Hx.
    destruct (has_vm_info v) eqn:Hv; [|done]. simplify_eq. by exists v.
  - intros (v & Hm & Hv). exists (id, v). split; [by apply elem_of_map_to_list|]. simpl. by rewrite Hv.
Qed.

(** Both lists show exactly the machines they should, once each. *)
Record lists_wf l : Prop := {
  lw_admin : NoDup (avi_id <$> admin_vm_info_list_ l);
  lw_admin_ids : ∀ id, id ∈ avi_id <$> admin_vm_info_list_ l ↔ is_Some (admin_virtual_machines_ l !! id);
  lw_info : NoDup (vi_id <$> vm_info_list_ l);
  lw_info_ids : ∀ id, id ∈ vi_id <$> vm_info_list_ l ↔ id ∈ listed (admin_virtual_machines_ l);
  lw_host : ∀ i, i ∈ vm_info_list_ l → vi_host i = EmptyString
}.

Lemma update_element_map {A} (f : A → Z) predicate y id (l : list A) :
  (∀ x, x ∈ l → predicate x = true ↔ f x = id) → f y = id →
  f <$> UpdateElement predicate y l = f <$> l ∧
  (∀ x, x ∈ UpdateElement predicate y l ↔ (x = y ∧ id ∈ f <$> l) ∨ (x ∈ l ∧ f x ≠ id)).
Proof.
  intros Hp Hy. unfold UpdateElement. split.
  - rewrite <-list_fmap_compose. apply list_fmap_ext. intros i x Hx. simpl.
    apply list_elem_of_lookup_2, Hp in Hx. destruct (predicate x); [|done].
    rewrite Hy. symmetry. by apply Hx.
  - intros x. rewrite list_elem_of_fmap. split.
    + intros (z & -> & Hz). destruct (predicate z) eqn:Hpz.
      * left. split; [done|]. apply list_elem_of_fmap. exists z. split; [symmetry; by apply Hp|done].
      * right. split; [done|]. intros Hf%(Hp z Hz). congruence.
    + intros [[-> (z & Hz & Hin)%list_elem_of_fmap]|[Hin Hne]].
      * exists z. split; [|done]. by rewrite (proj2 (Hp z Hin) (eq_sym Hz)).
      * exists x. split; [|done]. destruct (predicate x) eqn:Hpx; [|done]. by apply Hp in Hpx.
Qed.

Lemma remove_first_once {A} (f : A → Z) predicate id (l : list A) :
  (∀ x, x ∈ l → predicate x = true ↔ f x = id) → NoDup (f <$> l) → id ∈ f <$> l →
  ∃ l' : list A, RemoveFirst predicate l = Some l' ∧ NoDup (f <$> l') ∧
    (∀ x, x ∈ l' ↔ x ∈ l ∧ f x ≠ id).
Proof.
  intros Hp Hnd Hin. unfold RemoveFirst.
  set (kept := List.filter (λ x, negb (predicate x)) l).
  assert (Hkept : ∀ x, x ∈ kept ↔ x ∈ l ∧ f x ≠ id).
  { intros x. unfold kept. rewrite list_elem_of_In, List.filter_In, <-list_elem_of_In, negb_true_iff.
    split; intros [Hx Hn]; (split; [done|]).
    - intros Hf%(Hp x Hx). congruence.
    - destruct (predicate x) eqn:Hpx; [|done]. by apply Hp in Hpx. }
  assert (Hlen : Datatypes.S (List.length kept) = List.length l).
  { unfold kept. clear Hkept kept. induction l as [|x l IH]; [by apply not_elem_of_nil in Hin|].
    rewrite fmap_cons in *. apply list.NoDup_cons in Hnd as [Hx Hnd]. cbn [List.filter List.length].
    assert (Hp' : ∀ y, y ∈ l → predicate y = true ↔ f y = id) by (intros; apply Hp; by right).
    destruct (predicate x) eqn:Hpx; cbn [negb].
    - f_equal. assert (Hfx : f x = id) by (apply Hp; [by left|done]).
      assert (Hall : ∀ y, y ∈ l → predicate y = false).
      { intros y Hy. destruct (predicate y) eqn:Hpy; [|done]. exfalso. apply Hx.
        rewrite Hfx. apply (Hp' y Hy) in Hpy. rewrite <-Hpy. by apply list_elem_of_fmap_2. }
      clear -Hall. induction l as [|y l IH]; [done|]. simpl.
      rewrite (Hall y) by by left. simpl. f_equal. apply IH. intros; apply Hall. by right.
    - cbn [List.length]. f_equal. apply IH; [done|done|].
      apply elem_of_cons in Hin as [Hid|Hin]; [|done].
      exfalso. assert (predicate x = true) by (apply Hp; [by left|done]). congruence. }
  rewrite decide_True by done. exists kept. split_and!; [done| |done].
  clear -Hnd. unfold kept. induction l as [|x l IH]; [done|]. cbn [List.filter].
  rewrite fmap_cons in Hnd. apply list.NoDup_cons in Hnd as [Hx Hnd].
  destruct (predicate x); cbn [negb]; [by apply IH|].
  rewrite fmap_cons. apply list.NoDup_cons. split; [|by apply IH].
  intros (y & Hy & Hin)%list_elem_of_fmap. apply Hx. rewrite Hy. apply list_elem_of_fmap_2.
  apply list_elem_of_In, List.filter_In in Hin as [Hin _]. by apply list_elem_of_In.
Qed.

Lemma vm_predicate_iff vm_id (infos : list VmInfo) :
  (∀ i, i ∈ infos → vi_host i = EmptyString) →
  ∀ x, x ∈ infos → Z.eqb (vi_id x) vm_id && String.eqb (vi_host x) EmptyString = true ↔ vi_id x = vm_id.
Proof. intros Hh x Hx. rewrite (Hh x Hx), andb_true_r. apply Z.eqb_eq. Qed.

Lemma NoDup_snoc_Z (l : list Z) x : NoDup l → x ∉ l → NoDup (l ++ [x]).
Proof.
  intros Hl Hx. apply list.NoDup_app. split_and!; [done| |apply NoDup_singleton].
  intros y Hy ->%list_elem_of_singleton. done.
Qed.

(** Marking a machine: which machines there are, and which are in the public
    list. *)
Lemma marked_is_Some (m : gmap Z admin_vm) id v b id' :
  m !! id = Some v → is_Some (<[id := set_has_vm_info b v]> m !! id') ↔ is_Some (m !! id').
Proof.
  intros Hv. destruct (decide (id' = id)) as [->|Hne].
  - rewrite lookup_insert_eq, Hv. split; by eexists.
  - by rewrite lookup_insert_ne.
Qed.

Lemma elem_of_listed_marked (m : gmap Z admin_vm) id v b id' :
  id' ∈ listed (<[id := set_has_vm_info b v]> m) ↔ (id' = id ∧ b = true) ∨ (id' ≠ id ∧ id' ∈ listed m).
Proof.
  rewrite !elem_of_listed. destruct (decide (id' = id)) as [->|Hne].
  - rewrite lookup_insert_eq. split; [intros (w & [= <-] & Hw); by left|].
    intros [[_ ->]|[? _]]; [by eexists|done].
  - rewrite lookup_insert_ne by done. naive_solver.
Qed.

Lemma unlisted l id v :
  lists_wf l → admin_virtual_machines_ l !! id = Some v → has_vm_info v = false →
  ∀ i, i ∈ vm_info_list_ l → vi_id i ≠ id.
Proof.
  intros Hwf Hv Hhas i Hi <-.
  assert (Hid : vi_id i ∈ vi_id <$> vm_info_list_ l) by by apply list_elem_of_fmap_2.
  apply (lw_info_ids _ Hwf), elem_of_listed in Hid as (w & Hw & Hw2). congruence.
Qed.

(** The administrators' list after an answer. *)
Definition with_admin_answer (a : AdminVmInfo) l : vm_list :=
  with_admin_list (UpdateElement (λ i, Z.eqb (avi_id i) (avi_id a)) a (admin_vm_info_list_ l)) l.

Lemma with_admin_answer_wf a l :
  lists_wf l → is_Some (admin_virtual_machines_ l !! avi_id a) →
  lists_wf (with_admin_answer a l) ∧
  (∀ i, i ∈ admin_vm_info_list_ (with_admin_answer a l) ↔
    i = a ∨ (i ∈ admin_vm_info_list_ l ∧ avi_id i ≠ avi_id a)).
Proof.
  intros [Had Hadi Hin Hini Hh] Hv.
  destruct (update_element_map avi_id (λ i, Z.eqb (avi_id i) (avi_id a)) a (avi_id a)
    (admin_vm_info_list_ l) ltac:(intros; apply Z.eqb_eq) eq_refl) as [Hmap Hmem].
  apply Hadi in Hv. split.
  - split; cbn -[UpdateElement fmap]; rewrite ?Hmap; done.
  - intros i. cbn -[UpdateElement fmap]. rewrite Hmem. naive_solver.
Qed.

(** The three ways in which the public list changes. *)
Lemma refresh_listed l id v x :
  lists_wf l → admin_virtual_machines_ l !! id = Some v → has_vm_info v = true →
  vi_id x = id → vi_host x = EmptyString →
  let infos := UpdateElement
    (λ i, Z.eqb (vi_id i) id && String.eqb (vi_host i) EmptyString) x (vm_info_list_ l) in
  lists_wf (with_vm_info_list infos l) ∧
  (∀ i, i ∈ infos ↔ x = i ∨ (i ∈ vm_info_list_ l ∧ vi_id i ≠ id)).
Proof.
  intros [Had Hadi Hin Hini Hh] Hv Hhas Hid Hxh infos.
  destruct (update_element_map vi_id _ x id (vm_info_list_ l) (vm_predicate_iff id _ Hh) Hid)
    as [Hmap Hmem].
  assert (Hid2 : id ∈ vi_id <$> vm_info_list_ l) by (apply Hini, elem_of_listed; by exists v).
  split; [|intros i; unfold infos; rewrite Hmem; naive_solver].
  split; unfold infos; cbn -[UpdateElement fmap]; rewrite ?Hmap; try done.
  intros i [[-> _]|[Hi _]]%Hmem; auto.
Qed.

Lemma refresh_unlist l id v :
  lists_wf l → admin_virtual_machines_ l !! id = Some v → has_vm_info v = true →
  ∃ infos, RemoveFirst (λ i, Z.eqb (vi_id i) id && String.eqb (vi_host i) EmptyString) (vm_info_list_ l)
      = Some infos ∧
    lists_wf (with_machines (<[id := set_has_vm_info false v]> (admin_virtual_machines_ l))
      (with_vm_info_list infos l)) ∧
    (∀ i, i ∈ infos ↔ i ∈ vm_info_list_ l ∧ vi_id i ≠ id).
Proof.
  intros [Had Hadi Hin Hini Hh] Hv Hhas.
  destruct (remove_first_once vi_id _ id (vm_info_list_ l) (vm_predicate_iff id _ Hh) Hin)
    as (infos & Hrem & Hnd & Hmem); [apply Hini, elem_of_listed; by exists v|].
  exists infos. split_and!; [done| |done]. split; simpl; try done.
  - intros id'. by rewrite (marked_is_Some _ _ v).
  - intros id'. rewrite elem_of_listed_marked, list_elem_of_fmap. setoid_rewrite Hmem.
    rewrite <-Hini, list_elem_of_fmap. naive_solver.
  - intros i [Hi _]%Hmem. auto.
Qed.

Lemma refresh_add l id v x :
  lists_wf l → admin_virtual_machines_ l !! id = Some v → has_vm_info v = false →
  vi_id x = id → vi_host x = EmptyString →
  lists_wf (with_machines (<[id := set_has_vm_info true v]> (admin_virtual_machines_ l))
    (with_vm_info_list (AddElement (vm_info_list_ l) x) l)).
Proof.
  intros Hwf Hv Hhas Hid Hxh. pose proof (unlisted l id v Hwf Hv Hhas) as Hnot.
  destruct Hwf as [Had Hadi Hin Hini Hh]. unfold AddElement. split; cbn -[fmap]; try done.
  - intros id'. by rewrite (marked_is_Some _ _ v).
  - rewrite fmap_app. simpl. rewrite Hid. apply NoDup_snoc_Z; [done|].
    intros (i & Hi & Hel)%list_elem_of_fmap. by apply (Hnot i Hel).
  - intros id'. rewrite elem_of_listed_marked, fmap_app, elem_of_app, Hini. simpl.
    rewrite list_elem_of_singleton, Hid.
    split; [|naive_solver]. intros [Hi| ->]; [|by left].
    destruct (decide (id' = id)) as [->|Hne]; [by left|by right].
  - intros i [Hi| ->%list_elem_of_singleton]%elem_of_app; auto.
Qed.

(** C35: the answer of a single machine keeps the lists exact.  If no answer to
    a refresh of all machines is pending for the machine ([pending_admin_vm_info]
    is null; otherwise the answer is only kept for that refresh,
    [bulk_refresh_exact]) and both lists show the machines they should, then so
    they do after the answer: the machine's entries are the new information, in
    the public list only if there is any, and nobody else's entries change.
    The answer is about the machine itself and, in the public list, names no
    host. *)
Theorem single_refresh_exact l id v p a :
  lists_wf l → admin_virtual_machines_ l !! id = Some v → pending_admin_vm_info v = None →
  admin_vm_info p = Some a → avi_id a = id →
  (∀ x, vm_info p = Some x → vi_id x = id ∧ vi_host x = EmptyString) →
  ∃ l' acts, OnVmInfo id p l = Some (l', acts) ∧ lists_wf l' ∧
    (∀ i, i ∈ admin_vm_info_list_ l' ↔ i = a ∨ (i ∈ admin_vm_info_list_ l ∧ avi_id i ≠ id)) ∧
    (∀ i, i ∈ vm_info_list_ l' ↔ vm_info p = Some i ∨ (i ∈ vm_info_list_ l ∧ vi_id i ≠ id)).
Proof.
  intros Hwf Hv Hpend Ha Haid Hx. unfold OnVmInfo. rewrite Hv. cbn [mbind option_bind].
  unfold HasPendingAdminVmInfo. rewrite bool_decide_eq_false_2 by (rewrite Hpend; by intros []).
  rewrite Ha. cbn [mbind option_bind]. subst id.
  destruct (with_admin_answer_wf a l Hwf ltac:(by eexists)) as [Hwf1 Hadmin].
  fold (with_admin_answer a l). set (l1 := with_admin_answer a l) in *.
  change (admin_virtual_machines_ l) with (admin_virtual_machines_ l1) in Hv.
  change (vm_info_list_ l) with (vm_info_list_ l1).
  destruct (has_vm_info v) eqn:Hhas, (vm_info p) as [x|].
  - destruct (Hx x eq_refl) as [Hxid Hxh].
    destruct (refresh_listed l1 _ v x Hwf1 Hv Hhas Hxid Hxh) as [Hwf2 Hinfo].
    eexists _, _. split_and!; [done|exact Hwf2|exact Hadmin|].
    intros i. etrans; [apply Hinfo|]. naive_solver.
  - destruct (refresh_unlist l1 _ v Hwf1 Hv Hhas) as (infos & -> & Hwf2 & Hinfo).
    eexists _, _. split_and!; [done|exact Hwf2|exact Hadmin|].
    intros i. etrans; [apply Hinfo|]. naive_solver.
  - destruct (Hx x eq_refl) as [Hxid Hxh]. eexists _, _.
    split_and!; [done|exact (refresh_add l1 _ v x Hwf1 Hv Hhas Hxid Hxh)|exact Hadmin|].
    pose proof (unlisted l1 _ v Hwf1 Hv Hhas) as Hnot.
    intros i. change (i ∈ vm_info_list_ l1 ++ [x] ↔ Some x = Some i ∨ (i ∈ vm_info_list_ l1 ∧ vi_id i ≠ avi_id a)).
    rewrite elem_of_app, list_elem_of_singleton. naive_solver.
  - eexists _, _. split_and!; [done|exact Hwf1|exact Hadmin|].
    pose proof (unlisted l1 _ v Hwf1 Hv Hhas) as Hnot. naive_solver.
Qed.

(** A machine that is deleted while it is shown in the public list stays in
    that list. *)
Lemma deleted_machine_stays_listed l id v r l' :
  lists_wf l → admin_virtual_machines_ l !! id = Some v → has_vm_info v = true →
  RemoveAdminVirtualMachine id l = Some (r, l') →
  admin_virtual_machines_ l' !! id = None ∧ id ∈ vi_id <$> vm_info_list_ l'.
Proof.
  intros Hwf Hv Hhas. unfold RemoveAdminVirtualMachine. rewrite Hv.
  destruct (RemoveFirst _ _); [|done]. simpl. intros [= <- <-]. simpl.
  split; [by rewrite lookup_delete_eq|]. apply (lw_info_ids _ Hwf), elem_of_listed. by exists v.
Qed.
(** ** Refreshes leave the machines as they are *)

Definition machines_of l : gmap Z VM := am_vm <$> admin_virtual_machines_ l.

Lemma GetAdminVirtualMachine_of id l : GetAdminVirtualMachine id l = machines_of l !! id.
Proof. unfold machines_of. by rewrite lookup_fmap. Qed.

Lemma machines_of_set id x l : machines_of (SetAdminVirtualMachine id x l) = alter (λ _, x) id (machines_of l).
Proof.
  unfold machines_of. cbn. apply map_eq. intros id'. rewrite lookup_fmap.
  destruct (decide (id' = id)) as [->|Hne]; [|by rewrite !lookup_alter_ne, lookup_fmap].
  rewrite !lookup_alter_eq, lookup_fmap. by destruct (_ !! id).
Qed.

Lemma machines_of_update id v v' l :
  admin_virtual_machines_ l !! id = Some v → am_vm v' = am_vm v →
  am_vm <$> <[id := v']> (admin_virtual_machines_ l) = machines_of l.
Proof.
  intros Hv Heq. unfold machines_of. rewrite fmap_insert, Heq. apply insert_id. by rewrite lookup_fmap, Hv.
Qed.

Lemma OnVmInfo_machines id p l l' acts : OnVmInfo id p l = Some (l', acts) → machines_of l' = machines_of l.
Proof.
  unfold OnVmInfo. destruct (admin_virtual_machines_ l !! id) as [v|] eqn:Hv; [|done]. cbn [mbind option_bind].
  destruct (HasPendingAdminVmInfo v); [intros [= <- _]; by apply (machines_of_update id v)|].
  destruct (admin_vm_info p) as [a|]; [|done]. cbn [mbind option_bind].
  destruct (has_vm_info v), (vm_info p) as [x|].
  - by intros [= <- _].
  - destruct (RemoveFirst _ _); [|done]. intros [= <- _]. by apply (machines_of_update id v).
  - intros [= <- _]. by apply (machines_of_update id v).
  - by intros [= <- _].
Qed.

Lemma OnBulkVmInfo_machines id object p l l' acts :
  OnBulkVmInfo id object p l = Some (l', acts) → machines_of l' = machines_of l.
Proof.
  unfold OnBulkVmInfo. destruct (TakeBulkAnswer id object p l) as [l1|] eqn:Ht; [|done]. cbn [mbind option_bind].
  assert (machines_of l1 = machines_of l) as <-.
  { unfold TakeBulkAnswer in Ht. cbn in Ht. destruct (pending_vm_info_requests_ _); [done|]. injection Ht as <-.
    unfold machines_of. cbn. rewrite (proj1 (update_thumbnail_same _ _ _)). apply map_eq. intros id'. rewrite !lookup_fmap.
    destruct (decide (id' = id)) as [->|Hne]; [|by rewrite lookup_alter_ne].
    rewrite lookup_alter_eq. destruct (_ !! id); [|done]. cbn. by destruct (decide _). }
  destruct (decide _); [by intros [= <- _]|]. unfold FinishBulkUpdate.
  destruct (collect_infos _ _ _ _ _) as [[[admins infos] j]|]; [|done]. cbn [mbind option_bind].
  destruct (decide _); [|done]. intros [= <- _]. unfold machines_of. cbn. rewrite <-map_fmap_compose. by apply map_fmap_ext.
Qed.

End VirtualMachinesList.
Arguments vm_list : clear implicits.

(** ** Concrete runs *)

Module VmListDemo.
Definition l0 : vm_list nat unit :=
  default vm_list_new
    (l ← AddAdminVirtualMachine 1 tt (MkAdminVmInfo 1 "a" VM_STOPPED) vm_list_new;
     AddAdminVirtualMachine 2 tt (MkAdminVmInfo 2 "b" VM_STOPPED) (AddVmListViewer (G := unit) (S := unit) 7 l).1).
Definition info (id : Z) : VmInfo := MkVmInfo id "vm" EmptyString EmptyString false false 0 0 false 0.
Definition answers (id : Z) : vm_info_producer :=
  VmInfoProducer (Some (MkAdminVmInfo id "vm" VM_RUNNING)) (if Z.eqb id 2 then Some (info 2) else None) [].

Lemma bulk_refresh_exact_witness :
  ∃ l' acts, run_bulk (G := unit) (S := unit) answers (UpdateVirtualMachineInfoList l0).2
      (UpdateVirtualMachineInfoList l0).1 = Some (l', acts) ∧
    vm_info_list_ l' ≡ₚ [info 2].
Proof.
  destruct (bulk_refresh_exact (G := unit) (S := unit) answers l0 _ eq_refl ltac:(done)
    ltac:(by eexists) (reflexivity _)) as (l' & acts & Hrun & _ & Hinfo & _).
  exists l', acts. split; [exact Hrun|]. rewrite Hinfo. by vm_compute.
Defined.

Lemma l0_wf : lists_wf l0.
Proof.
  assert (Hm : admin_virtual_machines_ l0 = <[2%Z := AdminVm 1 tt false None None]>
    (<[1%Z := AdminVm 0 tt false None None]> ∅)) by done.
  split; simpl.
  - by apply (bool_decide_unpack _).
  - intros id. change (avi_id <$> admin_vm_info_list_ l0) with [1%Z; 2%Z]. rewrite Hm.
    rewrite lookup_insert_is_Some, lookup_insert_is_Some, lookup_empty.
    rewrite !elem_of_cons. split.
    + intros [->|[->|[]%not_elem_of_nil]]; [right; split; [done|by left]|by left].
    + intros [<-|[_ [<-|[_ [? ?]]]]]; [right; by left|by left|done].
  - apply NoDup_nil_2.
  - intros id. split; [by intros ?%not_elem_of_nil|].
    intros (v & Hv & Hh)%elem_of_listed. rewrite Hm in Hv.
    apply lookup_insert_Some in Hv as [[_ <-]|[_ Hv]]; [done|].
    by apply lookup_insert_Some in Hv as [[_ <-]|[_ Hv]].
  - by intros i ?%not_elem_of_nil.
Qed.

Lemma single_refresh_exact_witness :
  ∃ l' acts, OnVmInfo (G := unit) (S := unit) 2 (answers 2) l0 = Some (l', acts) ∧
    lists_wf l' ∧ info 2 ∈ vm_info_list_ l'.
Proof.
  destruct (single_refresh_exact (G := unit) (S := unit) l0 2 (AdminVm 1 tt false None None) (answers 2)
    (MkAdminVmInfo 2 "vm" VM_RUNNING) l0_wf eq_refl eq_refl eq_refl eq_refl
    ltac:(by intros x [= <-])) as (l' & acts & Hrun & Hwf & _ & Hi).
  exists l', acts. split_and!; [exact Hrun|exact Hwf|]. apply Hi. by left.
Defined.
End VmListDemo.
