(* ===== verification/SendQueue.v ===== *)
(** * A socket's outgoing messages (CollabVmSocket::QueueMessage, SendMessage)

    A web socket allows one outstanding write.  Messages that are queued while
    one is in progress wait in [send_queue_]; when the write completes, all of
    them go out in one write.  The write itself is the socket's: the event
    [WriteMessage] starts it and [SendMessageCallback] is its completion. *)

From S2P Require Import Prelude Timer.

Section SendQueue.
Context {M : Type}.
Implicit Types (ms : list M).

Record sender := Sender { send_queue_ : list M; sending_ : bool }.
Implicit Types s : sender.

Inductive send_event := WriteMessage (segment_buffers : list M) | Close_.

Definition sender_new : sender := Sender [] false.

Definition SendMessage (m : M) : list send_event := [WriteMessage [m]].

(** The loop that empties the queue; it runs at least once. *)
Definition SendMessageBatch (queue : list M) : option (list M * list send_event) :=
  match queue with [] => None | _ => Some ([], [WriteMessage queue]) end.

Definition SendMessageCallback (ec : error_code) s : option (sender * list send_event) :=
  if ec_is_error ec then Some (s, [Close_])
  else
    match send_queue_ s with
    | [] => Some (Sender [] false, [])
    | [m] => Some (Sender [] (sending_ s), SendMessage m)
    | queue => '(queue, evs) ← SendMessageBatch queue; Some (Sender queue (sending_ s), evs)
    end.

Definition QueueMessage (m : M) s : sender * list send_event :=
  if sending_ s then (Sender (send_queue_ s ++ [m]) true, [])
  else (Sender (send_queue_ s) true, SendMessage m).

(** The callback queues what it has, without the null pointers. *)
Definition QueueMessageBatch (batch : list (option M)) s : option (sender * list send_event) :=
  let queue := send_queue_ s ++ omap id batch in
  if bool_decide (queue ≠ []) && negb (sending_ s)
  then '(queue, evs) ← SendMessageBatch queue; Some (Sender queue true, evs)
  else Some (Sender queue (sending_ s), []).

(** ** The queue with the socket it writes to *)

(** [outstanding]: a write has been started and not completed; [written]:
    what has been passed to the socket; [accepted]: what was queued;
    [failed]: a write has failed. *)
Record link := Link {
  link_sender : sender;
  outstanding : bool;
  written : list M;
  accepted : list M;
  failed : bool
}.
Implicit Types k : link.

Definition link_new : link := Link sender_new false [] [] false.

Definition writes (evs : list send_event) : list (list M) :=
  omap (λ ev, match ev with WriteMessage ms => Some ms | Close_ => None end) evs.

(** Starting the writes of [evs]; [None] for a second outstanding write. *)
Definition start_writes (evs : list send_event) k : option link :=
  match writes evs with
  | [] => Some k
  | [ms] =>
      if outstanding k then None
      else Some (Link (link_sender k) true (written k ++ ms) (accepted k) (failed k))
  | _ => None
  end.

Inductive link_op := LQueue (m : M) | LBatch (batch : list (option M)) | LComplete (ec : error_code).

Definition set_sender s k : link := Link s (outstanding k) (written k) (accepted k) (failed k).
Definition accept ms k : link :=
  Link (link_sender k) (outstanding k) (written k) (accepted k ++ ms) (failed k).

Definition link_exec (op : link_op) k : option link :=
  match op with
  | LQueue m =>
      let '(s, evs) := QueueMessage m (link_sender k) in
      start_writes evs (set_sender s (accept [m] k))
  | LBatch batch =>
      '(s, evs) ← QueueMessageBatch batch (link_sender k);
      start_writes evs (set_sender s (accept (omap id batch) k))
  | LComplete ec =>
      if outstanding k then
        '(s, evs) ← SendMessageCallback ec (link_sender k);
        start_writes evs (Link s false (written k) (accepted k) (failed k || ec_is_error ec))
      else Some k
  end.

Fixpoint link_run (ops : list link_op) k : option link :=
  match ops with [] => Some k | op :: ops => k ← link_exec op k; link_run ops k end.

Record link_inv k : Prop := {
  li_sending : sending_ (link_sender k) = outstanding k || failed k;
  li_idle : sending_ (link_sender k) = false → send_queue_ (link_sender k) = [];
  li_failed : outstanding k = true → failed k = false;
  li_order : accepted k = written k ++ send_queue_ (link_sender k)
}.

Lemma link_exec_inv op k : link_inv k → ∃ k', link_exec op k = Some k' ∧ link_inv k'.
Proof.
  destruct k as [[q b] o w a f]. intros [Hs Hi Hf Ho]. simpl in *. subst b a.
  destruct op as [m|batch|ec]; simpl.
  - destruct o, f; simpl in *; eexists; (split; [done|]); split; simpl;
      rewrite ?(Hi eq_refl), ?app_nil_r, ?app_assoc; done.
  - unfold QueueMessageBatch. simpl. destruct o, f; simpl in *; rewrite ?andb_false_r; simpl;
      try (eexists; (split; [done|]); split; simpl; rewrite ?app_assoc; done).
    rewrite (Hi eq_refl). simpl. destruct (omap id batch) as [|m ms]; simpl;
      eexists; (split; [done|]); split; simpl; rewrite ?app_nil_r; done.
  - destruct o; [|by eexists]. rewrite (Hf eq_refl) in *. unfold SendMessageCallback. simpl.
    destruct (ec_is_error ec); simpl.
    + eexists; (split; [done|]). split; simpl; rewrite ?orb_true_r; done.
    + destruct q as [|m [|m' q]]; simpl; eexists; (split; [done|]); split; simpl;
        rewrite ?app_nil_r; try done.
Qed.

Lemma link_run_inv ops k : link_inv k → ∃ k', link_run ops k = Some k' ∧ link_inv k'.
Proof.
  revert k. induction ops as [|op ops IH]; intros k Hk; [by exists k|].
  destruct (link_exec_inv op k Hk) as (k' & Hexec & Hk'). simpl. rewrite Hexec. simpl. by apply IH.
Qed.

Lemma link_new_inv : link_inv link_new.
Proof. by split. Qed.

(** A write that succeeds takes everything that has been queued with it. *)
Lemma complete_success k :
  link_inv k → outstanding k = true →
  ∃ k', link_exec (LComplete success) k = Some k' ∧ failed k' = false ∧
    written k' = accepted k ∧ accepted k' = accepted k ∧
    outstanding k' = bool_decide (send_queue_ (link_sender k) ≠ []) ∧
    send_queue_ (link_sender k') = [].
Proof.
  destruct k as [[q b] o w a f]. intros [Hs Hi Hf Ho]. simpl in *. intros ->.
  rewrite (Hf eq_refl) in *. subst a. unfold SendMessageCallback. simpl.
  destruct q as [|m [|m' q]]; simpl; eexists; (split; [done|]); simpl;
    rewrite ?app_nil_r; split_and!; try done; by rewrite bool_decide_eq_true_2.
Qed.

Lemma drained k :
  link_inv k → failed k = false →
  ∃ k', link_run [LComplete success; LComplete success] k = Some k' ∧
    written k' = accepted k ∧ outstanding k' = false ∧ sending_ (link_sender k') = false.
Proof.
  intros Hk Hf. destruct (outstanding k) eqn:Ho.
  - destruct (complete_success k Hk Ho) as (k1 & H1 & Hf1 & Hw1 & Ha1 & Ho1 & Hq1).
    destruct (link_exec_inv (LComplete success) k Hk) as (k1' & H1' & Hk1).
    rewrite H1 in H1'. injection H1' as <-. cbn [link_run]. rewrite H1. cbn [mbind option_bind].
    destruct (outstanding k1) eqn:Ho1'.
    + destruct (complete_success k1 Hk1 Ho1') as (k2 & H2 & Hf2 & Hw2 & Ha2 & Ho2 & _).
      destruct (link_exec_inv (LComplete success) k1 Hk1) as (k2' & H2' & Hk2).
      rewrite H2 in H2'. injection H2' as <-. rewrite H2. cbn. exists k2.
      rewrite Hq1 in Ho2. rewrite (bool_decide_eq_false_2 ([] ≠ [])) in Ho2 by (intros Hn; by apply Hn).
      split_and!; [done|congruence|done|]. by rewrite (li_sending _ Hk2), Ho2, Hf2.
    + exists k1. cbn [link_exec]. rewrite Ho1'. cbn. split_and!; [done|congruence|done|].
      by rewrite (li_sending _ Hk1), Ho1', Hf1.
  - exists k. cbn [link_run link_exec]. rewrite Ho. cbn. rewrite Ho. cbn.
    assert (Hs : sending_ (link_sender k) = false) by by rewrite (li_sending _ Hk), Ho, Hf.
    rewrite (li_order _ Hk), (li_idle _ Hk Hs), app_nil_r. by split_and!.
Qed.

Lemma failed_stays ops k k' :
  link_inv k → failed k = true → link_run ops k = Some k' → written k' = written k ∧ failed k' = true.
Proof.
  revert k. induction ops as [|op ops IH]; intros k Hk Hf; [by intros [= <-]|].
  destruct (link_exec_inv op k Hk) as (k1 & H1 & Hk1). cbn [link_run]. rewrite H1. cbn [mbind option_bind].
  intros Hrun.
  assert (written k1 = written k ∧ failed k1 = true) as [Hw Hf1]; [|destruct (IH k1 Hk1 Hf1 Hrun); split; congruence].
  destruct k as [[q b] o w a f]. destruct Hk as [Hs Hi Hfo Ho]. simpl in *. subst f.
  assert (o = false) as -> by (destruct o; [by specialize (Hfo eq_refl)|done]). rewrite orb_true_r in Hs. subst b.
  destruct op as [m|batch|ec]; simpl in H1.
  - by injection H1 as <-.
  - unfold QueueMessageBatch in H1. simpl in H1. rewrite andb_false_r in H1. by injection H1 as <-.
  - by injection H1 as <-.
Qed.

(** Messages leave in the order in which they were queued.  However
    calls and completions are interleaved, no write is started while another
    is outstanding, and what has been written followed by what is waiting is
    exactly what was queued.  As long as no write fails, two completions are
    enough to deliver everything; after a failure nothing more is written. *)
Theorem send_queue_fifo (ops : list link_op) :
  ∃ k, link_run ops link_new = Some k ∧
    accepted k = written k ++ send_queue_ (link_sender k) ∧
    (if failed k then
       ∀ more k', link_run more k = Some k' → written k' = written k
     else
       ∃ k', link_run [LComplete success; LComplete success] k = Some k' ∧
         written k' = accepted k ∧ outstanding k' = false ∧ sending_ (link_sender k') = false).
Proof.
  destruct (link_run_inv ops link_new link_new_inv) as (k & Hrun & Hk).
  exists k. split_and!; [done|apply Hk|]. destruct (failed k) eqn:Hf.
  - intros more k' Hmore. by destruct (failed_stays more k k' Hk Hf Hmore).
  - by apply drained.
Qed.
End SendQueue.
