(* ===== verification/Captcha.v ===== *)
(** * The captcha service's client (src/CaptchaVerifier.hpp)

    One request is sent to the service at a time, the others wait in a queue.
    The handlers run on a strand, and a call that the strand defers
    uses dangling references ([Verify]); the operations on the network and the retry
    timer are started by the handlers and complete later with any result, so
    that [OnComplete] is one definition per completion handler.  What the
    callbacks do is the server's business: a request carries a name for its
    callback, and the event [Callback] is the call.

    Boost's [replace_all] and its JSON parser are parameters.  The retry timer's deadline is set when the object is
    built and never again, so that its wait may complete at once; the model
    leaves the moment open. *)

From S2P Require Import Prelude Timer.
From Stdlib Require Import String.
From stdpp Require Import pretty.

(** [ServerSetting::Captcha]. *)
Record captcha_settings := CaptchaSettings {
  getEnabled : bool;
  getHttps : bool;
  getUrlHost : string;
  getUrlPort : Z;
  getUrlPath : string;
  getPostParams : string;
  getValidJSONVariableName : string
}.

Inductive http_method := verb_unknown | verb_get | verb_post.

(** [req_], as far as the source sets it. *)
Record http_request := HttpRequest {
  req_method : http_method;
  req_host : string;
  req_content_type : option string;
  req_target : string;
  req_body : string;
  req_content_length : option Z
}.

(** What has been started and not completed. *)
Inductive network_op :=
| Resolving (useSSL : bool) | Connecting (useSSL : bool) | Handshaking | Writing | Reading | RetryWait.

(** What an operation completes with: the error code, whether the socket is
    open afterwards (for a connection), and the body of the response. *)
Record network_result := NetworkResult { nr_ec : error_code; nr_open : bool; nr_body : string }.

Definition max_fail_count_ : Z := 3.

Section Captcha.
Context {K : Type}.
Context (json_bool : string → string → option bool).
Context (replace_all : string → string → string → string).

Record verify_request := VerifyRequest {
  callback_ : K;
  response_token_ : string;
  remote_ip_ : string
}.

Inductive captcha_event :=
| Callback (k : K) (is_valid : bool)
| AsyncResolve (host port : string)
| AsyncConnect | AsyncHandshake
| AsyncWrite (https : bool) (req : http_request)
| AsyncRead | AsyncWaitRetry | CloseStream.

Record verifier := CaptchaVerifier {
  request_ : option verify_request;
  queue_ : list verify_request;
  stream_open : bool;
  req_ : http_request;
  settings_ : option captcha_settings;
  pending_settings_ : option captcha_settings;
  failed_count_ : Z;
  outstanding_ : list network_op
}.
Implicit Types (v : verifier) (s : captcha_settings) (r : verify_request) (k : K).

Definition captcha_new : verifier :=
  CaptchaVerifier None [] false (HttpRequest verb_unknown EmptyString None EmptyString EmptyString None)
    None None 0 [].

Definition with_request q rest v : verifier :=
  CaptchaVerifier q rest (stream_open v) (req_ v) (settings_ v) (pending_settings_ v)
    (failed_count_ v) (outstanding_ v).
Definition with_open b v : verifier :=
  CaptchaVerifier (request_ v) (queue_ v) b (req_ v) (settings_ v) (pending_settings_ v)
    (failed_count_ v) (outstanding_ v).
Definition with_req q v : verifier :=
  CaptchaVerifier (request_ v) (queue_ v) (stream_open v) q (settings_ v) (pending_settings_ v)
    (failed_count_ v) (outstanding_ v).
Definition with_settings cur pending v : verifier :=
  CaptchaVerifier (request_ v) (queue_ v) (stream_open v) (req_ v) cur pending
    (failed_count_ v) (outstanding_ v).
Definition with_failed n v : verifier :=
  CaptchaVerifier (request_ v) (queue_ v) (stream_open v) (req_ v) (settings_ v) (pending_settings_ v)
    n (outstanding_ v).
Definition with_outstanding l v : verifier :=
  CaptchaVerifier (request_ v) (queue_ v) (stream_open v) (req_ v) (settings_ v) (pending_settings_ v)
    (failed_count_ v) l.

(** Starting an asynchronous operation. *)
Definition start (op : network_op) v : verifier := with_outstanding (outstanding_ v ++ [op]) v.

(** ** Operations *)

Definition SetSettings s v : verifier * list captcha_event :=
  let q := req_ v in
  let post := negb (String.eqb (getPostParams s) EmptyString) in
  let q := HttpRequest (if post then verb_post else verb_get) (getUrlHost s)
    (if post then Some "application/x-www-form-urlencoded"%string else None)
    (req_target q) (req_body q) (req_content_length q) in
  (with_open false (with_req q (with_settings (settings_ v) (Some s) v)), [CloseStream]).

Definition Connect v : option (verifier * list captcha_event) :=
  let v := match pending_settings_ v with
           | Some s => with_failed 0 (with_settings (Some s) None v)
           | None => v
           end in
  s ← settings_ v;
  Some (start (Resolving (getHttps s)) v, [AsyncResolve (getUrlHost s) (pretty (getUrlPort s))]).

Definition ReplaceVariables (body : string) r : string :=
  replace_all (replace_all body "$TOKEN"%string (response_token_ r)) "$IP"%string (remote_ip_ r).

Definition SendRequest v : option (verifier * list captcha_event) :=
  let v := with_failed 0 v in
  s ← settings_ v;
  r ← request_ v;
  let q := req_ v in
  let target := ReplaceVariables (getUrlPath s) r in
  let q :=
    if String.eqb (getPostParams s) EmptyString
    then HttpRequest (req_method q) (req_host q) (req_content_type q) target (req_body q)
           (req_content_length q)
    else let body := ReplaceVariables (getPostParams s) r in
         HttpRequest (req_method q) (req_host q) (req_content_type q) target body
           (Some (Z.of_nat (String.length body))) in
  Some (start Writing (with_req q v), [AsyncWrite (getHttps s) q]).

(** Captchas are switched off, or were never configured. *)
Definition captcha_off v : Prop :=
  match pending_settings_ v, settings_ v with
  | Some s, _ | None, Some s => getEnabled s = false
  | None, None => True
  end.

(** [inline]: the strand is free, so that [dispatch] runs the function within
    the call.  Otherwise it runs after the call has returned, and the
    references to [token] and [remote_ip] that it has captured are dangling:
    [None] when it uses them. *)
Definition Verify (inline : bool) (token : string) k (remote_ip : string) v : option (verifier * list captcha_event) :=
  let enabled :=
    match pending_settings_ v, settings_ v with
    | Some s, _ | None, Some s => getEnabled s
    | None, None => false
    end in
  if negb enabled then Some (v, [Callback k true])
  else if negb inline then None
  else if String.eqb token EmptyString then Some (v, [Callback k false])
  else
    let request := VerifyRequest k token remote_ip in
    match request_ v with
    | Some _ => Some (with_request (request_ v) (queue_ v ++ [request]) v, [])
    | None =>
        let v := with_request (Some request) (queue_ v) v in
        if stream_open v then SendRequest v else Connect v
    end.

(** [request_->callback_] of a request that is there. *)
Definition Retry v : option (verifier * list captcha_event) :=
  let v := with_failed (failed_count_ v + 1) v in
  if (max_fail_count_ <=? failed_count_ v)%Z then
    r ← request_ v;
    Some (with_request None [] v,
      Callback (callback_ r) false :: ((λ r, Callback (callback_ r) false) <$> queue_ v))
  else Some (start RetryWait v, [AsyncWaitRetry]).

(** The verdict in the response; a response that cannot be parsed is one
    without the variable. *)
Definition verdict s (body : string) : bool :=
  default false (json_bool body (getValidJSONVariableName s)).

(** The completion handler of the read. *)
Definition OnRead (body : string) v : option (verifier * list captcha_event) :=
  s ← settings_ v;
  r ← request_ v;
  let answer := Callback (callback_ r) (verdict s body) in
  match queue_ v with
  | [] => Some (with_request None [] v, [answer])
  | next :: rest =>
      '(v, evs) ← SendRequest (with_request (Some next) rest v);
      Some (v, answer :: evs)
  end.

Definition OnComplete (op : network_op) (result : network_result) v
    : option (verifier * list captcha_event) :=
  let failed := ec_is_error (nr_ec result) in
  match op with
  | Resolving useSSL => Some (start (Connecting useSSL) v, [AsyncConnect])
  | Connecting useSSL =>
      let v := with_open (nr_open result) v in
      if failed then Retry v
      else if negb useSSL then SendRequest v
      else Some (start Handshaking v, [AsyncHandshake])
  | Handshaking => if failed then Retry v else SendRequest v
  | Writing => if failed then Retry v else Some (start Reading v, [AsyncRead])
  | Reading => if failed then Retry v else OnRead (nr_body result) v
  | RetryWait => Connect v
  end.

(** ** Runs *)

Inductive captcha_op :=
| CSetSettings s
| CVerify (inline : bool) (token : string) k (remote_ip : string)
| CComplete (i : nat) (result : network_result).

Definition captcha_exec (op : captcha_op) v : option (verifier * list captcha_event) :=
  match op with
  | CSetSettings s => Some (SetSettings s v)
  | CVerify inline token k remote_ip => Verify inline token k remote_ip v
  | CComplete i result =>
      match outstanding_ v !! i with
      | None => Some (v, [])
      | Some op => OnComplete op result (with_outstanding (delete i (outstanding_ v)) v)
      end
  end.

Definition answers (evs : list captcha_event) : list (K * bool) :=
  omap (λ ev, match ev with Callback k b => Some (k, b) | _ => None end) evs.

(** Who has had to wait for the service, and the answers they were given, in
    order. *)
Record captcha_log := CaptchaLog { waited : list K; answered : list (K * bool) }.
Implicit Types l : captcha_log.

Definition log (op : captcha_op) (evs : list captcha_event) l : captcha_log :=
  match op, answers evs with
  | CVerify _ _ k _, [] => CaptchaLog (waited l ++ [k]) (answered l)
  | CVerify _ _ _ _, _ => l
  | _, given => CaptchaLog (waited l) (answered l ++ given)
  end.

Fixpoint captcha_run (ops : list captcha_op) v l : option (verifier * captcha_log) :=
  match ops with
  | [] => Some (v, l)
  | op :: ops => '(v, evs) ← captcha_exec op v; captcha_run ops v (log op evs l)
  end.

Definition waiting v : list K := callback_ <$> (option_list (request_ v) ++ queue_ v).

(** ** The invariant *)

Record captcha_inv v : Prop := {
  ci_one : match request_ v with None => outstanding_ v = [] | Some _ => ∃ op, outstanding_ v = [op] end;
  ci_queue : request_ v = None → queue_ v = [];
  ci_settings : is_Some (request_ v) ∨ stream_open v = true → is_Some (settings_ v);
  ci_failed : (0 ≤ failed_count_ v)%Z
}.

(** A handler is running for the request at the head. *)
Record captcha_busy v : Prop := {
  cb_request : is_Some (request_ v);
  cb_outstanding : outstanding_ v = [];
  cb_settings : is_Some (settings_ v);
  cb_failed : (0 ≤ failed_count_ v)%Z
}.

(** The operation yields a result, which keeps the invariant and answers the
    longest waiting requests. *)
Definition in_order v (res : option (verifier * list captcha_event)) : Prop :=
  ∃ v' evs, res = Some (v', evs) ∧ captcha_inv v' ∧ waiting v = (answers evs).*1 ++ waiting v'.

(** The same without an answer. *)
Definition keeps_waiting v (res : option (verifier * list captcha_event)) : Prop :=
  ∃ v' evs, res = Some (v', evs) ∧ captcha_inv v' ∧ answers evs = [] ∧ waiting v' = waiting v.

Lemma keeps_waiting_in_order v res : keeps_waiting v res → in_order v res.
Proof. intros (v' & evs & -> & Hv' & He & Hw). exists v', evs. by rewrite He, Hw. Qed.

Lemma Connect_waiting v :
  is_Some (request_ v) → outstanding_ v = [] → is_Some (settings_ v) ∨ is_Some (pending_settings_ v) →
  (0 ≤ failed_count_ v)%Z → keeps_waiting v (Connect v).
Proof.
  intros [r Hr] Ho Hs Hf. unfold Connect, keeps_waiting.
  destruct (pending_settings_ v) as [s|]; simpl.
  - eexists _, _. split_and!; [done| |done|done].
    split; simpl; rewrite ?Hr, ?Ho; [by eexists|done|by exists s|done].
  - destruct Hs as [[s Hs]|[? [=]]]. rewrite Hs. simpl. eexists _, _. split_and!; [done| |done|done].
    split; simpl; rewrite ?Hr, ?Ho, ?Hs; [by eexists|done|by exists s|done].
Qed.

Lemma SendRequest_waiting v : captcha_busy v → keeps_waiting v (SendRequest v).
Proof.
  intros [[r Hr] Ho [s Hs] Hf]. unfold SendRequest, keeps_waiting. simpl. rewrite Hs, Hr. simpl.
  eexists _, _. split_and!; [done| |done|by unfold waiting; simpl; rewrite Hr].
  split; simpl; rewrite ?Hr, ?Ho, ?Hs; [by eexists|done|by exists s|done].
Qed.

Lemma answers_cons k b (evs : list captcha_event) : answers (Callback k b :: evs) = (k, b) :: answers evs.
Proof. done. Qed.

Lemma answers_reject (l : list verify_request) :
  (answers ((λ r, Callback (callback_ r) false) <$> l)).*1 = callback_ <$> l.
Proof. unfold answers. induction l as [|r l IH]; simpl; [done|]. by f_equal. Qed.

Lemma Retry_in_order v : captcha_busy v → in_order v (Retry v).
Proof.
  intros [[r Hr] Ho [s Hs] Hf]. unfold Retry, in_order, waiting. cbn -[Z.add].
  destruct (Z.leb_spec max_fail_count_ (failed_count_ v + 1)) as [Hl|Hl].
  - rewrite Hr. cbn -[Z.add]. eexists _, _. split_and!; [done| |].
    + split; cbn -[Z.add]; [done|done|by exists s|lia].
    + cbn -[Z.add]. rewrite app_nil_r. f_equal. symmetry. apply answers_reject.
  - eexists _, _. split_and!; [done| |done].
    split; cbn -[Z.add]; rewrite ?Hr, ?Ho; [by eexists|done|by exists s|lia].
Qed.

Lemma OnRead_in_order body v : captcha_busy v → in_order v (OnRead body v).
Proof.
  intros [[r Hr] Ho [s Hs] Hf]. unfold OnRead, in_order. rewrite Hs, Hr. simpl.
  destruct (queue_ v) as [|next rest] eqn:Hq.
  - eexists _, _. split_and!; [done| |unfold waiting; by rewrite Hr, Hq].
    split; simpl; rewrite ?Ho; [done|done|by exists s|done].
  - destruct (SendRequest_waiting (with_request (Some next) rest v)) as (v' & evs & -> & Hv' & He & Hw).
    { split; simpl; [by eexists|done|by exists s|done]. }
    simpl. eexists _, _. split_and!; [done|done|].
    unfold waiting at 1. rewrite Hr, Hq, Hw. cbn [option_list app fmap list_fmap]. by rewrite answers_cons, He.
Qed.

Lemma captcha_busy_start op v : captcha_busy v → captcha_inv (start op v).
Proof.
  intros [[r Hr] Ho [s Hs] Hf]. split; simpl; rewrite ?Hr, ?Ho; [by eexists|done|by exists s|done].
Qed.

Lemma OnComplete_in_order op result v : captcha_busy v → in_order v (OnComplete op result v).
Proof.
  intros Hb. assert (Hstart : ∀ op evs, answers evs = [] → in_order v (Some (start op v, evs))).
  { intros op' evs He. eexists _, _. split_and!; [done|by apply captcha_busy_start|by rewrite He]. }
  assert (Hbo : ∀ b, captcha_busy (with_open b v)) by (intros b; destruct Hb; by split).
  destruct op; cbn [OnComplete]; try (destruct (ec_is_error (nr_ec result))); cbn [negb];
    try (by apply Hstart); try (by apply Retry_in_order); try (by apply keeps_waiting_in_order, SendRequest_waiting).
  - exact (Retry_in_order _ (Hbo (nr_open result))).
  - destruct useSSL; [|exact (keeps_waiting_in_order _ _ (SendRequest_waiting _ (Hbo (nr_open result))))].
    eexists _, _. split_and!; [done|by apply captcha_busy_start|done].
  - by apply OnRead_in_order.
  - destruct Hb. apply keeps_waiting_in_order, Connect_waiting; auto.
  - destruct Hb. apply keeps_waiting_in_order, Connect_waiting; auto.
Qed.

(** ** The log *)

(** The call runs at once, or does not use what it was given. *)
Definition call_ok (op : captcha_op) v : Prop :=
  match op with CVerify false _ _ _ => captcha_off v | _ => True end.

(** What the log and the state agree on. *)
Definition log_ok v l : Prop := waited l = (answered l).*1 ++ waiting v.

Lemma Verify_log inline token k ip v l :
  call_ok (CVerify inline token k ip) v → captcha_inv v → log_ok v l →
  ∃ v' evs, Verify inline token k ip v = Some (v', evs) ∧ captcha_inv v' ∧
    log_ok v' (log (CVerify inline token k ip) evs l).
Proof.
  intros Hc Hv Hl. unfold Verify.
  set (enabled := match pending_settings_ v, settings_ v with
    | Some s, _ | None, Some s => getEnabled s | None, None => false end).
  destruct enabled eqn:Hen; simpl; [|by eexists _, _].
  destruct inline; cbn [negb]; [|exfalso; revert Hen; unfold enabled; cbn in Hc; unfold captcha_off in Hc;
    destruct (pending_settings_ v), (settings_ v); congruence].
  destruct (String.eqb token EmptyString); [by eexists _, _|].
  set (r := VerifyRequest k token ip). destruct Hv as [H1 Hq Hs Hf].
  destruct (request_ v) as [r0|] eqn:Hr.
  - eexists _, _. split_and!; [done|split; simpl; try done; by rewrite Hr|].
    unfold log_ok, waiting in *. simpl. rewrite Hl, Hr. simpl. by rewrite fmap_app, <-!app_assoc.
  - assert (Hin : keeps_waiting (with_request (Some r) (queue_ v) v)
      (if stream_open v then SendRequest (with_request (Some r) (queue_ v) v)
       else Connect (with_request (Some r) (queue_ v) v))).
    { destruct (stream_open v) eqn:Hopen.
      - apply SendRequest_waiting. split; simpl; [by eexists|done|by apply Hs; right|done].
      - apply Connect_waiting; simpl; [by eexists|done| |done].
        unfold enabled in Hen. destruct (pending_settings_ v), (settings_ v); try done; eauto. }
    destruct Hin as (v' & evs & Heq & Hv' & He & Hw). exists v', evs. split_and!; [exact Heq|done|].
    unfold log_ok, log in *. rewrite He. simpl. rewrite Hl, Hw. unfold waiting. simpl.
    by rewrite Hr, (Hq eq_refl), app_nil_r.
Qed.

Lemma log_in_order op evs v v' l :
  (∀ inline token k ip, op ≠ CVerify inline token k ip) → log_ok v l →
  waiting v = (answers evs).*1 ++ waiting v' → log_ok v' (log op evs l).
Proof.
  intros Hop Hl Hw. unfold log_ok in *. destruct op as [s|inline token k ip|i result]; [| |].
  - simpl. rewrite Hl, Hw, fmap_app. by rewrite app_assoc.
  - by destruct (Hop inline token k ip).
  - simpl. rewrite Hl, Hw, fmap_app. by rewrite app_assoc.
Qed.

Lemma captcha_exec_ok op v l :
  call_ok op v → captcha_inv v → log_ok v l →
  ∃ v' evs, captcha_exec op v = Some (v', evs) ∧ captcha_inv v' ∧ log_ok v' (log op evs l).
Proof.
  intros Hc Hv Hl. destruct op as [s|inline token k ip|i result]; cbn [captcha_exec].
  - eexists _, _. split_and!; [done| |].
    + destruct Hv as [H1 Hq Hs Hf]. split; simpl; [done|done| |done]. intros [Hr|[=]]. auto.
    + by apply (log_in_order _ _ v).
  - by apply Verify_log.
  - destruct (outstanding_ v !! i) as [op|] eqn:Hi.
    + assert (Hin : in_order (with_outstanding (delete i (outstanding_ v)) v)
        (OnComplete op result (with_outstanding (delete i (outstanding_ v)) v))).
      { apply OnComplete_in_order. destruct Hv as [H1 Hq Hs Hf].
        destruct (request_ v) as [r|] eqn:Hr; [|by rewrite H1 in Hi].
        destruct H1 as [op' Ho]. rewrite Ho in *. destruct i as [|i]; [|done].
        split; simpl; [by eexists|done|apply Hs; left; by eexists|done]. }
      destruct Hin as (v' & evs & -> & Hv' & Hw). exists v', evs. split_and!; [done|done|].
      by apply (log_in_order _ _ v).
    + eexists _, _. split_and!; [done|done|]. by apply (log_in_order _ _ v).
Qed.

(** A run goes on until a call is made that the strand defers. *)
Lemma captcha_run_ok ops v l :
  captcha_inv v → log_ok v l →
  match captcha_run ops v l with
  | Some (v', l') => captcha_inv v' ∧ log_ok v' l'
  | None => ∃ ops1 op ops2 v' l', ops = ops1 ++ op :: ops2 ∧ captcha_run ops1 v l = Some (v', l') ∧ ¬ call_ok op v'
  end.
Proof.
  revert v l. induction ops as [|op ops IH]; intros v l Hv Hl; [done|]. cbn [captcha_run].
  assert (call_ok op v ∨ ¬ call_ok op v) as [Hc|Hc].
  { destruct op as [|[] |]; cbn; try (by left). unfold captcha_off.
    destruct (pending_settings_ v), (settings_ v); try (by left);
      match goal with |- context [getEnabled ?s] => destruct (getEnabled s); [by right|by left] end. }
  - destruct (captcha_exec_ok op v l Hc Hv Hl) as (v1 & evs & Hex & Hv1 & Hl1). rewrite Hex. cbn [mbind option_bind].
    specialize (IH v1 _ Hv1 Hl1). destruct (captcha_run ops v1 _) as [[v' l']|]; [done|].
    destruct IH as (ops1 & op' & ops2 & v' & l' & -> & Hr & Hno).
    exists (op :: ops1), op', ops2, v', l'. split_and!; [done| |done]. cbn [captcha_run]. by rewrite Hex.
  - assert (captcha_exec op v = None) as ->; [|by exists [], op, ops, v, l].
    destruct op as [|[] token k ip|]; try done. cbn [captcha_exec]. unfold Verify. cbn in Hc. unfold captcha_off in Hc.
    destruct (pending_settings_ v) as [s|], (settings_ v) as [s'|]; try done;
      match goal with |- context [getEnabled ?s] => by destruct (getEnabled s) end.
Qed.

Lemma captcha_run_app ops1 ops2 v l :
  captcha_run (ops1 ++ ops2) v l = '(v, l) ← captcha_run ops1 v l; captcha_run ops2 v l.
Proof.
  revert v l. induction ops1 as [|op ops1 IH]; intros v l; [done|]. simpl.
  destruct (captcha_exec op v) as [[v1 evs]|]; [|done]. simpl. apply IH.
Qed.

Lemma captcha_new_inv : captcha_inv captcha_new.
Proof. split; simpl; try done. by intros [[]|]. Qed.

(** ** Giving up *)

(** An attempt to connect that fails, with the wait before the next one. *)
Definition failing : network_result := NetworkResult operation_aborted false EmptyString.
Definition working : network_result := NetworkResult success true EmptyString.

(** The failure of the outstanding operation, then the wait, then the name's
    resolution: what happens while the service cannot be reached. *)
Definition unreachable_round : list captcha_op :=
  [CComplete 0 failing; CComplete 0 working; CComplete 0 working].

Lemma reject_all_waiting v :
  captcha_busy v → (max_fail_count_ <= failed_count_ v + 1)%Z →
  ∃ v' evs, Retry v = Some (v', evs) ∧ answers evs = (λ k, (k, false)) <$> waiting v ∧
    request_ v' = None ∧ queue_ v' = [].
Proof.
  intros [[r Hr] Ho [s Hs] Hf] Hm. unfold Retry, waiting. cbn -[Z.add].
  rewrite (proj2 (Z.leb_le _ _) Hm), Hr. cbn -[Z.add]. eexists _, _. split_and!; [done| |done|done].
  cbn. f_equal. unfold answers. induction (queue_ v) as [|r' q IH]; simpl; [done|]. by f_equal.
Qed.

(** One failed attempt: everybody is rejected, or the next attempt is under
    way and the count has grown. *)
Lemma unreachable_step ssl v l :
  captcha_inv v → outstanding_ v = [Connecting ssl] → pending_settings_ v = None →
  ∃ v' l', captcha_run unreachable_round v l = Some (v', l') ∧ captcha_inv v' ∧
    if (max_fail_count_ <=? failed_count_ v + 1)%Z
    then waiting v' = [] ∧ answered l' = answered l ++ ((λ k, (k, false)) <$> waiting v)
    else (∃ ssl', outstanding_ v' = [Connecting ssl']) ∧ pending_settings_ v' = None ∧
      failed_count_ v' = (failed_count_ v + 1)%Z ∧ waiting v' = waiting v ∧ answered l' = answered l.
Proof.
  intros Hv Ho Hp. destruct Hv as [H1 Hq Hs Hf].
  destruct (request_ v) as [r|] eqn:Hr; [|congruence].
  destruct (Hs ltac:(left; by eexists)) as [s Hset]. clear Hs.
  unfold unreachable_round. cbn [captcha_run captcha_exec]. rewrite Ho. cbn -[Z.add Retry].
  unfold Retry at 1. cbn -[Z.add].
  destruct (Z.leb_spec max_fail_count_ (failed_count_ v + 1)) as [Hl|Hl].
  - rewrite Hr. cbn -[Z.add]. eexists _, _. split_and!; [reflexivity| | |].
    + split; cbn -[Z.add]; [done|done|by intros [[? [=]]|[=]]|lia].
    + done.
    + cbn. rewrite !app_nil_r. f_equal. unfold waiting. rewrite Hr. cbn. f_equal.
      unfold answers. clear. induction (queue_ v) as [|r' q IH]; simpl; [done|]. by f_equal.
  - cbn -[Z.add]. unfold Connect. cbn -[Z.add]. rewrite Hp. cbn -[Z.add]. rewrite Hset. cbn -[Z.add].
    eexists _, _. split_and!; [reflexivity| | | | | |].
    + split; cbn -[Z.add]; rewrite ?Hr, ?Hset; [by eexists|done|by exists s|lia].
    + by eexists.
    + done.
    + done.
    + unfold waiting. simpl. by rewrite Hr.
    + cbn. by rewrite !app_nil_r.
Qed.

(** ** Positive verdicts *)

Lemma no_true_reject (l : list verify_request) k :
  Callback k true ∉ (λ r, Callback (callback_ r) false) <$> l.
Proof. intros (r & [=] & _)%list_elem_of_fmap. Qed.

Lemma SendRequest_no_callback v v' evs k b :
  SendRequest v = Some (v', evs) → Callback k b ∉ evs.
Proof.
  unfold SendRequest. destruct (settings_ _) as [s|]; [|done]. simpl.
  destruct (request_ v) as [r|]; [|done]. intros [= <- <-]. by rewrite list_elem_of_singleton.
Qed.

Lemma Connect_no_callback v v' evs k b : Connect v = Some (v', evs) → Callback k b ∉ evs.
Proof.
  unfold Connect. destruct (pending_settings_ v); simpl.
  - intros [= <- <-]. by rewrite list_elem_of_singleton.
  - destruct (settings_ v); [|done]. intros [= <- <-]. by rewrite list_elem_of_singleton.
Qed.

Lemma Retry_no_true v v' evs k : Retry v = Some (v', evs) → Callback k true ∉ evs.
Proof.
  unfold Retry. cbn -[Z.add]. destruct (Z.leb _ _); [destruct (request_ v) as [r|]; [|done]|].
  - intros [= <- <-]. rewrite elem_of_cons. intros [[=]|Hin]. by apply no_true_reject in Hin.
  - intros [= <- <-]. by rewrite list_elem_of_singleton.
Qed.

(** ** One operation *)

(** Whom an operation makes wait. *)
Definition asked (op : captcha_op) : list K := match op with CVerify _ _ k _ => [k] | _ => [] end.

Lemma answers_none evs : (∀ k b, Callback k b ∉ evs) → answers evs = [].
Proof.
  induction evs as [|ev evs IH]; intros Hno; [done|]. unfold answers in *.
  assert (∀ k b, Callback k b ∉ evs) as Hno' by (intros k b Hin; apply (Hno k b); by right).
  destruct ev; cbn; try by apply IH. destruct (Hno k is_valid). by left.
Qed.

(** It answers the one who asks, or somebody who waited, or nobody. *)
Lemma captcha_exec_waiting op v :
  call_ok op v → captcha_inv v →
  ∃ v' evs, captcha_exec op v = Some (v', evs) ∧ captcha_inv v' ∧
    waiting v ++ asked op ≡ₚ (answers evs).*1 ++ waiting v'.
Proof.
  intros Hc Hv. destruct (captcha_exec_ok op v (CaptchaLog (waiting v) []) Hc Hv eq_refl) as (v' & evs & Hx & Hv' & Hl).
  exists v', evs. split_and!; [done|done|]. unfold log_ok in Hl.
  destruct op as [s|inline token k ip|i result]; cbn [asked log waited answered] in *;
    [by rewrite app_nil_r, Hl|..|by rewrite app_nil_r, Hl].
  cbn [captcha_exec] in Hx. unfold Verify in Hx.
  destruct (negb _); [simplify_eq/=; by rewrite Permutation_app_comm|]. destruct (negb inline); [done|].
  destruct (String.eqb _ _); [simplify_eq/=; by rewrite Permutation_app_comm|].
  assert (answers evs = []) as He.
  { destruct (request_ v); [by simplify_eq|]. apply answers_none. intros k' b.
    revert Hx. destruct (stream_open _); intros Hx;
      [exact (SendRequest_no_callback _ _ _ _ _ Hx)|exact (Connect_no_callback _ _ _ _ _ Hx)]. }
  rewrite He in *. cbn in *. by rewrite Hl.
Qed.

(** A machine-readable response of the service that says yes. *)
Definition confirmed v (op : network_op) (result : network_result) k : Prop :=
  op = Reading ∧ nr_ec result = success ∧
  ∃ s r, settings_ v = Some s ∧ request_ v = Some r ∧ callback_ r = k ∧
    json_bool (nr_body result) (getValidJSONVariableName s) = Some true.

Lemma OnRead_true body v v' evs k :
  OnRead body v = Some (v', evs) → Callback k true ∈ evs →
  ∃ s r, settings_ v = Some s ∧ request_ v = Some r ∧ callback_ r = k ∧
    json_bool body (getValidJSONVariableName s) = Some true.
Proof.
  unfold OnRead. destruct (settings_ v) as [s|]; [|done]. simpl.
  destruct (request_ v) as [r|]; [|done]. simpl.
  assert (Hyes : Callback k true = Callback (callback_ r) (verdict s body) →
    ∃ s' r', Some s = Some s' ∧ Some r = Some r' ∧ callback_ r' = k ∧
      json_bool body (getValidJSONVariableName s') = Some true).
  { intros [= -> Hv]. exists s, r. split_and!; [done..|]. unfold verdict in Hv.
    destruct (json_bool _ _) as [b|]; [by rewrite Hv|done]. }
  destruct (queue_ v) as [|next rest].
  - intros [= <- <-] Hin%list_elem_of_singleton. auto.
  - destruct (SendRequest _) as [[v1 evs1]|] eqn:Hs; [|done]. simpl.
    intros [= <- <-] [Hin|Hin]%elem_of_cons; [auto|]. by eapply SendRequest_no_callback in Hin.
Qed.

Lemma OnComplete_true op result v v' evs k :
  OnComplete op result v = Some (v', evs) → Callback k true ∈ evs → confirmed v op result k.
Proof.
  intros Hex Hin. unfold OnComplete in Hex.
  destruct op; try destruct useSSL; destruct (nr_ec result) eqn:Hec; simpl in Hex;
    try (by apply (Retry_no_true _ _ _ _ Hex) in Hin);
    try (by apply (SendRequest_no_callback _ _ _ _ _ Hex) in Hin);
    try (by apply (Connect_no_callback _ _ _ _ _ Hex) in Hin);
    try (by simplify_eq; apply list_elem_of_singleton in Hin).
  split_and!; [done|done|]. by eapply OnRead_true.
Qed.

Lemma Verify_true inline token k' ip v v' evs k :
  Verify inline token k' ip v = Some (v', evs) → Callback k true ∈ evs → captcha_off v.
Proof.
  unfold Verify, captcha_off. intros Hex Hin.
  destruct (match pending_settings_ v, settings_ v with
    | Some s, _ | None, Some s => getEnabled s | None, None => false end) eqn:Hen; simpl in Hex;
    [|by destruct (pending_settings_ v), (settings_ v)].
  exfalso. destruct (negb inline); [done|]. destruct (String.eqb _ _); [simplify_eq; apply list_elem_of_singleton in Hin; congruence|].
  destruct (request_ v); [simplify_eq; by apply elem_of_nil in Hin|].
  destruct (stream_open v); [by apply (SendRequest_no_callback _ _ _ _ _ Hex) in Hin|
    by apply (Connect_no_callback _ _ _ _ _ Hex) in Hin].
Qed.

Lemma elem_of_answers k b (evs : list captcha_event) : (k, b) ∈ answers evs ↔ Callback k b ∈ evs.
Proof.
  unfold answers. rewrite list_elem_of_omap. split.
  - intros (ev & Hin & Hev). destruct ev; by simplify_eq.
  - intros Hin. by exists (Callback k b).
Qed.

(** Only the one who asks can be answered at once. *)
Lemma Verify_answers inline token k ip v v' evs k' b :
  Verify inline token k ip v = Some (v', evs) → (k', b) ∈ answers evs → k' = k.
Proof.
  unfold Verify. intros Hx Hin%elem_of_answers.
  destruct (negb _); [simplify_eq/=; apply list_elem_of_singleton in Hin; congruence|].
  destruct (negb inline); [done|]. destruct (String.eqb _ _); [simplify_eq/=; apply list_elem_of_singleton in Hin; congruence|].
  destruct (request_ v); [simplify_eq; by apply elem_of_nil in Hin|]. revert Hx.
  destruct (stream_open _); intros Hx; exfalso;
    [exact (SendRequest_no_callback _ _ _ _ _ Hx Hin)|exact (Connect_no_callback _ _ _ _ _ Hx Hin)].
Qed.

(** ** Properties *)

(** C17: whoever waits for the captcha service is answered once, in order.
    Whatever the order of requests, completions and changes of the settings:
    those who had to wait are those who have been answered, in the same order,
    followed by those who still wait, and exactly while somebody waits one
    operation on the network is under way.  The handlers have a defined result
    with one exception: when captchas are enabled and Verify is called while
    another thread is in the client's strand, the call is deferred and uses
    its arguments when they are gone. *)
Theorem captcha_answers_in_order (ops : list captcha_op) :
  match captcha_run ops captcha_new (CaptchaLog [] []) with
  | Some (v, l) => waited l = (answered l).*1 ++ waiting v ∧
      length (outstanding_ v) = length (option_list (request_ v)) ∧ (request_ v = None → waiting v = [])
  | None => ∃ ops1 token k ip ops2 v l, ops = ops1 ++ CVerify false token k ip :: ops2 ∧
      captcha_run ops1 captcha_new (CaptchaLog [] []) = Some (v, l) ∧ ¬ captcha_off v
  end.
Proof.
  pose proof (captcha_run_ok ops captcha_new (CaptchaLog [] []) captcha_new_inv eq_refl) as Hok.
  destruct (captcha_run ops captcha_new _) as [[v l]|].
  - destruct Hok as [[H1 Hq _ _] Hl]. split_and!; [exact Hl| |].
    + destruct (request_ v); [by destruct H1 as [op ->]|by rewrite H1].
    + intros Hr. unfold waiting. by rewrite Hr, Hq.
  - destruct Hok as (ops1 & [|[] token k ip|] & ops2 & v & l & -> & Hr & Hno); try by destruct Hno.
    by exists ops1, token, k, ip, ops2, v, l.
Qed.

(** C26: nobody passes the captcha without the service.  A callback is told
    that the token is valid only when captchas are switched off, or by the
    response that the service gave to this very request, and only if the
    configured variable of that response is true. *)
Theorem captcha_passes_only_confirmed op v v' evs k :
  captcha_exec op v = Some (v', evs) → Callback k true ∈ evs →
  match op with
  | CSetSettings _ => False
  | CVerify _ _ _ _ => captcha_off v
  | CComplete i result =>
      ∃ nop, outstanding_ v !! i = Some nop ∧ confirmed v nop result k
  end.
Proof.
  destruct op as [s|inline token k' ip|i result]; cbn [captcha_exec]; intros Hex Hin.
  - unfold SetSettings in Hex. simplify_eq. by apply list_elem_of_singleton in Hin.
  - by eapply Verify_true.
  - destruct (outstanding_ v !! i) as [nop|]; [|simplify_eq; by apply elem_of_nil in Hin].
    exists nop. split; [done|]. by apply (OnComplete_true nop result _ _ _ _ Hex).
Qed.

(** A service that cannot be reached rejects.  While connecting fails,
    everybody who waits is told no after at most three attempts, and nothing
    is left to wait for. *)
Theorem captcha_gives_up ops v l ssl :
  captcha_run ops captcha_new (CaptchaLog [] []) = Some (v, l) →
  outstanding_ v = [Connecting ssl] → pending_settings_ v = None →
  ∃ n v' l', n ≤ 3 ∧
    captcha_run (concat (replicate n unreachable_round)) v l = Some (v', l') ∧
    waiting v' = [] ∧ answered l' = answered l ++ ((λ k, (k, false)) <$> waiting v).
Proof.
  intros Hrun Ho Hp.
  pose proof (captcha_run_ok ops captcha_new (CaptchaLog [] []) captcha_new_inv eq_refl) as Hv.
  rewrite Hrun in Hv. destruct Hv as [Hv _].
  assert (Hgen : ∀ m v l ssl, captcha_inv v → outstanding_ v = [Connecting ssl] →
    pending_settings_ v = None → (max_fail_count_ <= failed_count_ v + Z.of_nat (S m))%Z →
    ∃ n v' l', n ≤ S m ∧ captcha_run (concat (replicate n unreachable_round)) v l = Some (v', l') ∧
      waiting v' = [] ∧ answered l' = answered l ++ ((λ k, (k, false)) <$> waiting v)).
  { clear. induction m as [|m IH]; intros v l ssl Hv Ho Hp Hm;
      destruct (unreachable_step ssl v l Hv Ho Hp) as (v1 & l1 & Hr1 & Hv1 & Hcase);
      destruct (Z.leb_spec max_fail_count_ (failed_count_ v + 1)) as [Hl|Hl]; try lia.
    - destruct Hcase. by exists 1, v1, l1.
    - destruct Hcase. exists 1, v1, l1. split_and!; [lia|done..].
    - destruct Hcase as ([ssl' Ho1] & Hp1 & Hf1 & Hw1 & Ha1).
      destruct (IH v1 l1 ssl' Hv1 Ho1 Hp1) as (n & v2 & l2 & Hn & Hr2 & Hw2 & Ha2); [lia|].
      exists (S n), v2, l2. split_and!; [lia| |done|by rewrite Ha2, Ha1, Hw1].
      cbn [replicate concat]. by rewrite captcha_run_app, Hr1. }
  apply (Hgen 2 v l ssl Hv Ho Hp). pose proof (ci_failed _ Hv). unfold max_fail_count_. lia.
Qed.

(** A service that accepts connections and fails every request. *)
Definition refused_round : list captcha_op :=
  [CComplete 0 failing; CComplete 0 working; CComplete 0 working; CComplete 0 working].

Definition writing_plain v : Prop :=
  is_Some (request_ v) ∧ (∃ s, settings_ v = Some s ∧ getHttps s = false) ∧ pending_settings_ v = None ∧
  failed_count_ v = 0%Z ∧ outstanding_ v = [Writing].

Lemma refused_step v l :
  writing_plain v →
  ∃ v', captcha_run refused_round v l = Some (v', l) ∧ writing_plain v' ∧ waiting v' = waiting v.
Proof.
  intros ([r Hr] & (s & Hs & Hplain) & Hp & Hf & Ho).
  unfold refused_round. cbn [captcha_run captcha_exec]. rewrite Ho. cbn. unfold Retry. cbn. rewrite Hf. change (max_fail_count_ <=? 0 + 1)%Z with false. cbn.
  unfold Connect. cbn. rewrite Hp. cbn. rewrite Hs. cbn. rewrite Hplain. cbn.
  unfold SendRequest. cbn. rewrite Hs, Hr. cbn. eexists. split_and!.
  - rewrite !app_nil_r. by destruct l.
  - split_and!; [by exists r|by exists s|done..].
  - unfold waiting. simpl. by rewrite Hr.
Qed.

(** The limit on failures only counts failures to connect.  A service
    that accepts connections and then fails every request is asked again for
    ever: the count is reset by every request, so that after any number of
    rounds nobody has been answered and everybody still waits. *)
Theorem captcha_retries_forever v l n :
  writing_plain v →
  ∃ v', captcha_run (concat (replicate n refused_round)) v l = Some (v', l) ∧
    waiting v' = waiting v ∧ waiting v ≠ [].
Proof.
  intros Hv. assert (Hne : waiting v ≠ []).
  { destruct Hv as ([r Hr] & _). unfold waiting. by rewrite Hr. }
  enough (∃ v', captcha_run (concat (replicate n refused_round)) v l = Some (v', l) ∧
    waiting v' = waiting v) as (v' & ? & ?) by by exists v'. clear Hne.
  revert v Hv. induction n as [|n IH]; intros v Hv; [by exists v|].
  destruct (refused_step v l Hv) as (v1 & Hr1 & Hv1 & Hw1).
  destruct (IH v1 Hv1) as (v2 & Hr2 & Hw2). exists v2. cbn [replicate concat].
  rewrite captcha_run_app, Hr1. split; [exact Hr2|congruence].
Qed.
End Captcha.

(** ** Concrete runs *)

Module CaptchaDemo.
Definition json (body name : string) : option bool :=
  if String.eqb body "ok" then Some true else if String.eqb body "no" then Some false else None.
Definition replace_all (input search format : string) : string :=
  if String.eqb input search then format else input.

Definition settings (https : bool) : captcha_settings :=
  CaptchaSettings true https "captcha.example" 80 "$TOKEN" EmptyString "success".

Abbreviation run := (captcha_run (K := nat) json replace_all).

(** Two requests, the first of which is confirmed. *)
Definition two_requests : list (captcha_op (K := nat)) :=
  [CSetSettings (settings false); CVerify true "t1" 1 "::1"; CVerify true "t2" 2 "::1"; CVerify true EmptyString 3 "::1";
   CComplete 0 working; CComplete 0 working].

Definition sending : verifier * captcha_log :=
  default (captcha_new, CaptchaLog [] []) (run two_requests captcha_new (CaptchaLog [] [])).

Example two_requests_wait :
  waited sending.2 = [1; 2] ∧ waiting sending.1 = [1; 2] ∧ outstanding_ sending.1 = [Writing].
Proof. by vm_compute. Qed.

Example first_is_confirmed :
  answered <$> (snd <$> run [CComplete 0 working;
    CComplete 0 (NetworkResult success true "ok")] sending.1 sending.2) = Some [(1, true)].
Proof. by vm_compute. Qed.

Lemma captcha_passes_only_confirmed_witness :
  ∃ v' evs, captcha_exec json replace_all (CComplete 0 (NetworkResult success true "ok"))
      (with_outstanding [Reading] sending.1) = Some (v', evs) ∧ Callback 1 true ∈ evs ∧
    confirmed json (with_outstanding [Reading] sending.1) Reading (NetworkResult success true "ok") 1.
Proof.
  eexists _, _. split; [vm_compute; reflexivity|]. split; [by left|].
  destruct (captcha_passes_only_confirmed json replace_all
    (CComplete 0 (NetworkResult success true "ok")) (with_outstanding [Reading] sending.1) _ _ 1
    ltac:(vm_compute; reflexivity) ltac:(by left)) as (nop & Hnop & Hc).
  vm_compute in Hnop. injection Hnop as <-. exact Hc.
Defined.

Lemma captcha_gives_up_witness :
  ∃ v l, run (take 5 two_requests) captcha_new (CaptchaLog [] []) = Some (v, l) ∧
    ∃ n v' l', n ≤ 3 ∧ run (concat (replicate n unreachable_round)) v l = Some (v', l') ∧
      waiting v' = [] ∧ answered l' = [(1, false); (2, false)].
Proof.
  eexists _, _. split; [vm_compute; reflexivity|].
  destruct (captcha_gives_up json replace_all (take 5 two_requests) _ _ false
    ltac:(vm_compute; reflexivity) eq_refl eq_refl) as (n & v' & l' & Hn & Hrun & Hw & Ha).
  exists n, v', l'. by split_and!.
Defined.

Lemma captcha_retries_forever_witness :
  ∃ v', run (concat (replicate 1000 refused_round)) sending.1 sending.2 = Some (v', sending.2) ∧
    waiting v' = [1; 2].
Proof.
  destruct (captcha_retries_forever json replace_all sending.1 sending.2 1000) as (v' & Hrun & Hw & _).
  - split_and!; [by eexists|by eexists|done..].
  - exists v'. split; [exact Hrun|]. rewrite Hw. by vm_compute.
Defined.
End CaptchaDemo.
