(* ===== verification/Previews.v ===== *)
(** * Previews of recordings (CollabVmSocket::SendRecordingPreviews)

    An administrator asks for pictures of what a machine showed in a period of
    time.  The server walks through the recordings that the database knows,
    opens each file, and draws the frames it finds.  The walk runs inside the
    handler of the message, on the socket's strand.

    What is in the files is an input: [open_file] yields nothing for a file
    that cannot be opened, and [Some None] for one whose header cannot be read.
    Drawing is libguac's and cairo's business, so that a picture is an abstract
    state.  Timestamps are 64 bits wide. *)

From S2P Require Import Prelude Messages Database Recording.
From Stdlib Require Import String.

(** [CollabVmClientMessage::RecordingPreviewRequest]. *)
Record preview_request := PreviewRequest {
  pr_vm_id : Z;
  pr_start_time : Z;
  pr_stop_time : Z;
  pr_time_interval : Z;
  pr_width : Z;
  pr_height : Z
}.

Section Previews.
Context {G S : Type} `{GuacSchema G}.
Abbreviation msg := (server_message G S).
(** [GuacamoleScreenshot]. *)
Context {P : Type} (screenshot_new : P) (WriteInstruction : P → G → P).
Context (CreateScreenshot : P → Z → Z → list Z).

(** A file: the header, the messages that can be read from an offset on, where
    the first message is, and whether running out of messages leaves the
    stream in a failed state (the end of the file does, a message that cannot
    be decoded does not). *)
Record recording_file := RecordingFile {
  rf_header : file_header;
  rf_messages : Z → list msg;
  rf_body : Z;
  rf_end_fails : bool
}.
Implicit Types f : recording_file.

Context (open_file : string → option (option recording_file)).

(** [RecordingFileStream]. *)
Record recording_stream := RecordingStream {
  rs_file : recording_file;
  rs_rest : list msg;
  rs_failed : bool;
  keyframe_begin_ : nat;
  current_timestamp : Z
}.
Implicit Types (r : recording_stream) (req : preview_request).

Definition open_stream f : recording_stream :=
  RecordingStream f (rf_messages f (rf_body f)) false 0 (fh_start_time (rf_header f)).

Definition keyframes_ r : list keyframe := fh_keyframes (rf_header (rs_file r)).

Definition GetNextFileTimestamp r : Z :=
  Z.max (u64 (fh_start_time (rf_header (rs_file r)) + 1)) (fh_stop_time (rf_header (rs_file r))).

(** A failed stream cannot be positioned; [None] for the end of the list. *)
Definition SeekToKeyframe (i : nat) r : option recording_stream :=
  k ← keyframes_ r !! i;
  Some (RecordingStream (rs_file r)
    (if rs_failed r then rs_rest r else rf_messages (rs_file r) (kf_offset k))
    (rs_failed r) i (kf_timestamp k)).

Definition with_timestamp (t : Z) r : recording_stream :=
  RecordingStream (rs_file r) (rs_rest r) (rs_failed r) (keyframe_begin_ r) t.
Definition with_begin (i : nat) r : recording_stream :=
  RecordingStream (rs_file r) (rs_rest r) (rs_failed r) i (current_timestamp r).

Definition NextKeyframe r : option (bool * recording_stream) :=
  if decide (1 < List.length (keyframes_ r) - keyframe_begin_ r)
  then r ← SeekToKeyframe (keyframe_begin_ r + 1) r; Some (true, r)
  else Some (false, with_timestamp (GetNextFileTimestamp r) r).

(** [std::lower_bound] over the reversed range that ends before
    [keyframe_begin_]: the position from its end of the last key frame that is
    not later than [timestamp]. *)
Definition find_keyframe (timestamp : Z) r : option (nat * keyframe) :=
  list_find (λ k, kf_timestamp k ≤ timestamp)%Z (rev (take (keyframe_begin_ r) (keyframes_ r))).

(** [keyframe.base()] is the position after the key frame. *)
Definition SeekToTimestamp (timestamp : Z) r : option (bool * recording_stream) :=
  let h := rf_header (rs_file r) in
  if (timestamp <? fh_start_time h)%Z || (fh_stop_time h <? timestamp)%Z then Some (false, r)
  else
    let r := if (timestamp <? current_timestamp r)%Z then with_begin 0 r else r in
    match find_keyframe timestamp r with
    | None => Some (true, r)
    | Some (i, k) =>
        if (current_timestamp r <? kf_timestamp k)%Z || (timestamp <? current_timestamp r)%Z
        then r ← SeekToKeyframe (keyframe_begin_ r - i) r; Some (true, r)
        else Some (true, r)
    end.

(** The loops that read frames: messages other than instructions are skipped,
    and a frame ends with a SYNC, whose time becomes the stream's.  With a time
    interval frames are read up to the wanted time, without one a single
    frame.  The result says whether a frame was read, and whether the
    messages ran out. *)
Fixpoint ReadFrames (single : bool) (wanted : Z) (picture : P) (one_frame : bool) (t : Z) (l : list msg)
    : P * bool * Z * list msg * bool :=
  match l with
  | [] => (picture, one_frame, t, [], true)
  | MGuacInstr g :: l =>
      let picture := WriteInstruction picture g in
      match guac_which g with
      | G_SYNC t' =>
          if negb single && (t' <? wanted)%Z then ReadFrames single wanted picture true t' l
          else (picture, true, t', l, false)
      | _ => ReadFrames single wanted picture one_frame t l
      end
  | _ :: l => ReadFrames single wanted picture one_frame t l
  end.

(** Reading for one preview, on the stream. *)
Definition ReadPreview req (wanted : Z) (picture : P) r : P * bool * recording_stream :=
  let '(picture, one_frame, t, rest, ended) :=
    ReadFrames (Z.eqb (pr_time_interval req) 0) wanted picture false (current_timestamp r) (rs_rest r) in
  (picture, one_frame,
   RecordingStream (rs_file r) rest (rs_failed r || ended && rf_end_fails (rs_file r))
     (keyframe_begin_ r) t).

(** [initRecordingPlaybackPreview]. *)
Definition PreviewMessage req (picture : P) r : msg :=
  MRecordingPlaybackPreview (current_timestamp r) (pr_vm_id req)
    (CreateScreenshot picture (pr_width req) (pr_height req)).

(** The loop over one file: the time at which to go on, and the previews.
    [None]: the fuel is used up, or a position past the last key frame. *)
Fixpoint FilePreviews (fuel : nat) req (wanted : Z) (keyframe_changed : bool) (picture : P) r
    : option (Z * list msg) :=
  match fuel with
  | O => None
  | Datatypes.S fuel =>
      if (wanted <? pr_stop_time req)%Z then
        let picture := if keyframe_changed then screenshot_new else picture in
        let '(picture, one_frame, r) := ReadPreview req wanted picture r in
        if negb one_frame then Some (GetNextFileTimestamp r, [])
        else
          let m := PreviewMessage req picture r in
          if Z.eqb (pr_time_interval req) 0 then
            '(next_frame, r) ← NextKeyframe r;
            if next_frame : bool then
              '(t, ms) ← FilePreviews fuel req (current_timestamp r) true picture r;
              Some (t, m :: ms)
            else Some (current_timestamp r, [m])
          else
            let wanted := u64 (current_timestamp r + pr_time_interval req) in
            '(inside, r) ← SeekToTimestamp wanted r;
            if inside : bool then
              '(t, ms) ← FilePreviews fuel req wanted false picture r;
              Some (t, m :: ms)
            else Some (wanted, [m])
      else Some (wanted, [])
  end.

Definition file_fuel f : nat := Datatypes.S (List.length (rf_messages f (rf_body f)) + List.length (fh_keyframes (rf_header f))).

(** The time after a file that yields nothing. *)
Definition skip_file (file_start_time file_stop_time : Z) : Z :=
  if Z.eqb file_stop_time 0 then u64 (file_start_time + 1) else file_stop_time.

(** One round of the outer loop. *)
Inductive preview_step := Finish (result : bool) | Continue (wanted : Z).

Definition PreviewFile req (wanted : Z) (d : database) : option (preview_step * list msg) :=
  let '(file_path, file_start_time, file_stop_time) :=
    GetRecordingFilePath (pr_vm_id req) wanted (pr_stop_time req) d in
  if String.eqb file_path EmptyString then Some (Finish false, [])
  else match open_file file_path with
  | None =>
      let wanted := skip_file file_start_time file_stop_time in
      Some (if Z.eqb wanted 0 then Finish false else Continue wanted, [])
  | Some None => Some (Continue (skip_file file_start_time file_stop_time), [])
  | Some (Some f) =>
      '(_, r) ← SeekToTimestamp wanted (open_stream f);
      '(t, ms) ← FilePreviews (file_fuel f) req wanted false screenshot_new r;
      Some (Continue t, ms)
  end.

Fixpoint PreviewLoop (fuel : nat) req (wanted : Z) (d : database) : option (list msg) :=
  match fuel with
  | O => None
  | Datatypes.S fuel =>
      if (wanted <? pr_stop_time req)%Z then
        '(step, ms) ← PreviewFile req wanted d;
        match step with
        | Finish result => Some (ms ++ [MRecordingPlaybackResult result])
        | Continue wanted => rest ← PreviewLoop fuel req wanted d; Some (ms ++ rest)
        end
      else Some [MRecordingPlaybackResult true]
  end.

Definition SendRecordingPreviews (fuel : nat) req (d : database) : option (list msg) :=
  if Z.eqb (pr_start_time req) 0 || Z.eqb (pr_stop_time req) 0
  then Some [MRecordingPlaybackResult false]
  else PreviewLoop fuel req (pr_start_time req) d.

(** ** A reference for previews at an interval

    One pass over the frames of the file, without key frames and without
    fuel. *)

(** The frames of a list of messages, each with its time and the picture after
    it, and the picture after all of the messages. *)
Fixpoint frames (picture : P) (l : list msg) : list (Z * P) * P :=
  match l with
  | [] => ([], picture)
  | MGuacInstr g :: l =>
      let picture := WriteInstruction picture g in
      match guac_which g with
      | G_SYNC t => let '(fs, last) := frames picture l in ((t, picture) :: fs, last)
      | _ => frames picture l
      end
  | _ :: l => frames picture l
  end.

Definition in_file f (timestamp : Z) : bool :=
  (fh_start_time (rf_header f) <=? timestamp)%Z && (timestamp <=? fh_stop_time (rf_header f))%Z.

Definition file_end f : Z :=
  Z.max (u64 (fh_start_time (rf_header f) + 1)) (fh_stop_time (rf_header f)).

(** What happens after a preview at time [t]: the next time, and whether the
    pass goes on. *)
Definition next_time f req (t : Z) : Z * bool :=
  let wanted := u64 (t + pr_time_interval req) in
  (wanted, in_file f wanted && (wanted <? pr_stop_time req)%Z).

(** [pending] is the time of the frame that the next preview has so far; the
    result is the time to go on with after the file and the previews. *)
Fixpoint sample f req (last : P) (wanted : Z) (pending : option Z) (fs : list (Z * P))
    : Z * list (Z * P) :=
  match fs with
  | [] =>
      match pending with
      | None => (file_end f, [])
      | Some t =>
          let '(wanted, inside) := next_time f req t in
          (if inside then file_end f else wanted, [(t, last)])
      end
  | (t, picture) :: fs =>
      if (t <? wanted)%Z then sample f req last wanted (Some t) fs
      else
        let '(wanted, inside) := next_time f req t in
        if inside then
          let '(e, ps) := sample f req last wanted None fs in (e, (t, picture) :: ps)
        else (wanted, [(t, picture)])
  end.

Definition sample_file f req (wanted : Z) (picture : P) (l : list msg) : Z * list (Z * P) :=
  sample f req (frames picture l).2 wanted None (frames picture l).1.

Definition preview_of req (tp : Z * P) : msg :=
  MRecordingPlaybackPreview tp.1 (pr_vm_id req) (CreateScreenshot tp.2 (pr_width req) (pr_height req)).

(** ** Reading *)

(** What reading leaves: a frame was read unless nothing was. *)
Lemma ReadFrames_rest single wanted picture b t l picture' b' t' rest ended :
  ReadFrames single wanted picture b t l = (picture', b', t', rest, ended) →
  ∃ read, l = read ++ rest ∧ (b' = true → b = true ∨ read ≠ []).
Proof.
  revert picture b t. induction l as [|m l IH]; intros picture b t Hr; simpl in Hr.
  - simplify_eq. exists []. split; [done|by left].
  - assert (∀ p b0 t, ReadFrames single wanted p b0 t l = (picture', b', t', rest, ended) →
      ∃ read, m :: l = read ++ rest ∧ (b' = true → b = true ∨ read ≠ [])) as Hl.
    { intros p b0 t0 (read & -> & _)%IH. exists (m :: read). split; [done|by right]. }
    clear IH. destruct m; try by eapply Hl.
    destruct (guac_which instr); try by eapply Hl.
    destruct (_ && _); [by eapply Hl|]. simplify_eq.
    exists [MGuacInstr instr]. split; [done|by right].
Qed.

Lemma ReadPreview_stream req wanted picture r picture' one_frame r' :
  ReadPreview req wanted picture r = (picture', one_frame, r') →
  rs_file r' = rs_file r ∧ keyframe_begin_ r' = keyframe_begin_ r ∧
  (∃ read, rs_rest r = read ++ rs_rest r') ∧
  (one_frame = true → List.length (rs_rest r') < List.length (rs_rest r)).
Proof.
  unfold ReadPreview. destruct (ReadFrames _ _ _ _ _ _) as [[[[p b] t] rest] ended] eqn:E.
  intros ?. simplify_eq/=. apply ReadFrames_rest in E as (read & E & Hread).
  split_and!; [done..|by exists read|]. intros Ht.
  rewrite E, List.length_app. destruct (Hread Ht) as [?|?]; [done|destruct read; simpl; [done|lia]].
Qed.

(** Positioning a stream at its first key frame does nothing: the range that is
    searched is empty. *)
Lemma SeekToTimestamp_begin timestamp r :
  keyframe_begin_ r = 0 →
  SeekToTimestamp timestamp r = Some (in_file (rs_file r) timestamp, r).
Proof.
  intros H0. unfold SeekToTimestamp, in_file.
  rewrite !Z.ltb_antisym, <-negb_andb. destruct (_ && _) eqn:Hin; simpl; [|done].
  assert (with_begin 0 r = r) as Hr by (destruct r; simpl in *; by subst).
  rewrite Hr. unfold find_keyframe. destruct (negb _); by rewrite H0.
Qed.

(** ** Previews at an interval are one pass *)

Section Interval.
Context (req : preview_request) (interval : pr_time_interval req ≠ 0%Z).
Context (f : recording_file).

(** Reading for a preview, and the pass. *)
Lemma ReadFrames_sample wanted picture b t l picture' b' t' rest ended :
  ReadFrames false wanted picture b t l = (picture', b', t', rest, ended) →
  sample f req (frames picture l).2 wanted (if b then Some t else None) (frames picture l).1 =
  if b' then
    let '(w, inside) := next_time f req t' in
    if inside then let '(e, ps) := sample_file f req w picture' rest in (e, (t', picture') :: ps)
    else (w, [(t', picture')])
  else (file_end f, []).
Proof.
  revert picture b t. induction l as [|m l IH]; intros picture b t Hr; simpl in Hr.
  - simplify_eq. simpl. destruct b'; [|done]. simpl. by destruct (_ && _).
  - destruct m; try (by apply IH).
    simpl. destruct (guac_which instr) as [time| | | | | | | | | |] eqn:Hw; try (by apply IH).
    destruct (frames (WriteInstruction picture instr) l) as [fs last] eqn:Hf.
    simpl. destruct (time <? wanted)%Z; simpl in Hr.
    + specialize (IH (WriteInstruction picture instr) true time Hr). rewrite Hf in IH. exact IH.
    + simplify_eq. unfold sample_file. by rewrite Hf.
Qed.

Lemma FilePreviews_sample fuel wanted picture r :
  rs_file r = f → keyframe_begin_ r = 0 → List.length (rs_rest r) < fuel →
  FilePreviews fuel req wanted false picture r =
  Some (if (wanted <? pr_stop_time req)%Z
        then prod_map id (fmap (preview_of req)) (sample_file f req wanted picture (rs_rest r))
        else (wanted, [])).
Proof.
  revert wanted picture r. induction fuel as [|fuel IH]; intros wanted picture r Hf H0 Hl; [lia|].
  simpl. destruct (wanted <? pr_stop_time req)%Z; [|done].
  destruct (ReadPreview req wanted picture r) as [[picture' one_frame] r'] eqn:Er.
  pose proof (ReadPreview_stream _ _ _ _ _ _ _ Er) as (Hf' & H0' & _ & Hlt).
  unfold ReadPreview in Er. apply Z.eqb_neq in interval as Hi. rewrite Hi in Er |- *.
  destruct (ReadFrames false _ _ _ _ _) as [[[[p b] t] rest] ended] eqn:E.
  apply ReadFrames_sample in E. injection Er as -> -> <-. simpl in *.
  unfold sample_file at 1. rewrite E. destruct one_frame; simpl.
  - rewrite SeekToTimestamp_begin by done. simpl. rewrite Hf. unfold next_time.
    destruct (in_file f _); simpl; [|done].
    rewrite IH by (simpl; auto with lia). simpl.
    destruct (_ <? _)%Z; [|done]. by destruct (sample_file _ _ _ _ _) as [e ps].
  - unfold GetNextFileTimestamp. simpl. by rewrite Hf.
Qed.
End Interval.

(** C28: With a time interval, the previews of a file are those of one pass
    over its frames: each preview is the first frame that is at least the
    interval after the previous preview, or what the file's last messages
    leave.  The file's key frames play no role: positioning the stream never
    moves it. *)
Theorem previews_single_pass req wanted d file_path start_time stop_time f :
  pr_time_interval req ≠ 0%Z →
  GetRecordingFilePath (pr_vm_id req) wanted (pr_stop_time req) d = (file_path, start_time, stop_time) →
  file_path ≠ EmptyString → open_file file_path = Some (Some f) →
  (wanted < pr_stop_time req)%Z →
  let '(next, previews) := sample_file f req wanted screenshot_new (rf_messages f (rf_body f)) in
  PreviewFile req wanted d = Some (Continue next, preview_of req <$> previews).
Proof.
  intros Hi Hg Hp Ho Hw. unfold PreviewFile. rewrite Hg.
  apply String.eqb_neq in Hp. rewrite Hp, Ho, SeekToTimestamp_begin by done. cbn [mbind option_bind].
  rewrite (FilePreviews_sample _ Hi f) by (unfold file_fuel; simpl; auto with lia).
  apply Z.ltb_lt in Hw. rewrite Hw. simpl. by destruct (sample_file _ _ _ _ _).
Qed.

(** ** Termination *)

(** What the server's own recordings satisfy: times do not overflow and frames
    are not older than the file. *)
Record file_sound (interval start_time : Z) f : Prop := {
  fs_start : fh_start_time (rf_header f) = start_time;
  fs_frames : ∀ offset g t, MGuacInstr g ∈ rf_messages f offset → guac_which g = G_SYNC t →
    (start_time ≤ t ∧ t + interval < 2 ^ 64)%Z
}.

(** A row of the table: the recording has a length when it has an end. *)
Record row_sound (interval : Z) (r : Database.Recording) : Prop := {
  ro_start : ∀ t, rec_start_time r = Some t →
    (0 ≤ t ∧ t + 1 < 2 ^ 64 ∧ (default 0 (rec_stop_time r) = 0 ∨ t < default 0 (rec_stop_time r)))%Z;
  ro_file : ∀ t f, rec_start_time r = Some t → open_file (rec_file_path r) = Some (Some f) →
    file_sound interval t f
}.

(** The time after a file: past its start, or past the end of the request. *)
Definition moves_on req (start_time next : Z) : Prop :=
  (start_time < next ∨ pr_stop_time req ≤ next)%Z.

Lemma file_end_after f interval start_time :
  file_sound interval start_time f → (0 ≤ start_time)%Z → (start_time + 1 < 2 ^ 64)%Z →
  (start_time < file_end f)%Z.
Proof.
  intros [<- _] ? ?. unfold file_end, u64. rewrite Z.mod_small by lia. lia.
Qed.

Lemma skip_file_after start_time stop_time :
  (0 ≤ start_time)%Z → (start_time + 1 < 2 ^ 64)%Z →
  (stop_time = 0 ∨ start_time < stop_time)%Z → (start_time < skip_file start_time stop_time)%Z.
Proof.
  intros ? ? Hs. unfold skip_file, u64. destruct (Z.eqb_spec stop_time 0); [|lia].
  rewrite Z.mod_small; lia.
Qed.

Section Progress.
Context (req : preview_request) (f : recording_file) (start_time : Z).
Context (Hf : file_sound (pr_time_interval req) start_time f).
Context (Hstart : (0 ≤ start_time ∧ start_time + 1 < 2 ^ 64)%Z).

(** Previews of key frames: each round moves to the next key frame. *)
Lemma FilePreviews_keyframes fuel wanted changed picture r :
  pr_time_interval req = 0%Z → rs_file r = f →
  List.length (keyframes_ r) - keyframe_begin_ r < fuel →
  ∃ next ms, FilePreviews fuel req wanted changed picture r = Some (next, ms) ∧
    moves_on req start_time next.
Proof.
  intros Hi. revert wanted changed picture r.
  induction fuel as [|fuel IH]; intros wanted changed picture r Hr Hl; [lia|]. simpl.
  destruct (Z.ltb_spec wanted (pr_stop_time req)); [|eexists _, _; split; [done|by right]].
  destruct (ReadPreview _ _ _ _) as [[picture' one_frame] r'] eqn:Er.
  apply ReadPreview_stream in Er as (Hf' & H0' & _ & _).
  assert (file_end f = GetNextFileTimestamp r') as He.
  { unfold GetNextFileTimestamp. by rewrite Hf', Hr. }
  pose proof (file_end_after _ _ _ Hf (proj1 Hstart) (proj2 Hstart)).
  assert (keyframes_ r' = keyframes_ r) as Hk by (unfold keyframes_; by rewrite Hf').
  destruct one_frame; simpl; [|eexists _, _; split; [done|left; lia]].
  rewrite Hi. simpl. unfold NextKeyframe. rewrite Hk, H0'. case_decide as Hd; simpl.
  - unfold SeekToKeyframe. rewrite Hk.
    destruct (lookup_lt_is_Some_2 (keyframes_ r) (keyframe_begin_ r + 1)) as [k ->]; [lia|]. simpl.
    edestruct IH as (next & ms & -> & Hm); [| |simpl; by eexists _, _].
    + simpl. congruence.
    + unfold keyframes_ in *. simpl. rewrite Hf'. lia.
  - eexists _, _. split; [done|]. left. simpl. lia.
Qed.

(** The pass ends later than the file starts. *)
Lemma sample_after last wanted pending fs :
  (0 < pr_time_interval req)%Z →
  (∀ t, pending = Some t ∨ t ∈ fs.*1 → (start_time ≤ t ∧ t + pr_time_interval req < 2 ^ 64)%Z) →
  (start_time < (sample f req last wanted pending fs).1)%Z.
Proof.
  intros Hi. pose proof (file_end_after _ _ _ Hf (proj1 Hstart) (proj2 Hstart)).
  revert wanted pending. induction fs as [|[t picture] fs IH]; intros wanted pending Hfs; simpl.
  - destruct pending as [t|]; simpl; [|done]. destruct (_ && _); [done|].
    destruct (Hfs t) as [? ?]; [by left|]. unfold u64. rewrite Z.mod_small; lia.
  - destruct (Hfs t) as [? ?]; [right; simpl; by left|].
    assert (∀ w p, (∀ t', p = Some t' → t' = t) →
      (start_time < (sample f req last w p fs).1)%Z) as Hrec.
    { intros w p Hp. apply IH. intros t' [->%Hp|Hin]; [done|apply Hfs; right; simpl; by right]. }
    destruct (_ <? _)%Z; [apply Hrec; by intros t' [= ->]|].
    destruct (_ && _); simpl.
    + specialize (Hrec (u64 (t + pr_time_interval req)) None).
      destruct (sample _ _ _ _ _ _) as [e ps]. by apply Hrec.
    + unfold u64. rewrite Z.mod_small; lia.
Qed.

Lemma frames_times picture l t :
  t ∈ (frames picture l).1.*1 → ∃ g, MGuacInstr g ∈ l ∧ guac_which g = G_SYNC t.
Proof.
  revert picture. induction l as [|m l IH]; intros picture; simpl; [by intros ?%elem_of_nil|].
  assert (∀ p, t ∈ (frames p l).1.*1 → ∃ g, MGuacInstr g ∈ m :: l ∧ guac_which g = G_SYNC t) as Hl.
  { intros p (g & Hg & ?)%IH. exists g. split; [by right|done]. }
  destruct m; try by apply Hl.
  destruct (guac_which instr) eqn:Hw; try by apply Hl.
  destruct (frames _ l) as [fs last] eqn:Hfs. simpl. intros [->|Hin]%elem_of_cons.
  - exists instr. split; [by left|done].
  - eapply Hl. by rewrite Hfs.
Qed.
End Progress.

(** The previews of one file, in both modes. *)
Lemma FilePreviews_moves_on req f start_time wanted r :
  file_sound (pr_time_interval req) start_time f →
  (0 ≤ pr_time_interval req ∧ 0 ≤ start_time ∧ start_time + 1 < 2 ^ 64)%Z →
  r = open_stream f →
  ∃ next ms, FilePreviews (file_fuel f) req wanted false screenshot_new r = Some (next, ms) ∧
    moves_on req start_time next.
Proof.
  intros Hf (Hi & Hs & Hs') ->. destruct (decide (pr_time_interval req = 0%Z)) as [H0|H0].
  - apply (FilePreviews_keyframes req f start_time Hf (conj Hs Hs')); [done..|].
    unfold file_fuel, keyframes_. simpl. lia.
  - rewrite (FilePreviews_sample _ H0 f) by (unfold file_fuel; simpl; auto with lia).
    destruct (Z.ltb_spec wanted (pr_stop_time req)) as [_|?]; [|eexists _, _; split; [done|by right]].
    unfold sample_file. destruct (sample _ _ _ _ _ _) as [e ps] eqn:E.
    eexists _, _. split; [done|]. left. change e with (e, ps).1. rewrite <-E.
    apply (sample_after req f start_time Hf (conj Hs Hs')); [lia|].
    intros t [?|(g & Hg & Ht)%frames_times]; [done|].
    apply (fs_frames _ _ _ Hf (rf_body f) g t Hg Ht).
Qed.

(** The row that the query picks. *)
Lemma GetRecordingFilePath_row vm_id start_time stop_time d path t t' :
  GetRecordingFilePath vm_id start_time stop_time d = (path, t, t') → path ≠ EmptyString →
  ∃ row, row ∈ recordings d ∧ in_range vm_id start_time stop_time row = true ∧
    path = rec_file_path row ∧ rec_start_time row = Some t ∧ t' = default 0%Z (rec_stop_time row).
Proof.
  unfold GetRecordingFilePath.
  assert (∀ l row, foldr (λ x acc, earlier (if in_range vm_id start_time stop_time x then Some x else None) acc)
    None l = Some row → row ∈ l ∧ in_range vm_id start_time stop_time row = true) as Hl.
  { induction l as [|x l IH]; intros row; simpl; [done|]. unfold earlier at 1.
    destruct (in_range _ _ _ x) eqn:Hx.
    - destruct (foldr _ _ _) as [y|]; [destruct (_ <? _)%Z|]; intros [= <-].
      + destruct (IH y) as [? ?]; [done|]. split; [by right|done].
      + split; [by left|done].
      + split; [by left|done].
    - intros [? ?]%IH. split; [by right|done]. }
  destruct (foldr _ _ _) as [row|] eqn:E; intros [= <- <- <-] Hp; [|done].
  apply Hl in E as [Hin Hr]. exists row. split_and!; try done.
  unfold in_range in Hr. destruct (rec_start_time row); [done|]. by rewrite andb_false_r in Hr.
Qed.

(** How many rows a request can still meet. *)
Definition rows_left req (wanted : Z) d : nat :=
  List.length (List.filter (in_range (pr_vm_id req) wanted (pr_stop_time req)) (recordings d)).

Lemma in_range_true vm_id start_time stop_time row t :
  rec_start_time row = Some t → in_range vm_id start_time stop_time row = true →
  rec_vm_id row = vm_id ∧ (start_time ≤ t < stop_time)%Z.
Proof.
  unfold in_range. intros ->. rewrite !andb_true_iff, Z.eqb_eq, Z.leb_le, Z.ltb_lt. tauto.
Qed.

Lemma rows_left_decrease req wanted next d row t :
  row ∈ recordings d → rec_start_time row = Some t →
  in_range (pr_vm_id req) wanted (pr_stop_time req) row = true →
  moves_on req t next → rows_left req next d < rows_left req wanted d.
Proof.
  intros Hin Ht Hr Hm. apply (in_range_true _ _ _ _ _ Ht) in Hr as [Hv Hw].
  assert (∀ x, in_range (pr_vm_id req) next (pr_stop_time req) x = true →
    in_range (pr_vm_id req) wanted (pr_stop_time req) x = true) as Himp.
  { intros x. unfold in_range, moves_on in *. destruct (rec_start_time x); [|done].
    rewrite !andb_true_iff, !Z.leb_le, !Z.ltb_lt. intros (? & ? & ?). split_and!; try done; lia. }
  assert (in_range (pr_vm_id req) next (pr_stop_time req) row = false) as Hno.
  { apply not_true_iff_false. intros [_ ?]%(in_range_true _ _ _ _ _ Ht).
    unfold moves_on in Hm. lia. }
  assert (in_range (pr_vm_id req) wanted (pr_stop_time req) row = true) as Hyes.
  { unfold in_range. rewrite Ht, !andb_true_iff, Z.eqb_eq, Z.leb_le, Z.ltb_lt. tauto. }
  unfold rows_left. clear Ht Hm Hw. induction (recordings d) as [|x l IH]; [by apply not_elem_of_nil in Hin|].
  assert (List.length (List.filter (in_range (pr_vm_id req) next (pr_stop_time req)) l) ≤
    List.length (List.filter (in_range (pr_vm_id req) wanted (pr_stop_time req)) l)) as Hle.
  { clear -Himp. induction l as [|y l IH]; simpl; [done|].
    pose proof (Himp y). repeat case_match; simpl in *; try lia; naive_solver. }
  apply elem_of_cons in Hin as [->|Hin]; simpl.
  - rewrite Hno, Hyes. simpl. lia.
  - specialize (IH Hin). pose proof (Himp x). repeat case_match; simpl in *; try lia; naive_solver.
Qed.

Lemma FilePreviews_previews fuel req wanted changed picture r next ms m :
  FilePreviews fuel req wanted changed picture r = Some (next, ms) → m ∈ ms →
  ∃ t png, m = MRecordingPlaybackPreview t (pr_vm_id req) png.
Proof.
  revert wanted changed picture r next ms.
  induction fuel as [|fuel IH]; intros wanted changed picture r next ms; simpl; [done|].
  destruct (_ <? _)%Z; [|by intros [= <- <-] ?%not_elem_of_nil].
  destruct (ReadPreview _ _ _ _) as [[picture' one_frame] r'].
  destruct one_frame; [simpl|by intros [= <- <-] ?%not_elem_of_nil].
  assert (∀ (x : option (Z * list msg)), (∀ n l, x = Some (n, l) → m ∈ l → ∃ t png,
      m = MRecordingPlaybackPreview t (pr_vm_id req) png) →
    ('(t, l) ← x; Some (t, PreviewMessage req picture' r' :: l)) = Some (next, ms) → m ∈ ms →
    ∃ t png, m = MRecordingPlaybackPreview t (pr_vm_id req) png) as Hcons.
  { intros [[n l]|] Hx; simpl; intros [= <- <-]. intros [->|?]%elem_of_cons; [by eexists _, _|by eapply Hx]. }
  destruct (_ =? _)%Z.
  - destruct (NextKeyframe r') as [[[] r'']|]; simpl; [|apply (Hcons (Some (_, [])))|done].
    + apply Hcons. intros n l. apply IH.
    + by intros ? ? [= <- <-] ?%not_elem_of_nil.
  - destruct (SeekToTimestamp _ _) as [[[] r'']|]; simpl; [|apply (Hcons (Some (_, [])))|done].
    + apply Hcons. intros n l. apply IH.
    + by intros ? ? [= <- <-] ?%not_elem_of_nil.
Qed.

Lemma PreviewFile_previews req wanted d step ms :
  PreviewFile req wanted d = Some (step, ms) →
  ∀ m, m ∈ ms → ∃ t png, m = MRecordingPlaybackPreview t (pr_vm_id req) png.
Proof.
  unfold PreviewFile. destruct (GetRecordingFilePath _ _ _ _) as [[path t] t'].
  destruct (String.eqb _ _); [by intros [= <- <-] ? ?%not_elem_of_nil|].
  destruct (open_file _) as [[f|]|]; [|by intros [= <- <-] ? ?%not_elem_of_nil..].
  rewrite SeekToTimestamp_begin by done. cbn [mbind option_bind].
  destruct (FilePreviews _ _ _ _ _ _) as [[next l]|] eqn:E; simpl; [|done].
  intros [= <- <-] m Hm. by eapply FilePreviews_previews.
Qed.

Lemma PreviewFile_progress req wanted d :
  (0 ≤ pr_time_interval req)%Z →
  (∀ row, row ∈ recordings d → row_sound (pr_time_interval req) row) →
  ∃ step ms, PreviewFile req wanted d = Some (step, ms) ∧
    ∀ next, step = Continue next → rows_left req next d < rows_left req wanted d.
Proof.
  intros Hi Hrows. unfold PreviewFile.
  destruct (GetRecordingFilePath _ _ _ _) as [[path t] t'] eqn:Hg.
  destruct (String.eqb_spec path EmptyString) as [|Hp]; [by eexists _, _|].
  apply GetRecordingFilePath_row in Hg as (row & Hin & Hr & -> & Ht & ->); [|done].
  destruct (Hrows _ Hin) as [Hstart Hfile]. destruct (Hstart _ Ht) as (Ht0 & Ht1 & Hstop).
  pose proof (skip_file_after _ _ Ht0 Ht1 Hstop) as Hskip.
  pose proof (λ next, rows_left_decrease req wanted next d row t Hin Ht Hr) as Hdec.
  destruct (open_file _) as [[f|]|] eqn:Ho.
  - rewrite SeekToTimestamp_begin by done. cbn [mbind option_bind].
    edestruct FilePreviews_moves_on as (next & ms & -> & Hm); [by eapply Hfile|done..|].
    eexists _, _. split; [done|]. intros ? [= <-]. by apply Hdec.
  - eexists _, _. split; [done|]. intros ? [= <-]. apply Hdec. by left.
  - eexists _, _. split; [done|]. intros next. destruct (_ =? _)%Z; intros [= <-].
    apply Hdec. by left.
Qed.

(** C25: The request for previews always ends, with one round of the outer loop
    per recording of the table at most, when every recording that has an end
    has a length and its frames are not older than the file; the reply is the
    previews followed by exactly one result. *)
Theorem previews_terminate req d :
  (0 ≤ pr_time_interval req)%Z →
  (∀ row, row ∈ recordings d → row_sound (pr_time_interval req) row) →
  ∃ previews result,
    SendRecordingPreviews (Datatypes.S (List.length (recordings d))) req d =
      Some (previews ++ [MRecordingPlaybackResult result]) ∧
    ∀ m, m ∈ previews → ∃ t png, m = MRecordingPlaybackPreview t (pr_vm_id req) png.
Proof.
  intros Hi Hrows. unfold SendRecordingPreviews.
  assert (∀ fuel wanted, rows_left req wanted d < fuel → ∃ previews result,
    PreviewLoop fuel req wanted d = Some (previews ++ [MRecordingPlaybackResult result]) ∧
    ∀ m, m ∈ previews → ∃ t png, m = MRecordingPlaybackPreview t (pr_vm_id req) png) as Hloop.
  { induction fuel as [|fuel IH]; intros wanted Hf; [lia|]. simpl.
    destruct (_ <? _)%Z; [|exists [], true; by split; [|intros ? ?%not_elem_of_nil]].
    destruct (PreviewFile_progress req wanted d Hi Hrows) as (step & ms & E & Hdec).
    pose proof (PreviewFile_previews _ _ _ _ _ E) as Hms. rewrite E. simpl.
    destruct step as [result|next]; [by exists ms, result|].
    specialize (Hdec next eq_refl).
    destruct (IH next) as (previews & result & -> & Hp); [lia|].
    exists (ms ++ previews), result. simpl. rewrite app_assoc. split; [done|].
    intros m [?|?]%elem_of_app; auto. }
  destruct (_ || _); [exists [], false; by split; [|intros ? ?%not_elem_of_nil]|].
  apply Hloop. unfold rows_left. pose proof (List.filter_length_le
    (in_range (pr_vm_id req) (pr_start_time req) (pr_stop_time req)) (recordings d)). lia.
Qed.

(** A recording whose end is its start and whose file cannot be opened or
    read keeps the server in the loop for ever: the round goes on at the time
    that it began with.  ([restart_stops_itself] shows how the server makes
    such recordings.) *)
Theorem previews_hang fuel req d file_path start_time :
  GetRecordingFilePath (pr_vm_id req) start_time (pr_stop_time req) d =
    (file_path, start_time, start_time) →
  file_path ≠ EmptyString → (0 < start_time < pr_stop_time req)%Z →
  open_file file_path = None ∨ open_file file_path = Some None →
  pr_start_time req = start_time →
  SendRecordingPreviews fuel req d = None.
Proof.
  intros Hg Hp Hs Ho Hr. unfold SendRecordingPreviews. rewrite Hr.
  assert (PreviewFile req start_time d = Some (Continue start_time, [])) as Hround.
  { unfold PreviewFile, skip_file. rewrite Hg. apply String.eqb_neq in Hp. rewrite Hp.
    destruct (Z.eqb_spec start_time 0); [lia|].
    destruct Ho as [-> | ->]; [|done]. destruct (Z.eqb_spec start_time 0); [lia|done]. }
  destruct (Z.eqb_spec start_time 0), (Z.eqb_spec (pr_stop_time req) 0); simpl; [lia..|].
  induction fuel as [|fuel IH]; [done|]. simpl.
  destruct (Z.ltb_spec start_time (pr_stop_time req)); [|lia].
  rewrite Hround. simpl. by rewrite IH.
Qed.
End Previews.

Module PreviewsDemo.
#[local] Instance nat_guac : GuacSchema Z := λ t, G_SYNC t.
Abbreviation file := (recording_file (G := Z) (S := unit)).

Definition row (start stop : Z) (path : string) : Database.Recording :=
  MkRecording 1 (Some start) (Some stop) path.
Definition d1 : database := with_recordings [row 10 20 "a"; row 30 40 "b"; row 50 60 "c"] database_new.
Definition body : list (server_message Z unit) := MGuacInstr <$> [10; 13; 14; 17; 20]%Z.
Definition file_a : file :=
  RecordingFile (FileHeader 1 10 20 [Keyframe 100 10; Keyframe 200 17] 4)
    (λ o, if Z.eqb o 200 then drop 3 body else body) 100 true.
Definition open_file (path : string) : option (option file) :=
  if String.eqb path "a" then Some (Some file_a) else if String.eqb path "b" then Some None else None.

(** The picture is the number of frames it was drawn from. *)
Abbreviation previews := (SendRecordingPreviews O (λ n _, Datatypes.S n)
  (λ n _ _, [Z.of_nat n]) open_file).
Definition request (interval : Z) : preview_request := PreviewRequest 1 5 100 interval 0 0.

Example previews_at_interval :
  previews 4 (request 5) d1 = Some
    [MRecordingPlaybackPreview 10 1 [1%Z]; MRecordingPlaybackPreview 17 1 [4%Z];
     MRecordingPlaybackResult false].
Proof. by vm_compute. Qed.
Example previews_of_keyframes :
  previews 4 (request 0) d1 = Some
    [MRecordingPlaybackPreview 10 1 [1%Z]; MRecordingPlaybackPreview 17 1 [1%Z];
     MRecordingPlaybackResult false].
Proof. by vm_compute. Qed.

Lemma d1_sound interval : (0 ≤ interval < 1000)%Z →
  ∀ r, r ∈ recordings d1 → row_sound open_file interval r.
Proof.
  intros Hi r Hr. unfold d1 in Hr. simpl in Hr.
  repeat (apply elem_of_cons in Hr as [->|Hr]); [..|by apply not_elem_of_nil in Hr];
    (split; [intros t [= <-]; simpl; lia|]); intros t f [= <-]; try done.
  intros [= <-]. split; [done|]. intros o g t Hin [= <-].
  assert (g ∈ [10; 13; 14; 17; 20]%Z) as Hg.
  { simpl in Hin. destruct (_ =? _)%Z; set_solver. }
  repeat (apply elem_of_cons in Hg as [->|Hg]); [lia..|by apply not_elem_of_nil in Hg].
Qed.

Lemma previews_single_pass_witness :
  PreviewFile O (λ n _, Datatypes.S n) (λ n _ _, [Z.of_nat n]) open_file (request 5) 5 d1 =
  Some (Continue 22, [MRecordingPlaybackPreview 10 1 [1%Z]; MRecordingPlaybackPreview 17 1 [4%Z]]).
Proof.
  exact (previews_single_pass (G := Z) (S := unit) O (λ n _, Datatypes.S n) (λ n _ _, [Z.of_nat n])
    open_file (request 5) 5 d1 "a" 10 20 file_a ltac:(done) ltac:(by vm_compute) ltac:(done)
    eq_refl ltac:(simpl; lia)).
Defined.

Lemma previews_terminate_witness :
  ∃ ms result, previews 4 (request 5) d1 = Some (ms ++ [MRecordingPlaybackResult result]) ∧
    ∀ m, m ∈ ms → ∃ t png, m = MRecordingPlaybackPreview t 1 png.
Proof.
  apply (previews_terminate O (λ n _, Datatypes.S n) (λ n _ _, [Z.of_nat n]) open_file (request 5) d1);
    [simpl; lia|apply d1_sound; simpl; lia].
Defined.

Lemma previews_hang_witness :
  previews 1000 (PreviewRequest 1 30 100 5 0 0) (with_recordings [row 30 30 "b"] database_new) = None.
Proof.
  apply (previews_hang O (λ n _, Datatypes.S n) (λ n _ _, [Z.of_nat n]) open_file 1000 _ _ "b" 30);
    [by vm_compute|done|simpl; lia|by right|done].
Defined.
End PreviewsDemo.
