(* ===== verification/WebFiles.v ===== *)
(** * Static files (SendFileResponse, CreateDocRoot, mime_type in
    src/WebSocketServer.hpp)

    The web server serves the files below a directory, the document root.
    [std::filesystem::path] is a string that is read as a list of elements; the
    file system is a parameter: what a path is once its links are resolved,
    what is there, and the file itself. *)

From S2P Require Import Prelude.
From Stdlib Require Import Ascii String.
From stdpp Require Import list.

(** ** std::filesystem::path *)

Definition slash : ascii := "/"%char.

(** The parts between slashes. *)
Fixpoint split_slash (s : string) : list string :=
  match s with
  | EmptyString => [EmptyString]
  | String c s =>
      if Ascii.eqb c slash then EmptyString :: split_slash s
      else match split_slash s with
           | [] => [String c EmptyString]
           | part :: parts => String c part :: parts
           end
  end.

Definition rooted (path : string) : bool :=
  match path with String c _ => Ascii.eqb c slash | EmptyString => false end.

Definition non_empty (s : string) : bool := negb (String.eqb s EmptyString).

(** The elements after the root directory; a trailing slash after a name gives
    an empty last element. *)
Definition relative_elements (path : string) : list string :=
  let parts := split_slash path in
  match List.filter non_empty parts with
  | [] => []
  | names => names ++ (if bool_decide (last parts = Some EmptyString) then [EmptyString] else [])
  end.

Definition elements (path : string) : list string :=
  (if rooted path then ["/"%string] else []) ++ relative_elements path.

(** [root / path]. *)
Definition path_append (root path : string) : string :=
  if rooted path then path
  else if bool_decide (last (split_slash root) = Some EmptyString) then String.append root path
  else String.append root (String slash path).

(** [compare] on the elements, one by one. *)
Fixpoint compare_elements (l1 l2 : list string) : comparison :=
  match l1, l2 with
  | [], [] => Eq
  | [], _ :: _ => Lt
  | _ :: _, [] => Gt
  | s1 :: l1, s2 :: l2 =>
      match String.compare s1 s2 with Eq => compare_elements l1 l2 | c => c end
  end.

Definition path_compare (p1 p2 : string) : comparison :=
  match rooted p1, rooted p2 with
  | true, false => Gt
  | false, true => Lt
  | _, _ => compare_elements (relative_elements p1) (relative_elements p2)
  end.

(** [std::equal] with one iterator for the second range: undefined when the
    second range ends before the first. *)
Fixpoint equal_from (l1 l2 : list string) : option bool :=
  match l1, l2 with
  | [], _ => Some true
  | _ :: _, [] => None
  | s1 :: l1, s2 :: l2 => if String.eqb s1 s2 then equal_from l1 l2 else Some false
  end.

Lemma string_compare_refl s : String.compare s s = Eq.
Proof. pose proof (String.compare_antisym s s). by destruct (String.compare s s). Qed.

(** A path that does not sort before the root is long enough to be compared
    with it. *)
Lemma equal_from_defined root path :
  compare_elements path root ≠ Lt → equal_from root path = Some (bool_decide (root `prefix_of` path)).
Proof.
  revert path. induction root as [|s1 root IH]; intros path Hc.
  - cbn [equal_from]. by rewrite bool_decide_eq_true_2 by apply prefix_nil.
  - destruct path as [|s2 path]; [done|]. cbn [equal_from compare_elements] in *.
    destruct (String.eqb_spec s1 s2) as [->|Hne].
    + rewrite string_compare_refl in Hc. rewrite IH by done.
      f_equal. apply bool_decide_ext. split; [apply prefix_cons|apply prefix_cons_inv_2].
    + rewrite bool_decide_eq_false_2; [done|]. intros ?%prefix_cons_inv_1. congruence.
Qed.

(** ** mime_type *)

(** Boost's comparison of two texts but for the case of their letters. *)
Class CaseInsensitive := iequals : string → string → bool.

(** From the last dot on. *)
Fixpoint extension (path : string) : option string :=
  match path with
  | EmptyString => None
  | String c rest =>
      match extension rest with
      | Some ext => Some ext
      | None => if Ascii.eqb c "." then Some path else None
      end
  end.

Definition mime_types : list (string * string) :=
  [(".htm", "text/html"); (".html", "text/html"); (".php", "text/html"); (".css", "text/css");
   (".txt", "text/plain"); (".js", "application/javascript"); (".json", "application/json");
   (".xml", "application/xml"); (".swf", "application/x-shockwave-flash"); (".flv", "video/x-flv");
   (".png", "image/png"); (".jpe", "image/jpeg"); (".jpeg", "image/jpeg"); (".jpg", "image/jpeg");
   (".gif", "image/gif"); (".bmp", "image/bmp"); (".ico", "image/vnd.microsoft.icon");
   (".tiff", "image/tiff"); (".tif", "image/tiff"); (".svg", "image/svg+xml");
   (".svgz", "image/svg+xml"); (".wasm", "application/wasm")]%string.

Definition mime_type `{CaseInsensitive} (path : string) : string :=
  let ext := default EmptyString (extension path) in
  match List.find (λ p, iequals ext p.1) mime_types with
  | Some (_, mime) => mime
  | None => "application/text"%string
  end.

(** ** The document root *)

Inductive file_type := not_found | regular | directory | other_type.

(** What the file system answers for the root: its status and whether there was
    an error, whether its directories have been created and whether that was an
    error, and the canonical path. *)
Record root_answers := RootAnswers {
  ra_type : file_type;
  ra_status_error : bool;
  ra_created : bool;
  ra_create_error : bool;
  ra_canonical : option string
}.

(** The path afterwards, and whether there is an error. *)
Definition CreateDocRoot (a : root_answers) (path : string) : string * bool :=
  let canonical :=
    match ra_canonical a with Some p => (p, false) | None => (EmptyString, true) end in
  if ra_status_error a then
    match ra_type a with
    | not_found => if ra_created a then canonical else (path, ra_create_error a)
    | _ => (path, true)
    end
  else match ra_type a with
       | directory => canonical
       | _ => (path, true)
       end.

(** ** Serving a file *)

Section Files.
Context `{CaseInsensitive} {F : Type}.
(** [std::filesystem::canonical], [status] without an error, [file_body::open]
    and [prepare_payload], which may throw. *)
Context (canonical : string → option string).
Context (status : string → option file_type).
Context (open_file : string → option F) (prepare_payload : F → bool).

Record file_response := FileResponse { fr_path : string; fr_content_type : string; fr_file : F }.

(** [Some None]: false; [None]: undefined. *)
Definition SendFileResponse (doc_root path : string) : option (option file_response) :=
  match canonical (path_append doc_root path) with
  | None => Some None
  | Some path =>
      match path_compare path doc_root with
      | Lt => Some None
      | _ =>
          equal ← equal_from (elements doc_root) (elements path);
          if negb equal then Some None
          else match status path with
               | None | Some directory => Some None
               | Some _ =>
                   match open_file path with
                   | None => Some None
                   | Some file =>
                       if prepare_payload file then Some (Some (FileResponse path (mime_type path) file))
                       else Some None
                   end
               end
      end
  end.

(** The attempts, in order. *)
Fixpoint SendFirst (doc_root : string) (paths : list string) : option (option file_response) :=
  match paths with
  | [] => Some None
  | path :: paths =>
      sent ← SendFileResponse doc_root path;
      match sent with
      | Some r => Some (Some r)
      | None => SendFirst doc_root paths
      end
  end.

(** The path itself, its first element as an HTML file, and the index. *)
Definition attempts (path : string) : list string :=
  (if String.eqb path EmptyString then []
   else [path; String.append (hd EmptyString (elements path)) ".html"]) ++ ["index.html"%string].

Definition is_dots (e : string) : bool := String.eqb e ".." || String.eqb e ".".

Definition SendStatic (doc_root path : string) : option (option file_response) :=
  if existsb is_dots (elements path) then Some None else SendFirst doc_root (attempts path).

(** ** Only what is below the root is served *)

(** [canonical] yields absolute paths. *)
Hypothesis canonical_absolute : ∀ p q, canonical p = Some q → rooted q = true.

(** A path below the root: the root's elements come first. *)
Definition below (doc_root path : string) : Prop := elements doc_root `prefix_of` elements path.
#[export] Instance below_dec doc_root path : Decision (below doc_root path).
Proof. unfold below. apply _. Defined.

Lemma elements_equal_defined doc_root path :
  rooted doc_root = true → rooted path = true → path_compare path doc_root ≠ Lt →
  equal_from (elements doc_root) (elements path) =
    Some (bool_decide (below doc_root path)).
Proof.
  intros Hr Hp Hc. unfold path_compare in Hc. rewrite Hr, Hp in Hc.
  assert (∀ p, rooted p = true → elements p = "/"%string :: relative_elements p) as He
    by (intros p Hrp; unfold elements; by rewrite Hrp).
  rewrite (He doc_root), (He path) by done. cbn [equal_from]. rewrite String.eqb_refl, equal_from_defined by done.
  f_equal. apply bool_decide_ext. unfold below. rewrite !He by done.
  split; [apply prefix_cons|apply prefix_cons_inv_2].
Qed.

Lemma SendFileResponse_spec doc_root path :
  rooted doc_root = true →
  ∃ sent, SendFileResponse doc_root path = Some sent ∧
    ∀ r, sent = Some r →
      canonical (path_append doc_root path) = Some (fr_path r) ∧ below doc_root (fr_path r) ∧
      (∃ t, status (fr_path r) = Some t ∧ t ≠ directory) ∧
      open_file (fr_path r) = Some (fr_file r) ∧ fr_content_type r = mime_type (fr_path r).
Proof.
  intros Hr. unfold SendFileResponse.
  destruct (canonical _) as [p|] eqn:Hcan; [|by eexists].
  pose proof (canonical_absolute _ _ Hcan) as Hp.
  pose proof (elements_equal_defined doc_root p Hr Hp) as Heq.
  destruct (path_compare p doc_root) eqn:Hc; [|by eexists|];
    (rewrite Heq by done; cbn [mbind option_bind];
     destruct (bool_decide_reflect (below doc_root p)) as [Hb|]; [|by eexists]; simpl;
     destruct (status p) as [[| | |]|] eqn:Hs; try (by eexists);
     (destruct (open_file p) as [f|] eqn:Ho; [|by eexists]; destruct (prepare_payload f); [|by eexists];
      eexists; split; [done|]; intros r [= <-]; simpl; split_and!; eauto)).
Qed.

(** C18: Whatever path a request names, an answer with a file carries a file
    whose canonical path, with all links resolved, is below the document root,
    and which is not a directory.  The comparison of the paths never reads past
    the end of the shorter one, although it does not look at its length: a
    path that does not sort before the root cannot be a proper part of it. *)
Theorem served_below_root doc_root path :
  rooted doc_root = true →
  ∃ sent, SendStatic doc_root path = Some sent ∧
    ∀ r, sent = Some r →
      existsb is_dots (elements path) = false ∧
      (∃ p, p ∈ attempts path ∧ canonical (path_append doc_root p) = Some (fr_path r)) ∧
      below doc_root (fr_path r) ∧ (∃ t, status (fr_path r) = Some t ∧ t ≠ directory) ∧
      open_file (fr_path r) = Some (fr_file r) ∧ fr_content_type r = mime_type (fr_path r).
Proof.
  intros Hr. unfold SendStatic. destruct (existsb _ _); [by eexists|].
  induction (attempts path) as [|p paths IH]; [by eexists|]. cbn [SendFirst].
  destruct (SendFileResponse_spec doc_root p Hr) as (sent & -> & Hsent). cbn [mbind option_bind].
  destruct sent as [r|].
  - eexists. split; [done|]. intros r' [= <-]. destruct (Hsent r eq_refl) as (? & ? & ? & ? & ?).
    split_and!; try done. exists p. split; [left|done].
  - destruct IH as (sent & -> & Hrest). eexists. split; [done|]. intros r ->.
    destruct (Hrest r eq_refl) as (? & (p' & ? & ?) & ?).
    split; [done|split; [|done]]. exists p'. split; [by right|done].
Qed.
End Files.

Module FilesDemo.
Local Open Scope string_scope.
Definition ascii_tolower (c : ascii) : ascii :=
  let n := nat_of_ascii c in
  if Nat.leb 65 n && Nat.leb n 90 then ascii_of_nat (n + 32) else c.

Fixpoint ascii_iequals (s1 s2 : string) : bool :=
  match s1, s2 with
  | EmptyString, EmptyString => true
  | String c1 s1, String c2 s2 => Ascii.eqb (ascii_tolower c1) (ascii_tolower c2) && ascii_iequals s1 s2
  | _, _ => false
  end.
#[local] Instance ascii_case : CaseInsensitive := ascii_iequals.

Definition resolve (p : string) : option string :=
  if p =? "/srv/web/a.html" then Some p
  else if p =? "/srv/web/link" then Some "/etc/passwd"
  else if p =? "/srv/web/up" then Some "/srv"
  else if p =? "/etc/passwd" then Some p
  else if p =? "/srv/web/index.html" then Some p else None.
Definition stat (p : string) : option file_type := if p =? "/srv" then Some directory else Some regular.
Abbreviation send := (SendStatic resolve stat Some (λ _, true)).

Example serve_first_part : send "/srv/web" "a/b/c" =
  Some (Some (FileResponse "/srv/web/a.html" "text/html" "/srv/web/a.html")).
Proof. by vm_compute. Qed.
Example serve_outside : send "/srv/web" "/etc/passwd" =
  Some (Some (FileResponse "/srv/web/index.html" "text/html" "/srv/web/index.html")).
Proof. by vm_compute. Qed.
Example serve_link : send "/srv/web" "link" =
  Some (Some (FileResponse "/srv/web/index.html" "text/html" "/srv/web/index.html")).
Proof. by vm_compute. Qed.

Lemma resolve_absolute p q : resolve p = Some q → rooted q = true.
Proof.
  unfold resolve. intros Hq.
  repeat match goal with H : (if p =? ?x then _ else _) = _ |- _ => destruct (String.eqb_spec p x) end;
    try discriminate Hq; injection Hq as <-; subst; done.
Qed.

Lemma served_below_root_witness :
  ∃ r, send "/srv/web" "a/b" = Some (Some r) ∧ below "/srv/web" (fr_path r).
Proof.
  destruct (served_below_root resolve stat Some (λ _, true) resolve_absolute "/srv/web" "a/b" eq_refl)
    as (sent & Hs & Hr).
  vm_compute in Hs. injection Hs as <-.
  eexists. split; [by vm_compute|]. apply (Hr _ eq_refl).
Defined.
End FilesDemo.
