(* ===== verification/WebServer.v ===== *)
(** * The web server (src/WebSocketServer.hpp)

    Part one is what a request is answered with; part two the server: a list of
    sockets, each with the asynchronous operations that it has started.  The
    handlers of a socket run on its strand and the list is guarded by a strand
    of its own, so that a handler is one step; what the source posts - closing a
    socket, taking it off the list - is an operation that completes later, in
    any order.  What the subclass CollabVmSocket decides before the web socket
    handshake (Server.OnPreConnect) is the completion of [Admission].

    Beast's parser, its lists of tokens and the conversion of addresses are
    parameters, as is the file system (WebFiles). *)

From S2P Require Import Prelude WebFiles.
From Stdlib Require Import Ascii String.
From stdpp Require Import list.

(** ** Addresses *)

(** The bytes of [boost::asio::ip::address]. *)
Inductive address := address_v4 (bytes : list Z) | address_v6 (bytes : list Z).

(** [GetIpv4MappedBytes]. *)
Definition GetIpv4MappedBytes (bytes : list Z) : list Z := (replicate 10 0 ++ [255; 255] ++ bytes)%Z.

(** The constructor of [IpAddress]. *)
Definition IpAddress (a : address) : list Z :=
  match a with address_v4 bytes => GetIpv4MappedBytes bytes | address_v6 bytes => bytes end.

(** [ifind_first(value, "for=").end()]: what follows the first match, or the
    empty string. *)
Fixpoint after_for `{CaseInsensitive} (value : string) : string :=
  match value with
  | String a (String b (String c (String d rest)) as tail) =>
      if iequals (String a (String b (String c (String d EmptyString)))) "for=" then rest
      else after_for tail
  | _ => EmptyString
  end.

Definition quote : ascii := "034"%char.

(** [mismatch] with the characters that may open an address. *)
Definition strip_opening (value : string) : string :=
  match value with
  | String c rest =>
      if Ascii.eqb c quote
      then match rest with
           | String d rest' => if Ascii.eqb d "["%char then rest' else rest
           | EmptyString => rest
           end
      else value
  | EmptyString => value
  end.

Definition ends_address (c : ascii) : bool := existsb (Ascii.eqb c) [";"%char; ","%char; "]"%char; quote].

Fixpoint cut_address (value : string) : string :=
  match value with
  | EmptyString => EmptyString
  | String c rest => if ends_address c then EmptyString else String c (cut_address rest)
  end.

(** ** Requests *)

Inductive verb := get | post | other_verb (method_string : string).

(** The header is looked up by the names of its fields. *)
Record request := Request { rq_method : verb; rq_target : string; rq_find : string → option string }.
Implicit Types rq : request.

Section Requests.
Context `{CaseInsensitive} {F : Type}.
Context (canonical : string → option string) (status : string → option file_type).
Context (open_file : string → option F) (prepare_payload : F → bool).
(** [token_list(value).exists(token)], [*token_list(value).begin()]. *)
Context (token_exists : string → string → bool) (first_token : string → string).
Context (make_address : string → option address).

Definition GetIpAddressFromHeader rq : string :=
  let proxies :=
    match rq_find rq "X-Forwarded-For" with
    | Some value => first_token value
    | None => match rq_find rq "X-Real-IP" with Some value => value | None => EmptyString end
    end in
  match rq_find rq "Forwarded" with
  | Some value =>
      let value := after_for value in
      if String.eqb value EmptyString then proxies else cut_address (strip_opening value)
  | None => proxies
  end.

(** The address of the client: that of the connection, or what a proxy on the
    same machine says. *)
Definition ClientAddress (is_loopback : bool) rq (ip_address : list Z) : list Z :=
  if is_loopback then
    let s := GetIpAddressFromHeader rq in
    if String.eqb s EmptyString then ip_address
    else match make_address s with Some a => IpAddress a | None => ip_address end
  else ip_address.

Inductive reply :=
| Upgrade                                      (* OnPreConnect *)
| FileReply (r : file_response (F := F))
| NotFound (target : string)
| MethodNotAllowed (method_string : string)
| CloseConnection.

Definition wants_websocket rq : bool :=
  String.eqb (rq_target rq) "/" &&
  match rq_find rq "Connection" with Some value => token_exists value "upgrade" | None => false end &&
  match rq_find rq "Upgrade" with Some value => token_exists value "websocket" | None => false end.

(** [substr(1)] of an empty target throws. *)
Definition HandleRequest (doc_root : string) rq : option reply :=
  match rq_method rq with
  | get =>
      if wants_websocket rq then Some Upgrade
      else match rq_target rq with
           | EmptyString => None
           | String _ path =>
               sent ← SendStatic canonical status open_file prepare_payload doc_root path;
               match sent with
               | Some r => Some (FileReply r)
               | None => Some (NotFound (rq_target rq))
               end
           end
  | post => Some CloseConnection
  | other_verb m => Some (MethodNotAllowed m)
  end.

(** ** Sockets and the server *)

(** What has been started and not completed, with its socket. *)
Inductive web_op :=
| Accepting            (* async_accept *)
| ReadingHeader        (* async_read_header *)
| WritingResponse      (* async_write of a response *)
| Admission            (* OnPreConnect of the subclass *)
| Handshaking          (* async_accept_ex *)
| ReadingMessage       (* async_read of the web socket *)
| Closing              (* the body of Close *)
| Removing.            (* the body of RemoveSocket *)

#[export] Instance web_op_eq_dec : EqDecision web_op.
Proof. solve_decision. Defined.

(** A completion: the error code, or the subclass's refusal, and what is read. *)
Record completion := Completion {
  c_error : bool;
  c_remote : option address;       (* [remote_endpoint] of an accepted socket *)
  c_is_loopback : bool;
  c_request : request
}.

Record web_socket := WebSocket { ip_address_ : list Z; socket_open : bool; close_callback_ : bool }.

Record web_server := WebServer {
  objects : gmap nat web_socket;   (* every socket that was created *)
  sockets_ : list nat;             (* the list of the server *)
  stopping_ : bool;
  acceptor_open : bool;
  pending_ : list (nat * web_op);
  next_socket : nat
}.
Implicit Types (st : web_server) (id : nat) (op : web_op).

Inductive web_event :=
| OnConnect id | OnMessage id | OnDisconnect id | OnPreConnect id | Respond id (r : reply).

Definition web_new : web_server := WebServer ∅ [] false true [] 0.

Definition with_objects m st : web_server :=
  WebServer m (sockets_ st) (stopping_ st) (acceptor_open st) (pending_ st) (next_socket st).
Definition with_sockets l st : web_server :=
  WebServer (objects st) l (stopping_ st) (acceptor_open st) (pending_ st) (next_socket st).
Definition with_pending l st : web_server :=
  WebServer (objects st) (sockets_ st) (stopping_ st) (acceptor_open st) l (next_socket st).
Definition begin id op st : web_server := with_pending (pending_ st ++ [(id, op)]) st.
Definition update id (f : web_socket → web_socket) st : web_server := with_objects (alter f id (objects st)) st.

Definition Close id st : web_server := begin id Closing st.
Definition RemoveSocket id st : web_server := begin id Removing st.
Definition ReadHttpRequest id st : web_server := begin id ReadingHeader st.

(** Nothing is accepted any more when the server is stopping. *)
Definition DoAccept st : web_server :=
  if stopping_ st then st
  else
    let id := next_socket st in
    begin id Accepting
      (WebServer (<[id := WebSocket [] true true]> (objects st)) (id :: sockets_ st) (stopping_ st)
        (acceptor_open st) (pending_ st) (S id)).

(** [WebServerSocket::Start]. *)
Definition SocketStart id (remote : option address) st : web_server :=
  match remote with
  | None => Close id st
  | Some a =>
      ReadHttpRequest id (update id (λ x, WebSocket (IpAddress a) (socket_open x) (close_callback_ x)) st)
  end.

Definition OnAccept id (c : completion) st : web_server :=
  if c_error c || negb (acceptor_open st) then Close id st
  else DoAccept (SocketStart id (c_remote c) st).

Definition OnHeader (doc_root : string) id (c : completion) st : option (web_server * list web_event) :=
  if c_error c then Some (st, [])
  else
    let rq := c_request c in
    let st := update id (λ x, WebSocket (ClientAddress (c_is_loopback c) rq (ip_address_ x))
                                (socket_open x) (close_callback_ x)) st in
    r ← HandleRequest doc_root rq;
    Some (match r with
          | Upgrade => (begin id Admission st, [OnPreConnect id])
          | CloseConnection => (update id (λ x, WebSocket (ip_address_ x) false (close_callback_ x)) st, [])
          | _ => (begin id WritingResponse st, [Respond id r])
          end).

(** The body of [Close]: the callback takes the socket off the list. *)
Definition OnClosing id st : web_server * list web_event :=
  let closed := update id (λ x, WebSocket (ip_address_ x) false (close_callback_ x)) st in
  if default false (close_callback_ <$> objects st !! id)
  then (update id (λ x, WebSocket (ip_address_ x) (socket_open x) false) (RemoveSocket id closed),
        [OnDisconnect id])
  else (closed, []).

(** [sockets.erase(it)]: the iterator must still be in the list. *)
Definition OnRemoving id st : option web_server :=
  if stopping_ st then Some st
  else if decide (id ∈ sockets_ st) then Some (with_sockets (filter (λ i, i ≠ id) (sockets_ st)) st) else None.

Definition OnComplete (doc_root : string) id op (c : completion) st : option (web_server * list web_event) :=
  match op with
  | Accepting => Some (OnAccept id c st, [])
  | ReadingHeader => OnHeader doc_root id c st
  | WritingResponse => Some (if c_error c then st else ReadHttpRequest id st, [])
  | Admission => Some (if c_error c then Close id st else begin id Handshaking st, [])
  | Handshaking =>
      Some (if c_error c then (Close id st, []) else (begin id ReadingMessage st, [OnConnect id]))
  | ReadingMessage =>
      Some (if c_error c then (Close id st, []) else (begin id ReadingMessage st, [OnMessage id]))
  | Closing => Some (OnClosing id st)
  | Removing => st ← OnRemoving id st; Some (st, [])
  end.

(** Every socket of the list is closed; the list stays as it is. *)
Definition Stop st : web_server :=
  let st := WebServer (objects st) (sockets_ st) (stopping_ st) false (pending_ st) (next_socket st) in
  if stopping_ st then st
  else foldl (λ st id, Close id st)
    (WebServer (objects st) (sockets_ st) true (acceptor_open st) (pending_ st) (next_socket st)) (sockets_ st).

Inductive web_action := WComplete (i : nat) (c : completion) | WClose id | WStop.

Definition web_exec (doc_root : string) (a : web_action) st : option (web_server * list web_event) :=
  match a with
  | WComplete i c =>
      match pending_ st !! i with
      | Some (id, op) => OnComplete doc_root id op c (with_pending (delete i (pending_ st)) st)
      | None => Some (st, [])
      end
  | WClose id => Some (Close id st, [])
  | WStop => Some (Stop st, [])
  end.

Fixpoint web_run (doc_root : string) (l : list web_action) st : option (web_server * list web_event) :=
  match l with
  | [] => Some (st, [])
  | a :: l =>
      '(st, evs) ← web_exec doc_root a st;
      '(st, evs') ← web_run doc_root l st;
      Some (st, evs ++ evs')
  end.

(** ** The invariant *)

Definition of_op (which : web_op) (l : list (nat * web_op)) : list nat :=
  omap (λ p, if decide (p.2 = which) then Some p.1 else None) l.

Lemma of_op_snoc which l id op :
  of_op which (l ++ [(id, op)]) = of_op which l ++ (if decide (op = which) then [id] else []).
Proof. unfold of_op. rewrite omap_app. simpl. by case_decide. Qed.

Lemma of_op_begin which id op st :
  of_op which (pending_ (begin id op st)) = of_op which (pending_ st) ++ (if decide (op = which) then [id] else []).
Proof. apply of_op_snoc. Qed.

Lemma of_op_delete which l i id op :
  l !! i = Some (id, op) →
  (op ≠ which → of_op which (delete i l) = of_op which l) ∧
  (op = which → of_op which l ≡ₚ id :: of_op which (delete i l)).
Proof.
  intros Hi. apply list_elem_of_split_length in Hi as (l1 & l2 & -> & ->).
  rewrite delete_middle. unfold of_op. rewrite !omap_app. simpl. split; intros Hop.
  - by rewrite decide_False.
  - rewrite decide_True by done. by rewrite Permutation_middle.
Qed.

Lemma elem_of_of_op which l id : id ∈ of_op which l ↔ (id, which) ∈ l.
Proof.
  unfold of_op. rewrite list_elem_of_omap. split.
  - intros ([id' op] & Hin & Hp). case_decide; simplify_eq/=. done.
  - intros Hin. exists (id, which). split; [done|]. by rewrite decide_True.
Qed.

(** The close callback is still set. *)
Definition registered st id : Prop := close_callback_ <$> objects st !! id = Some true.

Record web_inv st : Prop := {
  wi_fresh : ∀ id, is_Some (objects st !! id) → id < next_socket st;
  wi_known : ∀ id, id ∈ sockets_ st → id < next_socket st;
  wi_nodup : NoDup (sockets_ st);
  wi_list : stopping_ st = false →
    ∀ id, id ∈ sockets_ st ↔ registered st id ∨ id ∈ of_op Removing (pending_ st);
  wi_once : stopping_ st = false → ∀ id, registered st id → id ∉ of_op Removing (pending_ st);
  wi_removing : stopping_ st = false → NoDup (of_op Removing (pending_ st));
  wi_accepting : length (of_op Accepting (pending_ st)) ≤ 1
}.

(** Two states that the invariant does not tell apart. *)
Record same_web st st' : Prop := {
  sw_dom : ∀ id, is_Some (objects st' !! id) ↔ is_Some (objects st !! id);
  sw_registered : ∀ id, registered st' id ↔ registered st id;
  sw_sockets : sockets_ st' = sockets_ st;
  sw_stopping : stopping_ st' = stopping_ st;
  sw_removing : of_op Removing (pending_ st') = of_op Removing (pending_ st);
  sw_accepting : of_op Accepting (pending_ st') = of_op Accepting (pending_ st);
  sw_next : next_socket st' = next_socket st
}.

#[export] Instance same_web_preorder : PreOrder same_web.
Proof.
  split; [intros st; by split|].
  intros st1 st2 st3 [] []. split; try congruence; intros id; etrans; eauto.
Qed.

Lemma same_web_inv st st' : same_web st st' → web_inv st → web_inv st'.
Proof.
  intros [Hd Hr Hs Hst Hrm Ha Hn] []. split.
  - intros id ?%Hd. rewrite Hn. eauto.
  - rewrite Hs, Hn. eauto.
  - by rewrite Hs.
  - rewrite Hst, Hs, Hrm. intros. rewrite Hr. eauto.
  - rewrite Hst, Hrm. intros ? id ?%Hr. eauto.
  - by rewrite Hst, Hrm.
  - by rewrite Ha.
Qed.

Lemma begin_same id op st : op ≠ Removing → op ≠ Accepting → same_web st (begin id op st).
Proof.
  intros. split; try done; rewrite of_op_begin, decide_False by done; by rewrite app_nil_r.
Qed.

Lemma update_same id f st :
  (∀ x, close_callback_ (f x) = close_callback_ x) → same_web st (update id f st).
Proof.
  intros Hf. split; try done; intros id'; unfold update, registered; cbn [objects with_objects].
  - rewrite lookup_alter_is_Some. done.
  - destruct (decide (id' = id)) as [->|]; [|by rewrite lookup_alter_ne].
    rewrite lookup_alter_eq, <-option_fmap_compose. destruct (objects st !! id); [|done]. simpl. by rewrite Hf.
Qed.

Definition disconnects (evs : list web_event) : list nat :=
  omap (λ ev, match ev with OnDisconnect id => Some id | _ => None end) evs.

(** What a handler does to the sockets that exist. *)
Record web_step st st' (evs : list web_event) : Prop := {
  ws_inv : web_inv st';
  ws_next : next_socket st ≤ next_socket st';
  ws_registered : ∀ id, id < next_socket st → registered st' id → registered st id;
  ws_disconnects : disconnects evs = [] ∨
    ∃ id, disconnects evs = [id] ∧ registered st id ∧ ¬ registered st' id
}.

Lemma registered_fresh st id : web_inv st → registered st id → id < next_socket st.
Proof.
  intros Hi Hr. apply (wi_fresh _ Hi). unfold registered in Hr. by destruct (objects st !! id).
Qed.

Lemma same_web_step st st' evs :
  web_inv st → same_web st st' → disconnects evs = [] → web_step st st' evs.
Proof.
  intros Hi Hs Hd. split; [by eapply same_web_inv|by rewrite (sw_next _ _ Hs)| |by left].
  intros id _ ?. by apply (sw_registered _ _ Hs).
Qed.

Lemma web_step_after st st1 st2 evs : same_web st st1 → web_step st1 st2 evs → web_step st st2 evs.
Proof.
  intros [_ Hr _ _ _ _ Hn] [Hi Hnx Hreg Hd]. rewrite Hn in Hnx, Hreg. split; [done..| |].
  - intros id ? ?. by apply Hr, Hreg.
  - destruct Hd as [?|(id & ? & ? & ?)]; [by left|right]. exists id. by rewrite <-Hr.
Qed.

Lemma delete_same st i id op :
  pending_ st !! i = Some (id, op) → op ≠ Removing → op ≠ Accepting →
  same_web st (with_pending (delete i (pending_ st)) st).
Proof. intros Hi ? ?. split; try done; by apply (of_op_delete _ _ _ _ _ Hi). Qed.

Lemma Close_same id st : same_web st (Close id st).
Proof. by apply begin_same. Qed.

Lemma Close_all_same l st : same_web st (foldl (λ st id, Close id st) st l).
Proof. revert st. induction l as [|id l IH]; intros st; simpl; [done|]. etrans; [apply Close_same|apply IH]. Qed.

Lemma SocketStart_same id remote st : same_web st (SocketStart id remote st).
Proof.
  unfold SocketStart. destruct remote; [|apply Close_same].
  etrans; [|by apply begin_same]. by apply update_same.
Qed.

(** A new socket, registered under a number that was never used. *)
Lemma DoAccept_step st : web_inv st → of_op Accepting (pending_ st) = [] → web_step st (DoAccept st) [].
Proof.
  intros Hi Ha. unfold DoAccept. destruct (stopping_ st) eqn:Hst; [by apply same_web_step|].
  assert (objects st !! next_socket st = None) as Hno.
  { apply eq_None_not_Some. intros ?%(wi_fresh _ Hi). lia. }
  set (id := next_socket st) in *.
  set (st' := begin id Accepting _).
  assert (∀ id', registered st' id' ↔ id' = id ∨ registered st id') as Hreg.
  { intros id'. unfold registered, st'. cbn [objects begin with_pending]. destruct (decide (id' = id)) as [->|].
    - rewrite lookup_insert_eq, Hno. naive_solver.
    - rewrite lookup_insert_ne by done. naive_solver. }
  assert (of_op Removing (pending_ st') = of_op Removing (pending_ st)) as Hrm.
  { unfold st'. rewrite of_op_begin, decide_False by done. by rewrite app_nil_r. }
  assert (id ∉ sockets_ st) as Hnew by (intros ?%(wi_known _ Hi); lia).
  split; [|simpl; lia| |by left].
  - split; rewrite ?Hrm; cbn [objects sockets_ stopping_ next_socket begin with_pending st'].
    + intros id'. destruct (decide (id' = id)) as [->|]; [lia|]. rewrite lookup_insert_ne by done.
      intros ?%(wi_fresh _ Hi). lia.
    + intros id' [->|?%(wi_known _ Hi)]%elem_of_cons; lia.
    + apply list.NoDup_cons. split; [done|apply (wi_nodup _ Hi)].
    + intros _ id'. rewrite elem_of_cons, (wi_list _ Hi Hst), Hreg. tauto.
    + intros _ id' [->|?]%Hreg; [|by apply (wi_once _ Hi Hst)].
      intros Hr. apply Hnew, (wi_list _ Hi Hst). by right.
    + intros _. by apply (wi_removing _ Hi).
    + unfold st'. rewrite of_op_begin. simpl. rewrite Ha. simpl. lia.
  - intros id' ? [->|?]%Hreg; [lia|done].
Qed.

(** The first run of the body of [Close] takes the callback. *)
Lemma OnClosing_step id st : web_inv st → web_step st (OnClosing id st).1 (OnClosing id st).2.
Proof.
  intros Hi. unfold OnClosing.
  set (closed := update id _ st). assert (same_web st closed) as Hcl by (by apply update_same).
  destruct (objects st !! id) as [x|] eqn:Hx; simpl; [|by apply same_web_step].
  destruct (close_callback_ x) eqn:Hc; simpl; [|by apply same_web_step].
  set (st' := update id _ _).
  assert (registered st id) as Hid by (unfold registered; by rewrite Hx; simpl; rewrite Hc).
  assert (∀ id', registered st' id' ↔ id' ≠ id ∧ registered st id') as Hreg.
  { intros id'. unfold registered, st', update, closed. cbn [objects with_objects].
    destruct (decide (id' = id)) as [->|].
    - rewrite !lookup_alter_eq. unfold RemoveSocket, begin. cbn. rewrite lookup_alter_eq, Hx. simpl. naive_solver.
    - rewrite lookup_alter_ne by done. unfold RemoveSocket, begin. cbn. rewrite lookup_alter_ne by done. naive_solver. }
  assert (of_op Removing (pending_ st') = of_op Removing (pending_ st) ++ [id]) as Hrm.
  { change (pending_ st') with (pending_ (begin id Removing closed)). by rewrite of_op_begin, decide_True. }
  assert (of_op Accepting (pending_ st') = of_op Accepting (pending_ st)) as Hac.
  { change (pending_ st') with (pending_ (begin id Removing closed)).
    rewrite of_op_begin, decide_False by done. by rewrite app_nil_r. }
  split; [|done|intros id' _ [_ ?]%Hreg; done|right; exists id; split_and!; [done..|by intros [[] _]%Hreg]].
  split; rewrite ?Hrm, ?Hac; try apply Hi; cbn [sockets_ stopping_ next_socket].
  - intros id' [y Hy]. apply (wi_fresh _ Hi). revert Hy. unfold st', update, closed. cbn.
    rewrite !lookup_alter_Some. naive_solver.
  - intros Hst id'. change (sockets_ st') with (sockets_ st). rewrite Hreg, elem_of_app, list_elem_of_singleton, (wi_list _ Hi Hst).
    destruct (decide (id' = id)) as [->|]; naive_solver.
  - intros Hst id' [? Hr]%Hreg [?%(wi_once _ Hi Hst _ Hr)|?%list_elem_of_singleton]%elem_of_app; done.
  - intros Hst. apply NoDup_app. split_and!; [by apply (wi_removing _ Hi)| |apply NoDup_singleton].
    intros id' ? ->%list_elem_of_singleton. by eapply (wi_once _ Hi Hst).
Qed.

(** The iterator is still in the list. *)
Lemma OnRemoving_step st i id :
  web_inv st → pending_ st !! i = Some (id, Removing) →
  ∃ st', OnRemoving id (with_pending (delete i (pending_ st)) st) = Some st' ∧ web_step st st' [].
Proof.
  intros Hi Hp. set (st0 := with_pending _ st).
  destruct (of_op_delete Accepting _ _ _ _ Hp) as [Hac _]. specialize (Hac ltac:(done)).
  destruct (of_op_delete Removing _ _ _ _ Hp) as [_ Hrm]. specialize (Hrm eq_refl).
  unfold OnRemoving. change (stopping_ st0) with (stopping_ st). destruct (stopping_ st) eqn:Hst.
  { exists st0. split; [done|]. split; [|done..|by left].
    split; cbn [st0 with_pending objects sockets_ stopping_ next_socket pending_];
      rewrite ?Hac, ?Hst; try apply Hi; done. }
  assert (id ∈ sockets_ st) as Hin.
  { apply (wi_list _ Hi Hst). right. rewrite Hrm. by left. }
  rewrite decide_True by done. eexists. split; [done|]. split; [|done..|by left].
  pose proof (wi_removing _ Hi Hst) as Hnd. rewrite Hrm in Hnd. apply list.NoDup_cons in Hnd as [Hnot Hnd].
  split; cbn [st0 with_pending with_sockets objects sockets_ stopping_ next_socket pending_]; rewrite ?Hac.
  - apply Hi.
  - intros id' [_ ?]%list_elem_of_filter. by apply (wi_known _ Hi).
  - apply NoDup_filter, Hi.
  - intros _ id'. rewrite list_elem_of_filter, (wi_list _ Hi Hst), Hrm, elem_of_cons.
    change (registered (with_sockets _ _) id') with (registered st id').
    assert (registered st id → False) as Hnr.
    { intros Hr. apply (wi_once _ Hi Hst _ Hr). rewrite Hrm. by left. }
    destruct (decide (id' = id)) as [->|]; naive_solver.
  - intros _ id' Hr Hin'. apply (wi_once _ Hi Hst id' Hr). rewrite Hrm. by right.
  - done.
  - apply Hi.
Qed.

(** *** Which sockets speak the web socket protocol

    A socket that has not been admitted has at most one operation outstanding
    of those that lead there, and whoever has a handshake or a read of a
    message outstanding was admitted before. *)

Definition before_admission op : bool :=
  match op with Accepting | ReadingHeader | WritingResponse | Admission => true | _ => false end.
Definition of_web_socket op : bool := match op with Handshaking | ReadingMessage => true | _ => false end.

Definition early st : list nat :=
  omap (λ p, if before_admission p.2 then Some p.1 else None) (pending_ st).
Definition talks st id : Prop := ∃ op, of_web_socket op = true ∧ (id, op) ∈ pending_ st.
Definition address_of st id : option (list Z) := ip_address_ <$> objects st !! id.

Lemma early_begin id op st :
  early (begin id op st) = early st ++ (if before_admission op then [id] else []).
Proof. unfold early, begin. cbn. rewrite omap_app. cbn. by destruct (before_admission op). Qed.

Lemma talks_begin id op st id' :
  talks (begin id op st) id' ↔ talks st id' ∨ (id' = id ∧ of_web_socket op = true).
Proof.
  unfold talks, begin. cbn. setoid_rewrite elem_of_app. setoid_rewrite list_elem_of_singleton. naive_solver.
Qed.

Lemma elem_of_early st id : id ∈ early st ↔ ∃ op, before_admission op = true ∧ (id, op) ∈ pending_ st.
Proof.
  unfold early. rewrite list_elem_of_omap. split.
  - intros ([id' op] & Hin & Hp). cbn in Hp. exists op. destruct (before_admission op); by simplify_eq/=.
  - intros (op & Hop & Hin). exists (id, op). cbn. by rewrite Hop.
Qed.

Lemma early_delete st i id op :
  pending_ st !! i = Some (id, op) →
  early st ≡ₚ (if before_admission op then [id] else []) ++ early (with_pending (delete i (pending_ st)) st).
Proof.
  intros Hi. unfold early. cbn. apply list_elem_of_split_length in Hi as (l1 & l2 & -> & ->).
  rewrite delete_middle, !omap_app. cbn. destruct (before_admission op); [|done]. cbn. by rewrite Permutation_middle.
Qed.

Record early_inv st : Prop := {
  ei_once : NoDup (early st);
  ei_fresh id : id ∈ early st → id < next_socket st
}.

(** What a handler adds for the socket whose operation, [op], has completed. *)
(** What a handler adds for the socket [id] whose operation, [op], has completed. *)
Record talk_step id op st st' : Prop := {
  ts_early : ∃ new, sublist new (if before_admission op then [id] else []) ∧
    (early st' = early st ++ new ∧ next_socket st' = next_socket st ∨
     early st' = early st ++ new ++ [next_socket st] ∧ next_socket st' = S (next_socket st));
  ts_talks id' : talks st' id' → talks st id' ∨ id' = id ∧ (of_web_socket op = true ∨ op = Admission);
  ts_address id' : id' < next_socket st → id' ≠ id ∨ before_admission op = false →
    address_of st' id' = address_of st id'
}.

Lemma address_update id f st id' :
  id' ≠ id ∨ (∀ x, ip_address_ (f x) = ip_address_ x) → address_of (update id f st) id' = address_of st id'.
Proof.
  unfold address_of, update. cbn. destruct (decide (id' = id)) as [->|Hne]; [|by rewrite lookup_alter_ne].
  intros [?|Hf]; [done|]. rewrite lookup_alter_eq. destruct (objects st !! id); [|done]. cbn. by rewrite Hf.
Qed.

(** Starting one more operation for the same socket, or only updating it. *)
Lemma talk_step_update id op f st :
  before_admission op = true ∨ (∀ x, ip_address_ (f x) = ip_address_ x) → talk_step id op st (update id f st).
Proof.
  intros Hf. split.
  - exists []. split; [apply sublist_nil_l|]. left. by rewrite app_nil_r.
  - by left.
  - intros id' _ Hid. apply address_update. destruct Hf as [Hop|?]; [|by right]. left.
    destruct Hid as [?|?]; congruence.
Qed.

Lemma talk_step_begin id op op' st st' :
  (before_admission op' = true → before_admission op = true) →
  (of_web_socket op' = true → of_web_socket op = true ∨ op = Admission) →
  early st' = early st → next_socket st' = next_socket st →
  talk_step id op st st' → talk_step id op st (begin id op' st').
Proof.
  intros He Ht Heq Hnext [_ Htalks Haddr]. split.
  - exists (if before_admission op' then [id] else []). split.
    + destruct (before_admission op'); [by rewrite He|apply sublist_nil_l].
    + left. by rewrite early_begin, Heq.
  - intros id' [?|[-> Hop]]%talks_begin; [by apply Htalks|]. right. auto.
  - intros id' ? ?. by rewrite <-Haddr.
Qed.

Lemma talk_step_refl id op st : talk_step id op st st.
Proof.
  split; [|by left|done]. exists []. split; [apply sublist_nil_l|]. left. by rewrite app_nil_r.
Qed.

Lemma talk_step_accept id op st st' :
  before_admission op = true → next_socket st' = next_socket st →
  talk_step id op st st' → talk_step id op st (DoAccept st').
Proof.
  intros Hop Hn [(new & Hnew & He) Ht Ha]. unfold DoAccept. destruct (stopping_ st'); [by split; eauto|].
  destruct He as [[He _]|[_ He]]; [|lia]. split.
  - exists new. split; [done|]. right. rewrite early_begin. cbn [before_admission next_socket begin with_pending].
    change (early (WebServer ?a ?b ?c ?d (pending_ st') ?e)) with (early st'). by rewrite He, Hn, <-app_assoc.
  - intros id' [Hin|[_ [=]]]%talks_begin. by apply Ht.
  - intros id' Hlt Hid. rewrite <-(Ha id' Hlt Hid). unfold address_of. cbn. by rewrite lookup_insert_ne by lia.
Qed.

Lemma OnComplete_talk doc_root id op c st st' evs :
  OnComplete doc_root id op c st = Some (st', evs) → talk_step id op st st'.
Proof.
  destruct op; cbn [OnComplete].
  - intros [= <- <-]. unfold OnAccept, SocketStart. destruct (_ || _); [by apply talk_step_begin, talk_step_refl|].
    destruct (c_remote c); apply talk_step_accept; try done; apply talk_step_begin; try done;
      [by apply talk_step_update; left|apply talk_step_refl].
  - unfold OnHeader. destruct (c_error c); [intros [= <- <-]; apply talk_step_refl|].
    destruct (HandleRequest _ _) as [r|]; [|done]. cbn [mbind option_bind]. set (st1 := update id _ st).
    assert (talk_step id ReadingHeader st st1) as H1 by (by apply talk_step_update; left).
    destruct r; intros [= <- <-]; try (by apply talk_step_begin).
    destruct H1 as [He Ht Ha]. split; [exact He|exact Ht|]. intros id' ? Hid. rewrite <-Ha by done.
    apply address_update. by right.
  - intros [= <- <-]. destruct (c_error c); [apply talk_step_refl|by apply talk_step_begin, talk_step_refl].
  - intros [= <- <-]. destruct (c_error c); apply talk_step_begin; auto using talk_step_refl.
  - destruct (c_error c); intros [= <- <-]; apply talk_step_begin; auto using talk_step_refl.
  - destruct (c_error c); intros [= <- <-]; apply talk_step_begin; auto using talk_step_refl.
  - unfold OnClosing. destruct (default _ _); intros [= <- <-].
    + split.
      * exists []. split; [apply sublist_nil_l|]. left. split; [|done].
        change (early (begin id Removing st) = early st ++ []). by rewrite early_begin.
      * intros id' Hin. change (talks (begin id Removing st) id') in Hin.
        apply talks_begin in Hin as [?|[_ [=]]]. by left.
      * intros id' _ _. rewrite address_update by (by right). unfold RemoveSocket.
        change (address_of (update id (λ x, WebSocket (ip_address_ x) false (close_callback_ x)) st) id'
          = address_of st id'). apply address_update. by right.
    + apply talk_step_update. by right.
  - destruct (OnRemoving id st) as [st1|] eqn:Hr; [|done]. intros [= <- <-].
    unfold OnRemoving in Hr. repeat case_match; simplify_eq; [apply talk_step_refl|].
    destruct (talk_step_refl id Removing st) as [He Ht Ha]. by split.
Qed.

(** What any action does to it; the completion of an admission lets a socket
    talk. *)
Definition admits (a : web_action) st id : Prop :=
  ∃ i c, a = WComplete i c ∧ pending_ st !! i = Some (id, Admission).

Record web_talk (a : web_action) st st' : Prop := {
  wt_inv : early_inv st';
  wt_early id : id ∈ early st' → id ∈ early st ∨ next_socket st ≤ id;
  wt_talks id : talks st' id → talks st id ∨ admits a st id;
  wt_address id : id < next_socket st → id ∉ early st → address_of st' id = address_of st id;
  wt_admitted id : admits a st id → id ∉ early st'
}.

Lemma web_talk_same a st st' :
  early_inv st → (∀ id, ¬ admits a st id) → early st' = early st → next_socket st' = next_socket st →
  (∀ id, talks st' id → talks st id) → (∀ id, address_of st' id = address_of st id) → web_talk a st st'.
Proof.
  intros [Hn Hf] Ha He Hnext Ht Hip. split; [split; rewrite ?He, ?Hnext; auto|rewrite He; auto|auto|auto|].
  intros id ?%Ha. done.
Qed.

Lemma Close_all_talk l st :
  let st' := foldl (λ st id, Close id st) st l in
  early st' = early st ∧ next_socket st' = next_socket st ∧ (∀ id, talks st' id → talks st id) ∧
  ∀ id, address_of st' id = address_of st id.
Proof.
  revert st. induction l as [|id l IH]; intros st; [done|]. cbn. destruct (IH (Close id st)) as (-> & -> & Ht & Ha).
  unfold Close. rewrite early_begin, app_nil_r. split_and!; [done|done| |done].
  intros id' [?|[_ [=]]]%Ht%talks_begin. done.
Qed.

(** What leads to a decision and is taken out may be put back once. *)
Lemma early_replaced st st0 id op new :
  early_inv st → early st ≡ₚ (if before_admission op then [id] else []) ++ early st0 →
  sublist new (if before_admission op then [id] else []) →
  NoDup (early st0 ++ new) ∧ (∀ id', id' ∈ early st0 ++ new → id' ∈ early st) ∧
  (before_admission op = true → id ∉ early st0).
Proof.
  intros [Hnd _] Hperm Hnew. rewrite Hperm in Hnd. apply NoDup_app in Hnd as (Hone & Hnot & Hnd0).
  assert (∀ id', id' ∈ new → id' ∈ if before_admission op then [id] else []) as Hin.
  { intros id' Hid. by apply (sublist_submseteq _ _), (elem_of_submseteq _ _ id') in Hnew. }
  split_and!.
  - apply NoDup_app. split_and!; [done| |exact (sublist_NoDup _ _ Hone Hnew)].
    intros id' H1 H2%Hin. by apply (Hnot id').
  - intros id' [?|?%Hin]%elem_of_app; rewrite Hperm; apply elem_of_app; [by right|by left].
  - intros Hop. rewrite Hop in Hnot. apply Hnot. by left.
Qed.

(** After a decision about a socket there is none to come. *)
Lemma Admission_decides doc_root c id st st' evs new :
  OnComplete doc_root id Admission c st = Some (st', evs) →
  early st' = early st ++ new ∧ next_socket st' = next_socket st ∨
  early st' = early st ++ new ++ [next_socket st] ∧ next_socket st' = S (next_socket st) →
  early st' = early st.
Proof.
  cbn [OnComplete]. destruct (c_error c); intros [= <- <-] [[He _]|[He Hn]]; try done; try (cbn in Hn; lia);
    unfold Close in *; rewrite early_begin in *; cbn in *; by rewrite app_nil_r.
Qed.

Lemma web_exec_talk doc_root a st st' evs :
  early_inv st → web_exec doc_root a st = Some (st', evs) → web_talk a st st'.
Proof.
  intros Hi. destruct a as [i c|id|]; cbn [web_exec].
  - destruct (pending_ st !! i) as [[id op]|] eqn:Hp.
    2:{ intros [= <- <-]. apply web_talk_same; try done. intros id (i' & c' & [= <- <-] & ?). congruence. }
    set (st0 := with_pending _ st). intros Hx. pose proof (OnComplete_talk _ _ _ _ _ _ _ Hx) as [(new & Hnew & He) Ht Ha].
    pose proof (early_delete _ _ _ _ Hp) as Hperm. fold st0 in Hperm.
    destruct (early_replaced st st0 id op new Hi Hperm Hnew) as (Hnd & Hsub & Hnot).
    change (next_socket st0) with (next_socket st) in *. pose proof (ei_fresh _ Hi) as Hf.
    assert (∀ id', id' ∈ early st' → id' ∈ early st ∨ id' = next_socket st ∧ next_socket st' = S (next_socket st)) as Hin'.
    { intros id'. destruct He as [[-> _]|[-> Hn]]; [by left; apply Hsub|].
      rewrite app_assoc, elem_of_app, list_elem_of_singleton. naive_solver. }
    split.
    + split.
      * destruct He as [[-> _]|[-> _]]; [done|]. rewrite app_assoc. apply NoDup_app.
        split_and!; [done| |apply NoDup_singleton]. intros id' Hin%Hsub%Hf ->%list_elem_of_singleton. lia.
      * intros id' [?%Hf|[-> ->]]%Hin'; [|lia]. destruct He as [[_ ->]|[_ ->]]; lia.
    + intros id' [?|[-> _]]%Hin'; [by left|right; lia].
    + intros id' [Hold|[-> Hop]]%Ht.
      * left. destruct Hold as (op' & ? & Hin). exists op'. split; [done|]. exact (list_elem_of_delete_inv _ _ _ Hin).
      * destruct Hop as [Hop| ->]; [left; exists op; split; [done|by eapply list_elem_of_lookup_2]|right; by exists i, c].
    + intros id' Hlt Hid. rewrite Ha; [done|done|]. destruct (before_admission op) eqn:Hop; [left|by right].
      intros ->. apply Hid. rewrite Hperm. by left.
    + intros id' (i' & c' & [= <- <-] & Hp'). assert (id' = id ∧ op = Admission) as [-> ->] by (split; congruence).
      rewrite (Admission_decides _ _ _ _ _ _ _ Hx He). by apply Hnot.
  - intros [= <- <-]. destruct (Close_all_talk [id] st) as (? & ? & ? & ?).
    apply web_talk_same; try done. by intros id' (? & ? & [=] & _).
  - intros [= <- <-]. unfold Stop. cbn [stopping_ sockets_]. assert (∀ id, ¬ admits WStop st id) as Hno
      by (by intros id' (? & ? & [=] & _)).
    destruct (stopping_ st); [by apply web_talk_same|].
    destruct (Close_all_talk (sockets_ st) (WebServer (objects st) (sockets_ st) true false (pending_ st) (next_socket st)))
      as (He & Hn & Ht & Ha). by apply web_talk_same.
Qed.

(** A handshake follows an admission. *)
Lemma web_exec_handshaking doc_root a st st' evs id :
  web_exec doc_root a st = Some (st', evs) →
  (id, Handshaking) ∈ pending_ st' → (id, Handshaking) ∈ pending_ st ∨ admits a st id.
Proof.
  assert (∀ l st, (id, Handshaking) ∈ pending_ (foldl (λ st id, Close id st) st l) →
    (id, Handshaking) ∈ pending_ st) as Hclose.
  { induction l as [|id' l IH]; intros st0; cbn; [done|]. intros Hin%IH. cbn in Hin.
    apply elem_of_app in Hin as [?|?%list_elem_of_singleton]; [done|congruence]. }
  destruct a as [i c|id'|]; cbn [web_exec].
  - destruct (pending_ st !! i) as [[id' op]|] eqn:Hp; [|intros [= <- <-]; by left].
    set (st0 := with_pending _ st). intros Hx Hin.
    destruct (decide (op = Admission ∧ id' = id)) as [[-> ->]|Hno]; [right; by exists i, c|left].
    cut ((id, Handshaking) ∈ pending_ st0).
    { intros Hin0. exact (list_elem_of_delete_inv _ _ _ Hin0). }
    destruct op; cbn [OnComplete] in Hx; unfold OnHeader, OnClosing, OnRemoving, OnAccept, SocketStart, DoAccept in Hx;
      repeat (case_match || simplify_option_eq); cbn in Hin; rewrite ?elem_of_app, ?list_elem_of_singleton in Hin;
      naive_solver.
  - intros [= <- <-] Hin. left. by apply (Hclose [id']).
  - intros [= <- <-] Hin. left. unfold Stop in Hin. cbn in Hin. destruct (stopping_ st); [done|by apply Hclose in Hin].
Qed.

(** A completion reports at most one event, about its own socket. *)
Definition event_of id op (ev : web_event) : Prop :=
  match ev with
  | OnConnect v => v = id ∧ op = Handshaking
  | OnMessage v => v = id ∧ op = ReadingMessage
  | OnDisconnect v => v = id ∧ op = Closing
  | OnPreConnect v | Respond v _ => v = id ∧ op = ReadingHeader
  end.

Lemma web_exec_event doc_root i c id op st st' evs :
  pending_ st !! i = Some (id, op) → web_exec doc_root (WComplete i c) st = Some (st', evs) →
  evs = [] ∨ ∃ ev, evs = [ev] ∧ event_of id op ev.
Proof.
  intros Hp. cbn [web_exec]. rewrite Hp.
  destruct op; cbn [OnComplete]; unfold OnHeader, OnClosing; intros Hx;
    repeat (case_match || simplify_option_eq); eauto; right; eexists; (split; [done|]); by split.
Qed.

(** ** Safety *)

(** Beast's parser refuses a request without a target. *)
Definition action_ok (a : web_action) : Prop :=
  match a with WComplete _ c => rq_target (c_request c) ≠ EmptyString | _ => True end.

Context (canonical_absolute : ∀ p q, canonical p = Some q → rooted q = true).
Context (doc_root : string) (doc_root_absolute : rooted doc_root = true).

Lemma HandleRequest_defined rq : rq_target rq ≠ EmptyString → ∃ r, HandleRequest doc_root rq = Some r.
Proof.
  intros Ht. unfold HandleRequest. destruct (rq_method rq); [|by eexists..].
  destruct (wants_websocket rq); [by eexists|]. destruct (rq_target rq) as [|c path]; [done|].
  destruct (served_below_root canonical status open_file prepare_payload canonical_absolute doc_root path
    doc_root_absolute) as (sent & -> & _). simpl. destruct sent; by eexists.
Qed.

Lemma OnHeader_same id c st :
  rq_target (c_request c) ≠ EmptyString →
  ∃ st' evs, OnHeader doc_root id c st = Some (st', evs) ∧ same_web st st' ∧ disconnects evs = [].
Proof.
  intros Ht. unfold OnHeader. destruct (c_error c); [by eexists _, _|].
  set (st1 := update id _ st). assert (same_web st st1) as H1 by (by apply update_same).
  destruct (HandleRequest_defined _ Ht) as [r ->]. cbn [mbind option_bind].
  destruct r; eexists _, _; (split; [done|]); (split; [|done]); (etrans; [exact H1|]);
    first [by apply begin_same|by apply update_same].
Qed.

Lemma OnAccept_step i id c st :
  web_inv st → pending_ st !! i = Some (id, Accepting) →
  web_step st (OnAccept id c (with_pending (delete i (pending_ st)) st)) [].
Proof.
  intros Hi Hp. set (st0 := with_pending _ st).
  destruct (of_op_delete Accepting _ _ _ _ Hp) as [_ Hac]. specialize (Hac eq_refl).
  destruct (of_op_delete Removing _ _ _ _ Hp) as [Hrm _]. specialize (Hrm ltac:(done)).
  pose proof (wi_accepting _ Hi) as Hlen. rewrite Hac in Hlen. simpl in Hlen.
  assert (of_op Accepting (pending_ st0) = []) as Hnone by (apply nil_length_inv; simpl; lia).
  assert (web_inv st0) as Hi0.
  { split; try apply Hi; cbn [st0 with_pending pending_ sockets_ stopping_]; rewrite ?Hrm; try apply Hi; lia. }
  cut (web_step st0 (OnAccept id c st0) []).
  { intros [? ? ? ?]. by split. }
  unfold OnAccept. destruct (_ || _); [apply same_web_step; [done|apply Close_same|done]|].
  pose proof (SocketStart_same id (c_remote c) st0) as Hs. eapply web_step_after; [exact Hs|].
  apply DoAccept_step; [by eapply same_web_inv|]. by rewrite (sw_accepting _ _ Hs).
Qed.

Lemma Stop_step st : web_inv st → web_step st (Stop st) [].
Proof.
  intros Hi. unfold Stop. cbn [stopping_ sockets_ objects]. destruct (stopping_ st) eqn:Hst.
  { apply same_web_step; [done| |done]. split; try done. }
  set (st1 := WebServer _ _ _ _ _ _). pose proof (Close_all_same (sockets_ st) st1) as Hs.
  assert (web_inv st1) as Hi1 by (split; try apply Hi; done).
  cut (web_step st1 (foldl (λ st id, Close id st) st1 (sockets_ st)) []); [intros []; by split|].
  by apply same_web_step.
Qed.

(** The handlers that only start something. *)
Lemma OnComplete_same id op c st :
  op ∉ [Accepting; Removing; Closing] → rq_target (c_request c) ≠ EmptyString →
  ∃ st' evs, OnComplete doc_root id op c st = Some (st', evs) ∧ same_web st st' ∧ disconnects evs = [].
Proof.
  intros Hop Ht. assert (op ≠ Accepting ∧ op ≠ Removing ∧ op ≠ Closing) as (? & ? & ?)
    by (split_and!; intros ->; apply Hop; set_solver).
  destruct op; try done; cbn [OnComplete]; [by apply OnHeader_same|..];
    destruct (c_error c); eexists _, _; (split; [done|]); (split; [|done]);
    first [done | by apply begin_same].
Qed.

Lemma web_exec_step a st :
  web_inv st → action_ok a →
  ∃ st' evs, web_exec doc_root a st = Some (st', evs) ∧ web_step st st' evs.
Proof.
  intros Hi Hok. destruct a as [i c|id|]; cbn [web_exec].
  2:{ eexists _, _. split; [done|]. apply same_web_step; [done|apply Close_same|done]. }
  2:{ eexists _, _. split; [done|]. by apply Stop_step. }
  destruct (pending_ st !! i) as [[id op]|] eqn:Hp; [|eexists _, _; split; [done|by apply same_web_step]].
  destruct (decide (op = Removing)) as [->|Hnr].
  { destruct (OnRemoving_step _ _ _ Hi Hp) as (st' & Hr & Hs). cbn [OnComplete]. rewrite Hr. by eexists _, _. }
  destruct (decide (op = Accepting)) as [->|Hna].
  { eexists _, _. split; [done|]. by apply OnAccept_step. }
  pose proof (delete_same _ _ _ _ Hp Hnr Hna) as Hdel. set (st0 := with_pending _ st) in *.
  assert (web_inv st0) as Hi0 by (by eapply same_web_inv).
  destruct (decide (op = Closing)) as [->|Hnc].
  - cbn [OnComplete]. pose proof (OnClosing_step id st0 Hi0). destruct (OnClosing id st0) as [st' evs].
    eexists _, _. split; [done|]. by eapply web_step_after.
  - destruct (OnComplete_same id op c st0) as (st' & evs & -> & Hs & Hd); [set_solver|done|].
    eexists _, _. split; [done|]. apply same_web_step; [done| |done]. by etrans.
Qed.

Lemma web_run_steps l st seen :
  web_inv st → Forall action_ok l → NoDup seen →
  (∀ id, id ∈ seen → id < next_socket st ∧ ¬ registered st id) →
  ∃ st' evs, web_run doc_root l st = Some (st', evs) ∧ web_inv st' ∧ NoDup (seen ++ disconnects evs).
Proof.
  intros Hi Hl Hnd Hseen. revert st seen Hi Hnd Hseen. induction Hl as [|a l Ha _ IH]; intros st seen Hi Hnd Hseen.
  { eexists _, _. split; [done|]. simpl. by rewrite app_nil_r. }
  destruct (web_exec_step a st Hi Ha) as (st1 & evs1 & Hx & [Hi1 Hn Hr Hd]). cbn [web_run]. rewrite Hx.
  cbn [mbind option_bind].
  destruct (IH st1 (seen ++ disconnects evs1) Hi1) as (st2 & evs2 & -> & Hi2 & Hnd2).
  - destruct Hd as [-> | (id & -> & Hid & _)]; [by rewrite app_nil_r|].
    apply NoDup_app. split_and!; [done| |apply NoDup_singleton].
    intros id' Hin ->%list_elem_of_singleton. by apply (Hseen _ Hin).
  - intros id [Hin|Hin]%elem_of_app.
    + destruct (Hseen _ Hin) as [? Hno]. split; [lia|]. intros ?%Hr; done.
    + destruct Hd as [Hd | (id' & Hd & Hid & Hno)]; rewrite Hd in Hin; [by apply not_elem_of_nil in Hin|].
      apply list_elem_of_singleton in Hin as ->. split; [|done].
      apply registered_fresh in Hid; [lia|done].
  - simpl. eexists _, _. split; [done|]. split; [done|].
    unfold disconnects. rewrite omap_app. by rewrite app_assoc.
Qed.

Lemma web_new_inv : web_inv (DoAccept web_new).
Proof.
  assert (web_inv web_new) as Hi.
  { split; simpl; try set_solver by lia.
    - intros id [? ?]. by rewrite lookup_empty in *.
    - constructor.
    - intros _ id. unfold registered. simpl. rewrite lookup_empty. set_solver.
    - constructor. }
  by apply DoAccept_step.
Qed.

(** C15: From the first accept on, whatever completes in whatever order, with
    closes and stops at any time: no handler is undefined, in particular the
    iterator that a socket's close callback erases is always still in the list;
    every socket is told of its end at most once; at most one accept is
    outstanding; and until the server stops its list holds exactly the sockets
    that have not been closed, or whose removal is under way. *)
Theorem web_server_safe l :
  Forall action_ok l →
  ∃ st evs, web_run doc_root l (DoAccept web_new) = Some (st, evs) ∧
    NoDup (disconnects evs) ∧ NoDup (sockets_ st) ∧ length (of_op Accepting (pending_ st)) ≤ 1 ∧
    (stopping_ st = false →
       ∀ id, id ∈ sockets_ st ↔ registered st id ∨ id ∈ of_op Removing (pending_ st)).
Proof.
  intros Hl. destruct (web_run_steps l _ [] web_new_inv Hl) as (st & evs & Hr & [] & Hnd);
    [constructor|by intros id ?%not_elem_of_nil|].
  eexists _, _. by split_and!.
Qed.

(** *** No accept after a failed one *)

(** Accepting has ended: no accept is outstanding and no socket is created. *)
Definition accepts_nothing (n : nat) st : Prop := of_op Accepting (pending_ st) = [] ∧ next_socket st = n.

Lemma accepts_nothing_same n st st' : same_web st st' → accepts_nothing n st → accepts_nothing n st'.
Proof. intros [] []. split; congruence. Qed.

Lemma OnClosing_accepts n id st : accepts_nothing n st → accepts_nothing n (OnClosing id st).1.
Proof.
  intros [Ha Hn]. unfold OnClosing. destruct (default _ _); [|by split]. split; [|done].
  change (of_op Accepting (pending_ (begin id Removing st)) = []).
  by rewrite of_op_begin, Ha, decide_False.
Qed.

Lemma web_exec_accepts n a st st' evs :
  accepts_nothing n st → action_ok a → web_exec doc_root a st = Some (st', evs) → accepts_nothing n st'.
Proof.
  intros Hn Hok. destruct a as [i c|id|]; cbn [web_exec].
  - destruct (pending_ st !! i) as [[id op]|] eqn:Hp; [|by intros [= <- <-]].
    set (st0 := with_pending _ st).
    assert (accepts_nothing n st0) as H0.
    { destruct (decide (op = Accepting)) as [->|Hne].
      - destruct Hn as [Hn _]. apply list_elem_of_lookup_2, elem_of_of_op in Hp. rewrite Hn in Hp.
        by apply not_elem_of_nil in Hp.
      - destruct (of_op_delete Accepting _ _ _ _ Hp) as [Hd _]. destruct Hn as [Ha ?].
        split; [|done]. cbn [st0 with_pending pending_]. by rewrite Hd. }
    destruct (decide (op ∈ [Accepting; Removing; Closing])) as [Hop|Hop].
    + repeat apply elem_of_cons in Hop as [->|Hop]; [..|by apply not_elem_of_nil in Hop]; cbn [OnComplete].
      * destruct Hn as [Hn _]. apply list_elem_of_lookup_2, elem_of_of_op in Hp. rewrite Hn in Hp.
        by apply not_elem_of_nil in Hp.
      * unfold OnRemoving. destruct (stopping_ st0); [by intros [= <- <-]|]. case_decide; [|done].
        by intros [= <- <-].
      * intros [= Hc]. pose proof (OnClosing_accepts n id st0 H0) as Hcl. by rewrite Hc in Hcl.
    + destruct (OnComplete_same id op c st0 Hop Hok) as (? & ? & -> & Hs & _). intros [= <- <-].
      by eapply accepts_nothing_same.
  - intros [= <- <-]. eapply accepts_nothing_same; [apply Close_same|done].
  - intros [= <- <-]. unfold Stop. cbn [stopping_]. destruct (stopping_ st); [done|].
    eapply accepts_nothing_same; [apply Close_all_same|done].
Qed.

Lemma web_run_invariant (I : web_server → Prop) (ok : web_action → Prop) l st st' evs :
  (∀ a st st' evs, I st → ok a → web_exec doc_root a st = Some (st', evs) → I st') →
  Forall ok l → I st → web_run doc_root l st = Some (st', evs) → I st'.
Proof.
  intros Hstep Hl. revert st evs. induction Hl as [|a l Ha _ IH]; intros st evs Hi; cbn [web_run].
  - by intros [= <- _].
  - destruct (web_exec doc_root a st) as [[st1 evs1]|] eqn:Hx; [|done]. cbn [mbind option_bind].
    destruct (web_run doc_root l st1) as [[st2 evs2]|] eqn:Hr; [|done]. cbn [mbind option_bind].
    intros [= <- _]. eapply IH; [|done]. by eapply Hstep.
Qed.

(** One failed accept is the last: after an accept has completed with an
    error - too many open files, a connection reset before it was accepted -
    the server never accepts or even creates a socket again, whatever happens
    later. *)
Theorem accept_error_is_final l0 st evs0 i id c l :
  Forall action_ok l0 → web_run doc_root l0 (DoAccept web_new) = Some (st, evs0) →
  pending_ st !! i = Some (id, Accepting) → c_error c = true →
  Forall action_ok (WComplete i c :: l) →
  ∃ st' evs, web_run doc_root (WComplete i c :: l) st = Some (st', evs) ∧
    of_op Accepting (pending_ st') = [] ∧ next_socket st' = next_socket st.
Proof.
  intros Hl0 Hr0 Hp Hc Hl.
  destruct (web_run_steps l0 _ [] web_new_inv Hl0) as (st2 & evs2 & Hr2 & Hi & _);
    [constructor|by intros ? ?%not_elem_of_nil|]. rewrite Hr0 in Hr2. injection Hr2 as <- <-.
  destruct (web_run_steps _ _ [] Hi Hl) as (st' & evs & Hr & _ & _);
    [constructor|by intros ? ?%not_elem_of_nil|].
  exists st', evs. split; [done|]. apply Forall_cons in Hl as [_ Hl].
  revert Hr. cbn [web_run web_exec]. rewrite Hp. cbn [OnComplete mbind option_bind]. unfold OnAccept.
  rewrite Hc. cbn [orb]. set (st1 := Close _ _).
  destruct (web_run doc_root l st1) as [[st3 evs3]|] eqn:Hr; [|done]. intros [= <- _].
  eapply (web_run_invariant (accepts_nothing (next_socket st)) _ _ _ _ _ (web_exec_accepts _) Hl); [|exact Hr].
  eapply accepts_nothing_same; [apply Close_same|]. split; [|done].
  destruct (of_op_delete Accepting _ _ _ _ Hp) as [_ Hac]. specialize (Hac eq_refl).
  pose proof (wi_accepting _ Hi) as Hlen. rewrite Hac in Hlen.
  apply nil_length_inv. simpl in *. lia.
Qed.

(** *** Sockets that are never closed *)

(** Nothing is outstanding for a socket that is in the list with its state. *)
Definition stuck id x st : Prop :=
  id ∈ sockets_ st ∧ objects st !! id = Some x ∧ id < next_socket st ∧ ∀ op, (id, op) ∉ pending_ st.

Definition leaves id (a : web_action) : Prop :=
  action_ok a ∧ match a with WClose id' => id' ≠ id | WStop => False | _ => True end.

Lemma stuck_begin id x id' op st : id' ≠ id → stuck id x st → stuck id x (begin id' op st).
Proof.
  intros Hne (? & ? & ? & Hp). split_and!; try done.
  intros op' [?|?%list_elem_of_singleton]%elem_of_app; [by eapply Hp|congruence].
Qed.
Lemma stuck_update id x id' f st : id' ≠ id → stuck id x st → stuck id x (update id' f st).
Proof. intros Hne (? & ? & ? & Hp). split_and!; try done. unfold update. simpl. by rewrite lookup_alter_ne. Qed.
Lemma stuck_DoAccept id x st : stuck id x st → stuck id x (DoAccept st).
Proof.
  intros (Hs & Hx & Hn & Hp). unfold DoAccept. destruct (stopping_ st); [done|].
  apply stuck_begin; [lia|]. split_and!; simpl; [by right| |lia|done].
  rewrite lookup_insert_ne by lia. done.
Qed.

Lemma stuck_exec id x a st st' evs :
  stuck id x st → leaves id a → web_exec doc_root a st = Some (st', evs) → stuck id x st'.
Proof.
  intros Hst [Hok Hl]. destruct a as [i c|id'|]; cbn [web_exec]; [|by intros [= <- <-]; apply stuck_begin|done].
  destruct (pending_ st !! i) as [[id' op]|] eqn:Hp; [|by intros [= <- <-]].
  set (st0 := with_pending _ st).
  assert (id' ≠ id) as Hne.
  { intros ->. destruct Hst as (_ & _ & _ & Hno). apply list_elem_of_lookup_2 in Hp. by apply Hno in Hp. }
  assert (stuck id x st0) as H0.
  { destruct Hst as (? & ? & ? & Hno). split_and!; try done. intros op' Hin. apply (Hno op').
    exact (list_elem_of_delete_inv _ _ _ Hin). }
  clearbody st0. destruct op; cbn [OnComplete].
  - intros [= <- <-]. unfold OnAccept, SocketStart. destruct (_ || _); [by apply stuck_begin|].
    apply stuck_DoAccept. destruct (c_remote c); [by apply stuck_begin, stuck_update|by apply stuck_begin].
  - unfold OnHeader. destruct (c_error c); [by intros [= <- <-]|].
    destruct (HandleRequest _ _) as [r|]; [|done]. cbn [mbind option_bind]. set (st1 := update id' _ st0).
    assert (stuck id x st1) by (by apply stuck_update).
    destruct r; intros [= <- <-]; first [by apply stuck_begin|by apply stuck_update].
  - intros [= <- <-]. destruct (c_error c); [done|by apply stuck_begin].
  - intros [= <- <-]. destruct (c_error c); by apply stuck_begin.
  - destruct (c_error c); intros [= <- <-]; by apply stuck_begin.
  - destruct (c_error c); intros [= <- <-]; by apply stuck_begin.
  - unfold OnClosing. destruct (default _ _); intros [= <- <-]; [|by apply stuck_update].
    by apply stuck_update, stuck_begin, stuck_update.
  - unfold OnRemoving. destruct (stopping_ st0); [by intros [= <- <-]|]. case_decide; [|done].
    intros [= <- <-]. destruct H0 as (? & ? & ? & ?). split_and!; try done.
    apply list_elem_of_filter. done.
Qed.

(** A connection that ends while the server waits for a request is never
    closed: the handler of the failed read does nothing, so that the socket,
    open, and its place in the list stay until the server stops, whatever
    happens on other connections.  (Every connection that is kept alive after
    a file has been served ends this way.) *)
Theorem failed_read_leaks l0 st evs0 i id c x l :
  Forall action_ok l0 → web_run doc_root l0 (DoAccept web_new) = Some (st, evs0) →
  pending_ st !! i = Some (id, ReadingHeader) → c_error c = true →
  (∀ op, (id, op) ∉ delete i (pending_ st)) →
  objects st !! id = Some x → close_callback_ x = true → stopping_ st = false →
  Forall (leaves id) (WComplete i c :: l) →
  ∃ st' evs, web_run doc_root (WComplete i c :: l) st = Some (st', evs) ∧
    id ∈ sockets_ st' ∧ objects st' !! id = Some x ∧ ∀ op, (id, op) ∉ pending_ st'.
Proof.
  intros Hl0 Hr0 Hp Hc Hone Hx Hcb Hst Hl.
  destruct (web_run_steps l0 _ [] web_new_inv Hl0) as (st2 & evs2 & Hr2 & Hi & _);
    [constructor|by intros ? ?%not_elem_of_nil|]. rewrite Hr0 in Hr2. injection Hr2 as <- <-.
  assert (Forall action_ok (WComplete i c :: l)) as Hok by (eapply Forall_impl; [exact Hl|by intros ? []]).
  destruct (web_run_steps _ _ [] Hi Hok) as (st' & evs & Hr & _ & _);
    [constructor|by intros ? ?%not_elem_of_nil|].
  exists st', evs. split; [done|]. apply Forall_cons in Hl as [_ Hl].
  revert Hr. cbn [web_run web_exec]. rewrite Hp. cbn [OnComplete]. unfold OnHeader.
  rewrite Hc. cbn [mbind option_bind]. set (st1 := with_pending _ st).
  destruct (web_run doc_root l st1) as [[st3 evs3]|] eqn:Hr; [|done]. intros [= <- _].
  assert (stuck id x st1) as H1.
  { split_and!; [|done| |done].
    - apply (wi_list _ Hi Hst). left. unfold registered. rewrite Hx. simpl. by rewrite Hcb.
    - apply (wi_fresh _ Hi). by rewrite Hx. }
  pose proof (web_run_invariant (stuck id x) _ _ _ _ _ (stuck_exec id x) Hl H1 Hr) as (? & ? & _ & ?). done.
Qed.
End Requests.

Module WebDemo.
#[local] Existing Instance FilesDemo.ascii_case.
Local Open Scope string_scope.
Definition rq : request := Request get "/a" (λ _, None).
Definition ok_ : completion := Completion false (Some (address_v4 [10; 0; 0; 1]%Z)) false rq.
Definition failed_ : completion := Completion true None false rq.
Abbreviation run := (web_run (F := unit) (λ _, None) (λ _, None) (λ _, None) (λ _, true) (λ _ _, false)
  (λ s, s) (λ _, None) "/srv").
Lemma none_absolute (p q : string) : (λ _ : string, @None string) p = Some q → rooted q = true.
Proof. done. Qed.

(** A client asks for a file that is not there and then goes away. *)
Definition visit : list web_action := [WComplete 0 ok_; WComplete 0 ok_; WComplete 1 ok_].

Example answer_not_found : snd <$> run visit (DoAccept web_new) = Some [Respond 0 (NotFound "/a")].
Proof. by vm_compute. Qed.

Lemma web_server_safe_witness :
  ∃ st evs, run (visit ++ [WComplete 1 failed_; WClose 0; WComplete 1 ok_; WStop]) (DoAccept web_new)
    = Some (st, evs) ∧ NoDup (disconnects evs) ∧ NoDup (sockets_ st).
Proof.
  destruct (web_server_safe (F := unit) (λ _, None) (λ _, None) (λ _, None) (λ _, true) (λ _ _, false)
    (λ s, s) (λ _, None) none_absolute "/srv" eq_refl
    (visit ++ [WComplete 1 failed_; WClose 0; WComplete 1 ok_; WStop]))
    as (st & evs & H & Hd & Hn & _); [repeat constructor; done|].
  by exists st, evs.
Defined.

Lemma accept_error_is_final_witness :
  ∃ st, run [WComplete 0 ok_] (DoAccept web_new) = Some st ∧
  ∃ st' evs, run [WComplete 1 failed_; WComplete 0 ok_; WComplete 1 ok_] st.1 = Some (st', evs) ∧
    of_op Accepting (pending_ st') = [] ∧ next_socket st' = 2.
Proof.
  eexists (_, _). split; [by vm_compute|].
  exact (accept_error_is_final (F := unit) (λ _, None) (λ _, None) (λ _, None) (λ _, true) (λ _ _, false)
    (λ s, s) (λ _, None) none_absolute "/srv" eq_refl [WComplete 0 ok_] _ _ 1 1 failed_
    [WComplete 0 ok_; WComplete 1 ok_] ltac:(repeat constructor; done) eq_refl eq_refl eq_refl
    ltac:(repeat constructor; done)).
Defined.

Lemma failed_read_leaks_witness :
  ∃ st, run visit (DoAccept web_new) = Some st ∧
  ∃ st' evs, run [WComplete 1 failed_; WComplete 0 ok_] st.1 = Some (st', evs) ∧ 0 ∈ sockets_ st' ∧
    socket_open <$> objects st' !! 0 = Some true.
Proof.
  eexists (_, _). split; [by vm_compute|].
  destruct (failed_read_leaks (F := unit) (λ _, None) (λ _, None) (λ _, None) (λ _, true) (λ _ _, false)
    (λ s, s) (λ _, None) none_absolute "/srv" eq_refl visit _ _ 1 0 failed_
    (WebSocket (IpAddress (address_v4 [10; 0; 0; 1]%Z)) true true)
    [WComplete 0 ok_] ltac:(repeat constructor; done) ltac:(by vm_compute) ltac:(by vm_compute) eq_refl)
    as (st' & evs & Hr & Hin & Hx & _).
  - intros op Hop. vm_compute in Hop. by apply list_elem_of_singleton in Hop.
  - by vm_compute.
  - done.
  - done.
  - repeat constructor; done.
  - exists st', evs. split; [exact Hr|]. split; [exact Hin|]. by rewrite Hx.
Defined.
End WebDemo.
