(* ===== verification/Server.v ===== *)
(** * The server (src/CollabVmServer.hpp)

    A socket per client, the directories the sockets share - guests by name,
    sessions, connection counts per address, the global chat room, the list of
    virtual machines, the server's settings, the database - and one definition
    per client message.  Every object of the source is guarded by a strand;
    [dispatch] runs its argument at once when the strand is free, so a handler
    is modelled as running to its end.  What the source postpones - captcha
    verdicts, the login strand, the answers of the machines - waits in [later]
    and is a step of its own ([RunLater]), in any order and with anything in
    between.

    A handler returns the new state and its effects in order; [None] stands for
    undefined behaviour, a failed assertion or an exception that nobody
    catches. *)

From S2P Require Import Prelude Timer TurnController VoteController ChatRoom Settings Database ConfigStore.
From S2P Require Import Messages UserChannel Recording GuacamoleClient AdminVm VmList Previews.
From Stdlib Require Import Ascii String.
From stdpp Require Import pretty.

(** [CaseInsensitiveHasher], [CaseInsensitiveComparator]: names are compared
    after [std::toupper] in the C locale, so a map keyed by them is a map keyed
    by the folded names. *)
Definition toupper (c : ascii) : ascii :=
  let n := nat_of_ascii c in
  if Nat.leb 97 n && Nat.leb n 122 then ascii_of_nat (n - 32) else c.

Fixpoint fold_case (s : string) : string :=
  match s with EmptyString => EmptyString | String c s => String (toupper c) (fold_case s) end.

Lemma fold_case_app s1 s2 :
  fold_case (String.append s1 s2) = String.append (fold_case s1) (fold_case s2).
Proof.
  induction s1 as [|c s1 IH]; [done|].
  change (String (toupper c) (fold_case (String.append s1 s2))
    = String (toupper c) (String.append (fold_case s1) (fold_case s2))). by rewrite IH.
Qed.

Lemma toupper_digit n : toupper (pretty_N_char n) = pretty_N_char n.
Proof. destruct n as [|p]; [done|]. do 4 (try (destruct p as [p|p|]; try reflexivity)). Qed.

(** Folding leaves decimal numbers alone. *)
Lemma fold_case_pretty (z : Z) : fold_case (pretty z) = pretty z.
Proof.
  assert (Hgo : ∀ n s, fold_case s = s → fold_case (pretty_N_go n s) = pretty_N_go n s).
  { intros n. induction (N.lt_wf_0 n) as [n _ IH]; intros s Hs.
    destruct (decide (n = 0)%N) as [->|Hn]; [by rewrite pretty_N_go_0|].
    rewrite pretty_N_go_step by lia. apply IH; [by apply N.div_lt; lia|].
    cbn [fold_case]. by rewrite toupper_digit, Hs. }
  assert (HN : ∀ n : N, fold_case (pretty n) = pretty n).
  { intros n. unfold pretty, pretty_N. case_decide; [done|]. by apply Hgo. }
  destruct z as [|p|p]; [done|apply HN|]. unfold pretty at 1 2, pretty_Z. rewrite fold_case_app. f_equal. apply HN.
Qed.

(** The members of [ServerSetting::Setting] that the source uses. *)
Class ServerSchema (V : Type) := {
  server_fields_count : nat;
  server_clear_value : nat → V;
  ALLOW_ACCOUNT_REGISTRATION : nat; getAllowAccountRegistration : V → bool;
  MAX_CONNECTIONS_ENABLED : nat; getMaxConnectionsEnabled : V → bool;
  MAX_CONNECTIONS : nat; getMaxConnections : V → Z;
  CAPTCHA_REQUIRED : nat; getCaptchaRequired : V → bool;
  CAPTCHA : nat;
  RECORDINGS : nat; getRecordings : V → recording_settings;
  BAN_IP_COMMAND : nat; getBanIpCommand : V → string
}.

Definition global_channel_id : Z := 0.

Record registration := Registration {
  reg_username : string;
  reg_password : string;
  reg_two_factor_token : option (list Z);
  reg_invite_id : list Z;
  reg_captcha_token : string
}.

Inductive chat_destination :=
| NEW_DIRECT (username : string) | DIRECT (channel : Z) | TO_VM (id : Z).

(** What one step reads from its surroundings besides the state. *)
Record server_env := ServerEnv {
  recording_env : rec_env;
  random_ids : list (list Z);
  password_salt : list Z;
  guest_number : Z
}.

Section Server.
Context {T : Type → Type} `{SteadyTimer T}.
Context {U : Type} `{Countable U}.
Context {G V C : Type} `{GuacSchema G, VmSchema V, ServerSchema V, GuacClientSchema C G}.
Abbreviation S := (setting V).
Abbreviation msg := (server_message G S).
Abbreviation act := (action U msg).
Abbreviation machine := (vm_state (T := T) (U := U) (G := G) (V := V)).
Abbreviation machine_event := (vm_event (U := U) (G := G) (V := V) (C := C)).
Context (vote_limit : Z).
Context (message_size : msg → Z) (header_size : Z → Z) (to_string : Z → string).
Context (arg_names : Protocol → list string) (init_succeeds : Protocol → bool).
Context (guac_join : guac_client (G := G) → list G).
Context (screenshot : guac_client (G := G) → option (list Z)).
(** The submodule with the code shared with the client. *)
Context (ValidateUsername : string → bool) (max_chat_message_len : Z).
Context (chat_rate_limit username_change_rate_limit : Z).
Context (IsGuacamoleClientInstructionAllowed : C → bool).
Context (MaxUsernameLen MaxMessageLen : nat) (default_user_type : UserType).
(** The database's libraries. *)
Context (hash_password : string → list Z → list Z) (bind_blob : list Z → option (list Z)).
(** [address_v6::to_string] of the bytes of an address. *)
Context (ip_to_string : list Z → string).
Implicit Types (u v : U) (env : server_env).

Inductive client_message :=
| CONNECT_TO_CHANNEL (channel_id : Z)
| CAPTCHA_COMPLETED (token : string)
| TURN_REQUEST
| VOTE (voted_yes : bool)
| GUAC_INSTR (instr : C)
| CHANGE_USERNAME (new_username : string)
| CHANGE_PASSWORD_REQUEST (old_password new_password : string)
| CHAT_MESSAGE (destination : chat_destination) (message : string)
| VM_LIST_REQUEST
| LOGIN_REQUEST (username password captcha_token : string)
| TWO_FACTOR_RESPONSE (code : Z)
| ACCOUNT_REGISTRATION_REQUEST (request : registration)
| SERVER_CONFIG_REQUEST
| SERVER_CONFIG_MODIFICATIONS (changed_settings : list S)
| SERVER_CONFIG_HIDDEN
| CREATE_VM (initial_settings : list S)
| READ_VMS
| READ_VM_CONFIG (vm_id : Z)
| UPDATE_VM_CONFIG (vm_id : Z) (modifications : list S)
| DELETE_VM (vm_id : Z)
| START_VMS (vm_ids : list Z) | STOP_VMS (vm_ids : list Z) | RESTART_VMS (vm_ids : list Z)
| CREATE_INVITE (invite_name username : string) (admin : bool)
| READ_INVITES
| UPDATE_INVITE (id : list Z) (username : string) (admin : bool)
| DELETE_INVITE (id : list Z)
| VALIDATE_INVITE (id : list Z)
| CREATE_RESERVED_USERNAME (username : string)
| READ_RESERVED_USERNAMES
| DELETE_RESERVED_USERNAME (username : string)
| BAN_IP (first second : Z)
| SEND_CAPTCHA (username : string) (channel : Z)
| KICK_USER (username : string) (channel : Z)
| PAUSE_TURN_TIMER | RESUME_TURN_TIMER | END_TURN | CANCEL_VOTE
| RECORDING_PREVIEW_REQUEST (request : preview_request)
| OTHER_MESSAGE.

(** ** State *)

(** [CollabVmSocket], without its queue of outgoing messages (SendQueue). *)
Record socket := Socket {
  is_logged_in_ : bool;
  is_admin_ : bool;
  is_viewing_server_config : bool;
  is_viewing_vm_list_ : bool;
  is_in_global_chat_ : bool;
  is_captcha_required_ : bool;
  last_chat_message_ : Z;
  last_username_change_ : Z;
  connected_vm_id_ : Z;
  username_ : string;
  totp_key_ : list Z;
  chat_rooms_ : gmap Z (U * Z);
  chat_rooms_id_ : Z;
  socket_ip : list Z;
  has_ip_data : bool
}.
Implicit Types x : socket.

Definition socket_new (ip : list Z) : socket :=
  Socket false false false false false false 0 0 0 EmptyString [] ∅ 1 ip false.

Definition set_login (admin : bool) x : socket :=
  Socket true admin (is_viewing_server_config x) (is_viewing_vm_list_ x) (is_in_global_chat_ x)
    (is_captcha_required_ x) (last_chat_message_ x) (last_username_change_ x) (connected_vm_id_ x)
    (username_ x) (totp_key_ x) (chat_rooms_ x) (chat_rooms_id_ x) (socket_ip x) (has_ip_data x).
Definition set_viewing_server_config (b : bool) x : socket :=
  Socket (is_logged_in_ x) (is_admin_ x) b (is_viewing_vm_list_ x) (is_in_global_chat_ x)
    (is_captcha_required_ x) (last_chat_message_ x) (last_username_change_ x) (connected_vm_id_ x)
    (username_ x) (totp_key_ x) (chat_rooms_ x) (chat_rooms_id_ x) (socket_ip x) (has_ip_data x).
Definition set_viewing_vm_list (b : bool) x : socket :=
  Socket (is_logged_in_ x) (is_admin_ x) (is_viewing_server_config x) b (is_in_global_chat_ x)
    (is_captcha_required_ x) (last_chat_message_ x) (last_username_change_ x) (connected_vm_id_ x)
    (username_ x) (totp_key_ x) (chat_rooms_ x) (chat_rooms_id_ x) (socket_ip x) (has_ip_data x).
Definition set_in_global_chat (b : bool) x : socket :=
  Socket (is_logged_in_ x) (is_admin_ x) (is_viewing_server_config x) (is_viewing_vm_list_ x) b
    (is_captcha_required_ x) (last_chat_message_ x) (last_username_change_ x) (connected_vm_id_ x)
    (username_ x) (totp_key_ x) (chat_rooms_ x) (chat_rooms_id_ x) (socket_ip x) (has_ip_data x).
Definition set_captcha_required (b : bool) x : socket :=
  Socket (is_logged_in_ x) (is_admin_ x) (is_viewing_server_config x) (is_viewing_vm_list_ x)
    (is_in_global_chat_ x) b (last_chat_message_ x) (last_username_change_ x) (connected_vm_id_ x)
    (username_ x) (totp_key_ x) (chat_rooms_ x) (chat_rooms_id_ x) (socket_ip x) (has_ip_data x).
Definition set_last_chat_message (t : Z) x : socket :=
  Socket (is_logged_in_ x) (is_admin_ x) (is_viewing_server_config x) (is_viewing_vm_list_ x)
    (is_in_global_chat_ x) (is_captcha_required_ x) t (last_username_change_ x) (connected_vm_id_ x)
    (username_ x) (totp_key_ x) (chat_rooms_ x) (chat_rooms_id_ x) (socket_ip x) (has_ip_data x).
Definition set_connected_vm (id : Z) x : socket :=
  Socket (is_logged_in_ x) (is_admin_ x) (is_viewing_server_config x) (is_viewing_vm_list_ x)
    (is_in_global_chat_ x) (is_captcha_required_ x) (last_chat_message_ x) (last_username_change_ x) id
    (username_ x) (totp_key_ x) (chat_rooms_ x) (chat_rooms_id_ x) (socket_ip x) (has_ip_data x).
Definition set_username (s : string) x : socket :=
  Socket (is_logged_in_ x) (is_admin_ x) (is_viewing_server_config x) (is_viewing_vm_list_ x)
    (is_in_global_chat_ x) (is_captcha_required_ x) (last_chat_message_ x) (last_username_change_ x)
    (connected_vm_id_ x) s (totp_key_ x) (chat_rooms_ x) (chat_rooms_id_ x) (socket_ip x) (has_ip_data x).
Definition set_totp_key (k : list Z) x : socket :=
  Socket (is_logged_in_ x) (is_admin_ x) (is_viewing_server_config x) (is_viewing_vm_list_ x)
    (is_in_global_chat_ x) (is_captcha_required_ x) (last_chat_message_ x) (last_username_change_ x)
    (connected_vm_id_ x) (username_ x) k (chat_rooms_ x) (chat_rooms_id_ x) (socket_ip x) (has_ip_data x).
Definition set_chat_rooms (r : gmap Z (U * Z)) x : socket :=
  Socket (is_logged_in_ x) (is_admin_ x) (is_viewing_server_config x) (is_viewing_vm_list_ x)
    (is_in_global_chat_ x) (is_captcha_required_ x) (last_chat_message_ x) (last_username_change_ x)
    (connected_vm_id_ x) (username_ x) (totp_key_ x) r (chat_rooms_id_ x) (socket_ip x) (has_ip_data x).
Definition set_chat_rooms_id (n : Z) x : socket :=
  Socket (is_logged_in_ x) (is_admin_ x) (is_viewing_server_config x) (is_viewing_vm_list_ x)
    (is_in_global_chat_ x) (is_captcha_required_ x) (last_chat_message_ x) (last_username_change_ x)
    (connected_vm_id_ x) (username_ x) (totp_key_ x) (chat_rooms_ x) n (socket_ip x) (has_ip_data x).
Definition set_has_ip_data x : socket :=
  Socket (is_logged_in_ x) (is_admin_ x) (is_viewing_server_config x) (is_viewing_vm_list_ x)
    (is_in_global_chat_ x) (is_captcha_required_ x) (last_chat_message_ x) (last_username_change_ x)
    (connected_vm_id_ x) (username_ x) (totp_key_ x) (chat_rooms_ x) (chat_rooms_id_ x) (socket_ip x) true.

(** What waits for somebody else. *)
Inductive continuation :=
| CaptchaVerdict u                                      (* CAPTCHA_COMPLETED *)
| LoginVerdict u (username password : string)           (* LOGIN_REQUEST *)
| LoginTask u (username password : string)              (* on the login strand *)
| RegisterVerdict u (request : registration)            (* ACCOUNT_REGISTRATION_REQUEST *)
| ChangePasswordTask u (username old_password new_password : string)
| VmInfoAnswer (vm_id : Z)
| BulkVmInfoAnswer (vm_id : Z) (object : nat).

Record server := Server {
  sockets : gmap U socket;
  guests_ : gmap string U;
  global_chat_room_ : user_channel U;
  virtual_machines_ : vm_list U machine;
  db_ : database;
  vm_config : gmap (Z * Z) S;
  server_config : gmap Z S;
  sessions_ : gmap (list Z) U;
  connections : gmap (list Z) Z;
  server_settings : list S;
  later : list continuation
}.

Definition set_sockets (m : gmap U socket) (s : server) : server :=
  Server m (guests_ s) (global_chat_room_ s) (virtual_machines_ s) (db_ s) (vm_config s)
    (server_config s) (sessions_ s) (connections s) (server_settings s) (later s).
Definition set_guests (m : gmap string U) (s : server) : server :=
  Server (sockets s) m (global_chat_room_ s) (virtual_machines_ s) (db_ s) (vm_config s)
    (server_config s) (sessions_ s) (connections s) (server_settings s) (later s).
Definition set_global (ch : user_channel U) (s : server) : server :=
  Server (sockets s) (guests_ s) ch (virtual_machines_ s) (db_ s) (vm_config s)
    (server_config s) (sessions_ s) (connections s) (server_settings s) (later s).
Definition set_machines (l : vm_list U machine) (s : server) : server :=
  Server (sockets s) (guests_ s) (global_chat_room_ s) l (db_ s) (vm_config s)
    (server_config s) (sessions_ s) (connections s) (server_settings s) (later s).
Definition set_db (d : database) (s : server) : server :=
  Server (sockets s) (guests_ s) (global_chat_room_ s) (virtual_machines_ s) d (vm_config s)
    (server_config s) (sessions_ s) (connections s) (server_settings s) (later s).
Definition set_vm_config (t : gmap (Z * Z) S) (s : server) : server :=
  Server (sockets s) (guests_ s) (global_chat_room_ s) (virtual_machines_ s) (db_ s) t
    (server_config s) (sessions_ s) (connections s) (server_settings s) (later s).
Definition set_server_config (t : gmap Z S) (l : list S) (s : server) : server :=
  Server (sockets s) (guests_ s) (global_chat_room_ s) (virtual_machines_ s) (db_ s) (vm_config s)
    t (sessions_ s) (connections s) l (later s).
Definition set_sessions (m : gmap (list Z) U) (s : server) : server :=
  Server (sockets s) (guests_ s) (global_chat_room_ s) (virtual_machines_ s) (db_ s) (vm_config s)
    (server_config s) m (connections s) (server_settings s) (later s).
Definition set_connections (m : gmap (list Z) Z) (s : server) : server :=
  Server (sockets s) (guests_ s) (global_chat_room_ s) (virtual_machines_ s) (db_ s) (vm_config s)
    (server_config s) (sessions_ s) m (server_settings s) (later s).
Definition set_later (l : list continuation) (s : server) : server :=
  Server (sockets s) (guests_ s) (global_chat_room_ s) (virtual_machines_ s) (db_ s) (vm_config s)
    (server_config s) (sessions_ s) (connections s) (server_settings s) l.

Inductive server_event :=
| SAct (a : act)
| SVm (vm_id : Z) (ev : machine_event)
| SVerify (captcha_token : string) (callback : continuation) (remote_ip : string)
| SSetCaptcha (v : V)
| SExecuteCommandAsync (ip_address command : string)
| SAccept u                               (* the web socket handshake goes on *)
| SRecordingPreviews u (request : preview_request) (d : database).   (* [SendRecordingPreviews] *)

(** ** Handlers *)

Abbreviation handler := (server → option (server * list server_event)).

Definition skip : handler := λ s, Some (s, []).
Definition emit (evs : list server_event) : handler := λ s, Some (s, evs).
Definition abort : handler := λ _, None.
Definition modify (f : server → server) : handler := λ s, Some (f s, []).
Definition seq (f g : handler) : handler := λ s,
  '(s, evs) ← f s; '(s, evs') ← g s; Some (s, evs ++ evs').
Infix ";;;" := seq (at level 60, right associativity).
(** Reading the state, or a socket, at this point of the handler. *)
Definition with_state (f : server → handler) : handler := λ s, f s s.
Definition with_socket u (f : socket → handler) : handler := λ s,
  match sockets s !! u with Some x => f x s | None => None end.
Definition when (b : bool) (f : handler) : handler := if b then f else skip.

Definition update_socket u (f : socket → socket) : handler :=
  modify (λ s, set_sockets (alter f u (sockets s)) s).
Definition QueueMessage u (m : msg) : handler := emit [SAct (Queue u m)].
Definition CloseSocket_ u : handler := emit [SAct (CloseSocket u)].
Definition post (k : continuation) : handler := modify (λ s, set_later (later s ++ [k]) s).
(** [captcha_verifier_.Verify]: the verdict comes later. *)
Definition Verify (token : string) (k : continuation) (remote_ip : string) : handler :=
  emit [SVerify token k remote_ip] ;;; post k.

(** The address of callers that do not pass one. *)
Definition default_remote_ip : string := EmptyString.

(** *** Machines and channels *)

Definition lift_event (id : Z) (ev : machine_event) : server_event :=
  match ev with Act a => SAct a | ev => SVm id ev end.

(** [UpdateVmInfo]: the machine's information will follow. *)
Definition info_requests (id : Z) (evs : list machine_event) : list continuation :=
  omap (λ ev, match ev with UpdateVmInfo => Some (VmInfoAnswer id) | _ => None end) evs.

(** [GetAdminVirtualMachine], and nothing when there is none. *)
Definition on_vm (id : Z) (f : machine → option (machine * list machine_event)) : handler := λ s,
  match GetAdminVirtualMachine id (virtual_machines_ s) with
  | None => Some (s, [])
  | Some vm =>
      '(vm, evs) ← f vm;
      let s := set_machines (SetAdminVirtualMachine id vm (virtual_machines_ s)) s in
      Some (set_later (later s ++ info_requests id evs) s, List.map (lift_event id) evs)
  end.

Definition run_vm env (op : vm_op) : machine → option (machine * list machine_event) :=
  vm_exec vote_limit message_size header_size to_string arg_names init_succeeds guac_join screenshot
    (recording_env env) op.

Abbreviation channel_fn := (UserChannel.channel_fn U G S).

Definition vm_channel (env : server_env) (f : channel_fn) (vm : machine)
    : option (machine * list machine_event) :=
  GetUserChannel guac_join (recording_env env) f vm.

Definition on_global (f : channel_fn) : handler := λ s,
  '(ch, _, acts) ← f unit no_base (global_chat_room_ s) tt;
  Some (set_global ch s, List.map SAct acts).

Definition GetChannel env (id : Z) (f : channel_fn) : handler :=
  if Z.eqb id global_channel_id then on_global f else on_vm id (vm_channel env f).

(** [channel.GetUsers()] of a channel that exists. *)
Definition channel_of (id : Z) s : option (user_channel U) :=
  if Z.eqb id global_channel_id then Some (global_chat_room_ s)
  else fst <$> GetAdminVirtualMachine id (virtual_machines_ s).

Definition GetUser (name : string) (channel_id : Z) (callback : U → handler) : handler :=
  with_state (λ s,
    match channel_of channel_id s with
    | None => skip
    | Some ch =>
        match List.find (λ p, String.eqb (username p.2) name) (members ch) with
        | Some p => callback p.1
        | None => skip
        end
    end).

Definition GetUserType x : UserType :=
  if is_admin_ x then ADMIN else if is_logged_in_ x then REGULAR else GUEST.

(** *** Leaving *)

Definition LeaveServerConfig u : handler := with_socket u (λ x,
  when (is_viewing_server_config x)
    (update_socket u (set_viewing_server_config false) ;;;
     modify (λ s, set_machines (RemoveAdminVmListViewer u (virtual_machines_ s)) s))).

Definition LeaveVmList u : handler := with_socket u (λ x,
  when (is_viewing_vm_list_ x)
    (update_socket u (set_viewing_vm_list false) ;;;
     modify (λ s, set_machines (RemoveVmListViewer u (virtual_machines_ s)) s))).

Definition leave_channel env u : channel_fn := remove_user (steady_now (recording_env env)) u.

Definition OnDisconnect env u : handler :=
  LeaveServerConfig u ;;; LeaveVmList u ;;;
  with_socket u (λ x,
    when (negb (String.eqb (username_ x) EmptyString))
      (modify (λ s, set_guests (delete (fold_case (username_ x)) (guests_ s)) s)) ;;;
    when (negb (Z.eqb (connected_vm_id_ x) 0))
      (on_vm (connected_vm_id_ x) (vm_channel env (leave_channel env u))) ;;;
    when (is_in_global_chat_ x) (on_global (leave_channel env u)) ;;;
    when (has_ip_data x)
      (modify (λ s, set_connections
         (alter (λ n, if (0 <? n)%Z then (n - 1)%Z else n) (socket_ip x) (connections s)) s))).

(** *** User names *)

Definition SetUserData env u (name : string) : handler := with_socket u (λ x,
  let type := GetUserType x in
  update_socket u (set_username name) ;;;
  when (negb (String.eqb (username_ x) EmptyString)
        && (negb (Z.eqb (connected_vm_id_ x) 0) || is_in_global_chat_ x))
    (when (negb (Z.eqb (connected_vm_id_ x) 0))
       (on_vm (connected_vm_id_ x) (vm_channel env (update_username u name type))) ;;;
     when (is_in_global_chat_ x) (on_global (update_username u name type)))).

Definition guest_name (num : Z) : string := String.append "guest" (pretty num).

(** The loop of [GenerateUsername], with fuel: the first number from [num] on
    whose name [insert] accepts. *)
Fixpoint free_number (fuel : nat) (num : Z) (guests : gmap string U) : option Z :=
  match fuel with
  | O => None
  | Datatypes.S fuel =>
      match guests !! fold_case (guest_name num) with
      | Some _ => free_number fuel (u32 (num + 1)) guests
      | None => Some num
      end
  end.

Definition GenerateUsername env u (continuation : string → handler) : handler := with_state (λ s,
  match free_number (Datatypes.S (size (guests_ s))) (guest_number env) (guests_ s) with
  | None => abort
  | Some num =>
      let name := guest_name num in
      modify (λ s, set_guests (<[fold_case name := u]> (guests_ s)) s) ;;;
      SetUserData env u name ;;;
      continuation name
  end).

(** *** Connecting *)

Definition GetServerSetting (w : nat) s : V :=
  match server_settings s !! w with Some x => value x | None => server_clear_value w end.

(** [TSocket::OnPreConnect] goes on with the handshake. *)
Definition OnPreConnect u : handler := with_socket u (λ x,
  update_socket u set_has_ip_data ;;;
  modify (λ s, set_connections
    (match connections s !! socket_ip x with
     | Some _ => connections s
     | None => <[socket_ip x := 0%Z]> (connections s)
     end) s) ;;;
  with_state (λ s,
    let count := default 0%Z (connections s !! socket_ip x) in
    if getMaxConnectionsEnabled (GetServerSetting MAX_CONNECTIONS_ENABLED s) then
      modify (set_connections (<[socket_ip x := u8 (count + 1)]> (connections s))) ;;;
      if (getMaxConnections (GetServerSetting MAX_CONNECTIONS s) <? u8 (count + 1))%Z
      then CloseSocket_ u else emit [SAccept u]
    else emit [SAccept u])).

Definition OnConnect u : handler := with_state (λ s,
  update_socket u (set_captcha_required (getCaptchaRequired (GetServerSetting CAPTCHA_REQUIRED s)))).

(** *** CONNECT_TO_CHANNEL *)

(** The inner [connect_to_channel]; [channel] is the channel when the handler
    is entered. *)
Definition EnterChannel env u (name : string) (channel_id : Z) (channel : user_channel U) : handler :=
  LeaveVmList u ;;;
  with_socket u (λ x, when (negb (Z.eqb (connected_vm_id_ x) 0))
    (on_vm (connected_vm_id_ x) (vm_channel env (leave_channel env u)))) ;;;
  update_socket u (set_connected_vm (ChannelId channel)) ;;;
  with_socket u (λ x,
    GetChannel env channel_id
      (join_channel (steady_now (recording_env env)) u
         (UserChannel.MkUserData name (GetUserType x) (socket_ip x) no_vote_data)
         (is_captcha_required_ x))).

(** The outer [connect_to_channel]. *)
Definition ConnectToChannel env u (channel_id : Z) (name : string) : handler :=
  if Z.eqb channel_id global_channel_id then
    with_socket u (λ x, when (negb (is_in_global_chat_ x))
      (update_socket u (set_in_global_chat true) ;;;
       with_state (λ s, EnterChannel env u name channel_id (global_chat_room_ s))))
  else with_socket u (λ x, with_state (λ s,
    match GetAdminVirtualMachine channel_id (virtual_machines_ s) with
    | None => QueueMessage u MConnectFail
    | Some vm =>
        if negb (active_ vm.2)
           || (getDisallowGuests (setting_of DISALLOW_GUESTS vm.2) && negb (is_logged_in_ x))
        then QueueMessage u MConnectFail
        else EnterChannel env u name channel_id vm.1
    end)).

Definition ConnectToChannelMessage env u (channel_id : Z) : handler := with_socket u (λ x,
  if String.eqb (username_ x) EmptyString
  then GenerateUsername env u (ConnectToChannel env u channel_id)
  else ConnectToChannel env u channel_id (username_ x)).

(** *** Turns, votes and input *)

(** A message for the machine the user is connected to. *)
Definition to_my_vm env u (op : vm_op) : handler := with_socket u (λ x,
  on_vm (connected_vm_id_ x) (run_vm env op)).

Definition TurnRequest env u : handler := with_socket u (λ x,
  when (negb (Z.eqb (connected_vm_id_ x) 0) && negb (is_captcha_required_ x))
    (to_my_vm env u (VRequestTurn u))).

Definition VoteMessage env u (voted_yes : bool) : handler := with_socket u (λ x,
  when (negb (Z.eqb (connected_vm_id_ x) 0) && negb (is_captcha_required_ x))
    (to_my_vm env u (VVote u voted_yes))).

Definition GuacInstr env u (instr : C) : handler := with_socket u (λ x,
  when (negb (Z.eqb (connected_vm_id_ x) 0) && negb (is_captcha_required_ x))
    (if negb (IsGuacamoleClientInstructionAllowed instr) then CloseSocket_ u
     else to_my_vm env u (VReadInstruction u instr))).

Definition EndTurn env u : handler := with_socket u (λ x,
  when (negb (Z.eqb (connected_vm_id_ x) 0)) (to_my_vm env u (VEndCurrentTurn u))).

(** The administrator's commands about the current machine. *)
Definition AdminVmCommand env u (op : vm_op) : handler := with_socket u (λ x,
  when (is_admin_ x && negb (Z.eqb (connected_vm_id_ x) 0)) (to_my_vm env u op)).

(** *** CHANGE_USERNAME, CHANGE_PASSWORD_REQUEST *)

Definition ChangeUsername env u (new_username : string) : handler := with_socket u (λ x,
  let now := steady_now (recording_env env) in
  if is_captcha_required_ x || is_logged_in_ x
     || (now - last_username_change_ x <? username_change_rate_limit)%Z
     || negb (ValidateUsername new_username)
  then skip
  else if String.eqb (username_ x) new_username then skip
  else with_state (λ s,
    match guests_ s !! fold_case new_username with
    | Some _ => QueueMessage u MUsernameTaken
    | None =>
        modify (λ s, set_guests (delete (fold_case (username_ x))
                       (<[fold_case new_username := u]> (guests_ s))) s) ;;;
        SetUserData env u new_username
    end)).

Definition ChangePasswordRequest u (old_password new_password : string) : handler :=
  with_socket u (λ x, when (is_logged_in_ x)
    (post (ChangePasswordTask u (username_ x) old_password new_password))).

Definition RunChangePassword u (name old_password new_password : string) : handler := with_state (λ s,
  match Database.ChangePassword hash_password bind_blob name old_password new_password (db_ s) with
  | Some (inr (succeeded, d)) =>
      modify (set_db d) ;;; QueueMessage u (MChangePasswordResponse succeeded)
  | _ => abort
  end).

(** *** CHAT_MESSAGE *)

Definition SendChatChannelId u (id : Z) : handler := QueueMessage u (MChatChannel id).
Definition SendChatMessageResponse u (result : ChatMessageResponse) : handler :=
  QueueMessage u (MChatMessageResponse result).

Definition room_with v (rooms : gmap Z (U * Z)) : option (Z * (U * Z)) :=
  List.find (λ r, bool_decide (r.2.1 = v)) (map_to_list rooms).

(** [emplace] keeps an entry that is there. *)
Definition emplace_room (id : Z) (r : U * Z) (rooms : gmap Z (U * Z)) : gmap Z (U * Z) :=
  match rooms !! id with Some _ => rooms | None => <[id := r]> rooms end.

Definition max_chat_rooms : nat := 10.

(** The handler on the recipient's [chat_rooms_]. *)
Definition OpenRecipientRoom u recipient (sender_id : Z) (message : string) : handler :=
  with_socket recipient (λ y,
    match room_with u (chat_rooms_ y) with
    | Some (id, (w, peer_id)) =>
        if Z.eqb peer_id 0
        then update_socket recipient (λ y, set_chat_rooms (<[id := (w, sender_id)]> (chat_rooms_ y)) y)
        else SendChatChannelId u sender_id
    | None =>
        if decide (max_chat_rooms ≤ size (chat_rooms_ y)) then
          update_socket u (λ x, set_chat_rooms (delete sender_id (chat_rooms_ x)) x) ;;;
          SendChatMessageResponse u RECIPIENT_CHAT_LIMIT
        else
          let recipient_id := chat_rooms_id_ y in
          update_socket recipient (λ y,
            set_chat_rooms_id (u32 (recipient_id + 1))
              (set_chat_rooms (emplace_room recipient_id (recipient, sender_id) (chat_rooms_ y)) y)) ;;;
          with_socket u (λ x,
            match chat_rooms_ x !! sender_id with
            | Some (w, 0%Z) =>
                update_socket u (λ x, set_chat_rooms (<[sender_id := (w, recipient_id)]> (chat_rooms_ x)) x) ;;;
                SendChatChannelId u sender_id ;;;
                QueueMessage recipient (MNewChatChannel recipient_id message) ;;;
                QueueMessage u (MNewChatChannel recipient_id message)
            | _ => skip
            end)
    end).

Definition NewDirect u (name message : string) : handler := with_socket u (λ x, with_state (λ s,
  match guests_ s !! fold_case name with
  | None => SendChatMessageResponse u USER_NOT_FOUND
  | Some recipient =>
      if decide (max_chat_rooms ≤ size (chat_rooms_ x)) then SendChatMessageResponse u USER_CHAT_LIMIT
      else match room_with recipient (chat_rooms_ x) with
      | Some (_, (_, peer_id)) => SendChatChannelId u peer_id
      | None =>
          let id := chat_rooms_id_ x in
          update_socket u (λ x, set_chat_rooms_id (u32 (id + 1))
            (set_chat_rooms (emplace_room id (recipient, 0%Z) (chat_rooms_ x)) x)) ;;;
          OpenRecipientRoom u recipient id message
      end
  end)).

(** [CreateChatMessage]; the time is in seconds, the type is not set. *)
Definition CreateChatMessage (now : Z) (channel_id : Z) (sender message : string) : msg :=
  MChatMessage (ChannelChatMessage channel_id
    (ChatMessage sender message default_user_type (now / from_s 1))).

Definition DirectMessage env u (id : Z) (message : string) : handler := with_socket u (λ x,
  match chat_rooms_ x !! id with
  | None => skip
  | Some (recipient, _) =>
      QueueMessage recipient (CreateChatMessage (steady_now (recording_env env)) id (username_ x) message)
  end).

Definition ChatMessageTo env u (destination : chat_destination) (message : string) : handler :=
  with_socket u (λ x,
    when (negb (String.eqb (username_ x) EmptyString))
      match destination with
      | NEW_DIRECT name => NewDirect u name message
      | DIRECT id => DirectMessage env u id message
      | TO_VM id =>
          GetChannel env id
            (send_message (username_ x) (GetUserType x) message
               (system_now (recording_env env) / 1000)%Z)
      end).

Definition ChatMessageMessage env u (destination : chat_destination) (message : string) : handler :=
  with_socket u (λ x,
    let now := steady_now (recording_env env) in
    let message_len := Z.of_nat (String.length message) in
    if is_captcha_required_ x || Z.eqb message_len 0 || (max_chat_message_len <? message_len)%Z
       || (now - last_chat_message_ x <? chat_rate_limit)%Z
    then skip
    else update_socket u (set_last_chat_message now) ;;; ChatMessageTo env u destination message).

(** *** Logging in and registering *)

(** [sessions.emplace] must be new; a session that is replaced is
    invalidated, which does nothing yet. *)
Definition ServerCreateSession env u (name : string) (callback : string → list Z → handler) : handler :=
  with_socket u (λ x, with_state (λ s,
    match CreateSession bind_blob (system_now (recording_env env) / 1000) name (socket_ip x)
            (random_ids env) (db_ s) with
    | None => abort
    | Some (r, d) =>
        modify (set_db d) ;;;
        when (negb (String.eqb (session_username r) EmptyString))
          (update_socket u (set_login (session_is_admin r)) ;;;
           SetUserData env u (session_username r) ;;;
           match sessions_ s !! new_session_id r with
           | Some _ => abort
           | None => modify (λ s, set_sessions (<[new_session_id r := u]> (sessions_ s)) s)
           end ;;;
           callback (session_username r) (new_session_id r))
    end)).

Definition RunLogin env u (name password : string) : handler := with_state (λ s,
  match Login hash_password name password (db_ s) with
  | None => abort
  | Some (Login_SUCCESS, _) =>
      ServerCreateSession env u name (λ name session_id,
        with_socket u (λ x, QueueMessage u (MLoginSession session_id name (is_admin_ x))))
  | Some (login_result, totp_key) =>
      when (bool_decide (login_result = TWO_FACTOR_REQUIRED)) (update_socket u (set_totp_key totp_key)) ;;;
      QueueMessage u (MLoginResult login_result)
  end).

(** [totp_key_.front()] of an empty vector is undefined; the verdict of
    [ValidateTotp] is not used. *)
Definition TwoFactorResponse u : handler := with_socket u (λ x,
  match totp_key_ x with [] => abort | _ => skip end).

(** [valid_username.empty() ^ requested_username.size()] *)
Definition invite_username_mismatch (valid_username requested_username : string) : bool :=
  negb (Z.eqb (Z.lxor (if String.eqb valid_username EmptyString then 1 else 0)
                 (Z.of_nat (String.length requested_username))) 0).

Definition RegisterError u (e : RegisterAccountError) : handler := QueueMessage u (MRegisterError e).

(** Conversion to [gsl::span<const std::byte, invite_id_len>], which
    terminates the program for any other length. *)
Definition fits_invite_span (id : list Z) : bool := Nat.eqb (List.length id) invite_id_len.

(** The part of [create_account] behind the choice of the name. *)
Definition RegisterAs env u (r : registration) (valid_username : string) : handler :=
  if Nat.ltb max_password_len (String.length (reg_password r)) then RegisterError u PASSWORD_INVALID
  else if match reg_two_factor_token r with
          | Some token => negb (Nat.eqb (List.length token) totp_key_len)
          | None => false
          end
  then RegisterError u TOTP_ERROR
  else with_socket u (λ x, with_state (λ s,
    let invite_span := match reg_invite_id r with [] => None | id => Some id end in
    let '(register_result, d) :=
      CreateAccount hash_password bind_blob valid_username (reg_password r) (reg_two_factor_token r)
        invite_span (socket_ip x) (password_salt env) (system_now (recording_env env) / 1000) (db_ s) in
    modify (set_db d) ;;;
    if decide (register_result = Register_SUCCESS) then
      ServerCreateSession env u valid_username (λ name session_id,
        QueueMessage u (MRegisterSession session_id name))
    else RegisterError u register_result)).

Definition RunRegister env u (r : registration) : handler := with_state (λ s,
  match reg_invite_id r with
  | [] =>
      if getAllowAccountRegistration (GetServerSetting ALLOW_ACCOUNT_REGISTRATION s) then
        if ValidateUsername (reg_username r) then RegisterAs env u r (reg_username r)
        else RegisterError u USERNAME_INVALID
      else skip
  | invite_id =>
      if negb (fits_invite_span invite_id) then abort else
      let '(is_valid, valid_username) := ValidateInvite invite_id (db_ s) in
      if negb is_valid || invite_username_mismatch valid_username (reg_username r)
      then RegisterError u INVITE_INVALID
      else RegisterAs env u r valid_username
  end).

(** No captcha for somebody with an invite. *)
Definition AccountRegistration env u (r : registration) : handler :=
  match reg_invite_id r with
  | [] => Verify (reg_captcha_token r) (RegisterVerdict u r) default_remote_ip
  | _ => RunRegister env u r
  end.

(** *** The administrator's messages *)

Definition as_admin u (f : handler) : handler := with_socket u (λ x, when (is_admin_ x) f).

(** The list of machines answers with messages. *)
Definition on_list (f : vm_list U machine → vm_list U machine * list act) : handler := λ s,
  let '(l, acts) := f (virtual_machines_ s) in Some (set_machines l s, List.map SAct acts).

Definition ServerSettingsMessage s : msg := MServerSettings (server_settings s).

Definition ServerConfigRequest u : handler := with_socket u (λ x, when (is_admin_ x)
  (with_state (λ s, QueueMessage u (ServerSettingsMessage s)) ;;;
   when (negb (is_viewing_server_config x))
     (update_socket u (set_viewing_server_config true) ;;; on_list (AddAdminVmListViewer u)))).

Definition SendAdminList u : handler := on_list (λ l, (l, SendAdminVmList u l)).

Fixpoint for_each_vm (ids : list Z) (f : Z → handler) : handler :=
  match ids with [] => skip | id :: ids => f id ;;; for_each_vm ids f end.

Definition ApplyServerSettings env : handler := with_state (λ s,
  emit [SSetCaptcha (GetServerSetting CAPTCHA s)] ;;;
  for_each_vm (fst <$> map_to_list (admin_virtual_machines_ (virtual_machines_ s)))
    (λ id, on_vm id (run_vm env (VSetRecordingSettings (getRecordings (GetServerSetting RECORDINGS s)))))).

Definition ServerConfigModifications env u (changed_settings : list S) : handler := as_admin u
  (with_state (λ s,
    match UpdateList server_fields_count (server_settings s)
            (InitSettings server_clear_value server_fields_count) changed_settings with
    | None => abort
    | Some new_settings =>
        modify (λ s, set_server_config (SaveServerSettings changed_settings (server_config s)) new_settings s) ;;;
        ApplyServerSettings env ;;;
        with_state (λ s, on_list (λ l,
          (l, BroadcastToViewingAdminsExcluding (ServerSettingsMessage s) u l)))
    end)).

(** An exception of the database closes the socket, see [OnMessage]. *)
Definition CreateVmMessage u (initial_settings : list S) : handler := as_admin u
  (with_state (λ s,
    let vm_id := GetNewVmId (vm_config s) in
    let vm := vm_new vm_id (chat_room_new MaxUsernameLen MaxMessageLen default_user_type vm_id)
                initial_settings in
    match AddAdminVirtualMachine vm_id vm (SetAdminVmInfo vm) (virtual_machines_ s) with
    | None => abort
    | Some l =>
        modify (set_machines l) ;;;
        match CreateVm vm_id (settings_ vm.2) (vm_config s) with
        | None => CloseSocket_ u
        | Some t =>
            modify (set_vm_config t) ;;; QueueMessage u (MCreateVmResponse vm_id) ;;; SendAdminList u
        end
    end)).

Definition ReadVmConfig u (vm_id : Z) : handler := as_admin u
  (with_state (λ s,
    match GetAdminVirtualMachine vm_id (virtual_machines_ s) with
    | None => skip
    | Some vm => QueueMessage u (MReadVmConfigResponse (settings_ vm.2))
    end)).

Definition UpdateVmConfig env u (vm_id : Z) (modifications : list S) : handler := as_admin u
  (with_state (λ s,
    match GetAdminVirtualMachine vm_id (virtual_machines_ s) with
    | None => skip
    | Some vm =>
        match AdminVm.UpdateSettings to_string arg_names guac_join (recording_env env) modifications vm
              : option (bool * machine * list machine_event) with
        | None => abort
        | Some (is_valid_settings, vm, evs) =>
            modify (λ s, set_machines (SetAdminVirtualMachine vm_id vm (virtual_machines_ s)) s) ;;;
            emit (List.map (lift_event vm_id) evs) ;;;
            when is_valid_settings
              (modify (λ s, set_vm_config (UpdateVmSettings vm_id modifications (vm_config s)) s) ;;;
               post (VmInfoAnswer vm_id))
        end
    end)).

Definition DeleteVmMessage env u (vm_id : Z) : handler := as_admin u
  (with_state (λ s,
    match GetAdminVirtualMachine vm_id (virtual_machines_ s) with
    | None => skip
    | Some vm =>
        let '(_, evs) := VmStop (C := C) guac_join (recording_env env) vm in
        match RemoveAdminVirtualMachine vm_id (virtual_machines_ s) with
        | None => abort
        | Some (_, l) =>
            emit (List.map (lift_event vm_id) evs) ;;;
            modify (set_machines l) ;;;
            modify (λ s, set_vm_config (DeleteVm vm_id (vm_config s)) s) ;;;
            SendAdminList u
        end
    end)).

(** The loops stop at the first identifier that is unknown. *)
Fixpoint VmsCommand env (op : vm_op) (vm_ids : list Z) : handler :=
  match vm_ids with
  | [] => skip
  | id :: vm_ids => with_state (λ s,
      match GetAdminVirtualMachine id (virtual_machines_ s) with
      | None => skip
      | Some _ => on_vm id (run_vm env op) ;;; VmsCommand env op vm_ids
      end)
  end.

Definition CreateInviteMessage env u (invite_name name : string) (admin : bool) : handler := as_admin u
  (with_state (λ s,
    match CreateInvite invite_name name admin (random_ids env) (db_ s) with
    | None => abort
    | Some (id, d) => modify (set_db d) ;;; QueueMessage u (MCreateInviteResult (default [] id))
    end)).

(** The list has as many elements as there are machines. *)
Definition ReadInvitesMessage u : handler := as_admin u
  (with_state (λ s,
    let invites := (λ i, (invite_id i, invite_name i)) <$> ReadInvites (db_ s) in
    let count := Z.to_nat (GetVmCount (vm_config s)) in
    if decide (List.length invites ≤ count)
    then QueueMessage u (MReadInvitesResponse
           (invites ++ replicate (count - List.length invites) ([], EmptyString)))
    else abort)).

Definition UpdateInviteMessage u (id : list Z) (name : string) (admin : bool) : handler := as_admin u
  (if negb (fits_invite_span id) then abort else with_state (λ s,
    match Database.UpdateInvite id name admin (db_ s) with
    | inl _ => CloseSocket_ u
    | inr (result, d) => modify (set_db d) ;;; QueueMessage u (MUpdateInviteResult result)
    end)).

Definition DeleteInviteMessage u (id : list Z) : handler :=
  as_admin u (if negb (fits_invite_span id) then abort
              else modify (λ s, set_db (Database.DeleteInvite id (db_ s)).2 s)).

Definition ValidateInviteMessage u (id : list Z) : handler :=
  if fits_invite_span id then
    with_state (λ s, let '(is_valid, name) := ValidateInvite id (db_ s) in
      QueueMessage u (MInviteValidation is_valid name))
  else skip.

Definition CreateReservedUsernameMessage u (name : string) : handler :=
  as_admin u (modify (λ s, set_db (CreateReservedUsername name (db_ s)).2 s)).
Definition DeleteReservedUsernameMessage u (name : string) : handler :=
  as_admin u (modify (λ s, set_db (DeleteReservedUsername name (db_ s)).2 s)).

(** Every name is written into the first element. *)
Definition ReadReservedUsernamesMessage u : handler := as_admin u
  (with_state (λ s,
    let names := ReadReservedUsernames (db_ s) in
    let list := replicate (Z.to_nat (GetReservedUsernamesCount (db_ s))) EmptyString in
    QueueMessage u (MReservedUsernames (foldl (λ l name, <[0 := name]> l) list names)))).

(** The halves of an address arrive as numbers, and are stored big-endian. *)
Definition ban_address (first second : Z) : list Z := to_be 8 first ++ to_be 8 second.

Definition BanIp u (first second : Z) : handler := as_admin u
  (with_state (λ s,
    let ban_ip_command := getBanIpCommand (GetServerSetting BAN_IP_COMMAND s) in
    when (negb (String.eqb ban_ip_command EmptyString))
      (emit [SExecuteCommandAsync (ip_to_string (ban_address first second)) ban_ip_command]))).

Definition SendCaptcha u (name : string) (channel : Z) : handler := as_admin u
  (GetUser name channel (λ v,
    update_socket v (set_captcha_required true) ;;; QueueMessage v (MCaptchaRequired true))).

Definition KickUser u (name : string) (channel : Z) : handler :=
  as_admin u (GetUser name channel CloseSocket_).

Definition VmListRequest u : handler := with_socket u (λ x, when (negb (is_viewing_vm_list_ x))
  (update_socket u (set_viewing_vm_list true) ;;; on_list (AddVmListViewer u))).

(** ** The switch of [HandleMessage] *)

Definition HandleMessage env u (message : client_message) : handler :=
  match message with
  | CONNECT_TO_CHANNEL id => ConnectToChannelMessage env u id
  | CAPTCHA_COMPLETED token => Verify token (CaptchaVerdict u) default_remote_ip
  | TURN_REQUEST => TurnRequest env u
  | VOTE voted_yes => VoteMessage env u voted_yes
  | GUAC_INSTR instr => GuacInstr env u instr
  | CHANGE_USERNAME name => ChangeUsername env u name
  | CHANGE_PASSWORD_REQUEST old_password new_password => ChangePasswordRequest u old_password new_password
  | CHAT_MESSAGE destination message => ChatMessageMessage env u destination message
  | VM_LIST_REQUEST => VmListRequest u
  | LOGIN_REQUEST name password token =>
      with_socket u (λ x, Verify token (LoginVerdict u name password) (ip_to_string (socket_ip x)))
  | TWO_FACTOR_RESPONSE _ => TwoFactorResponse u
  | ACCOUNT_REGISTRATION_REQUEST r => AccountRegistration env u r
  | SERVER_CONFIG_REQUEST => ServerConfigRequest u
  | SERVER_CONFIG_MODIFICATIONS l => ServerConfigModifications env u l
  | SERVER_CONFIG_HIDDEN => LeaveServerConfig u
  | CREATE_VM l => CreateVmMessage u l
  | READ_VMS => as_admin u (SendAdminList u)
  | READ_VM_CONFIG id => ReadVmConfig u id
  | UPDATE_VM_CONFIG id l => UpdateVmConfig env u id l
  | DELETE_VM id => DeleteVmMessage env u id
  | START_VMS ids => as_admin u (VmsCommand env VStart ids)
  | STOP_VMS ids => as_admin u (VmsCommand env VStop ids)
  | RESTART_VMS ids => as_admin u (VmsCommand env VRestart ids)
  | CREATE_INVITE invite_name name admin => CreateInviteMessage env u invite_name name admin
  | READ_INVITES => ReadInvitesMessage u
  | UPDATE_INVITE id name admin => UpdateInviteMessage u id name admin
  | DELETE_INVITE id => DeleteInviteMessage u id
  | VALIDATE_INVITE id => ValidateInviteMessage u id
  | CREATE_RESERVED_USERNAME name => CreateReservedUsernameMessage u name
  | READ_RESERVED_USERNAMES => ReadReservedUsernamesMessage u
  | DELETE_RESERVED_USERNAME name => DeleteReservedUsernameMessage u name
  | BAN_IP first second => BanIp u first second
  | SEND_CAPTCHA name channel => SendCaptcha u name channel
  | KICK_USER name channel => KickUser u name channel
  | PAUSE_TURN_TIMER => AdminVmCommand env u VPauseTurnTimer
  | RESUME_TURN_TIMER => AdminVmCommand env u VResumeTurnTimer
  | END_TURN => EndTurn env u
  | CANCEL_VOTE => AdminVmCommand env u VCancelVote
  | RECORDING_PREVIEW_REQUEST request =>
      as_admin u (with_state (λ s, emit [SRecordingPreviews u request (db_ s)]))
  | OTHER_MESSAGE => CloseSocket_ u
  end.

(** ** What was postponed *)

(** The input of a postponed step: the captcha verdict, and the answer of a
    machine that has been deleted since it was asked. *)
Record later_input := LaterInput { is_valid_token : bool; deleted_vm_answer : vm_info_producer }.

Definition producer_of (r : machine * AdminVmInfo * option VmInfo * option (list Z)) : vm_info_producer :=
  let '(_, a, i, png) := r in VmInfoProducer (Some a) i (default [] png).

(** [SetVmInfo] on the machine, whose state keeps the viewer count. *)
Definition ask_vm (id : Z) (answer : vm_info_producer → handler) (gone : handler) : handler :=
  with_state (λ s,
    match GetAdminVirtualMachine id (virtual_machines_ s) with
    | None => gone
    | Some vm =>
        let r := SetVmInfo screenshot vm in
        modify (λ s, set_machines (SetAdminVirtualMachine id r.1.1.1 (virtual_machines_ s)) s) ;;;
        answer (producer_of r)
    end).

Definition list_answer (f : vm_list U machine → option (vm_list U machine * list act)) : handler := λ s,
  '(l, acts) ← f (virtual_machines_ s); Some (set_machines l s, List.map SAct acts).

Definition RunContinuation env (input : later_input) (k : continuation) : handler :=
  match k with
  | CaptchaVerdict u => update_socket u (set_captcha_required (negb (is_valid_token input)))
  | LoginVerdict u name password =>
      if is_valid_token input then post (LoginTask u name password)
      else QueueMessage u (MLoginResult INVALID_CAPTCHA_TOKEN)
  | LoginTask u name password => RunLogin env u name password
  | RegisterVerdict u r =>
      if is_valid_token input then RunRegister env u r
      else RegisterError u Register_INVALID_CAPTCHA_TOKEN
  | ChangePasswordTask u name old_password new_password =>
      RunChangePassword u name old_password new_password
  | VmInfoAnswer id => ask_vm id (λ p, list_answer (OnVmInfo id p)) abort
  | BulkVmInfoAnswer id object =>
      ask_vm id (λ p, list_answer (OnBulkVmInfo id object p))
        (list_answer (OnBulkVmInfo id object (deleted_vm_answer input)))
  end.

Definition RunLater env (i : nat) (input : later_input) : handler := with_state (λ s,
  match later s !! i with
  | None => skip
  | Some k => modify (set_later (delete i (later s))) ;;; RunContinuation env input k
  end).

(** ** The server as a state machine *)

Inductive server_op :=
| Accept u (ip : list Z)                  (* a new connection *)
| Handshake u                             (* the web socket handshake is complete *)
| Message u (message : client_message)
| Disconnect u
| Later (i : nat) (input : later_input)
| VmInfoTimer
| InitialSettings                         (* posted by the constructor of the server *)
| StartServer (auto_start_vms : bool)
| StopServer
| MachineStep (id : Z) (op : vm_op (U := U) (G := G) (V := V) (C := C)).      (* the machine's timers and its Guacamole client *)

Definition InfoTimer : handler := λ s,
  let '(l, asked) := UpdateVirtualMachineInfoList (virtual_machines_ s) in
  Some (set_later (later s ++ List.map (λ p, BulkVmInfoAnswer p.1 p.2) asked) (set_machines l s), []).

Definition machine_ids s : list Z := fst <$> map_to_list (admin_virtual_machines_ (virtual_machines_ s)).

(** The machines part of [Start] and [Stop]; the web server's is WebServer. *)
Definition StartMachine env (id : Z) : handler := with_state (λ s,
  match GetAdminVirtualMachine id (virtual_machines_ s) with
  | None => skip
  | Some vm => when (getAutoStart (setting_of AUTO_START vm.2)) (on_vm id (run_vm env VStart))
  end).
Definition ServerStart env (auto_start_vms : bool) : handler :=
  when auto_start_vms (with_state (λ s, for_each_vm (machine_ids s) (StartMachine env))).
Definition ServerStop env : handler :=
  with_state (λ s, for_each_vm (machine_ids s) (λ id, on_vm id (run_vm env VStop))).

Definition server_exec env (op : server_op) : handler :=
  match op with
  | Accept u ip => modify (λ s, set_sockets (<[u := socket_new ip]> (sockets s)) s) ;;; OnPreConnect u
  | Handshake u => OnConnect u
  | Message u m => HandleMessage env u m
  | Disconnect u => OnDisconnect env u
  | Later i input => RunLater env i input
  | VmInfoTimer => InfoTimer
  | InitialSettings => ApplyServerSettings env
  | StartServer auto_start_vms => ServerStart env auto_start_vms
  | StopServer => ServerStop env
  | MachineStep id op => on_vm id (run_vm env op)
  end.

Lemma seq_some f g s s' evs :
  (f ;;; g) s = Some (s', evs) → ∃ s1 evs1 evs2, f s = Some (s1, evs1) ∧ g s1 = Some (s', evs2).
Proof.
  unfold seq. destruct (f s) as [[s1 evs1]|]; [|done]. cbn.
  destruct (g s1) as [[s2 evs2]|] eqn:Hg; [|done]. intros [= <- _]. by eexists _, _, _.
Qed.

(** ** What handlers preserve

    [preserves R f]: whatever [f] does relates the states before and after
    by the preorder [R].  The rules follow the structure of a handler. *)

Definition preserves (R : server → server → Prop) (f : handler) : Prop :=
  ∀ s s' evs, f s = Some (s', evs) → R s s'.

Section Preserves.
Context (R : server → server → Prop) `{!PreOrder R}.

Lemma preserves_skip : preserves R skip.
Proof. by intros s s' evs [= <- <-]. Qed.
Lemma preserves_emit evs : preserves R (emit evs).
Proof. by intros s s' evs' [= <- <-]. Qed.
Lemma preserves_abort : preserves R abort.
Proof. by intros s s' evs. Qed.
Lemma preserves_modify f : (∀ s, R s (f s)) → preserves R (modify f).
Proof. by intros Hf s s' evs [= <- <-]. Qed.
Lemma preserves_seq f g : preserves R f → preserves R g → preserves R (f ;;; g).
Proof.
  intros Hf Hg s s' evs. unfold seq. destruct (f s) as [[s1 e1]|] eqn:Hs1; [|done]. cbn.
  destruct (g s1) as [[s2 e2]|] eqn:Hs2; [|done]. cbn. intros [= <- <-].
  trans s1; [by eapply Hf|by eapply Hg].
Qed.
Lemma modify_then f g s s' evs :
  R s (f s) → preserves R g → (modify f ;;; g) s = Some (s', evs) → R s s'.
Proof.
  intros Hf Hg. unfold seq, modify. cbn. destruct (g (f s)) as [[s1 e1]|] eqn:Hs1; [|done].
  intros [= <- <-]. trans (f s); [done|by eapply Hg].
Qed.
Lemma preserves_when b f : preserves R f → preserves R (when b f).
Proof. destruct b; [done|]. intros _. apply preserves_skip. Qed.
Lemma preserves_with_state f : (∀ s, preserves R (f s)) → preserves R (with_state f).
Proof. intros Hf s s' evs. apply Hf. Qed.
Lemma preserves_with_socket u f : (∀ x, preserves R (f x)) → preserves R (with_socket u f).
Proof. intros Hf s s' evs. unfold with_socket. destruct (sockets s !! u); [apply Hf|done]. Qed.
Lemma preserves_on_list f :
  (∀ s, R s (set_machines (f (virtual_machines_ s)).1 s)) → preserves R (on_list f).
Proof.
  intros Hf s s' evs. unfold on_list. specialize (Hf s). destruct (f _) as [l acts].
  by intros [= <- <-].
Qed.
Lemma preserves_on_global f :
  (∀ s ch, R s (set_global ch s)) → preserves R (on_global f).
Proof.
  intros HR s s' evs. unfold on_global. destruct (f _ _ _ _) as [[[ch b] acts]|]; [|done].
  intros [= <- <-]. apply HR.
Qed.
Lemma preserves_on_vm id f :
  (∀ s vm vm' evs, GetAdminVirtualMachine id (virtual_machines_ s) = Some vm → f vm = Some (vm', evs) →
     R s (set_machines (SetAdminVirtualMachine id vm' (virtual_machines_ s)) s)) →
  (∀ s l, R s (set_later l s)) → preserves R (on_vm id f).
Proof.
  intros Hf Hl s s' evs. unfold on_vm. destruct (GetAdminVirtualMachine _ _) as [vm|] eqn:Hvm.
  - destruct (f vm) as [[vm' evs']|] eqn:Hr; [|done]. cbn. intros [= <- <-].
    etrans; [by eapply Hf|]. apply (Hl (set_machines _ s)).
  - by intros [= <- <-].
Qed.
End Preserves.

(** The modifications and the machines are what is left to prove. *)
Ltac preserve_step :=
  match goal with
  | |- preserves _ skip => apply preserves_skip
  | |- preserves _ abort => apply preserves_abort
  | |- preserves _ (emit _) => apply preserves_emit
  | |- preserves _ (_ ;;; _) => apply preserves_seq
  | |- preserves _ (when _ _) => apply preserves_when
  | |- preserves _ (with_state _) => apply preserves_with_state; intros ?
  | |- preserves _ (with_socket _ _) => apply preserves_with_socket; intros ?
  | |- preserves _ (if _ then _ else _) => case_match
  | |- preserves _ (match _ with _ => _ end) => case_match
  end.
Ltac preserve :=
  unfold as_admin, RegisterError, SendChatChannelId, SendChatMessageResponse, Verify, post,
    QueueMessage, CloseSocket_ in *;
  repeat (preserve_step; try apply _).

(** *** Who may change the configuration *)

Definition needs_admin (m : client_message) : bool :=
  match m with
  | SERVER_CONFIG_REQUEST | SERVER_CONFIG_MODIFICATIONS _ | CREATE_VM _ | READ_VMS | READ_VM_CONFIG _
  | UPDATE_VM_CONFIG _ _ | DELETE_VM _ | START_VMS _ | STOP_VMS _ | RESTART_VMS _
  | CREATE_INVITE _ _ _ | READ_INVITES | UPDATE_INVITE _ _ _ | DELETE_INVITE _
  | CREATE_RESERVED_USERNAME _ | READ_RESERVED_USERNAMES | DELETE_RESERVED_USERNAME _
  | BAN_IP _ _ | SEND_CAPTCHA _ _ | KICK_USER _ _
  | PAUSE_TURN_TIMER | RESUME_TURN_TIMER | CANCEL_VOTE | RECORDING_PREVIEW_REQUEST _ => true
  | _ => false
  end.

Definition registers (m : client_message) : bool :=
  match m with ACCOUNT_REGISTRATION_REQUEST _ => true | _ => false end.

Definition machine_config (vm : machine) := (settings_ vm.2, active_ vm.2).

(** The configuration, and who is an administrator; [except] is a socket that
    may become one. *)
Record same_config (except : option U) (s s' : server) : Prop := {
  sc_settings : server_settings s' = server_settings s;
  sc_server_config : server_config s' = server_config s;
  sc_vm_config : vm_config s' = vm_config s;
  sc_machines id : machine_config <$> GetAdminVirtualMachine id (virtual_machines_ s')
    = machine_config <$> GetAdminVirtualMachine id (virtual_machines_ s);
  sc_reserved : unavailable_usernames (db_ s') = unavailable_usernames (db_ s);
  sc_admins v : except ≠ Some v → is_admin_ <$> sockets s' !! v = is_admin_ <$> sockets s !! v
}.

#[export] Instance same_config_preorder except : PreOrder (same_config except).
Proof.
  split; [by split|]. intros s1 s2 s3 H12 H23. split; intros; (etrans; [by apply H23|by apply H12]).
Qed.

Lemma same_config_sockets except u f s :
  (∀ x, is_admin_ (f x) = is_admin_ x) → same_config except s (set_sockets (alter f u (sockets s)) s).
Proof.
  intros Hf. split; try done. intros v _. cbn. destruct (decide (v = u)) as [->|Hne].
  - rewrite lookup_alter_eq. destruct (sockets s !! u); [|done]. cbn. by rewrite Hf.
  - by rewrite lookup_alter_ne.
Qed.

Lemma machine_config_set (l : vm_list U machine) id vm vm' id' :
  GetAdminVirtualMachine id l = Some vm → machine_config vm' = machine_config vm →
  machine_config <$> GetAdminVirtualMachine id' (SetAdminVirtualMachine id vm' l)
    = machine_config <$> GetAdminVirtualMachine id' l.
Proof.
  unfold GetAdminVirtualMachine, SetAdminVirtualMachine. cbn. intros Hvm Heq.
  destruct (decide (id' = id)) as [->|Hne]; [|by rewrite lookup_alter_ne].
  rewrite lookup_alter_eq. destruct (admin_virtual_machines_ l !! id) as [a|]; [|done].
  cbn in *. injection Hvm as ->. by rewrite Heq.
Qed.

Lemma same_config_vm except id vm vm' s :
  GetAdminVirtualMachine id (virtual_machines_ s) = Some vm → machine_config vm' = machine_config vm →
  same_config except s (set_machines (SetAdminVirtualMachine id vm' (virtual_machines_ s)) s).
Proof. intros Hvm Heq. split; try done. intros id'. cbn. by eapply machine_config_set. Qed.

(** What a channel callback may do to a machine: nothing but its turns and
    its votes. *)
Definition base_config (b : vm_base (T := T) (U := U) (G := G) (V := V)) := (settings_ b, active_ b).
Definition keeps_base (f : channel_fn) : Prop :=
  ∀ ch b ch' b' acts,
    f _ (vm_channel_base guac_join) ch b = Some (ch', b', acts) → base_config b' = base_config b.

Lemma vm_channel_config env f vm vm' evs :
  keeps_base f → vm_channel env f vm = Some (vm', evs) → machine_config vm' = machine_config vm.
Proof.
  intros Hf. unfold vm_channel, GetUserChannel. destruct (f _ _ _ _) as [[[ch b] acts]|] eqn:Hr; [|done].
  cbn [mbind option_bind]. intros [= <- <-]. unfold machine_config. cbn. by eapply Hf.
Qed.

Lemma remove_user_keeps now u : keeps_base (remove_user now u).
Proof.
  intros ch b ch' b' acts. unfold remove_user, UserChannel.RemoveUser.
  destruct (users_ ch !! u); [|by intros [= <- <- <-]].
  destruct (release_ip _ _); [|done]. cbn. unfold OnRemoveUser.
  destruct (TurnController.RemoveUser _ _ _) as [[[bb t] e]|]; [|done]. cbn.
  destruct (GetUserData _ _); [|by intros [= <- <- <-]].
  destruct (RemoveVote _ _) as [[bv d2] v]. by intros [= <- <- <-].
Qed.
Lemma join_keeps now u data captcha : keeps_base (join_channel now u data captcha).
Proof.
  intros ch b ch' b' acts. unfold join_channel. destruct (GetChatHistory _); [|done]. cbn.
  destruct (AddUser _ _ _ _ _) as [ch1 a1]. by intros [= <- <- <-].
Qed.
Lemma update_username_keeps u name type : keeps_base (update_username u name type).
Proof.
  intros ch b ch' b' acts. unfold update_username. by destruct (GetUserData u ch); intros [= <- <- <-].
Qed.
Lemma send_message_keeps name type message timestamp : keeps_base (send_message name type message timestamp).
Proof.
  intros ch b ch' b' acts. unfold send_message. destruct (AddUserMessage _ _ _ _ _) as [[room m]|]; [|done].
  by intros [= <- <- <-].
Qed.

Definition user_op (op : vm_op (U := U) (G := G) (V := V) (C := C)) : bool :=
  match op with VRequestTurn _ | VVote _ _ | VReadInstruction _ _ | VEndCurrentTurn _ => true | _ => false end.

Lemma user_op_config env op vm vm' evs :
  user_op op = true → run_vm env op vm = Some (vm', evs) → machine_config vm' = machine_config vm.
Proof.
  destruct op; try done; intros _; unfold run_vm; cbn [vm_exec].
  - unfold Vote. destruct (GetUserData _ _); [|by intros [= <- <-]].
    case_match; [by intros [= <- <-]|]. destruct (ip_data_ _ !! _); [|done]. cbn [mbind option_bind].
    case_match; [by intros [= <- <-]|]. destruct (AddVote _ _ _ _ _ _) as [[[counted d'] v] e].
    destruct counted; by intros [= <- <-].
  - unfold VmRequestTurn. case_match; [|by intros [= <- <-]].
    destruct (RequestTurn _ _ _) as [[b t] e]. by intros [= <- <-].
  - unfold VmEndCurrentTurn. case_match; [|by intros [= <- <-]].
    destruct (EndCurrentTurn _); [|done]. by intros [= <- <-].
  - unfold ReadInstruction. case_match; by intros [= <- <-].
Qed.

Create HintDb keeps discriminated.
Lemma leave_channel_keeps env u : keeps_base (leave_channel env u).
Proof. apply remove_user_keeps. Qed.
Hint Resolve leave_channel_keeps join_keeps update_username_keeps send_message_keeps : keeps.

Lemma config_vm_channel except env id f :
  keeps_base f → preserves (same_config except) (on_vm id (vm_channel env f)).
Proof.
  intros Hf. apply preserves_on_vm; [apply _| |by split].
  intros s vm vm' evs Hvm Hr. eapply same_config_vm; [done|]. by eapply vm_channel_config.
Qed.
Lemma config_user_op except env id op :
  user_op op = true → preserves (same_config except) (on_vm id (run_vm env op)).
Proof.
  intros Hop. apply preserves_on_vm; [apply _| |by split].
  intros s vm vm' evs Hvm Hr. eapply same_config_vm; [done|]. by eapply user_op_config.
Qed.
Lemma config_socket except u f :
  (∀ x, is_admin_ (f x) = is_admin_ x) → preserves (same_config except) (update_socket u f).
Proof. intros Hf. apply preserves_modify. intros s. by apply same_config_sockets. Qed.
Lemma config_global except f : preserves (same_config except) (on_global f).
Proof. apply preserves_on_global. by split. Qed.

Ltac config_leaf :=
  first
    [ apply config_socket; by intros
    | apply preserves_modify; by split
    | apply preserves_on_list; by split
    | apply config_global
    | apply config_vm_channel; auto with keeps
    | apply config_user_op; done ].
Ltac config := preserve; try config_leaf.

Section Config.
Context (except : option U) (env : server_env) (u : U).
Abbreviation Keeps := (preserves (same_config except)).

Lemma config_LeaveVmList : Keeps (LeaveVmList u).
Proof. unfold LeaveVmList. config. Qed.
Lemma config_LeaveServerConfig : Keeps (LeaveServerConfig u).
Proof. unfold LeaveServerConfig. config. Qed.
Lemma config_SetUserData name : Keeps (SetUserData env u name).
Proof. unfold SetUserData. config. Qed.
Lemma config_GenerateUsername k : (∀ name, Keeps (k name)) → Keeps (GenerateUsername env u k).
Proof. intros Hk. unfold GenerateUsername. config; [apply config_SetUserData|apply Hk]. Qed.
Lemma config_GetChannel id f : keeps_base f → Keeps (GetChannel env id f).
Proof. intros Hf. unfold GetChannel. config. Qed.
Lemma config_EnterChannel name id ch : Keeps (EnterChannel env u name id ch).
Proof.
  unfold EnterChannel. config; [apply config_LeaveVmList|]. apply config_GetChannel. auto with keeps.
Qed.
Lemma config_ConnectToChannel id name : Keeps (ConnectToChannel env u id name).
Proof. unfold ConnectToChannel. config; apply config_EnterChannel. Qed.
Lemma config_OpenRecipientRoom v id message : Keeps (OpenRecipientRoom u v id message).
Proof. unfold OpenRecipientRoom. config. Qed.
Lemma config_ChatMessage destination message : Keeps (ChatMessageMessage env u destination message).
Proof.
  unfold ChatMessageMessage, ChatMessageTo, NewDirect, DirectMessage. config.
  - apply config_OpenRecipientRoom.
  - apply config_GetChannel. auto with keeps.
Qed.
End Config.

Lemma UpdateUser_unavailable r d d' :
  UpdateUser bind_blob r d = inr d' → unavailable_usernames d' = unavailable_usernames d.
Proof. unfold UpdateUser. repeat case_match; by intros [= <-]. Qed.

Lemma CreateSession_unavailable t name ip random d r d' :
  CreateSession bind_blob t name ip random d = Some (r, d') →
  unavailable_usernames d' = unavailable_usernames d.
Proof.
  induction random as [|id random IH]; [done|]. cbn [CreateSession].
  destruct (Database.GetUser _ _) as [user|]; [|by intros [= <- <-]].
  case_match; [by intros [= <- <-]|]. case_match; [done|]. intros [= <- <-].
  by eapply UpdateUser_unavailable.
Qed.

Lemma CreateUser_unavailable r d d' :
  Database.CreateUser bind_blob r d = inr d' → unavailable_usernames d' = unavailable_usernames d.
Proof. unfold Database.CreateUser. repeat case_match; by intros [= <-]. Qed.

Lemma CreateAccount_unavailable name password totp invite ip salt now d :
  unavailable_usernames (CreateAccount hash_password bind_blob name password totp invite ip salt now d).2
    = unavailable_usernames d.
Proof.
  assert (Hc : ∀ r d0, unavailable_usernames
    (match Database.CreateUser bind_blob r d0 with
     | inl _ => (USERNAME_TAKEN, d0) | inr d1 => (Register_SUCCESS, d1) end).2 = unavailable_usernames d0).
  { intros r d0. destruct (Database.CreateUser _ r d0) eqn:Hr; [done|]. by eapply CreateUser_unavailable. }
  unfold CreateAccount. destruct invite as [id|].
  - unfold accept_invite. case_match; [done|]. by rewrite Hc.
  - case_match; [done|]. apply Hc.
Qed.

Lemma config_ServerCreateSession env u name k :
  (∀ n id, preserves (same_config (Some u)) (k n id)) →
  preserves (same_config (Some u)) (ServerCreateSession env u name k).
Proof.
  intros Hk. unfold ServerCreateSession. apply preserves_with_socket. intros x s0 s' evs. unfold with_state.
  destruct (CreateSession _ _ _ _ _ _) as [[r d]|] eqn:Hr; [|done].
  apply modify_then; [apply _|split; try done; cbn; by eapply CreateSession_unavailable|]. config.
  - apply preserves_modify. intros s1. split; try done. intros v Hv. cbn.
    rewrite lookup_alter_ne; [done|]. by intros ->.
  - apply config_SetUserData.
  - apply Hk.
Qed.

Lemma config_RegisterAs env u r name : preserves (same_config (Some u)) (RegisterAs env u r name).
Proof.
  unfold RegisterAs. case_match; [config|]. case_match; [config|].
  apply preserves_with_socket. intros x s0 s' evs. unfold with_state.
  pose proof (CreateAccount_unavailable name (reg_password r) (reg_two_factor_token r)
    (match reg_invite_id r with [] => None | id => Some id end) (socket_ip x) (password_salt env)
    (system_now (recording_env env) / 1000) (db_ s0)) as Hd.
  destruct (CreateAccount _ _ _ _ _ _ _ _ _ _) as [result d]. cbn in Hd.
  apply modify_then; [apply _|by split|].
  destruct (decide (result = Register_SUCCESS)); [apply config_ServerCreateSession; intros|]; config.
Qed.

Lemma config_AccountRegistration env u r : preserves (same_config (Some u)) (AccountRegistration env u r).
Proof.
  unfold AccountRegistration, RunRegister. config; apply config_RegisterAs.
Qed.

(** The messages that need no administrator. *)
Lemma config_HandleMessage env u m :
  needs_admin m = false → preserves (same_config (if registers m then Some u else None)) (HandleMessage env u m).
Proof.
  intros Hm. destruct m; try done; cbn [HandleMessage registers].
  - unfold ConnectToChannelMessage. config; [apply config_GenerateUsername; intros|];
      apply config_ConnectToChannel.
  - config.
  - unfold TurnRequest, to_my_vm. config.
  - unfold VoteMessage, to_my_vm. config.
  - unfold GuacInstr, to_my_vm. config.
  - unfold ChangeUsername. config. apply config_SetUserData.
  - unfold ChangePasswordRequest. config.
  - apply config_ChatMessage.
  - unfold VmListRequest. config.
  - config.
  - unfold TwoFactorResponse. config.
  - apply config_AccountRegistration.
  - apply config_LeaveServerConfig.
  - unfold ValidateInviteMessage. config.
  - unfold EndTurn, to_my_vm. config.
  - config.
Qed.

(** *** Bans *)

Lemma ban_address_roundtrip (bytes : list Z) :
  length bytes = 16 → Forall is_byte bytes →
  ban_address (be64 (take 8 bytes)) (be64 (take 8 (drop 8 bytes))) = bytes.
Proof.
  intros Hl Hb. unfold ban_address. rewrite (take_ge (drop 8 bytes)) by (rewrite length_drop; lia).
  assert (∀ l, length l = 8 → Forall is_byte l → to_be 8 (be64 l) = l) as H8
    by (intros l Hl8; rewrite <-Hl8; apply to_be_be64).
  rewrite !H8 by (rewrite ?length_take, ?length_drop; lia || by apply Forall_take || by apply Forall_drop).
  apply take_drop.
Qed.

(** An administrator who bans the address that the list of users shows
    for somebody bans that user's address: the two numbers of the list, sent
    back, are turned into the bytes that they were made of, and the command for
    bans runs with those. *)
Theorem ban_roundtrip env u s x d :
  sockets s !! u = Some x → is_admin_ x = true →
  length (ip_address d) = 16 → Forall is_byte (ip_address d) →
  let listed := AddAdminUserToList d in
  let command := getBanIpCommand (GetServerSetting BAN_IP_COMMAND s) in
  HandleMessage env u (BAN_IP (ua_ip_first listed) (ua_ip_second listed)) s =
  Some (s, if String.eqb command EmptyString then []
           else [SExecuteCommandAsync (ip_to_string (ip_address d)) command]).
Proof.
  intros Hx Ha Hl Hb. cbn [HandleMessage AddAdminUserToList ua_ip_first ua_ip_second].
  unfold BanIp, as_admin, with_socket, with_state. rewrite Hx, Ha, ban_address_roundtrip by done. cbn.
  by destruct (String.eqb _ _).
Qed.

(** *** Captchas *)

(** What the handlers of messages do to sockets and connections: they set
    fields that are neither the address nor its bookkeeping, and never lift a
    captcha; and they leave alone who is an administrator, but for one place
    ([ServerCreateSession]). *)
Definition mild (f : socket → socket) : Prop := ∀ x,
  socket_ip (f x) = socket_ip x ∧ has_ip_data (f x) = has_ip_data x ∧
  (is_captcha_required_ x = true → is_captcha_required_ (f x) = true).
Definition gentle (f : socket → socket) : Prop := mild f ∧ ∀ x, is_admin_ (f x) = is_admin_ x.

Lemma gentle_mild f : gentle f → mild f.
Proof. by intros [? _]. Qed.
Lemma set_login_mild a : mild (set_login a).
Proof. by intros x. Qed.

(** The socket for which a postponed step creates a session. *)
Definition logs_in (k : continuation) : option U :=
  match k with LoginTask u _ _ | RegisterVerdict u _ => Some u | _ => None end.

Section Gentle.
Context (R : server → server → Prop) `{!PreOrder R}.
Context (R_same : ∀ s s', sockets s' = sockets s → connections s' = connections s → R s s').
Context (R_gentle : ∀ u f, gentle f → preserves R (update_socket u f)).
(** The sockets that may log in. *)
Context (may_login : U → Prop).
Context (R_login : ∀ u a, may_login u → preserves R (update_socket u (set_login a))).
Abbreviation Keeps := (preserves R).

Lemma gentle_on_vm id f : Keeps (on_vm id f).
Proof. apply preserves_on_vm; [apply _|intros; by apply R_same|intros; by apply R_same]. Qed.
Lemma gentle_on_list f : Keeps (on_list f).
Proof. apply preserves_on_list. intros. by apply R_same. Qed.
Lemma gentle_on_global f : Keeps (on_global f).
Proof. apply preserves_on_global. intros. by apply R_same. Qed.

Ltac gently_leaf :=
  first
    [ apply R_gentle; by split; [intros ?|]
    | apply preserves_modify; intros; by apply R_same
    | apply gentle_on_list | apply gentle_on_global | apply gentle_on_vm ].
Ltac gently := preserve; try gently_leaf.

Section GentleMessages.
Context (env : server_env) (u : U).

Lemma gentle_SetUserData name : Keeps (SetUserData env u name).
Proof. unfold SetUserData. gently. Qed.
Lemma gentle_ConnectToChannel id name : Keeps (ConnectToChannel env u id name).
Proof. unfold ConnectToChannel, EnterChannel, LeaveVmList, GetChannel. gently. Qed.
Lemma gentle_ChatMessage destination message : Keeps (ChatMessageMessage env u destination message).
Proof.
  unfold ChatMessageMessage, ChatMessageTo, NewDirect, DirectMessage, OpenRecipientRoom, GetChannel. gently.
Qed.
Lemma gentle_ServerCreateSession name k :
  may_login u → (∀ n id, Keeps (k n id)) → Keeps (ServerCreateSession env u name k).
Proof.
  intros Hu Hk. unfold ServerCreateSession. gently; [by apply R_login|apply gentle_SetUserData|apply Hk].
Qed.
Lemma gentle_AccountRegistration r : may_login u → Keeps (AccountRegistration env u r).
Proof.
  intros Hu. unfold AccountRegistration, RunRegister, RegisterAs. gently;
    (apply gentle_ServerCreateSession; [done|]); intros; gently.
Qed.
Lemma gentle_for_each_vm ids f : (∀ id, Keeps (f id)) → Keeps (for_each_vm ids f).
Proof. intros Hf. induction ids; cbn [for_each_vm]; gently; auto. Qed.
Lemma gentle_VmsCommand op ids : Keeps (VmsCommand env op ids).
Proof. induction ids as [|id ids IH]; cbn [VmsCommand]; gently. apply IH. Qed.
Lemma gentle_ApplyServerSettings : Keeps (ApplyServerSettings env).
Proof. unfold ApplyServerSettings. gently. apply gentle_for_each_vm. intros. gently. Qed.
Lemma gentle_ServerConfigModifications l : Keeps (ServerConfigModifications env u l).
Proof. unfold ServerConfigModifications. gently. apply gentle_ApplyServerSettings. Qed.
Lemma gentle_HandleMessage m : (registers m = true → may_login u) → Keeps (HandleMessage env u m).
Proof.
  intros Hu. destruct m; cbn [HandleMessage];
    unfold ConnectToChannelMessage, GenerateUsername, TurnRequest, VoteMessage, GuacInstr, EndTurn,
      AdminVmCommand, to_my_vm, ChangeUsername, ChangePasswordRequest, TwoFactorResponse,
      ServerConfigRequest, LeaveServerConfig, CreateVmMessage, ReadVmConfig, UpdateVmConfig, DeleteVmMessage,
      SendAdminList, CreateInviteMessage, ReadInvitesMessage, UpdateInviteMessage, DeleteInviteMessage,
      ValidateInviteMessage, CreateReservedUsernameMessage, ReadReservedUsernamesMessage,
      DeleteReservedUsernameMessage, BanIp, SendCaptcha, KickUser, GetUser, VmListRequest;
    gently;
    first [ apply gentle_SetUserData | apply gentle_ConnectToChannel | apply gentle_ChatMessage
          | by apply gentle_AccountRegistration, Hu | apply gentle_VmsCommand
          | apply gentle_ServerConfigModifications ].
Qed.
End GentleMessages.

Lemma gentle_list_answer f : Keeps (list_answer f).
Proof.
  intros s s' evs. unfold list_answer. destruct (f _) as [[l acts]|]; [|done]. intros [= <- <-].
  by apply R_same.
Qed.

Lemma gentle_ask_vm id answer gone : (∀ p, Keeps (answer p)) → Keeps gone → Keeps (ask_vm id answer gone).
Proof. intros Ha Hg. unfold ask_vm. gently; first [apply Ha|apply Hg]. Qed.

Definition is_captcha_verdict (k : continuation) : bool :=
  match k with CaptchaVerdict _ => true | _ => false end.

Lemma gentle_RunContinuation env input k :
  is_captcha_verdict k = false → (∀ u, logs_in k = Some u → may_login u) → Keeps (RunContinuation env input k).
Proof.
  destruct k; intros Hk Hu; try done; cbn [RunContinuation];
    unfold RunLogin, RunChangePassword, RunRegister, RegisterAs; gently;
    first [ apply gentle_ask_vm; intros; first [apply gentle_list_answer|gently]
          | apply gentle_ServerCreateSession; [by apply Hu|]; intros; gently ].
Qed.

Lemma gentle_InfoTimer : Keeps InfoTimer.
Proof.
  intros s s' evs. unfold InfoTimer. destruct (UpdateVirtualMachineInfoList _) as [l asked].
  intros [= <- <-]. by apply R_same.
Qed.

Lemma gentle_StartStop env b : Keeps (ServerStart env b) ∧ Keeps (ServerStop env).
Proof.
  unfold ServerStart, ServerStop, StartMachine. split; gently; apply gentle_for_each_vm; intros; gently.
Qed.

(** The other steps, for a relation that also lets a captcha be lifted. *)
Context (R_captcha : ∀ u b, Keeps (update_socket u (set_captcha_required b))).

Lemma gentle_RunLater env i input : (∀ u, may_login u) → Keeps (RunLater env i input).
Proof.
  intros Hu. unfold RunLater. gently. destruct (is_captcha_verdict c) eqn:Hk; [|by apply gentle_RunContinuation].
  destruct c; try done. apply R_captcha.
Qed.

Lemma gentle_OnConnect u : Keeps (OnConnect u).
Proof. unfold OnConnect. gently. apply R_captcha. Qed.
End Gentle.

Definition captcha_kept (s s' : server) : Prop :=
  ∀ v x, sockets s !! v = Some x → is_captcha_required_ x = true →
    ∃ x', sockets s' !! v = Some x' ∧ is_captcha_required_ x' = true.

#[export] Instance captcha_kept_preorder : PreOrder captcha_kept.
Proof.
  split; [intros s v x; by exists x|]. intros s1 s2 s3 H12 H23 v x Hx Hc.
  destruct (H12 v x Hx Hc) as (y & Hy & Hcy). by eapply H23.
Qed.

Lemma captcha_same s s' : sockets s' = sockets s → captcha_kept s s'.
Proof. intros Hs v x Hx Hc. exists x. by rewrite Hs. Qed.

Lemma captcha_mild u f : mild f → preserves captcha_kept (update_socket u f).
Proof.
  intros Hf. apply preserves_modify. intros s v x Hx Hc. cbn.
  destruct (decide (v = u)) as [->|Hne].
  - rewrite lookup_alter_eq, Hx. exists (f x). split; [done|by apply Hf].
  - rewrite lookup_alter_ne by done. by exists x.
Qed.

Definition captcha_required_of (v : U) s : Prop :=
  ∃ x, sockets s !! v = Some x ∧ is_captcha_required_ x = true.

Lemma captcha_gentle u f : gentle f → preserves captcha_kept (update_socket u f).
Proof. intros Hf. by apply captcha_mild, gentle_mild. Qed.
Lemma captcha_login u a : True → preserves captcha_kept (update_socket u (set_login a)).
Proof. intros _. apply captcha_mild, set_login_mild. Qed.

(** The steps that may lift the requirement from [v]. *)
Definition may_lift (v : U) (op : server_op) s : Prop :=
  match op with
  | Accept u _ | Handshake u => u = v
  | Later i input => later s !! i = Some (CaptchaVerdict v) ∧ is_valid_token input = true
  | _ => False
  end.

Lemma captcha_other_socket u v f s :
  u ≠ v → captcha_required_of v s → captcha_required_of v (set_sockets (alter f u (sockets s)) s).
Proof. intros Hne (x & Hx & Hc). exists x. cbn. by rewrite lookup_alter_ne. Qed.

Lemma captcha_OnDisconnect env u : preserves captcha_kept (OnDisconnect env u).
Proof.
  unfold OnDisconnect, LeaveServerConfig, LeaveVmList. preserve;
    first [ by apply captcha_mild | apply preserves_modify; intros; by apply captcha_same
          | apply (gentle_on_vm captcha_kept); intros; by apply captcha_same
          | apply (gentle_on_global captcha_kept); intros; by apply captcha_same ].
Qed.

Lemma captcha_lifted env op s s' evs v :
  server_exec env op s = Some (s', evs) → captcha_required_of v s →
  captcha_required_of v s' ∨ may_lift v op s.
Proof.
  assert (∀ f, preserves captcha_kept f → f s = Some (s', evs) → captcha_required_of v s →
    captcha_required_of v s' ∨ may_lift v op s) as Hkept.
  { intros f Hf Hs (x & Hx & Hc). left. by eapply Hf. }
  assert (∀ s1 s2, sockets s2 = sockets s1 → connections s2 = connections s1 → captcha_kept s1 s2) as Hsame
    by (intros; by apply captcha_same).
  destruct op; cbn [server_exec].
  - destruct (decide (u = v)) as [->|Hne]; [by right|]. intros Hs (x & Hx & Hc). left. exists x.
    split; [|done]. apply seq_some in Hs as (s1 & ? & ? & [= <- <-] & Hs).
    unfold OnPreConnect, with_socket, seq, update_socket, modify, with_state in Hs. cbn in Hs.
    rewrite lookup_insert_eq in Hs. cbn in Hs.
    repeat case_match; simplify_eq/=; by rewrite lookup_alter_ne, lookup_insert_ne.
  - destruct (decide (u = v)) as [->|Hne]; [by right|]. intros [= <- <-] Hr. left. by apply captcha_other_socket.
  - by apply Hkept, (gentle_HandleMessage captcha_kept Hsame captcha_gentle (λ _, True) captcha_login).
  - apply Hkept, captcha_OnDisconnect.
  - unfold RunLater, with_state. destruct (later s !! i) as [k|] eqn:Hk; [|by apply (Hkept skip), preserves_skip, _].
    intros (s1 & ? & evs' & [= <- <-] & Hs)%seq_some Hr.
    assert (captcha_required_of v (set_later (delete i (later s)) s)) as Hr' by exact Hr.
    destruct (is_captcha_verdict k) eqn:Hv.
    + destruct k as [u|?|?|?|?|?|?]; try done. injection Hs as <- <-.
      destruct (decide (u = v)) as [->|Hne]; [|left; by apply (captcha_other_socket u v _ (set_later (delete i (later s)) s))].
      destruct (is_valid_token input) eqn:Hi; [right; cbn; by rewrite Hk|]. left.
      destruct Hr' as (x & Hx & _). eexists. cbn in Hx |- *. by rewrite lookup_alter_eq, Hx.
    + left. destruct Hr' as (x & Hx & Hc).
      eapply (gentle_RunContinuation captcha_kept Hsame captcha_gentle (λ _, True) captcha_login _ _ _ Hv); [done|exact Hs|exact Hx|done].
  - apply Hkept, (gentle_InfoTimer captcha_kept Hsame).
  - by apply Hkept, (gentle_ApplyServerSettings captcha_kept).
  - by apply Hkept, (gentle_StartStop captcha_kept Hsame).
  - by apply Hkept, (gentle_StartStop captcha_kept Hsame env true).
  - by apply Hkept, (gentle_on_vm captcha_kept).
Qed.

(** *** Who becomes an administrator *)

Definition is_admin_of (v : U) s : Prop := ∃ x, sockets s !! v = Some x ∧ is_admin_ x = true.

(** Nobody but a socket that satisfies [P] has become one. *)
Definition no_new_admin (P : U → Prop) (s s' : server) : Prop :=
  ∀ v, ¬ P v → is_admin_of v s' → is_admin_of v s.

#[export] Instance no_new_admin_preorder P : PreOrder (no_new_admin P).
Proof. split; [by intros s v|]. intros s1 s2 s3 H12 H23 v Hv Ha. by apply H12, H23. Qed.

Lemma admin_same P s s' : sockets s' = sockets s → no_new_admin P s s'.
Proof. intros Hs v _. unfold is_admin_of. by rewrite Hs. Qed.

Lemma admin_update (P : U → Prop) u f :
  (¬ P u → ∀ x, is_admin_ (f x) = true → is_admin_ x = true) → preserves (no_new_admin P) (update_socket u f).
Proof.
  intros Hf. apply preserves_modify. intros s v Hv (x' & Hx' & Ha). cbn in Hx'.
  destruct (decide (v = u)) as [->|Hne].
  - rewrite lookup_alter_eq in Hx'. apply fmap_Some in Hx' as (x & Hx & ->). exists x. split; [done|by apply Hf].
  - rewrite lookup_alter_ne in Hx' by done. by exists x'.
Qed.
Lemma admin_gentle P u f : gentle f → preserves (no_new_admin P) (update_socket u f).
Proof. intros [_ Hf]. apply admin_update. intros _ x. by rewrite Hf. Qed.
Lemma admin_login (P : U → Prop) u a : P u → preserves (no_new_admin P) (update_socket u (set_login a)).
Proof. intros Hu. by apply admin_update. Qed.

Lemma admin_OnDisconnect env u : preserves (no_new_admin (λ _, False)) (OnDisconnect env u).
Proof.
  unfold OnDisconnect, LeaveServerConfig, LeaveVmList. preserve;
    first [ by apply admin_gentle | apply preserves_modify; intros; by apply admin_same
          | apply (gentle_on_vm (no_new_admin _)); intros; by apply admin_same
          | apply (gentle_on_global (no_new_admin _)); intros; by apply admin_same ].
Qed.

Lemma admin_Accept env u ip : preserves (no_new_admin (λ _, False)) (server_exec env (Accept u ip)).
Proof.
  cbn [server_exec]. unfold OnPreConnect. preserve;
    first [ by apply admin_update | apply preserves_modify; intros; by apply admin_same | idtac ].
  apply preserves_modify. intros s v _ (x & Hx & Ha). cbn in Hx. destruct (decide (u = v)) as [->|Hne].
  - rewrite lookup_insert_eq in Hx. by injection Hx as <-.
  - rewrite lookup_insert_ne in Hx by done. by exists x.
Qed.

(** The socket that a step may make an administrator's. *)
Definition may_become_admin (op : server_op) s (v : U) : Prop :=
  match op with
  | Message u m => if registers m then Some u else None
  | Later i _ => later s !! i ≫= logs_in
  | _ => None
  end = Some v.

Lemma admin_exec env op s s' evs :
  server_exec env op s = Some (s', evs) → no_new_admin (may_become_admin op s) s s'.
Proof.
  assert (∀ P s1 s2, sockets s2 = sockets s1 → connections s2 = connections s1 → no_new_admin P s1 s2) as Hsame
    by (intros; by apply admin_same).
  assert (∀ f, preserves (no_new_admin (may_become_admin op s)) f → f s = Some (s', evs) →
    no_new_admin (may_become_admin op s) s s') as Hkept by (intros f Hf; apply Hf).
  assert (∀ f, preserves (no_new_admin (λ _, False)) f → f s = Some (s', evs) →
    no_new_admin (may_become_admin op s) s s') as Hnone.
  { intros f Hf Hs v _. apply (Hf _ _ _ Hs). by intros []. }
  destruct op; cbn [server_exec] in *.
  - apply Hnone, (admin_Accept env).
  - apply Hnone, (gentle_OnConnect (no_new_admin _)). intros. by apply admin_update.
  - apply Hkept, (gentle_HandleMessage _ (Hsame _) (admin_gentle _) _ (admin_login _)). intros Hm. unfold may_become_admin. by rewrite Hm.
  - apply Hnone, admin_OnDisconnect.
  - unfold RunLater, with_state. destruct (later s !! i) as [k|] eqn:Hk; [|by apply Hkept, preserves_skip, _].
    intros (s1 & e1 & evs' & Hs1 & Hs)%seq_some. injection Hs1 as <- <-.
    assert (preserves (no_new_admin (may_become_admin (Later i input) s)) (RunContinuation env input k)) as Hp.
    { destruct (is_captcha_verdict k) eqn:Hv; [destruct k; try done; by apply admin_update|].
      apply (gentle_RunContinuation _ (Hsame _) (admin_gentle _) _ (admin_login _)); [done|]. intros u Hu. unfold may_become_admin. by rewrite Hk. }
    by intros v Hv Ha; apply (Hp _ _ _ Hs v Hv Ha).
  - apply Hnone, (gentle_InfoTimer (no_new_admin _) (Hsame _)).
  - by apply Hnone, (gentle_ApplyServerSettings (no_new_admin _) (Hsame _)).
  - by apply Hnone, (gentle_StartStop (no_new_admin _) (Hsame _)).
  - by apply Hnone, (gentle_StartStop (no_new_admin _) (Hsame _) env true).
  - by apply Hnone, (gentle_on_vm (no_new_admin _) (Hsame _)).
Qed.

(** A session is an administrator's if the account is one's. *)
Lemma CreateSession_admin t name ip random d r d' :
  CreateSession bind_blob t name ip random d = Some (r, d') → session_is_admin r = true →
  ∃ row, Database.GetUser name d = Some row ∧ user_is_admin row = true.
Proof.
  induction random as [|id random IH]; [done|]. cbn [CreateSession].
  destruct (Database.GetUser name d) as [row|] eqn:Hg; [|by intros [= <- _]].
  case_match; [by intros [= <- _]|]. destruct (UpdateUser _ _ _); [done|]. intros [= <- _] Ha. by exists row.
Qed.

Lemma ServerCreateSession_admin env u name k s s' evs v :
  (∀ P n id, preserves (no_new_admin P) (k n id)) →
  ServerCreateSession env u name k s = Some (s', evs) → is_admin_of v s' → ¬ is_admin_of v s →
  v = u ∧ ∃ row, Database.GetUser name (db_ s) = Some row ∧ user_is_admin row = true.
Proof.
  intros Hk Hs Ha Hn. split.
  - apply dec_stable. intros Hv. apply Hn.
    refine (gentle_ServerCreateSession (no_new_admin (λ v, v = u)) _ (admin_gentle _) _ (admin_login _)
      env u name k _ _ _ _ _ Hs v Hv Ha); [intros; by apply admin_same|done|apply Hk].
  - assert (∀ f s1, preserves (no_new_admin (λ _, False)) f → sockets s1 = sockets s → f s1 ≠ Some (s', evs)) as Hnone.
    { intros f s1 Hf He Hx. apply Hn. unfold is_admin_of. rewrite <-He. apply (Hf _ _ _ Hx); [by intros []|done]. }
    unfold ServerCreateSession, with_socket in Hs.
    destruct (sockets s !! u) as [x|]; [|done].
    unfold with_state in Hs. destruct (CreateSession _ _ _ _ _ _) as [[r d]|] eqn:Hc; [|done].
    destruct (session_is_admin r) eqn:Hr; [by eapply CreateSession_admin|]. exfalso.
    eapply Hnone; [|reflexivity|exact Hs]. unfold SetUserData. preserve; try apply Hk;
      first [ by apply admin_update | apply preserves_modify; intros; by apply admin_same
            | apply (gentle_on_vm (no_new_admin _)); intros; by apply admin_same
            | apply (gentle_on_global (no_new_admin _)); intros; by apply admin_same ].
Qed.

Lemma Login_success_key name password d key :
  Login hash_password name password d = Some (Login_SUCCESS, key) → key = [].
Proof.
  unfold Login. destruct (Database.GetUser _ _) as [row|]; [|done]. destruct (user_is_disabled row); [done|].
  destruct (std_equal _ _) as [b|]; [|done]. cbn [mbind option_bind]. destruct b; [|done].
  cbn [negb]. destruct (user_totp_key row); by intros [= <-].
Qed.

Lemma RunLogin_admin env u name password s s' evs v :
  RunLogin env u name password s = Some (s', evs) → is_admin_of v s' → ¬ is_admin_of v s →
  v = u ∧ Login hash_password name password (db_ s) = Some (Login_SUCCESS, []) ∧
  ∃ row, Database.GetUser name (db_ s) = Some row ∧ user_is_admin row = true.
Proof.
  unfold RunLogin, with_state. intros Hs Ha Hn.
  assert (∀ f, preserves (no_new_admin (λ _, False)) f → f s ≠ Some (s', evs)) as Hnone.
  { intros f Hf Hx. apply Hn, (Hf _ _ _ Hx); [by intros []|done]. }
  destruct (Login _ _ _ _) as [[r key]|] eqn:Hl; [|done].
  destruct (decide (r = Login_SUCCESS)) as [->|Hr].
  - rewrite (Login_success_key _ _ _ _ Hl).
    eapply ServerCreateSession_admin in Hs as [-> Hrow]; [done| |exact Ha|exact Hn].
    intros P n id. cbv beta. by preserve.
  - exfalso. apply (Hnone (when (bool_decide (r = TWO_FACTOR_REQUIRED)) (update_socket u (set_totp_key key)) ;;;
      QueueMessage u (MLoginResult r))); [|by destruct r].
    preserve. apply admin_gentle. by split; [intros ?|].
Qed.


Definition needs_captcha (m : client_message) : bool :=
  match m with
  | TURN_REQUEST | VOTE _ | GUAC_INSTR _ | CHANGE_USERNAME _ | CHAT_MESSAGE _ _ => true
  | _ => false
  end.

(** C9: the captcha gate.  While a captcha is required of a socket, its
    turn requests, votes, input, name changes and chat messages do nothing;
    no message of anybody, the socket's own included, lifts the requirement;
    and the verdict on a solution the socket has sent does, if it is
    positive. *)
Theorem captcha_gate env u s x :
  sockets s !! u = Some x → is_captcha_required_ x = true →
  (∀ m, needs_captcha m = true → HandleMessage env u m s = Some (s, [])) ∧
  (∀ v m s' evs, HandleMessage env v m s = Some (s', evs) →
     ∃ x', sockets s' !! u = Some x' ∧ is_captcha_required_ x' = true) ∧
  (∀ input, ∃ s' x', RunContinuation env input (CaptchaVerdict u) s = Some (s', []) ∧
     sockets s' !! u = Some x' ∧ is_captcha_required_ x' = negb (is_valid_token input)).
Proof.
  intros Hx Hc. split_and!.
  - intros m Hm. destruct m; try done; cbn [HandleMessage];
      unfold TurnRequest, VoteMessage, GuacInstr, ChangeUsername, ChatMessageMessage, with_socket;
      rewrite Hx, Hc, ?andb_false_r; done.
  - intros v m s' evs Hm. eapply (gentle_HandleMessage captcha_kept (λ s1 s2 h _, captcha_same s1 s2 h) captcha_gentle (λ _, True) captcha_login);
      [|exact Hm|done|done]. done.
  - intros input. eexists _, _. split; [done|]. cbn. by rewrite lookup_alter_eq, Hx.
Qed.

(** *** Who waits for the captcha service

    A handler that asks the service to verify a token postpones exactly one
    continuation for it, and no other step touches those that wait. *)

Definition asks_captcha (k : continuation) : bool :=
  match k with CaptchaVerdict _ | LoginVerdict _ _ _ | RegisterVerdict _ _ => true | _ => false end.

(** The messages with a token. *)
Definition asks_message (m : client_message) : bool :=
  match m with CAPTCHA_COMPLETED _ | LOGIN_REQUEST _ _ _ | ACCOUNT_REGISTRATION_REQUEST _ => true | _ => false end.
Definition asks_op (op : server_op) : bool := match op with Message _ m => asks_message m | _ => false end.

Definition captcha_waiting (l : list continuation) : list continuation := filter (λ k, asks_captcha k) l.
Definition verifies (evs : list server_event) : list continuation :=
  omap (λ ev, match ev with SVerify _ k _ => Some k | _ => None end) evs.

(** [asks]: whether the handler may ask at all. *)
Definition verified (asks : bool) (f : handler) : Prop := ∀ s s' evs, f s = Some (s', evs) →
  captcha_waiting (later s') = captcha_waiting (later s) ++ verifies evs ∧ (asks = false → verifies evs = []).

Lemma captcha_waiting_app l1 l2 : captcha_waiting (l1 ++ l2) = captcha_waiting l1 ++ captcha_waiting l2.
Proof. apply filter_app. Qed.
Lemma verifies_app evs1 evs2 : verifies (evs1 ++ evs2) = verifies evs1 ++ verifies evs2.
Proof. apply omap_app. Qed.

Lemma verifies_acts (acts : list act) : verifies (List.map SAct acts) = [].
Proof. by induction acts. Qed.
Lemma verifies_lift id (evs : list machine_event) : verifies (List.map (lift_event id) evs) = [].
Proof. induction evs as [|ev evs IH]; [done|]. by destruct ev. Qed.
Lemma info_requests_waiting id (evs : list machine_event) : captcha_waiting (info_requests id evs) = [].
Proof. induction evs as [|ev evs IH]; [done|]. by destruct ev. Qed.

Lemma verified_emit {asks} evs : verifies evs = [] → verified asks (emit evs).
Proof. intros He s s' evs' [= <- <-]. by rewrite He, app_nil_r. Qed.
Lemma verified_abort {asks} : verified asks abort.
Proof. by intros s s' evs. Qed.
Lemma verified_modify {asks} f : (∀ s, later (f s) = later s) → verified asks (modify f).
Proof. intros Hf s s' evs [= <- <-]. cbn. by rewrite Hf, app_nil_r. Qed.
Lemma verified_seq {asks} f g : verified asks f → verified asks g → verified asks (f ;;; g).
Proof.
  intros Hf Hg s s' evs. unfold seq. destruct (f s) as [[s1 e1]|] eqn:Hs1; [|done]. cbn.
  destruct (g s1) as [[s2 e2]|] eqn:Hs2; [|done]. cbn. intros [= <- <-].
  destruct (Hf _ _ _ Hs1) as [Hl Hn], (Hg _ _ _ Hs2) as [Hl' Hn'].
  rewrite Hl', Hl, verifies_app, app_assoc. split; [done|]. intros Ha. by rewrite Hn, Hn'.
Qed.
Lemma verified_skip {asks} : verified asks skip.
Proof. by apply verified_emit. Qed.
Lemma verified_when {asks} b f : verified asks f → verified asks (when b f).
Proof. destruct b; [done|]. intros _. apply verified_skip. Qed.
Lemma verified_with_state {asks} f : (∀ s, verified asks (f s)) → verified asks (with_state f).
Proof. intros Hf s s' evs. apply Hf. Qed.
Lemma verified_with_socket {asks} u f : (∀ x, verified asks (f x)) → verified asks (with_socket u f).
Proof. intros Hf s s' evs. unfold with_socket. destruct (sockets s !! u); [apply Hf|done]. Qed.
Lemma verified_on_list {asks} f : verified asks (on_list f).
Proof.
  intros s s' evs. unfold on_list. destruct (f _) as [l acts]. intros [= <- <-].
  by rewrite verifies_acts, app_nil_r.
Qed.
Lemma verified_list_answer {asks} f : verified asks (list_answer f).
Proof.
  intros s s' evs. unfold list_answer. destruct (f _) as [[l acts]|]; [|done]. intros [= <- <-].
  by rewrite verifies_acts, app_nil_r.
Qed.
Lemma verified_on_global {asks} f : verified asks (on_global f).
Proof.
  intros s s' evs. unfold on_global. destruct (f _ _ _ _) as [[[ch b] acts]|]; [|done].
  intros [= <- <-]. by rewrite verifies_acts, app_nil_r.
Qed.
Lemma verified_on_vm {asks} id f : verified asks (on_vm id f).
Proof.
  intros s s' evs. unfold on_vm. destruct (GetAdminVirtualMachine _ _) as [vm|].
  - destruct (f vm) as [[vm' evs']|]; [|done]. cbn. intros [= <- <-].
    cbn [later set_later]. by rewrite verifies_lift, captcha_waiting_app, info_requests_waiting.
  - intros [= <- <-]. by rewrite app_nil_r.
Qed.
Lemma captcha_waiting_one k : captcha_waiting [k] = if asks_captcha k then [k] else [].
Proof. unfold captcha_waiting. rewrite filter_cons, filter_nil. by destruct (asks_captcha k). Qed.
Lemma captcha_waiting_delete l i k :
  l !! i = Some k → captcha_waiting l ≡ₚ (if asks_captcha k then [k] else []) ++ captcha_waiting (delete i l).
Proof.
  intros Hi. apply list_elem_of_split_length in Hi as (l1 & l2 & -> & ->).
  rewrite delete_middle. change (k :: l2) with ([k] ++ l2). rewrite !captcha_waiting_app, captcha_waiting_one.
  by rewrite !app_assoc, (Permutation_app_comm (captcha_waiting l1)).
Qed.
Lemma elem_of_captcha_waiting l k : k ∈ captcha_waiting l ↔ asks_captcha k = true ∧ k ∈ l.
Proof. unfold captcha_waiting. by rewrite list_elem_of_filter, Is_true_true. Qed.
Lemma verified_post {asks} k : asks_captcha k = false → verified asks (post k).
Proof.
  intros Hk s s' evs [= <- <-]. cbn [later set_later]. by rewrite captcha_waiting_app, captcha_waiting_one, Hk.
Qed.
Lemma verified_Verify token k ip : asks_captcha k = true → verified true (Verify token k ip).
Proof.
  intros Hk s s' evs [= <- <-]. cbn [later set_later]. by rewrite captcha_waiting_app, captcha_waiting_one, Hk.
Qed.

Create HintDb verified discriminated.
Hint Resolve verified_skip verified_abort verified_seq verified_when verified_on_list verified_list_answer
  verified_on_global verified_on_vm : verified.
Ltac verify_step :=
  match goal with
  | |- verified _ (with_state _) => apply verified_with_state; intros ?
  | |- verified _ (with_socket _ _) => apply verified_with_socket; intros ?
  | |- verified _ (modify _) => apply verified_modify; done
  | |- verified _ (post _) => apply verified_post; done
  | |- verified _ (Verify _ _ _) => apply verified_Verify; done
  | |- verified _ (emit _) => apply verified_emit; first [done|apply verifies_acts|apply verifies_lift]
  | |- verified _ (if _ then _ else _) => case_match
  | |- verified _ (match _ with _ => _ end) => case_match
  | |- verified _ _ => progress eauto 2 with verified nocore
  | |- verified _ (_ ;;; _) => apply verified_seq
  | |- verified _ (when _ _) => apply verified_when
  end.
Ltac verify :=
  unfold as_admin, RegisterError, SendChatChannelId, SendChatMessageResponse, QueueMessage, CloseSocket_,
    update_socket in *;
  repeat verify_step.

Section Verified.
Context (env : server_env) (u : U).

Lemma verified_SetUserData {asks} name : verified asks (SetUserData env u name).
Proof. unfold SetUserData. verify. Qed.
Hint Resolve verified_SetUserData : verified.
Lemma verified_ConnectToChannel {asks} id name : verified asks (ConnectToChannel env u id name).
Proof. unfold ConnectToChannel, EnterChannel, LeaveVmList, GetChannel. verify. Qed.
Lemma verified_ChatMessage {asks} destination message : verified asks (ChatMessageMessage env u destination message).
Proof.
  unfold ChatMessageMessage, ChatMessageTo, NewDirect, DirectMessage, OpenRecipientRoom, GetChannel. verify.
Qed.
Lemma verified_ServerCreateSession {asks} name k :
  (∀ n id, verified asks (k n id)) → verified asks (ServerCreateSession env u name k).
Proof. intros Hk. unfold ServerCreateSession. verify. Qed.
Lemma verified_RunRegister {asks} r : verified asks (RunRegister env u r).
Proof. unfold RunRegister, RegisterAs. verify; apply verified_ServerCreateSession; intros; verify. Qed.
Lemma verified_for_each_vm {asks} ids f : (∀ id, verified asks (f id)) → verified asks (for_each_vm ids f).
Proof. intros Hf. induction ids; cbn [for_each_vm]; verify. Qed.
Lemma verified_VmsCommand {asks} op ids : verified asks (VmsCommand env op ids).
Proof. induction ids as [|id ids IH]; cbn [VmsCommand]; verify. Qed.
Lemma verified_ApplyServerSettings {asks} : verified asks (ApplyServerSettings env).
Proof. unfold ApplyServerSettings. verify. apply verified_for_each_vm. intros. verify. Qed.
Lemma verified_ServerConfigModifications {asks} l : verified asks (ServerConfigModifications env u l).
Proof. unfold ServerConfigModifications. verify. apply verified_ApplyServerSettings. Qed.
Hint Resolve verified_ConnectToChannel verified_ChatMessage verified_RunRegister verified_VmsCommand
  verified_ServerConfigModifications : verified.
Lemma verified_HandleMessage m : verified (asks_message m) (HandleMessage env u m).
Proof.
  destruct m; cbn [HandleMessage];
    unfold ConnectToChannelMessage, GenerateUsername, TurnRequest, VoteMessage, GuacInstr, EndTurn,
      AdminVmCommand, to_my_vm, ChangeUsername, ChangePasswordRequest, TwoFactorResponse, AccountRegistration,
      ServerConfigRequest, LeaveServerConfig, CreateVmMessage, ReadVmConfig, UpdateVmConfig, DeleteVmMessage,
      SendAdminList, CreateInviteMessage, ReadInvitesMessage, UpdateInviteMessage, DeleteInviteMessage,
      ValidateInviteMessage, CreateReservedUsernameMessage, ReadReservedUsernamesMessage,
      DeleteReservedUsernameMessage, BanIp, SendCaptcha, KickUser, GetUser, VmListRequest; verify.
Qed.
Lemma verified_OnPreConnect {asks} : verified asks (OnPreConnect u).
Proof. unfold OnPreConnect. verify. Qed.
Lemma verified_OnDisconnect {asks} : verified asks (OnDisconnect env u).
Proof. unfold OnDisconnect, LeaveServerConfig, LeaveVmList. verify. Qed.
End Verified.

Lemma verified_RunContinuation {asks} env input k : verified asks (RunContinuation env input k).
Proof.
  destruct k; cbn [RunContinuation]; unfold RunLogin, RunChangePassword, ask_vm; verify;
    first [apply verified_RunRegister|apply verified_ServerCreateSession; intros; verify].
Qed.
Lemma verified_InfoTimer {asks} : verified asks InfoTimer.
Proof.
  intros s s' evs. unfold InfoTimer. destruct (UpdateVirtualMachineInfoList _) as [l asked].
  intros [= <- <-]. cbn [later set_later]. rewrite captcha_waiting_app. f_equal.
  by induction asked.
Qed.
(** Every step but those of the continuations. *)
Lemma verified_exec env op : match op with Later _ _ => True | _ => verified (asks_op op) (server_exec env op) end.
Proof.
  destruct op; cbn [server_exec]; try done; unfold OnConnect; verify.
  - apply verified_OnPreConnect.
  - apply verified_HandleMessage.
  - apply verified_OnDisconnect.
  - apply verified_InfoTimer.
  - apply verified_ApplyServerSettings.
  - unfold ServerStart, StartMachine. verify. apply verified_for_each_vm. intros. verify.
  - unfold ServerStop. verify. apply verified_for_each_vm. intros. verify.
Qed.

(** A continuation is taken off the list, and asks nothing itself. *)
Lemma verified_later env i input k s s' evs :
  later s !! i = Some k → server_exec env (Later i input) s = Some (s', evs) →
  verifies evs = [] ∧ captcha_waiting (later s') = captcha_waiting (delete i (later s)).
Proof.
  intros Hk. cbn [server_exec]. unfold RunLater, with_state. rewrite Hk. unfold seq, modify. cbn.
  destruct (RunContinuation _ _ _ _) as [[s1 e1]|] eqn:Hr; [|done]. intros [= <- <-].
  destruct (verified_RunContinuation (asks := false) env input k _ _ _ Hr) as [Hl He].
  specialize (He eq_refl). split; [done|]. by rewrite Hl, He, app_nil_r.
Qed.

(** A step asks once, with the token of the message, or not at all. *)
Lemma verifies_exec env op s s' evs :
  server_exec env op s = Some (s', evs) →
  verifies evs = [] ∨ ∃ token k ip, evs = [SVerify token k ip] ∧
    (∀ u, k = CaptchaVerdict u → op = Message u (CAPTCHA_COMPLETED token)).
Proof.
  intros Hx. destruct (asks_op op) eqn:Ha.
  - destruct op as [| |u m| | | | | | |]; try done. destruct m; try done; cbn in Hx.
    + injection Hx as <- <-. right. eexists _, _, _. split; [done|]. by intros v [= ->].
    + unfold with_socket in Hx. destruct (sockets s !! u); [|done]. injection Hx as <- <-. right. by eexists _, _, _.
    + unfold AccountRegistration in Hx. destruct (reg_invite_id request).
      * injection Hx as <- <-. right. by eexists _, _, _.
      * left. by apply (verified_RunRegister (asks := false) env u _ _ _ _ Hx).
  - left. pose proof (verified_exec env op) as Hv. rewrite Ha in Hv.
    destruct op; try (by apply (Hv _ _ _ Hx)).
    destruct (later s !! i) as [k|] eqn:Hk; [by apply (verified_later env i input k s s' evs Hk Hx)|].
    cbn in Hx. unfold RunLater, with_state in Hx. rewrite Hk in Hx. by injection Hx as <- <-.
Qed.

(** *** Connections per address *)

(** What the bookkeeping of connections reads. *)
Definition ip_data x : list Z * bool := (socket_ip x, has_ip_data x).

Definition connections_kept (s s' : server) : Prop :=
  connections s' = connections s ∧ ∀ v, ip_data <$> sockets s' !! v = ip_data <$> sockets s !! v.

#[export] Instance connections_kept_preorder : PreOrder connections_kept.
Proof.
  split; [by intros s|]. intros s1 s2 s3 [Hc Hi] [Hc' Hi']. split; [congruence|].
  intros v. by rewrite Hi'.
Qed.

Lemma connections_same s s' :
  sockets s' = sockets s → connections s' = connections s → connections_kept s s'.
Proof. intros Hs Hc. split; [done|]. by rewrite Hs. Qed.

Lemma connections_socket u f :
  (∀ x, ip_data (f x) = ip_data x) → preserves connections_kept (update_socket u f).
Proof.
  intros Hf. apply preserves_modify. intros s. split; [done|]. intros v. cbn.
  destruct (decide (v = u)) as [->|]; [|by rewrite lookup_alter_ne].
  rewrite lookup_alter_eq. destruct (sockets s !! u) as [x|]; [|done]. simpl. by rewrite Hf.
Qed.
Lemma connections_mild u f : mild f → preserves connections_kept (update_socket u f).
Proof.
  intros Hf. apply connections_socket. intros x. destruct (Hf x) as (Hip & Hd & _).
  unfold ip_data. by rewrite Hip, Hd.
Qed.
Lemma connections_gentle u f : gentle f → preserves connections_kept (update_socket u f).
Proof. intros Hf. by apply connections_mild, gentle_mild. Qed.
Lemma connections_login u a : True → preserves connections_kept (update_socket u (set_login a)).
Proof. intros _. apply connections_mild, set_login_mild. Qed.
Lemma connections_captcha u b : preserves connections_kept (update_socket u (set_captcha_required b)).
Proof. by apply connections_socket. Qed.

(** Every step but the first and the last of a connection. *)
Lemma connections_exec env op :
  match op with Accept _ _ | Disconnect _ => True | _ => preserves connections_kept (server_exec env op) end.
Proof.
  pose proof connections_same as Hs. pose proof connections_gentle as Hg.
  destruct op; cbn [server_exec]; try done.
  - by apply (gentle_OnConnect connections_kept), connections_captcha.
  - by apply (gentle_HandleMessage connections_kept Hs Hg (λ _, True) connections_login).
  - by apply (gentle_RunLater connections_kept Hs Hg (λ _, True) connections_login connections_captcha).
  - by apply (gentle_InfoTimer connections_kept).
  - by apply (gentle_ApplyServerSettings connections_kept).
  - by apply (gentle_StartStop connections_kept).
  - by apply (gentle_StartStop connections_kept Hs env true).
  - by apply (gentle_on_vm connections_kept).
Qed.

Definition decrement (n : Z) : Z := if (0 <? n)%Z then (n - 1)%Z else n.


Lemma OnDisconnect_connections env u s s' evs ip :
  ip_data <$> sockets s !! u = Some (ip, true) → OnDisconnect env u s = Some (s', evs) →
  connections s' = alter decrement ip (connections s) ∧
  ∀ v, ip_data <$> sockets s' !! v = ip_data <$> sockets s !! v.
Proof.
  intros Hu. unfold OnDisconnect.
  assert (preserves connections_kept (LeaveServerConfig u) ∧ preserves connections_kept (LeaveVmList u)) as [Hl1 Hl2].
  { unfold LeaveServerConfig, LeaveVmList. split; preserve;
      first [by apply connections_socket|apply preserves_modify; intros; by apply connections_same]. }
  intros (s1 & ? & ? & Hs1 & (s2 & ? & ? & Hs2 & Hs)%seq_some)%seq_some.
  assert (connections_kept s s2) as [Hc Hip] by (trans s1; [by eapply Hl1|by eapply Hl2]).
  rewrite <-Hc. setoid_rewrite <-Hip. rewrite <-Hip in Hu. clear s s1 Hs1 Hs2 Hl1 Hl2 Hc Hip.
  unfold with_socket in Hs. destruct (sockets s2 !! u) as [y|] eqn:Hx; [|done].
  injection Hu as Hip Hd. rewrite Hd, Hip in Hs.
  apply seq_some in Hs as (s3 & ? & ? & Hs3 & (s4 & ? & ? & Hs4 & (s5 & ? & ? & Hs5 & Hs)%seq_some)%seq_some).
  assert (connections_kept s2 s5) as [Hc Hk].
  { assert (∀ b f, preserves connections_kept f → preserves connections_kept (when b f)) as Hwhen
      by (intros b f Hf; destruct b; [done|apply preserves_skip, _]).
    pose proof connections_same as Hsame. trans s3; [|trans s4].
    - eapply Hwhen; [|exact Hs3]. apply preserves_modify. intros. by apply connections_same.
    - eapply Hwhen; [|exact Hs4]. by apply (gentle_on_vm connections_kept).
    - eapply Hwhen; [|exact Hs5]. by apply (gentle_on_global connections_kept). }
  injection Hs as <- _. cbn. by rewrite Hc.
Qed.
(** The connections that have been accepted and have not ended, with their
    addresses. *)
Definition live_after (op : server_op) (live : gmap U (list Z)) : gmap U (list Z) :=
  match op with
  | Accept u ip => <[u := ip]> live
  | Disconnect u => delete u live
  | _ => live
  end.

Definition count_ip (ip : list Z) (live : gmap U (list Z)) : nat := size (filter (λ p, p.2 = ip) live).

Definition limit_enabled s : Prop :=
  getMaxConnectionsEnabled (GetServerSetting MAX_CONNECTIONS_ENABLED s) = true.

(** A socket is accepted once and told of its end once ([web_server_safe]); the
    limit is on when a socket is accepted; the counters are eight bits wide. *)
Definition connection_step_ok (op : server_op) s (live : gmap U (list Z)) : Prop :=
  match op with
  | Accept u ip => live !! u = None ∧ limit_enabled s ∧ count_ip ip live < 255
  | Disconnect u => is_Some (live !! u)
  | _ => True
  end.

Record connections_ok s (live : gmap U (list Z)) : Prop := {
  co_live : ∀ u ip, live !! u = Some ip → ip_data <$> sockets s !! u = Some (ip, true);
  co_count : ∀ ip, default 0%Z (connections s !! ip) = Z.of_nat (count_ip ip live)
}.

Lemma count_ip_insert ip u ip' live :
  live !! u = None → count_ip ip (<[u := ip']> live) = (if decide (ip' = ip) then 1 else 0) + count_ip ip live.
Proof.
  intros Hu. unfold count_ip. case_decide.
  - rewrite map_filter_insert_True by done. rewrite map_size_insert_None; [done|].
    apply map_lookup_filter_None. by left.
  - rewrite map_filter_insert_False by done. by rewrite delete_id.
Qed.

Lemma count_ip_delete ip u ip' live :
  live !! u = Some ip' → count_ip ip live = (if decide (ip' = ip) then 1 else 0) + count_ip ip (delete u live).
Proof.
  intros Hu. rewrite <-(insert_delete_id live u ip' Hu) at 1. apply count_ip_insert, lookup_delete_eq.
Qed.

(** Accepting, below the limit of the counter. *)
Lemma Accept_connections env u ip s live :
  connections_ok s live → connection_step_ok (Accept u ip) s live →
  ∃ s', server_exec env (Accept u ip) s = Some (s',
      [if (getMaxConnections (GetServerSetting MAX_CONNECTIONS s) <? Z.of_nat (count_ip ip live) + 1)%Z
       then SAct (CloseSocket u) else SAccept u]) ∧
    connections_ok s' (live_after (Accept u ip) live).
Proof.
  intros [Hl Hc] (Hu & Hlim & Hsize). unfold limit_enabled in Hlim.
  cbn [server_exec]. unfold OnPreConnect, with_socket, seq, modify, update_socket, with_state. cbn.
  rewrite lookup_insert_eq. cbn. change (GetServerSetting ?w (set_connections _ _)) with (GetServerSetting w s).
  rewrite Hlim. cbn.
  set (conns := match connections s !! ip with Some _ => _ | None => _ end).
  assert (default 0%Z (conns !! ip) = Z.of_nat (count_ip ip live)) as Hip.
  { rewrite <-Hc. unfold conns. destruct (connections s !! ip) eqn:E; [by rewrite E|by rewrite lookup_insert_eq]. }
  assert (u8 (default 0%Z (conns !! ip) + 1) = Z.of_nat (count_ip ip live) + 1)%Z as H8.
  { rewrite Hip. apply u8_small. lia. }
  rewrite H8. change (GetServerSetting MAX_CONNECTIONS (set_connections _ _)) with (GetServerSetting MAX_CONNECTIONS s).
  eexists. split; [by destruct (_ <? _)%Z|]. split; cbn [live_after].
  - intros v ip' [[<- <-]|[Hne Hv]]%lookup_insert_Some; cbn.
    + by rewrite lookup_alter_eq, lookup_insert_eq.
    + rewrite lookup_alter_ne, lookup_insert_ne by done. by apply Hl.
  - intros ip'. rewrite count_ip_insert by done. cbn. destruct (decide (ip = ip')) as [<-|Hne].
    + rewrite lookup_insert_eq. cbn. lia.
    + rewrite lookup_insert_ne, Nat.add_0_l, <-Hc by done. unfold conns.
      destruct (connections s !! ip); [done|by rewrite lookup_insert_ne].
Qed.

Lemma connections_ok_exec env op s live s' evs :
  connections_ok s live → connection_step_ok op s live → server_exec env op s = Some (s', evs) →
  connections_ok s' (live_after op live).
Proof.
  intros IH Hok Hx.
  assert (∀ s'', connections_kept s s'' → connections_ok s'' live) as Hkept.
  { intros s'' [Hc Hk]. destruct IH as [Hl Hn]. split; [intros; rewrite Hk; by apply Hl|by rewrite Hc]. }
  pose proof (connections_exec env op) as Hop. destruct op; try (by eapply Hkept, Hop).
  - destruct (Accept_connections env u ip s live IH Hok) as (s'' & Hx' & Hok'). by simplify_eq.
  - destruct Hok as [ip Hu]. destruct (OnDisconnect_connections env u s s' evs ip) as [Hc Hk];
      [by apply IH|done|]. cbn [live_after]. split.
    + intros v ip' [_ Hv]%lookup_delete_Some. rewrite Hk. by apply IH.
    + intros ip'. rewrite Hc. pose proof (co_count _ _ IH ip') as Hn. rewrite (count_ip_delete _ _ _ _ Hu) in Hn.
      destruct (decide (ip = ip')) as [<-|Hne].
      * rewrite lookup_alter_eq. destruct (connections s !! ip) as [n|]; cbn in *; [|lia].
        unfold decrement. destruct (Z.ltb_spec 0 n); lia.
      * rewrite lookup_alter_ne by done. lia.
Qed.

(** Only [Accept] adds a socket, and no step removes one. *)
Definition same_sockets (s s' : server) : Prop := ∀ v, is_Some (sockets s' !! v) ↔ is_Some (sockets s !! v).

#[export] Instance same_sockets_preorder : PreOrder same_sockets.
Proof. split; [by intros s v|]. intros s1 s2 s3 H12 H23 v. etrans; [apply H23|apply H12]. Qed.

Lemma same_sockets_same s s' : sockets s' = sockets s → connections s' = connections s → same_sockets s s'.
Proof. intros Hs _ v. by rewrite Hs. Qed.
Lemma same_sockets_update u f : preserves same_sockets (update_socket u f).
Proof. apply preserves_modify. intros s v. cbn. apply lookup_alter_is_Some. Qed.

Lemma sockets_exec env op s s' evs v :
  server_exec env op s = Some (s', evs) →
  is_Some (sockets s' !! v) ↔ is_Some (sockets s !! v) ∨ (∃ ip, op = Accept v ip).
Proof.
  pose proof same_sockets_same as Hs. pose proof same_sockets_update as Hu.
  assert (∀ f, preserves same_sockets f → (∀ ip, op ≠ Accept v ip) → f s = Some (s', evs) →
    is_Some (sockets s' !! v) ↔ is_Some (sockets s !! v) ∨ (∃ ip, op = Accept v ip)) as Hsame.
  { intros f Hf Hop Hx. rewrite (Hf _ _ _ Hx v). naive_solver. }
  destruct op; cbn [server_exec].
  - intros (s1 & ? & ? & [= <- <-] & Hx)%seq_some.
    assert (preserves same_sockets (OnPreConnect u)) as Hp.
    { unfold OnPreConnect. preserve; first [apply Hu|apply preserves_modify; by intros ? v'|done]. }
    rewrite (Hp _ _ _ Hx v). cbn. rewrite lookup_insert_is_Some. destruct (decide (u = v)) as [->|]; naive_solver.
  - by apply Hsame; [apply (gentle_OnConnect same_sockets)|].
  - by apply Hsame; [apply (gentle_HandleMessage same_sockets Hs (λ u f _, Hu u f) (λ _, True) (λ u a _, Hu u (set_login a)))|].
  - apply Hsame; [|done]. unfold OnDisconnect, LeaveServerConfig, LeaveVmList. preserve;
      first [ apply Hu | apply preserves_modify; by intros ? v' | by apply (gentle_on_vm same_sockets)
            | by apply (gentle_on_global same_sockets) ].
  - by apply Hsame; [apply (gentle_RunLater same_sockets Hs (λ u f _, Hu u f) (λ _, True) (λ u a _, Hu u (set_login a)))|].
  - by apply Hsame; [apply (gentle_InfoTimer same_sockets)|].
  - by apply Hsame; [apply (gentle_ApplyServerSettings same_sockets)|].
  - by apply Hsame; [apply (gentle_StartStop same_sockets)|].
  - by apply Hsame; [apply (gentle_StartStop same_sockets Hs env true)|].
  - by apply Hsame; [apply (gentle_on_vm same_sockets)|].
Qed.

(** A new connection is let on or closed, and nothing else happens. *)
Lemma Accept_result env u ip s :
  ∃ s' ev, server_exec env (Accept u ip) s = Some (s', [ev]) ∧ later s' = later s ∧
    (ev = SAccept u ∨ ev = SAct (CloseSocket u)).
Proof.
  cbn [server_exec]. unfold OnPreConnect, with_socket, seq, modify, update_socket, with_state. cbn.
  rewrite lookup_insert_eq. cbn. repeat case_match; simplify_eq/=; eexists _, _; eauto.
Qed.

Inductive connections_reachable : server → gmap U (list Z) → Prop :=
| connections_start s : connections s = ∅ → connections_reachable s ∅
| connections_next s live env op s' evs :
    connections_reachable s live → connection_step_ok op s live →
    server_exec env op s = Some (s', evs) → connections_reachable s' (live_after op live).

Lemma connections_start_ok s : connections s = ∅ → connections_ok s ∅.
Proof.
  intros Hs. split; [intros u ip; by rewrite lookup_empty|]. intros ip. rewrite Hs, lookup_empty.
  unfold count_ip. by rewrite map_filter_empty, map_size_empty.
Qed.

Lemma connections_reachable_ok s live : connections_reachable s live → connections_ok s live.
Proof. induction 1; [by apply connections_start_ok|by eapply connections_ok_exec]. Qed.

(** While the limit on connections is on, the counter of an address is
    the number of its open connections, through any sequence of messages,
    postponed steps, machines' events and ends of connections; and a new
    connection is let on to the handshake exactly when the number, itself
    included, does not exceed the limit, and is closed otherwise.  (The counter
    has eight bits: an address has less than 256 connections at a time.)
    [system_connection_limit] is the property of the whole program. *)
Theorem connection_limit s live env u ip :
  connections_reachable s live →
  (∀ ip', default 0%Z (connections s !! ip') = Z.of_nat (count_ip ip' live)) ∧
  (live !! u = None → limit_enabled s → count_ip ip live < 255 →
   ∃ s', server_exec env (Accept u ip) s = Some (s',
     [if (getMaxConnections (GetServerSetting MAX_CONNECTIONS s) <? Z.of_nat (count_ip ip live) + 1)%Z
      then SAct (CloseSocket u) else SAccept u])).
Proof.
  intros Hr%connections_reachable_ok. split; [apply Hr|]. intros Hu Hlim Hsize.
  destruct (Accept_connections env u ip s live Hr) as (s' & Hx & _); [done|by exists s'].
Qed.

(** *** Starting and stopping *)

Abbreviation machine_of id s := (GetAdminVirtualMachine id (virtual_machines_ s)).

Lemma on_vm_machine id f s vm vm' evs :
  machine_of id s = Some vm → f vm = Some (vm', evs) →
  ∃ s' evs', on_vm id f s = Some (s', evs') ∧ machine_of id s' = Some vm' ∧
    ∀ id', id' ≠ id → machine_of id' s' = machine_of id' s.
Proof.
  intros Hvm Hf. unfold on_vm. rewrite Hvm, Hf. cbn [mbind option_bind]. eexists _, _. split; [done|].
  unfold GetAdminVirtualMachine, SetAdminVirtualMachine in *. cbn. split.
  - rewrite lookup_alter_eq. by destruct (admin_virtual_machines_ _ !! id).
  - intros id' Hne. by rewrite lookup_alter_ne.
Qed.

(** A loop over machines that changes each on its own. *)
Lemma for_each_vm_all (f : Z → handler) (step : machine → machine → Prop) ids s :
  (∀ id s vm, machine_of id s = Some vm → vm_wf vm → ∃ s' evs vm', f id s = Some (s', evs) ∧
     machine_of id s' = Some vm' ∧ step vm vm' ∧ ∀ id', id' ≠ id → machine_of id' s' = machine_of id' s) →
  NoDup ids → (∀ id, id ∈ ids → ∃ vm, machine_of id s = Some vm ∧ vm_wf vm) →
  ∃ s' evs, for_each_vm ids f s = Some (s', evs) ∧
    (∀ id, id ∈ ids → ∃ vm vm', machine_of id s = Some vm ∧ machine_of id s' = Some vm' ∧ step vm vm') ∧
    (∀ id, id ∉ ids → machine_of id s' = machine_of id s).
Proof.
  intros Hf Hnd. revert s. induction Hnd as [|id ids Hid _ IH]; intros s Hwf; cbn [for_each_vm].
  { eexists _, _. split; [done|]. split; [by intros ? ?%not_elem_of_nil|done]. }
  destruct (Hwf id) as (vm & Hvm & Hw); [by left|].
  destruct (Hf id s vm Hvm Hw) as (s1 & evs1 & vm1 & Hx & Hvm1 & Hstep & Hother).
  destruct (IH s1) as (s2 & evs2 & Hr & Hin & Hout).
  { intros id' Hid'. rewrite Hother by (by intros ->). apply Hwf. by right. }
  unfold seq. rewrite Hx. cbn [mbind option_bind]. rewrite Hr. cbn [mbind option_bind].
  eexists _, _. split; [done|]. split.
  - intros id' [->|Hid']%elem_of_cons.
    + exists vm, vm1. rewrite Hout by done. done.
    + destruct (Hin id' Hid') as (v & v' & Hv & Hv' & ?). exists v, v'.
      rewrite Hother in Hv by (by intros ->). done.
  - intros id' [Hne Hid']%not_elem_of_cons. by rewrite Hout, Hother.
Qed.

Lemma machine_ids_spec s id : id ∈ machine_ids s ↔ is_Some (machine_of id s).
Proof.
  unfold machine_ids, GetAdminVirtualMachine. rewrite list_elem_of_fmap, fmap_is_Some. split.
  - intros ([id' am] & -> & Hin%elem_of_map_to_list). by exists am.
  - intros [am Ham]. exists (id, am). split; [done|by apply elem_of_map_to_list].
Qed.

(** When the server starts, exactly the machines that are to start with it are
    started, the others are as they were; when it stops, every machine is
    stopped and stays so until somebody starts it ([stop_is_final]). *)
Theorem server_start_stop `{!SteadyTimerLaws T} env s :
  (∀ p, init_succeeds p = true) →
  (∀ id vm, machine_of id s = Some vm → vm_wf vm) →
  (∃ s' evs, ServerStart env true s = Some (s', evs) ∧
     ∀ id vm, machine_of id s = Some vm → ∃ vm', machine_of id s' = Some vm' ∧
       if getAutoStart (setting_of AUTO_START vm.2)
       then ∃ evs', run_vm env VStart vm = Some (vm', evs') else vm' = vm) ∧
  (∃ s' evs, ServerStop env s = Some (s', evs) ∧
     ∀ id vm, machine_of id s = Some vm → ∃ vm' evs', machine_of id s' = Some vm' ∧
       run_vm env VStop vm = Some (vm', evs')).
Proof.
  intros Hinit Hwf.
  assert (∀ op vm, op = VStart ∨ op = VStop → vm_wf vm → ∃ vm' evs, run_vm env op vm = Some (vm', evs)) as Hrun.
  { intros op vm [-> | ->] Hw; [|unfold run_vm; cbn [vm_exec]; destruct (VmStop _ _ _) as [vm' evs]; by exists vm', evs].
    pose proof (VmStart_wf (C := C) vote_limit header_size to_string arg_names init_succeeds guac_join
      (recording_env env) vm Hw) as Hs.
    unfold run_vm. cbn [vm_exec]. destruct (VmStart _ _ _ _ _ _) as [[vm' evs]|]; [by eexists _, _|].
    destruct Hs as [_ Hi]. unfold init_fails in Hi. by rewrite Hinit in Hi. }
  assert (NoDup (machine_ids s)) as Hnd by apply NoDup_fst_map_to_list.
  assert (∀ id, id ∈ machine_ids s → ∃ vm, machine_of id s = Some vm ∧ vm_wf vm) as Hids.
  { intros id [vm Hvm]%machine_ids_spec. exists vm. split; [done|by eapply Hwf]. }
  assert (∀ id vm, machine_of id s = Some vm → id ∈ machine_ids s) as Hin.
  { intros id vm Hvm. apply machine_ids_spec. by exists vm. }
  split.
  - destruct (for_each_vm_all (StartMachine env) (λ vm vm', if getAutoStart (setting_of AUTO_START vm.2)
      then ∃ evs', run_vm env VStart vm = Some (vm', evs') else vm' = vm) (machine_ids s) s)
      as (s' & evs & Hx & Hall & _); [|done..|].
    { intros id s0 vm Hvm Hw. unfold StartMachine, with_state. rewrite Hvm.
      destruct (getAutoStart _); [|by eexists _, _, _].
      destruct (Hrun VStart vm (or_introl eq_refl) Hw) as (vm' & evs & Hr).
      destruct (on_vm_machine id _ _ _ _ _ Hvm Hr) as (s' & evs' & ? & ? & ?).
      exists s', evs', vm'. split_and!; try done. by exists evs. }
    exists s', evs. split; [exact Hx|]. intros id vm Hvm.
    destruct (Hall id (Hin _ _ Hvm)) as (v & vm' & Hv & Hv' & Hstep). simplify_eq. by exists vm'.
  - destruct (for_each_vm_all (λ id, on_vm id (run_vm env VStop)) (λ vm vm',
      ∃ evs', run_vm env VStop vm = Some (vm', evs')) (machine_ids s) s)
      as (s' & evs & Hx & Hall & _); [|done..|].
    { intros id s0 vm Hvm Hw. destruct (Hrun VStop vm (or_intror eq_refl) Hw) as (vm' & evs & Hr).
      destruct (on_vm_machine id _ _ _ _ _ Hvm Hr) as (s' & evs' & ? & ? & ?).
      exists s', evs', vm'. split_and!; try done. by exists evs. }
    exists s', evs. split; [exact Hx|]. intros id vm Hvm.
    destruct (Hall id (Hin _ _ Hvm)) as (v & vm' & Hv & Hv' & evs' & Hstep). simplify_eq. by exists vm', evs'.
Qed.

(** *** Names for guests *)

Lemma guest_name_inj n m : fold_case (guest_name n) = fold_case (guest_name m) → n = m.
Proof.
  unfold guest_name. rewrite !fold_case_app, !fold_case_pretty.
  intros Heq%(inj (String.append _)). by apply (inj pretty) in Heq.
Qed.

Lemma free_number_spec fuel num guests :
  (0 ≤ num)%Z → (num + Z.of_nat fuel ≤ 2 ^ 32)%Z →
  match free_number fuel num guests with
  | Some n => (num ≤ n < num + Z.of_nat fuel)%Z ∧ guests !! fold_case (guest_name n) = None ∧
      ∀ i, (num ≤ i < n)%Z → is_Some (guests !! fold_case (guest_name i))
  | None => ∀ i, (num ≤ i < num + Z.of_nat fuel)%Z → is_Some (guests !! fold_case (guest_name i))
  end.
Proof.
  revert num. induction fuel as [|fuel IH]; intros num Hnum Hmax; cbn [free_number]; [lia|].
  destruct (guests !! fold_case (guest_name num)) as [v|] eqn:Hv; [|split_and!; [lia|lia|done|lia]].
  destruct fuel as [|fuel].
  { cbn. intros i Hi. replace i with num by lia. by exists v. }
  rewrite u32_small by lia. specialize (IH (num + 1)%Z ltac:(lia) ltac:(lia)).
  assert (Hstep : ∀ i b, (num + 1 ≤ i < b → is_Some (guests !! fold_case (guest_name i)))%Z →
    (num ≤ i < b)%Z → is_Some (guests !! fold_case (guest_name i))).
  { intros i b Hi Hb. destruct (decide (i = num)) as [->|Hne]; [by exists v|]. apply Hi. lia. }
  destruct (free_number _ _ _) as [n|].
  - destruct IH as (Hn & Hfree & Hall). split_and!; [lia|lia|done|]. intros i. by apply Hstep, Hall.
  - intros i Hi. apply (Hstep i (num + 1 + Z.of_nat (Datatypes.S fuel))%Z); [apply IH|lia].
Qed.

(** More names than guests: one of them is free. *)
Lemma not_all_taken num (guests : gmap string U) :
  ¬ ∀ i, (num ≤ i < num + Z.of_nat (Datatypes.S (size guests)))%Z →
      is_Some (guests !! fold_case (guest_name i)).
Proof.
  intros Hall.
  set (names := (λ i, fold_case (guest_name (num + Z.of_nat i)%Z)) <$> List.seq 0 (Datatypes.S (size guests))).
  assert (Hnd : NoDup names).
  { apply NoDup_fmap_2; [|apply NoDup_seq]. intros i j Hij%guest_name_inj. lia. }
  assert (Hsub : names ⊆+ elements (dom guests)).
  { apply NoDup_submseteq; [done|]. intros name (i & -> & Hi%elem_of_seq)%list_elem_of_fmap.
    apply elem_of_elements, elem_of_dom, Hall. lia. }
  apply submseteq_length in Hsub. unfold names in Hsub. rewrite length_fmap, length_seq in Hsub.
  assert (length (elements (dom guests)) = size guests) by (by rewrite <-(size_dom (D := gset string))). lia.
Qed.

(** A guest always gets a name.  The loop ends after at most as many
    rounds as there are guests, with the first number from the random one on
    whose name nobody has, in whatever case; the name is entered in the
    directory of guests, nobody else's entry changes, and the handler goes on
    with it. *)
Theorem GenerateUsername_correct env u k s x :
  sockets s !! u = Some x → username_ x = EmptyString →
  (1000 ≤ guest_number env ≤ 99999)%Z → (Z.of_nat (size (guests_ s)) < 2 ^ 32 - 100000)%Z →
  ∃ num, (guest_number env ≤ num ≤ guest_number env + Z.of_nat (size (guests_ s)))%Z ∧
    guests_ s !! fold_case (guest_name num) = None ∧
    (∀ i, (guest_number env ≤ i < num)%Z → is_Some (guests_ s !! fold_case (guest_name i))) ∧
    GenerateUsername env u k s = k (guest_name num)
      (set_sockets (alter (set_username (guest_name num)) u (sockets s))
         (set_guests (<[fold_case (guest_name num) := u]> (guests_ s)) s)).
Proof.
  intros Hx Hname Hrng Hsize.
  pose proof (free_number_spec (Datatypes.S (size (guests_ s))) (guest_number env) (guests_ s)
    ltac:(lia) ltac:(lia)) as Hspec.
  unfold GenerateUsername, with_state.
  destruct (free_number _ _ _) as [num|]; [|by apply not_all_taken in Hspec].
  destruct Hspec as (Hnum & Hfree & Hall). exists num. split_and!; [lia|lia|done|done|].
  unfold seq at 1, modify at 1. cbn [mbind option_bind]. unfold seq.
  unfold SetUserData, with_socket. cbn [sockets set_guests]. rewrite Hx, Hname. cbn.
  unfold seq, update_socket, modify, skip. cbn.
  by destruct (k _ _) as [[s1 e1]|].
Qed.

(** *** Chat *)

(** A message to every member of a channel, in some order, and nothing else. *)
Definition to_members (m : msg) (ch : user_channel U) : list server_event :=
  (λ p, SAct (Queue p.1 m)) <$> members ch.

Lemma ForEachSocket_queue (m : msg) (ch : user_channel U) :
  ForEachSocket (λ u _, [Queue u m]) ch = (λ p, Queue p.1 m) <$> members ch.
Proof. unfold ForEachSocket. induction (members ch) as [|p l IH]; [done|]. cbn. by f_equal. Qed.

Lemma GetChannel_send env id name type message timestamp s ch room m :
  channel_of id s = Some ch →
  AddUserMessage name type message timestamp (chat_room_ ch) = Some (room, m) →
  ∃ s', GetChannel env id (send_message name type message timestamp) s
      = Some (s', to_members (MChatMessage m) ch) ∧
    sockets s' = sockets s ∧
    channel_of id s' = Some (UserChannel.with_chat_room room ch) ∧
    ∀ id', id' ≠ id → channel_of id' s' = channel_of id' s.
Proof.
  unfold channel_of, GetChannel. destruct (Z.eqb_spec id global_channel_id) as [->|Hid].
  - intros [= <-] Hadd. unfold on_global, send_message. rewrite Hadd. cbn [mbind option_bind].
    eexists. split.
    { f_equal. f_equal. unfold BroadcastMessage. cbn [has_recording no_base app].
      rewrite ForEachSocket_queue. unfold to_members, members. cbn. by rewrite List.map_map. }
    split_and!; [done|done|]. intros id' Hne. by destruct (Z.eqb_spec id' global_channel_id).
  - unfold on_vm. destruct (GetAdminVirtualMachine id (virtual_machines_ s)) as [vm|] eqn:Hvm; [|done].
    intros [= <-] Hadd. unfold vm_channel, GetUserChannel, send_message. rewrite Hadd. cbn [mbind option_bind].
    eexists. split.
    { f_equal. f_equal. unfold BroadcastMessage. cbn [has_recording vm_channel_base app].
      rewrite ForEachSocket_queue. unfold to_members, members, perform, effects. cbn.
      induction (map_to_list _) as [|p l IH]; [done|]. cbn. by f_equal. }
    unfold GetAdminVirtualMachine, SetAdminVirtualMachine in *. cbn. split_and!; [done| |].
    + rewrite lookup_alter_eq. by destruct (admin_virtual_machines_ _ !! id).
    + intros id' Hne. destruct (Z.eqb_spec id' global_channel_id); [done|]. by rewrite lookup_alter_ne.
Qed.

(** C13: a chat message is delivered.  A message that is not empty, not too
    long and not too early, from a socket that has a name and from which no
    captcha is required, is queued once for every user of the channel it is
    sent to and for nobody else, with the sender's name and kind, if the name
    and the message fit into the slots of the history (longer ones are written
    past their end); it becomes the last entry of that channel's history, no
    other channel changes, and any chat message that the socket sends within
    the rate limit is dropped.  The sender need not be in the channel. *)
Theorem chat_message_delivered env u s x id message ch log :
  let now := steady_now (recording_env env) in
  let e := ChatEntry (username_ x) (GetUserType x) message (system_now (recording_env env) / 1000) in
  sockets s !! u = Some x → is_captcha_required_ x = false → username_ x ≠ EmptyString →
  (0 < Z.of_nat (String.length message) ≤ max_chat_message_len)%Z →
  (chat_rate_limit ≤ now - last_chat_message_ x)%Z →
  channel_of id s = Some ch → refines MaxUsernameLen MaxMessageLen default_user_type log (chat_room_ ch) →
  entry_fits MaxUsernameLen MaxMessageLen e →
  ∃ s' room m, HandleMessage env u (CHAT_MESSAGE (TO_VM id) message) s
      = Some (s', to_members (MChatMessage m) ch) ∧
    ccm_message m = ChatMessage (username_ x) message (GetUserType x) (entry_timestamp e) ∧
    channel_of id s' = Some (UserChannel.with_chat_room room ch) ∧
    refines MaxUsernameLen MaxMessageLen default_user_type (log ++ [e]) room ∧
    (∀ id', id' ≠ id → channel_of id' s' = channel_of id' s) ∧
    (∀ env' d text, (steady_now (recording_env env') - now < chat_rate_limit)%Z →
       HandleMessage env' u (CHAT_MESSAGE d text) s' = Some (s', [])).
Proof.
  intros now e Hx Hc Hname Hlen Hrate Hch Hlog Hfits.
  destruct (AddUserMessage_refines MaxUsernameLen MaxMessageLen default_user_type log (chat_room_ ch) e
    Hlog Hfits) as (room & Hadd & _ & Hroom).
  set (s1 := set_sockets (alter (set_last_chat_message now) u (sockets s)) s).
  destruct (GetChannel_send env id (username_ x) (GetUserType x) message (entry_timestamp e) s1 ch room _
    Hch Hadd) as (s' & Hsend & Hsock & Hch' & Hother).
  exists s', room, (ChannelChatMessage (room_id (chat_room_ ch))
    (ChatMessage (username_ x) message (GetUserType x) (entry_timestamp e))).
  split_and!; [|done|done|done|done|].
  - cbn [HandleMessage]. unfold ChatMessageMessage, with_socket. rewrite Hx, Hc.
    rewrite (proj2 (Z.eqb_neq _ _)) by lia. rewrite (proj2 (Z.ltb_ge _ _)) by lia.
    rewrite (proj2 (Z.ltb_ge _ _)) by (unfold now in *; lia). cbn [orb].
    unfold seq, update_socket, modify. cbn [mbind option_bind].
    unfold ChatMessageTo, with_socket. cbn [sockets set_sockets]. rewrite lookup_alter_eq, Hx. cbn [fmap option_fmap option_map].
    rewrite (proj2 (String.eqb_neq (username_ _) EmptyString)) by done. cbn [negb when].
    unfold s1 in Hsend. fold now. unfold GetUserType in *. cbn in Hsend |- *. by rewrite Hsend.
  - intros env' d text Hearly. cbn [HandleMessage]. unfold ChatMessageMessage, with_socket.
    rewrite Hsock. unfold s1. cbn [sockets set_sockets]. rewrite lookup_alter_eq, Hx.
    cbn [fmap option_fmap option_map last_chat_message_ set_last_chat_message].
    rewrite (proj2 (Z.ltb_lt _ chat_rate_limit)) by done. by rewrite orb_true_r.
Qed.

(** *** Registering with an invite *)

Lemma invite_username_mismatch_spec valid_username requested_username :
  invite_username_mismatch valid_username requested_username = false ↔
  String.length requested_username = if String.eqb valid_username EmptyString then 1 else 0.
Proof.
  unfold invite_username_mismatch. rewrite negb_false_iff, Z.eqb_eq, Z.lxor_eq_0_iff.
  destruct (String.eqb _ _); lia.
Qed.

(** A session that is created under a name has that name. *)
Lemma CreateSession_name t name ip random d r d' (row : User) :
  db_wf bind_blob d → Database.GetUser name d = Some row →
  CreateSession bind_blob t name ip random d = Some (r, d') →
  (session_username r = name ∨ session_username r = EmptyString) ∧ is_Some (Database.GetUser name d').
Proof.
  intros Hwf Hg. induction random as [|id random IH]; [done|]. cbn [CreateSession]. rewrite Hg.
  case_match; [intros [= <- <-]; split; [by right|by eexists]|].
  destruct (UpdateUser _ _ _) as [e|d1] eqn:Hu; [done|]. intros [= <- <-].
  destruct (GetUser_In _ _ _ Hg) as (r0 & _ & -> & Hn). split; [by left|].
  eapply UpdateUser_GetUser in Hu as [Hg' _]; [by eexists|done|exact Hg|done|done].
Qed.

(** Registering with an invite.  An invite identifier of another length
    than an invite's terminates the server.  An identifier that is not of an
    open invite is refused, and so is a request that names a user when the
    invite already does.  An invite without a user name is refused unless the
    requested name has exactly one character, and then the account gets the
    empty name instead: it is created, the invite is used up, but no session
    begins and the client is told nothing. *)
Theorem registration_with_invite env u s x r :
  sockets s !! u = Some x → reg_invite_id r ≠ [] → db_wf bind_blob (db_ s) →
  let run := HandleMessage env u (ACCOUNT_REGISTRATION_REQUEST r) s in
  let refused := Some (s, [SAct (Queue u (MRegisterError INVITE_INVALID))]) in
  (List.length (reg_invite_id r) ≠ invite_id_len → run = None) ∧
  (List.length (reg_invite_id r) = invite_id_len →
    let '(is_open, name) := ValidateInvite (reg_invite_id r) (db_ s) in
    let expected := if String.eqb name EmptyString then 1 else 0 in
    (is_open = false ∨ String.length (reg_username r) ≠ expected → run = refused) ∧
    (is_open = true → String.length (reg_username r) = expected → run = RegisterAs env u r name s) ∧
    (∀ d session d', is_open = true → String.length (reg_username r) = expected → name = EmptyString →
      String.length (reg_password r) ≤ max_password_len → reg_two_factor_token r = None →
      CreateAccount hash_password bind_blob name (reg_password r) None (Some (reg_invite_id r))
        (socket_ip x) (password_salt env) (system_now (recording_env env) / 1000) (db_ s) = (Register_SUCCESS, d) →
      CreateSession bind_blob (system_now (recording_env env) / 1000) name (socket_ip x) (random_ids env) d
        = Some (session, d') →
      run = Some (set_db d' s, []) ∧ is_Some (Database.GetUser EmptyString d'))).
Proof.
  intros Hx Hne Hwf run refused.
  assert (Hrun : run = RunRegister env u r s).
  { unfold run. cbn [HandleMessage]. unfold AccountRegistration. by destruct (reg_invite_id r). }
  assert (Hreg : run = (if negb (fits_invite_span (reg_invite_id r)) then None else
    let '(is_valid, name) := ValidateInvite (reg_invite_id r) (db_ s) in
    if negb is_valid || invite_username_mismatch name (reg_username r) then refused
    else RegisterAs env u r name s)).
  { rewrite Hrun. unfold RunRegister, with_state. destruct (reg_invite_id r) as [|b l] eqn:Hid; [done|].
    destruct (fits_invite_span _); [|done]. cbn [negb]. destruct (ValidateInvite _ _) as [ok name].
    by destruct (negb ok || _). }
  rewrite Hreg. clear Hrun Hreg run. unfold fits_invite_span. split.
  { intros Hlen. by rewrite (proj2 (Nat.eqb_neq _ _)). }
  intros Hlen. rewrite Hlen, Nat.eqb_refl. cbn [negb].
  destruct (ValidateInvite _ _) as [is_open name] eqn:Hvalid. set (expected := if String.eqb name EmptyString then 1 else 0).
  pose proof (invite_username_mismatch_spec name (reg_username r)) as Hmis. fold expected in Hmis.
  assert (Hok : is_open = true → String.length (reg_username r) = expected →
    negb is_open || invite_username_mismatch name (reg_username r) = false).
  { intros -> Heq. by apply Hmis in Heq as ->. }
  split_and!.
  - intros [->|Hn]; [done|]. destruct is_open; [|done]. cbn [negb orb].
    destruct (invite_username_mismatch _ _); [done|]. by destruct Hn; apply Hmis.
  - intros Ho He. by rewrite (Hok Ho He).
  - intros d session d' Ho He -> Hpw Htotp Hacc Hses. rewrite (Hok Ho He).
    unfold RegisterAs. rewrite (proj2 (Nat.ltb_ge _ _)) by done. rewrite Htotp.
    unfold with_socket, with_state. rewrite Hx.
    destruct (reg_invite_id r) as [|b l] eqn:Hid; [done|]. rewrite Hacc. cbn iota.
    rewrite decide_True by done. unfold seq at 1, modify at 1. cbn [mbind option_bind].
    unfold ServerCreateSession, with_socket, with_state. cbn [sockets set_db db_]. rewrite Hx, Hses.
    pose proof (CreateAccount_wf hash_password bind_blob EmptyString (reg_password r) None (Some (b :: l)) (socket_ip x)
      (password_salt env) (system_now (recording_env env) / 1000) (db_ s) Hwf) as Hwf'. rewrite Hacc in Hwf'.
    pose proof (CreateAccount_success hash_password bind_blob _ _ _ _ _ _ _ _ _ Hacc) as [_ Hc].
    apply CreateUser_GetUser in Hc as [Hg _]. cbn [user_username new_user] in Hg.
    destruct (CreateSession_name _ _ _ _ _ _ _ _ Hwf' Hg Hses) as [Hname Hsome].
    assert (session_username session = EmptyString) as -> by by destruct Hname.
    split; [done|exact Hsome].
Qed.
End Server.
Arguments server_env : clear implicits.

(** ** Concrete runs *)

Module ServerDemo.
#[local] Instance view_schema : GuacSchema guac_view := id.
#[local] Instance unit_client : GuacClientSchema unit guac_view := {
  client_which _ := C_OTHER; server_mouse _ _ _ _ := G_MOUSE; server_key _ _ _ := G_KEY }.
#[local] Instance demo_server_schema : ServerSchema demo_value := {
  server_fields_count := 7;
  server_clear_value i := if decide (i < 2) then VBool false else VNum 0;
  ALLOW_ACCOUNT_REGISTRATION := 0; getAllowAccountRegistration := demo_bool;
  MAX_CONNECTIONS_ENABLED := 1; getMaxConnectionsEnabled := demo_bool;
  MAX_CONNECTIONS := 2; getMaxConnections := demo_num;
  CAPTCHA_REQUIRED := 3; getCaptchaRequired := demo_bool;
  CAPTCHA := 4; RECORDINGS := 5; getRecordings _ := RecordingSettings false false false 0 0;
  BAN_IP_COMMAND := 6; getBanIpCommand := demo_text }.

Definition env (t : Z) : server_env :=
  ServerEnv (RecEnv t t false "now"%string true (λ _, true) true true) [[1%Z]; [2%Z]] [7%Z] 1234.
Abbreviation state := (server (T := list_timer) (U := nat) (G := guac_view) (V := demo_value)).
Abbreviation message := (client_message (V := demo_value) (C := unit)).

Definition ip : list Z := replicate 16 1%Z.
Definition invite : list Z := replicate 32 5%Z.
Definition db0 : database :=
  match CreateInvite "friends" EmptyString false [invite] database_new with
  | Some (_, d) => d | None => database_new end.

Definition room : chat_room := chat_room_new 20 100 GUEST 0.
(** One guest, one socket that has just connected and must solve a captcha. *)
Definition s0 : state :=
  Server {[1 := set_username "guest1234" (socket_new ip); 2 := set_captcha_required true (socket_new ip)]}
    {["GUEST1234"%string := 1]} (channel_new room) vm_list_new db0 ∅ ∅ ∅ ∅ [] [].

(** [thm] at the parameters of this module. *)
Abbreviation at_demo thm := (thm 5%Z (λ _, 8%Z) (λ _, 16%Z) (λ _, "1"%string) (λ _, ["hostname"%string])
  (λ _, true) (λ _, []) (λ _, None) (λ n, negb (String.eqb n "")) 100%Z 1%Z 1%Z (λ _, true)
  20 100 GUEST DatabaseDemo.hash DatabaseDemo.bind (λ _, EmptyString)).

Definition handle (e : server_env) (u : nat) (m : message) (s : state) := at_demo HandleMessage e u m s.


(** One connection per address. *)
Definition limited0 : state :=
  set_sockets ∅ (set_server_config ∅ [Setting 0 (VNum 0); Setting 1 (VBool true); Setting 2 (VNum 1)] s0).
Abbreviation exec := (at_demo server_exec).
Definition limited1 : state := default limited0 (fst <$> exec (env 1) (Accept 1 ip) limited0).

Lemma connection_limit_witness :
  default 0%Z (connections limited1 !! ip) = 1%Z ∧
  ∃ s', exec (env 2) (Accept 2 ip) limited1 = Some (s', [SAct (CloseSocket 2)]).
Proof.
  assert (at_demo connections_reachable limited1 {[1 := ip]}) as Hr.
  { eapply connections_next with (s := limited0) (live := ∅) (env := env 1) (op := Accept 1 ip);
      [by apply connections_start|split; [done|split; [done|by vm_compute; lia]]|by vm_compute]. }
  destruct (at_demo connection_limit limited1 {[1 := ip]} (env 2) 2 ip Hr) as [Hc Ha].
  split; [by rewrite Hc|].
  destruct Ha as [s' Hs']; [done|by vm_compute|by vm_compute; lia|].
  exists s'. exact Hs'.
Defined.

Definition admin0 : state :=
  set_sockets {[3 := set_login true (socket_new ip)]}
    (set_server_config ∅ [Setting 0 (VNum 0); Setting 1 (VNum 0); Setting 2 (VNum 0); Setting 3 (VNum 0); Setting 4 (VNum 0);
      Setting 5 (VNum 0); Setting 6 (VText "ban")] s0).
Lemma ban_roundtrip_witness :
  handle (env 9) 3 (BAN_IP 72340172838076673 72340172838076673) admin0 =
  Some (admin0, [SExecuteCommandAsync EmptyString "ban"]).
Proof.
  refine (at_demo ban_roundtrip (env 9) 3 admin0 (set_login true (socket_new ip))
    (MkUserData "bob" GUEST ip no_vote_data) eq_refl eq_refl eq_refl _).
  repeat constructor; done.
Defined.

Lemma captcha_gate_witness : handle (env 9) 2 (CHAT_MESSAGE (TO_VM 0) "hi") s0 = Some (s0, []).
Proof.
  exact (proj1 (at_demo captcha_gate (env 9) 2 s0
    (set_captcha_required true (socket_new ip)) eq_refl eq_refl) (CHAT_MESSAGE (TO_VM 0) "hi") eq_refl).
Defined.

(** The drawn number is taken, so the next one is used. *)
Lemma GenerateUsername_correct_witness :
  ∃ s', GenerateUsername (C := unit) (λ _, []) (env 9) 2 (λ _, skip) s0 = Some (s', []) ∧
    guests_ s' = {["GUEST1234"%string := 1; "GUEST1235"%string := 2]}.
Proof.
  destruct (GenerateUsername_correct (C := unit) (λ _, []) (env 9) 2 (λ _, skip) s0
    (set_captcha_required true (socket_new ip)) eq_refl eq_refl ltac:(done) ltac:(by vm_compute))
    as (num & Hnum & Hfree & Htaken & ->).
  eexists. split; [reflexivity|]. cbn.
  assert (Hsize : size (guests_ s0) = 1) by by vm_compute. rewrite Hsize in Hnum. cbn in Hnum.
  assert (Hcases : (num = 1234 ∨ num = 1235)%Z) by (clear -Hnum; lia).
  destruct Hcases as [->| ->].
  - clear -Hfree. vm_compute in Hfree. discriminate Hfree.
  - clear. vm_compute. reflexivity.
Defined.

(** The guest enters the global chat, then says something. *)
Definition s1 : state := from_option fst s0 (handle (env 9) 1 (CONNECT_TO_CHANNEL 0) s0).

Lemma chat_message_delivered_witness :
  ∃ s' m, handle (env 9) 1 (CHAT_MESSAGE (TO_VM 0) "hello") s1 = Some (s', [SAct (Queue 1 (MChatMessage m))]) ∧
    msg_message (ccm_message m) = "hello"%string.
Proof.
  destruct (sockets s1 !! 1) as [x|] eqn:Hx; [|by vm_compute in Hx].
  assert (Hsock : is_captcha_required_ x = false ∧ username_ x = "guest1234"%string ∧ last_chat_message_ x = 0%Z)
    by (vm_compute in Hx; injection Hx as <-; by split_and!).
  destruct Hsock as (Hc & Hn & Hl).
  destruct (at_demo chat_message_delivered (env 9) 1 s1 x 0%Z "hello"%string (global_chat_room_ s1) [])
    as (s' & r & m & Hrun & Hm & _).
  - exact Hx.
  - exact Hc.
  - by rewrite Hn.
  - by cbn.
  - rewrite Hl. by cbn.
  - reflexivity.
  - apply refines_new.
  - rewrite Hn. by split; vm_compute; lia.
  - exists s', m. split; [|by rewrite Hm].
    etrans; [exact Hrun|]. clear. vm_compute. reflexivity.
Defined.

(** An invite that names nobody, and a request for the name "x". *)
Definition request : registration := Registration "x" "pw" None invite "".

Lemma db0_wf : db_wf DatabaseDemo.bind db0.
Proof.
  eapply (CreateInvite_wf _ "friends" EmptyString false [invite]); [apply database_new_wf|reflexivity].
Qed.

Lemma registration_with_invite_witness :
  ∃ d, handle (env 9) 1 (ACCOUNT_REGISTRATION_REQUEST request) s0 = Some (set_db d s0, []) ∧
    is_Some (Database.GetUser EmptyString d).
Proof.
  destruct (CreateAccount DatabaseDemo.hash DatabaseDemo.bind EmptyString "pw" None (Some invite) ip [7%Z] 0 db0)
    as [res d] eqn:Hacc.
  destruct (CreateSession DatabaseDemo.bind 0 EmptyString ip [[1%Z]; [2%Z]] d) as [[r d']|] eqn:Hses;
    [|vm_compute in Hacc; injection Hacc as <- <-; by vm_compute in Hses].
  assert (Hvalid : ValidateInvite (reg_invite_id request) (db_ s0) = (true, EmptyString))
    by (clear; vm_compute; reflexivity).
  pose proof (proj2 (at_demo registration_with_invite (env 9) 1 s0 (set_username "guest1234" (socket_new ip))
    request eq_refl ltac:(done) db0_wf) eq_refl) as Hinvite.
  rewrite Hvalid in Hinvite. destruct Hinvite as (_ & _ & Hrun). exists d'.
  apply (Hrun d r d'); [reflexivity|reflexivity|reflexivity|clear; vm_compute; lia|reflexivity| |exact Hses].
  assert (res = Register_SUCCESS) as -> by (clear -Hacc; vm_compute in Hacc; congruence). exact Hacc.
Defined.
End ServerDemo.
