(* ===== verification/Persistence.v ===== *)
(** * The database file and what a restart finds in it

    [Database::Database] creates the tables that a file lacks; a file without
    the machines' table gets a test machine and disabled captcha settings.
    [CollabVmServer::CollabVmServer] then reads the server's settings
    (ServerSettingsList) and builds the machines (VirtualMachinesList).

    While the server runs, the settings of a machine are in the machine and in
    the rows of VmConfig, and the server's settings in a list and in the rows
    of ServerConfig.  [persisted] says that the two agree. *)

From S2P Require Import Prelude Timer Captcha ChatRoom Settings Database ConfigStore UserChannel Recording GuacamoleClient AdminVm VmList.
From S2P Require Import Messages Server.
From Stdlib Require Import Ascii String.
From stdpp Require Import sorting list.

(** The setters of the generated schema that the source uses. *)
Class SettingBuilders (V : Type) := {
  setAutoStart : bool → V;
  setName : string → V;
  setDescription : string → V;
  setStartCommand : string → V;
  setStopCommand : string → V;
  setTurnsEnabled : bool → V;
  setTurnTime : Z → V;
  setProtocol : Protocol → V;
  setGuacamoleParameters : list (string * string) → V;
  setCaptcha : captcha_settings → V
}.

Section Persistence.
Context {T : Type → Type} `{SteadyTimer T}.
Context {U : Type} `{Countable U}.
Context {G V C : Type} `{GuacSchema G, VmSchema V, ServerSchema V, GuacClientSchema C G, SettingBuilders V}.
Abbreviation S := (setting V).
Abbreviation msg := (server_message G S).
Abbreviation server := (Server.server (T := T) (U := U) (G := G) (V := V)).
Abbreviation machine := (vm_state (T := T) (U := U) (G := G) (V := V)).
Abbreviation machine_list := (vm_list U machine).
Context (vote_limit : Z).
Context (message_size : msg → Z) (header_size : Z → Z) (to_string : Z → string).
Context (arg_names : Protocol → list string) (init_succeeds : Protocol → bool).
Context (guac_join : guac_client (G := G) → list G).
Context (screenshot : guac_client (G := G) → option (list Z)).
Context (ValidateUsername : string → bool) (max_chat_message_len : Z).
Context (chat_rate_limit username_change_rate_limit : Z).
Context (IsGuacamoleClientInstructionAllowed : C → bool).
Context (MaxUsernameLen MaxMessageLen : nat) (default_user_type : UserType).
Context (hash_password : string → list Z → list Z) (bind_blob : list Z → option (list Z)).
Context (ip_to_string : list Z → string).
Implicit Types (s : server) (l : machine_list) (env : server_env).

Abbreviation at_server thm := (thm vote_limit message_size header_size to_string arg_names init_succeeds
  guac_join screenshot ValidateUsername max_chat_message_len chat_rate_limit username_change_rate_limit
  IsGuacamoleClientInstructionAllowed MaxUsernameLen MaxMessageLen default_user_type hash_password bind_blob
  ip_to_string).
Abbreviation server_step := (at_server server_exec).
Abbreviation at_vm thm := (thm vote_limit message_size header_size to_string arg_names init_succeeds guac_join screenshot).

(** ** The file *)

Abbreviation vm_table := (gmap (Z * Z) S).
Abbreviation server_table := (gmap Z S).

(** A table that has not been created is [None]. *)
Record db_file := DbFile {
  User_table : option (list User * Z);          (* AUTOINCREMENT *)
  UserInvite_table : option (list UserInvite);
  UnavailableUsername_table : option (list string);
  ServerConfig_table : option server_table;
  VmConfig_table : option vm_table;
  Recordings_table : option (list Database.Recording)
}.

Definition no_file : db_file := DbFile None None None None None None.

(** [list[which].getSetting().setX(value)] *)
Definition set_setting (which : nat) (value : V) (settings : list S) : option (list S) :=
  if decide (which < List.length settings) then Some (<[which := Setting which value]> settings) else None.

Fixpoint set_settings (new : list (nat * V)) (settings : list S) : option (list S) :=
  match new with
  | [] => Some settings
  | (which, value) :: new => settings ← set_setting which value settings; set_settings new settings
  end.

(** As compiled for anything but Windows. *)
Definition test_vm : list (nat * V) :=
  [(AUTO_START, setAutoStart true); (NAME, setName "Test VM"); (DESCRIPTION, setDescription "draw stuff");
   (START_COMMAND, setStartCommand "./vnc-demo -listen localhost -rfbport 59000");
   (STOP_COMMAND, setStopCommand "pkill vnc-demo"); (TURNS_ENABLED, setTurnsEnabled true);
   (TURN_TIME, setTurnTime 30); (PROTOCOL, setProtocol VNC);
   (GUACAMOLE_PARAMETERS, setGuacamoleParameters [("hostname", "localhost"); ("port", "59000")])]%string.

Definition cleared_settings (n : nat) (clear_value : nat → V) : list S := cleared clear_value <$> seq 0 n.

Definition test_vm_settings : option (list S) :=
  set_settings test_vm (cleared_settings vm_fields_count vm_clear_value).

Definition CreateTestVm (t : vm_table) : option vm_table :=
  settings ← test_vm_settings; CreateVm (GetNewVmId t) settings t.

Definition recaptcha : captcha_settings :=
  CaptchaSettings false true "google.com" 443 "/recaptcha/api/siteverify"
    "secret=6LeIxAcTAAAAAGG-vFI1TnRWxMZNFuojJ4WifJWe&response=$TOKEN" "success".

Definition SetReCaptchaSettings (t : server_table) : option server_table :=
  '(_, t) ← LoadServerSettings server_fields_count server_clear_value
              (InitSettings server_clear_value server_fields_count) t;
  Some (SaveServerSettings [Setting CAPTCHA (setCaptcha recaptcha)] t).

(** [Database::Database] *)
Definition OpenDatabase (f : db_file) : option (database * vm_table * server_table) :=
  let '(rows, next_id) := default ([], 1%Z) (User_table f) in
  let d := MkDatabase rows next_id (default [] (UserInvite_table f)) (default [] (UnavailableUsername_table f))
             (default [] (Recordings_table f)) in
  let server_config := default ∅ (ServerConfig_table f) in
  match VmConfig_table f with
  | Some vm_config => Some (d, vm_config, server_config)
  | None =>
      vm_config ← CreateTestVm ∅;
      server_config ← SetReCaptchaSettings server_config;
      Some (d, vm_config, server_config)
  end.

(** What a running server has written: every statement is committed at once. *)
Definition database_file s : db_file :=
  let d := db_ s in
  DbFile (Some (users d, next_user_id d)) (Some (invites d)) (Some (unavailable_usernames d))
    (Some (server_config s)) (Some (vm_config s)) (Some (recordings d)).

(** ** The server that is built from it *)

Definition machine_new (id : Z) (settings : list S) : machine :=
  vm_new id (chat_room_new MaxUsernameLen MaxMessageLen default_user_type id) settings.

(** [emplace] keeps a machine that is there; every machine writes its
    information into the next element. *)
Fixpoint EmplaceVms (vms : list (Z * list S)) (i : nat) l : option machine_list :=
  match vms with
  | [] => Some l
  | (id, settings) :: vms =>
      let vm := machine_new id settings in
      infos ← set_element i (SetAdminVmInfo vm) (admin_vm_info_list_ l);
      let machines :=
        match admin_virtual_machines_ l !! id with
        | Some _ => admin_virtual_machines_ l
        | None => <[id := AdminVm (next_object l) vm false None None]> (admin_virtual_machines_ l)
        end in
      EmplaceVms vms (Datatypes.S i)
        (VmList machines (Datatypes.S (next_object l)) (vm_info_list_ l) infos (vm_list_viewers_ l)
          (admin_vm_list_viewers_ l) (thumbnails_ l) (pending_vm_info_requests_ l) (pending_vm_info_updates_ l))
  end.

(** [VirtualMachinesList::VirtualMachinesList]: the rows, the repaired table
    and the list. *)
Definition VirtualMachinesList_new (t : vm_table) : option (vm_table * machine_list) :=
  let count := Z.to_nat (GetVmCount t) in
  '(t, vms) ← LoadVms vm_fields_count vm_clear_value t;
  l ← EmplaceVms vms 0 (with_admin_list (replicate count default_admin_vm_info) vm_list_new);
  Some (t, l).

Definition CollabVmServer_new (f : db_file) : option server :=
  '(d, vm_config, server_config) ← OpenDatabase f;
  '(server_settings, server_config) ← LoadServerSettings server_fields_count server_clear_value
      (InitSettings server_clear_value server_fields_count) server_config;
  '(vm_config, l) ← VirtualMachinesList_new vm_config;
  Some (Server.Server ∅ ∅ (channel_new (chat_room_new MaxUsernameLen MaxMessageLen default_user_type global_channel_id))
          l d vm_config server_config ∅ ∅ server_settings []).
(** ** The constructors never fail *)

Context (Hvm_fields : (0 < vm_fields_count ≤ 256)%nat) (Hserver_fields : (0 < server_fields_count ≤ 256)%nat).

Definition settings_of l : gmap Z (list S) := (λ vm : machine, settings_ vm.2) <$> machines_of l.

Abbreviation machines_new vms := (list_to_map ((λ p : Z * list S, (p.1, machine_new p.1 p.2)) <$> vms) : gmap Z machine).

Lemma EmplaceVms_machines vms i l :
  NoDup vms.*1 → (∀ id, id ∈ vms.*1 → machines_of l !! id = None) →
  i + List.length vms ≤ List.length (admin_vm_info_list_ l) →
  ∃ l', EmplaceVms vms i l = Some l' ∧ machines_of l' = machines_new vms ∪ machines_of l.
Proof.
  revert i l. induction vms as [|[id settings] vms IH]; intros i l Hnd Hnone Hlen; cbn [EmplaceVms].
  { exists l. split; [done|]. cbn. by rewrite (left_id_L ∅ (∪)). }
  cbn [List.length] in Hlen. unfold set_element. rewrite decide_True by lia. cbn [mbind option_bind].
  rewrite fmap_cons in Hnd, Hnone. apply list.NoDup_cons in Hnd as [Hid Hnd].
  pose proof (Hnone id ltac:(by left)) as Hno. unfold machines_of in Hno. rewrite lookup_fmap in Hno.
  apply fmap_None in Hno. rewrite Hno.
  match goal with |- context [EmplaceVms vms _ ?l1] => destruct (IH (Datatypes.S i) l1) as (l' & -> & Hl') end; [done| | |].
  - intros id' Hin. unfold machines_of. cbn. rewrite lookup_fmap, lookup_insert_ne by (intros ->; done).
    rewrite <-lookup_fmap. apply Hnone. by right.
  - cbn. rewrite length_insert. lia.
  - exists l'. split; [done|]. rewrite Hl'. unfold machines_of. cbn. rewrite fmap_insert. cbn.
    rewrite <-insert_union_r; [by rewrite <-insert_union_l|].
    apply not_elem_of_list_to_map_1. rewrite <-list_fmap_compose. exact Hid.
Qed.

(** Identifiers are 32 bits wide and never 0. *)
Definition vm_id_ok (id : Z) : Prop := (1 ≤ id < 2 ^ 32)%Z.

Lemma ids_bounded {A} (m : gmap Z A) :
  (∀ id, is_Some (m !! id) → vm_id_ok id) → (Z.of_nat (size m) < 2 ^ 32)%Z.
Proof.
  intros Hm. rewrite <-size_dom.
  assert (dom m ⊆ list_to_set (C := gset Z) (seqZ 1 (2 ^ 32 - 1))) as Hsub.
  { intros id Hid%elem_of_dom. apply elem_of_list_to_set, elem_of_seqZ. specialize (Hm id Hid). unfold vm_id_ok in Hm. lia. }
  apply subseteq_size in Hsub. rewrite size_list_to_set in Hsub by apply NoDup_seqZ.
  rewrite length_seqZ in Hsub. lia.
Qed.

Lemma VirtualMachinesList_new_spec m t :
  holds vm_fields_count m t → (∀ id, is_Some (m !! id) → vm_id_ok id) →
  ∃ t' l, VirtualMachinesList_new t = Some (t', l) ∧
    represents vm_fields_count (completed vm_fields_count vm_clear_value <$> m) t' ∧
    machines_of l = map_imap (λ id settings, Some (machine_new id settings))
                      (completed vm_fields_count vm_clear_value <$> m).
Proof.
  intros Ht Hids. unfold VirtualMachinesList_new. set (full := completed vm_fields_count vm_clear_value).
  destruct (LoadVms_holds vm_fields_count vm_clear_value Hvm_fields m t Ht) as (t' & -> & Ht'). cbn [mbind option_bind]. fold full in Ht' |- *.
  destruct (sorted_ids_spec m) as (Hnd & _ & Hin).
  assert (((λ vm, (vm, full (default [] (m !! vm)))) <$> sorted_ids m).*1 = sorted_ids m) as Hfst.
  { rewrite <-list_fmap_compose. apply list_fmap_id. }
  assert (GetVmCount t = Z.of_nat (size m)) as Hcount.
  { unfold GetVmCount. assert (vm_ids t = dom m) as ->.
    { apply set_eq. intros id. rewrite elem_of_dom. unfold vm_ids. rewrite elem_of_map. split.
      - intros ([id' k] & -> & [s Hs]%elem_of_dom). cbn. rewrite (proj1 Ht) in Hs. destruct (m !! id'); [by eexists|done].
      - intros [settings Hl]. exists (id, 0%Z). split; [done|]. apply elem_of_dom. rewrite (proj1 Ht), Hl. cbn.
        unfold cell. cbn. apply lookup_lt_is_Some. destruct (proj2 Ht id settings Hl). lia. }
    rewrite size_dom. apply u32_small. pose proof (ids_bounded m Hids). lia. }
  destruct (EmplaceVms_machines ((λ vm, (vm, full (default [] (m !! vm)))) <$> sorted_ids m) 0
    (with_admin_list (replicate (Z.to_nat (GetVmCount t)) default_admin_vm_info) vm_list_new)) as (l & Hl & Hm).
  - by rewrite Hfst.
  - done.
  - cbn. rewrite length_replicate, length_fmap, Hcount, Nat2Z.id. unfold sorted_ids.
    rewrite merge_sort_Permutation. rewrite <-size_dom. done.
  - exists t', l. rewrite Hl. split_and!; [done|done|]. rewrite Hm. change (machines_of (with_admin_list _ _)) with (∅ : gmap Z machine).
    rewrite (right_id_L ∅ (∪)). apply map_eq. intros id. rewrite map_lookup_imap, lookup_fmap.
    rewrite <-list_fmap_compose. destruct (m !! id) as [settings|] eqn:Hs; cbn.
    + apply elem_of_list_to_map_1; [by rewrite <-list_fmap_compose, list_fmap_id|].
      apply list_elem_of_fmap. exists id. split; [by cbn; rewrite Hs|]. apply Hin. by exists settings.
    + apply not_elem_of_list_to_map_1. rewrite <-list_fmap_compose, list_fmap_id. intros [? Hx]%Hin. congruence.
Qed.

Lemma machine_new_settings id settings :
  settings_wf vm_fields_count settings → settings_ (machine_new id settings).2 = settings.
Proof. intros [Hl _]. cbn. unfold GetInitialSettings. by rewrite decide_True. Qed.

(** ** Memory and tables agree *)

Record persisted s : Prop := {
  ps_machines : represents vm_fields_count (settings_of (virtual_machines_ s)) (vm_config s);
  ps_ids id : is_Some (machines_of (virtual_machines_ s) !! id) → vm_id_ok id;
  ps_server : holds_server (server_settings s) (server_config s);
  ps_server_wf : settings_wf server_fields_count (server_settings s)
}.

(** What the handlers do that are not about the configuration. *)
Record same_store s s' : Prop := {
  ss_vm_config : vm_config s' = vm_config s;
  ss_server_config : server_config s' = server_config s;
  ss_server_settings : server_settings s' = server_settings s;
  ss_machines : settings_of (virtual_machines_ s') = settings_of (virtual_machines_ s)
}.

#[export] Instance same_store_preorder : PreOrder same_store.
Proof. split; [by split|]. intros s1 s2 s3 [] []. split; congruence. Qed.

Lemma settings_of_ids s id : is_Some (machines_of (virtual_machines_ s) !! id) ↔ is_Some (settings_of (virtual_machines_ s) !! id).
Proof. unfold settings_of. by rewrite lookup_fmap, fmap_is_Some. Qed.

Lemma persisted_same s s' : same_store s s' → persisted s → persisted s'.
Proof.
  intros [Hv Hc Hs Hm] [Hr Hi Hh Hw].
  split; [by rewrite Hv, Hm| |by rewrite Hs, Hc|by rewrite Hs].
  intros id. rewrite settings_of_ids, Hm, <-settings_of_ids. apply Hi.
Qed.

Lemma settings_of_set id vm vm' l :
  GetAdminVirtualMachine id l = Some vm → settings_ vm'.2 = settings_ vm.2 →
  settings_of (SetAdminVirtualMachine id vm' l) = settings_of l.
Proof.
  rewrite GetAdminVirtualMachine_of. unfold settings_of. rewrite machines_of_set. intros Hvm Heq.
  apply map_eq. intros id'. rewrite !lookup_fmap. destruct (decide (id' = id)) as [->|Hne]; [|by rewrite lookup_alter_ne].
  rewrite lookup_alter_eq, Hvm. cbn. by rewrite Heq.
Qed.

Lemma settings_of_machines l l' : machines_of l' = machines_of l → settings_of l' = settings_of l.
Proof. unfold settings_of. by intros ->. Qed.

Lemma store_of_config except s s' : same_config except s s' → same_store s s'.
Proof.
  intros [Hs Hc Hv Hm _ _]. split; try done. apply map_eq. intros id. specialize (Hm id).
  rewrite !GetAdminVirtualMachine_of in Hm. unfold settings_of. rewrite !lookup_fmap.
  destruct (machines_of (virtual_machines_ s') !! id), (machines_of (virtual_machines_ s) !! id); try done.
  injection Hm as Hm _. cbn. by rewrite Hm.
Qed.

Lemma preserves_mono (R R' : server → server → Prop) f :
  (∀ s s', R s s' → R' s s') → preserves (C := C) R f → preserves R' f.
Proof. intros HR Hf s s' evs Hx. eapply HR, Hf, Hx. Qed.

Abbreviation Stores := (preserves (C := C) same_store).

Lemma store_run_vm env id op : updates_settings op = false → Stores (on_vm id (at_vm run_vm env op)).
Proof.
  intros Hop. apply preserves_on_vm; [apply _| |by split]. intros s vm vm' evs Hvm Hr.
  split; try done. eapply settings_of_set; [exact Hvm|]. unfold run_vm in Hr. by eapply vm_exec_settings.
Qed.

(** The rules of [preserves], and what is left: the modifications. *)
Ltac store_leaf :=
  first
    [ apply preserves_modify; by split
    | apply preserves_on_list; by split
    | apply preserves_on_global; by split
    | apply store_run_vm; done ].
Ltac stores :=
  unfold as_admin, RegisterError, Verify, post, QueueMessage, CloseSocket_ in *;
  repeat
    (match goal with
     | |- preserves _ skip => apply preserves_skip
     | |- preserves _ abort => apply preserves_abort
     | |- preserves _ (emit _) => apply preserves_emit
     | |- preserves _ (Server.seq _ _) => apply preserves_seq
     | |- preserves _ (when _ _) => apply preserves_when
     | |- preserves _ (with_state _) => apply preserves_with_state; intros ?
     | |- preserves _ (with_socket _ _) => apply preserves_with_socket; intros ?
     | |- preserves _ (if _ then _ else _) => case_match
     | |- preserves _ (match _ with _ => _ end) => case_match
     end; try apply _);
  try store_leaf.

Lemma store_for_each_vm ids f : (∀ id, Stores (f id)) → Stores (for_each_vm ids f).
Proof. intros Hf. induction ids; cbn [for_each_vm]; stores; auto. Qed.

Lemma store_VmsCommand env op ids : updates_settings op = false → Stores (at_vm VmsCommand env op ids).
Proof. intros Hop. induction ids as [|id ids IH]; cbn [VmsCommand]; stores; done. Qed.

Lemma store_ApplyServerSettings env : Stores (at_vm ApplyServerSettings env).
Proof. unfold ApplyServerSettings. stores. apply store_for_each_vm. intros id. by apply store_run_vm. Qed.

Lemma store_session env u name k :
  (∀ n id, Stores (k n id)) → Stores (ServerCreateSession guac_join bind_blob env u name k).
Proof.
  intros Hk. unfold ServerCreateSession. stores; [|apply Hk].
  eapply preserves_mono; [apply (store_of_config None)|]. by apply config_SetUserData.
Qed.

Lemma store_list_answer f :
  (∀ l l' acts, f l = Some (l', acts) → machines_of l' = machines_of l) → Stores (list_answer f).
Proof.
  intros Hf s s' evs. unfold list_answer. destruct (f _) as [[l acts]|] eqn:Hl; [|done]. intros [= <- _].
  split; try done. by eapply settings_of_machines, Hf.
Qed.

Lemma store_ask_vm id answer gone : (∀ p, Stores (answer p)) → Stores gone → Stores (ask_vm screenshot id answer gone).
Proof.
  intros Ha Hg. unfold ask_vm. intros s s' evs. unfold with_state.
  destruct (GetAdminVirtualMachine _ _) as [vm|] eqn:Hvm; [|apply Hg].
  apply modify_then; [apply _| |apply Ha]. split; try done. eapply settings_of_set; [exact Hvm|].
  unfold SetVmInfo. by destruct (negb _).
Qed.

Lemma store_config except f : preserves (C := C) (same_config except) f → Stores f.
Proof. apply preserves_mono, store_of_config. Qed.

Lemma store_RegisterAs env u r name : Stores (RegisterAs guac_join hash_password bind_blob env u r name).
Proof. apply (store_config (Some u)), config_RegisterAs. Qed.

(** The messages of [HandleMessage] that write settings. *)
Definition writes_settings (m : client_message (V := V) (C := C)) : bool :=
  match m with SERVER_CONFIG_MODIFICATIONS _ | CREATE_VM _ | UPDATE_VM_CONFIG _ _ | DELETE_VM _ => true | _ => false end.

Lemma store_HandleMessage env u m : writes_settings m = false → Stores (at_server HandleMessage env u m).
Proof.
  intros Hw. destruct (needs_admin m) eqn:Hm; [|by eapply store_config, (at_server config_HandleMessage)].
  destruct m; try done; cbn [HandleMessage];
    unfold ServerConfigRequest, ReadVmConfig, CreateInviteMessage, ReadInvitesMessage, UpdateInviteMessage,
      DeleteInviteMessage, CreateReservedUsernameMessage, ReadReservedUsernamesMessage,
      DeleteReservedUsernameMessage, BanIp, SendCaptcha, KickUser, GetUser, SendAdminList, AdminVmCommand, to_my_vm;
    stores; by apply store_VmsCommand.
Qed.

Lemma store_RunContinuation env input k :
  Stores (RunContinuation guac_join screenshot ValidateUsername hash_password bind_blob env input k).
Proof.
  destruct k; cbn [RunContinuation]; unfold RunLogin, RunChangePassword, RunRegister; stores;
    try first [ apply store_RegisterAs | apply store_session; intros; stores ].
  - apply store_ask_vm; [|stores]. intros p'. apply store_list_answer. apply OnVmInfo_machines.
  - apply store_ask_vm; intros; apply store_list_answer; apply OnBulkVmInfo_machines.
Qed.

Lemma store_InfoTimer : Stores InfoTimer.
Proof.
  intros s s' evs. unfold InfoTimer, UpdateVirtualMachineInfoList. destruct (decide _); by intros [= <- _].
Qed.

Lemma store_channel env id f : keeps_base guac_join f → Stores (on_vm id (vm_channel guac_join env f)).
Proof. intros Hf. apply (store_config None), config_vm_channel, Hf. Qed.

(** Whatever runs, except the four messages and a machine's own update. *)
Definition writes_config (op : server_op (U := U) (G := G) (V := V) (C := C)) : bool :=
  match op with
  | Message _ m => writes_settings m
  | MachineStep _ op => updates_settings op
  | _ => false
  end.

Lemma store_exec env op : writes_config op = false → Stores (server_step env op).
Proof.
  intros Hw. destruct op as [u ip|u|u m|u|i input| | |auto| |id op]; cbn [server_exec].
  - unfold OnPreConnect. stores.
  - unfold OnConnect. stores.
  - by apply store_HandleMessage.
  - unfold OnDisconnect, LeaveServerConfig, LeaveVmList. stores. apply store_channel, leave_channel_keeps.
  - unfold RunLater. stores. apply store_RunContinuation.
  - apply store_InfoTimer.
  - apply store_ApplyServerSettings.
  - unfold ServerStart, StartMachine. stores. apply store_for_each_vm. intros id. stores.
  - unfold ServerStop. stores. apply store_for_each_vm. intros id. stores.
  - by apply store_run_vm.
Qed.

(** What the administrators' page sends: at most one value per setting, known
    settings only, and new machines while identifiers are left. *)
Definition config_op_ok s (op : server_op (U := U) (G := G) (V := V) (C := C)) : Prop :=
  match op with
  | Message _ (SERVER_CONFIG_MODIFICATIONS changed) =>
      NoDup (which <$> changed) ∧ Forall (known_setting server_fields_count) changed
  | Message _ (CREATE_VM initial) =>
      settings_wf vm_fields_count (GetInitialSettings vm_fields_count vm_clear_value initial) ∧
      ∀ id, is_Some (machines_of (virtual_machines_ s) !! id) → (id < 2 ^ 32 - 1)%Z
  | Message _ (UPDATE_VM_CONFIG _ modified) =>
      NoDup (which <$> modified) ∧ Forall (known_setting vm_fields_count) modified
  | MachineStep _ op => updates_settings op = false
  | _ => True
  end.

(** ** The messages that change the configuration *)

Lemma settings_of_lookup id vm l :
  GetAdminVirtualMachine id l = Some vm → settings_of l !! id = Some (settings_ vm.2).
Proof. rewrite GetAdminVirtualMachine_of. unfold settings_of. rewrite lookup_fmap. by intros ->. Qed.

Lemma as_admin_some u (f : server → option (server * list server_event)) s s' evs (P : Prop) :
  as_admin (C := C) u f s = Some (s', evs) → (s' = s → P) → (f s = Some (s', evs) → P) → P.
Proof.
  unfold as_admin, with_socket, when. destruct (sockets s !! u) as [x|]; [|by intros [= <- _] ? _; auto].
  destruct (is_admin_ x); [auto|]. intros [= <- _]. auto.
Qed.

Lemma persisted_ServerConfigModifications env u changed s s' evs :
  NoDup (which <$> changed) → Forall (known_setting server_fields_count) changed → persisted s →
  at_vm ServerConfigModifications env u changed s = Some (s', evs) → persisted s'.
Proof.
  intros Hnd Hk Hp Hx. apply (as_admin_some _ _ _ _ _ _ Hx); [by intros ->|]. clear Hx. unfold with_state.
  destruct Hp as [Hr Hi Hh Hw]. rewrite UpdateList_pick by (done || apply length_replicate).
  intros (s1 & e1 & e2 & [= <- _] & Hx)%seq_some. apply seq_some in Hx as (s2 & e3 & e4 & Ha%store_ApplyServerSettings & Hx).
  assert (same_store s2 s') as Hs2 by (unfold on_list in Hx; injection Hx as <- _; by split).
  eapply persisted_same; [exact Hs2|]. eapply persisted_same; [exact Ha|]. split; cbn; [done|done| |].
  - by apply (SaveServerSettings_holds server_fields_count Hserver_fields).
  - by apply pick_settings_wf.
Qed.

Lemma persisted_CreateVm u initial s s' evs :
  settings_wf vm_fields_count (GetInitialSettings vm_fields_count vm_clear_value initial) →
  (∀ id, is_Some (machines_of (virtual_machines_ s) !! id) → (id < 2 ^ 32 - 1)%Z) → persisted s →
  CreateVmMessage (C := C) MaxUsernameLen MaxMessageLen default_user_type u initial s = Some (s', evs) → persisted s'.
Proof.
  intros Hwf Hids Hp Hx. apply (as_admin_some _ _ _ _ _ _ Hx); [by intros ->|]. clear Hx. unfold with_state.
  destruct Hp as [Hr Hi Hh Hw].
  destruct (GetNewVmId_fresh vm_fields_count Hvm_fields _ _ Hr) as [Hnew Hnew_id].
  { intros id Hid. apply Hids. by apply settings_of_ids. }
  set (id := GetNewVmId (vm_config s)) in *. unfold AddAdminVirtualMachine.
  destruct (admin_virtual_machines_ (virtual_machines_ s) !! id) as [a|] eqn:Ha.
  { unfold settings_of, machines_of in Hnew. by rewrite !lookup_fmap, Ha in Hnew. }
  destruct (CreateVm_represents vm_fields_count Hvm_fields _ _ id _ Hr Hnew Hwf) as (t & Ht & Hrt).
  change (settings_ (vm_new id _ initial).2) with (GetInitialSettings vm_fields_count vm_clear_value initial).
  rewrite Ht. unfold QueueMessage, SendAdminList, on_list, Server.seq, modify, emit. cbn. intros [= <- _].
  split; cbn; [|intros id'|done|done].
  - unfold settings_of, machines_of. cbn. by rewrite !fmap_insert.
  - unfold machines_of. cbn. rewrite fmap_insert. intros [vm [[<- _]|[_ Hid]]%lookup_insert_Some].
    + unfold vm_id_ok. lia.
    + apply Hi. by exists vm.
Qed.

Lemma persisted_UpdateVmConfig env u id modified s s' evs :
  NoDup (which <$> modified) → Forall (known_setting vm_fields_count) modified → persisted s →
  UpdateVmConfig (C := C) to_string arg_names guac_join env u id modified s = Some (s', evs) → persisted s'.
Proof.
  intros Hnd Hk Hp Hx. apply (as_admin_some _ _ _ _ _ _ Hx); [by intros ->|]. clear Hx. unfold with_state.
  destruct (GetAdminVirtualMachine id (virtual_machines_ s)) as [vm|] eqn:Hvm; [|by intros [= <- _]].
  pose proof (settings_of_lookup id vm _ Hvm) as Hset. pose proof (proj2 (ps_machines _ Hp) id _ Hset) as Hwf.
  destruct (UpdateSettings _ _ _ _ _ vm) as [[[valid vm'] e]|] eqn:Hu; [|done].
  destruct (UpdateSettings_settings to_string arg_names guac_join _ _ _ _ _ _ Hwf Hu) as [Hs' Hsame].
  destruct valid.
  - unfold when, post, Server.seq, modify, emit. cbn -[SetAdminVirtualMachine]. intros [= <- _]. destruct Hp as [Hr Hi Hh Hw].
    assert (settings_of (SetAdminVirtualMachine id vm' (virtual_machines_ s))
      = alter (fmap (pick modified)) id (settings_of (virtual_machines_ s))) as Heq.
    { unfold settings_of. rewrite machines_of_set. apply map_eq. intros id'. rewrite lookup_fmap.
      destruct (decide (id' = id)) as [->|Hne]; [|by rewrite !lookup_alter_ne, lookup_fmap by done].
      rewrite !lookup_alter_eq, lookup_fmap. rewrite <-GetAdminVirtualMachine_of, Hvm. cbn. by rewrite Hs'. }
    split; cbn -[SetAdminVirtualMachine]; [|intros id'|done|done].
    + rewrite Heq. by apply UpdateVmSettings_represents.
    + rewrite machines_of_set. intros Hid. apply Hi. revert Hid. by rewrite lookup_alter_is_Some.
  - specialize (Hsame eq_refl) as ->. unfold when, skip, Server.seq, modify, emit. cbn -[SetAdminVirtualMachine]. intros [= <- _].
    eapply persisted_same; [|exact Hp]. split; try done. by eapply settings_of_set.
Qed.

Lemma persisted_DeleteVm env u id s s' evs :
  persisted s → DeleteVmMessage (C := C) guac_join env u id s = Some (s', evs) → persisted s'.
Proof.
  intros Hp Hx. apply (as_admin_some _ _ _ _ _ _ Hx); [by intros ->|]. clear Hx. unfold with_state.
  destruct (GetAdminVirtualMachine id (virtual_machines_ s)) as [vm|] eqn:Hvm; [|by intros [= <- _]].
  destruct (VmStop _ _ vm) as [vm' e]. unfold RemoveAdminVirtualMachine.
  unfold GetAdminVirtualMachine in Hvm. destruct (admin_virtual_machines_ (virtual_machines_ s) !! id) as [a|]; [|done].
  destruct (RemoveFirst _ _) as [infos|]; [|done]. cbn [mbind option_bind].
  unfold SendAdminList, on_list, Server.seq, modify, emit. cbn -[with_admin_list with_machines]. intros [= <- _]. destruct Hp as [Hr Hi Hh Hw].
  assert (∀ l, machines_of (with_admin_list infos (with_machines (delete id (admin_virtual_machines_ l)) l))
    = delete id (machines_of l)) as Hm by (intros l; unfold machines_of; cbn; by rewrite fmap_delete).
  split; cbn -[with_admin_list with_machines]; [|intros id'|done|done].
  - unfold settings_of. rewrite Hm, fmap_delete. by apply DeleteVm_represents.
  - rewrite Hm. intros [x [_ Hid]%lookup_delete_Some]. apply Hi. by exists x.
Qed.

Lemma persisted_exec env op s s' evs :
  config_op_ok s op → server_step env op s = Some (s', evs) → persisted s → persisted s'.
Proof.
  intros Hok Hx Hp. destruct (writes_config op) eqn:Hw; [|by eapply persisted_same; [eapply store_exec|]].
  destruct op as [| |u m| | | | | | |id op]; try done; [|by cbn in *; congruence].
  destruct m; try done; cbn [server_exec HandleMessage config_op_ok] in *.
  - destruct Hok. by eapply persisted_ServerConfigModifications.
  - destruct Hok. by eapply persisted_CreateVm.
  - destruct Hok. by eapply persisted_UpdateVmConfig.
  - by eapply persisted_DeleteVm.
Qed.

(** ** Starting *)

Context (test_vm_known : Forall (λ p, p.1 < vm_fields_count) test_vm) (test_vm_once : NoDup test_vm.*1).
Context (captcha_known : CAPTCHA < server_fields_count).

Lemma set_settings_wf n (new : list (nat * V)) settings :
  settings_wf n settings → Forall (λ p, p.1 < n) new → NoDup new.*1 →
  ∃ settings', set_settings new settings = Some settings' ∧ settings_wf n settings' ∧
    (∀ w v, (w, v) ∈ new → settings' !! w = Some (Setting w v)) ∧ (∀ w, w ∉ new.*1 → settings' !! w = settings !! w).
Proof.
  intros Hwf Hall. revert settings Hwf. induction Hall as [|[w v] new Hw Hall IH]; intros settings [Hl Hwf] Hnd.
  { exists settings. split_and!; [done|by split|by intros ? ? ?%not_elem_of_nil|done]. }
  rewrite fmap_cons in Hnd. apply list.NoDup_cons in Hnd as [Hnot Hnd]. cbn in Hw.
  cbn [set_settings]. unfold set_setting. rewrite decide_True by lia. cbn [mbind option_bind].
  destruct (IH (<[w := Setting w v]> settings)) as (settings' & -> & Hwf' & Hin & Hout); [|done|].
  - split; [by rewrite length_insert|]. intros i x. rewrite list_lookup_insert_Some. intros [(<- & <- & _)|[_ ?]]; eauto.
  - exists settings'. split_and!; [done..| |].
    + intros w' v' [[= -> ->]|?]%elem_of_cons; [|by apply Hin].
      rewrite Hout by done. apply list_lookup_insert_eq. lia.
    + intros w' [Hne ?]%not_elem_of_cons. rewrite Hout by done. by apply list_lookup_insert_ne.
Qed.

Lemma cleared_settings_wf n (clear : nat → V) : settings_wf n (cleared_settings n clear).
Proof.
  unfold cleared_settings. split; [by rewrite length_fmap, length_seq|].
  intros i s Hs. apply list_lookup_fmap_Some in Hs as (j & -> & [-> _]%lookup_seq). done.
Qed.

(** The test machine's settings: those of [test_vm], and defaults. *)
Record is_test_vm (settings : list S) : Prop := {
  tv_wf : settings_wf vm_fields_count settings;
  tv_set w v : (w, v) ∈ test_vm → settings !! w = Some (Setting w v);
  tv_cleared w : w ∉ test_vm.*1 → w < vm_fields_count → settings !! w = Some (cleared vm_clear_value w)
}.

Lemma test_vm_settings_ok : ∃ settings, test_vm_settings = Some settings ∧ is_test_vm settings.
Proof.
  destruct (set_settings_wf vm_fields_count test_vm _ (cleared_settings_wf _ vm_clear_value) test_vm_known test_vm_once)
    as (settings & Heq & Hwf & Hin & Hout).
  exists settings. split; [done|]. split; [done|done|]. intros w Hw Hlt. rewrite Hout by done.
  unfold cleared_settings. by rewrite list_lookup_fmap, lookup_seq_lt by lia.
Qed.

Lemma CreateTestVm_ok :
  ∃ settings t, CreateTestVm ∅ = Some t ∧ is_test_vm settings ∧ represents vm_fields_count {[1%Z := settings]} t.
Proof.
  destruct test_vm_settings_ok as (settings & Heq & Hok). unfold CreateTestVm. rewrite Heq. cbn [mbind option_bind].
  destruct (CreateVm_represents vm_fields_count Hvm_fields ∅ ∅ (GetNewVmId (∅ : vm_table)) settings) as (t & -> & Ht).
  - split; [by intros; rewrite !lookup_empty|by intros ? ? ?%lookup_empty_Some].
  - apply lookup_empty.
  - apply Hok.
  - exists settings, t. split_and!; [done..|]. rewrite insert_empty in Ht. exact Ht.
Qed.

Definition prefix_ok n (l : list S) : Prop := List.length l ≤ n ∧ ∀ i (x : S), l !! i = Some x → which x = i.

Lemma wf_prefix_ok n (l : list S) : settings_wf n l → prefix_ok n l.
Proof. intros [Hl Hw]. split; [lia|done]. Qed.

Abbreviation full_vm := (completed vm_fields_count vm_clear_value).
Abbreviation full_server := (completed server_fields_count server_clear_value).

Lemma SetReCaptchaSettings_ok (l : list S) t :
  prefix_ok server_fields_count l → holds_server l t →
  ∃ t', SetReCaptchaSettings t = Some t' ∧
    holds_server (pick [Setting CAPTCHA (setCaptcha recaptcha)] <$> full_server l) t'.
Proof.
  intros [Hl Hw] Ht. unfold SetReCaptchaSettings.
  destruct (LoadServerSettings_holds server_fields_count server_clear_value Hserver_fields l
    (InitSettings server_clear_value server_fields_count) t) as (t' & -> & Ht'); [done|done|apply length_replicate|done|].
  cbn [mbind option_bind]. eexists. split; [done|].
  apply (SaveServerSettings_holds server_fields_count Hserver_fields); [by apply completed_wf|apply NoDup_singleton| |done].
  constructor; [exact captcha_known|constructor].
Qed.

(** A file that the program may meet: the tables are missing, or hold the
    first settings of every machine and of the server. *)
Record file_holds (m : gmap Z (list S)) (l : list S) (f : db_file) : Prop := {
  fh_vms t : VmConfig_table f = Some t → holds vm_fields_count m t;
  fh_ids id : is_Some (m !! id) → vm_id_ok id;
  fh_prefix : prefix_ok server_fields_count l;
  fh_server : holds_server l (default ∅ (ServerConfig_table f))
}.

(** The list of machines and the server's settings that a file stands for. *)
Lemma CollabVmServer_new_from f d t st m (l : list S) :
  OpenDatabase f = Some (d, t, st) → holds vm_fields_count m t → (∀ id, is_Some (m !! id) → vm_id_ok id) →
  prefix_ok server_fields_count l → holds_server l st →
  ∃ s, CollabVmServer_new f = Some s ∧ persisted s ∧ server_settings s = full_server l ∧ db_ s = d ∧
    machines_of (virtual_machines_ s) = map_imap (λ id settings, Some (machine_new id settings)) (full_vm <$> m) ∧
    settings_of (virtual_machines_ s) = full_vm <$> m ∧
    sockets s = ∅ ∧ connections s = ∅ ∧ later s = [].
Proof.
  intros Hf Ht Hids [Hl Hw] Hst. unfold CollabVmServer_new. rewrite Hf. cbn [mbind option_bind].
  destruct (LoadServerSettings_holds server_fields_count server_clear_value Hserver_fields l
    (InitSettings server_clear_value server_fields_count) st) as (st' & -> & Hst'); [done|done|apply length_replicate|done|].
  cbn [mbind option_bind]. destruct (VirtualMachinesList_new_spec m t Ht Hids) as (t' & lm & -> & Ht' & Hm).
  cbn [mbind option_bind]. eexists. split; [done|]. cbn.
  assert (settings_of lm = full_vm <$> m) as Hset.
  { unfold settings_of. rewrite Hm. apply map_eq. intros id. rewrite lookup_fmap, map_lookup_imap.
    destruct ((full_vm <$> m) !! id) as [settings|] eqn:Hs; [|done]. cbn. f_equal.
    apply (machine_new_settings id). by apply (proj2 Ht' id). }
  split_and!; try done. split; cbn; [by rewrite Hset| |done|by apply completed_wf].
  intros id [vm Hvm]. apply Hids. rewrite Hm, map_lookup_imap, lookup_fmap in Hvm. destruct (m !! id); [by eexists|done].
Qed.

(** C16: the program starts from every database that it may meet, and
    repairs what is missing.  If each machine's rows and the server's rows
    are the first ones of a complete list, the machines that are built are
    exactly those of the table, each with its stored settings followed by the
    defaults of the missing ones; the same holds for the server's settings;
    and the tables are completed accordingly. *)
Theorem startup_repairs m (l : list S) f t :
  file_holds m l f → VmConfig_table f = Some t →
  ∃ s, CollabVmServer_new f = Some s ∧
    settings_of (virtual_machines_ s) = full_vm <$> m ∧ server_settings s = full_server l ∧
    represents vm_fields_count (full_vm <$> m) (vm_config s) ∧ holds_server (full_server l) (server_config s).
Proof.
  intros [Hv Hids Hp Hs] Hf. specialize (Hv t Hf).
  assert (∃ d, OpenDatabase f = Some (d, t, default ∅ (ServerConfig_table f))) as [d Hopen].
  { unfold OpenDatabase. rewrite Hf. destruct (default _ (User_table f)). by eexists. }
  destruct (CollabVmServer_new_from f d _ _ m l Hopen Hv Hids Hp Hs) as (s & Hnew & [Hr _ Hh _] & Hl & _ & _ & Hset & _).
  exists s. rewrite Hset in Hr. rewrite Hl in Hh. by split_and!.
Qed.

Lemma OpenDatabase_new m (l : list S) f :
  file_holds m l f → VmConfig_table f = None →
  ∃ d t st settings, OpenDatabase f = Some (d, t, st) ∧ is_test_vm settings ∧
    represents vm_fields_count {[1%Z := settings]} t ∧
    holds_server (pick [Setting CAPTCHA (setCaptcha recaptcha)] <$> full_server l) st.
Proof.
  intros [_ _ Hp Hs] Hf. destruct CreateTestVm_ok as (settings & t & Ht & Htest & Hr).
  destruct (SetReCaptchaSettings_ok l _ Hp Hs) as (st & Hst & Hh).
  unfold OpenDatabase. rewrite Hf, Ht. cbn [mbind option_bind]. rewrite Hst. cbn [mbind option_bind].
  destruct (default _ (User_table f)). by eexists _, t, st, settings.
Qed.

Lemma vm_id_1 {A} (x : A) id : is_Some (({[1%Z := x]} : gmap Z A) !! id) → vm_id_ok id.
Proof. intros [y [<- _]%lookup_singleton_Some]. unfold vm_id_ok. lia. Qed.

Lemma full_server_wf (l : list S) : settings_wf server_fields_count l → full_server l = l.
Proof. intros [Hl _]. by apply completed_full. Qed.

Lemma full_vm_wf m t : represents vm_fields_count m t → full_vm <$> m = m.
Proof.
  intros [_ Hm]. apply map_eq. intros id. rewrite lookup_fmap. destruct (m !! id) as [settings|] eqn:Hs; [|done].
  change (Some (full_vm settings) = Some settings). f_equal. apply completed_full. by destruct (Hm id settings Hs).
Qed.

(** C20: the first start.  When there is no database yet, the server starts
    with exactly one machine, number 1, which has the settings of the test
    machine and the defaults for the rest and is not running; the captcha
    settings are reCAPTCHA's, switched off, and everything else is the
    default; and no account exists.  All of it is in the tables. *)
Theorem first_start :
  ∃ s settings, CollabVmServer_new no_file = Some s ∧ is_test_vm settings ∧
    machines_of (virtual_machines_ s) = {[1%Z := machine_new 1 settings]} ∧
    server_settings s = pick [Setting CAPTCHA (setCaptcha recaptcha)] <$> cleared_settings server_fields_count server_clear_value ∧
    db_ s = database_new ∧ persisted s ∧ sockets s = ∅ ∧ connections s = ∅ ∧ later s = [].
Proof.
  assert (file_holds ∅ [] no_file) as Hf.
  { split; [done|intros id; rewrite lookup_empty; by intros []|split; [cbn; lia|done]|].
    intros k. unfold cell. cbn. rewrite lookup_empty. by destruct (decide _). }
  destruct (OpenDatabase_new ∅ [] no_file Hf eq_refl) as (d & t & st & settings & Hopen & Htest & Hr & Hh).
  assert (d = database_new) as ->.
  { unfold OpenDatabase in Hopen. cbn [VmConfig_table no_file User_table default] in Hopen.
    destruct (CreateTestVm ∅) as [t1|]; cbn [mbind option_bind] in Hopen; [|done].
    destruct (SetReCaptchaSettings _) as [st1|]; cbn [mbind option_bind] in Hopen; [|done]. by injection Hopen as <- _ _. }
  assert (full_server [] = cleared_settings server_fields_count server_clear_value) as Hcl.
  { unfold completed, missing. cbn. by rewrite Nat.sub_0_r. }
  rewrite Hcl in Hh. set (l := pick _ <$> _) in *.
  assert (settings_wf server_fields_count l) as Hwf by apply pick_settings_wf, cleared_settings_wf.
  destruct (CollabVmServer_new_from no_file _ t st {[1%Z := settings]} l Hopen (represents_holds _ Hvm_fields _ _ Hr)
    (vm_id_1 settings) (wf_prefix_ok _ _ Hwf) Hh) as (s & Hnew & Hp & Hl & Hd & Hm & _ & Hrest).
  exists s, settings. rewrite (full_vm_wf _ _ Hr) in Hm. rewrite (full_server_wf _ Hwf) in Hl.
  destruct Hrest as (Hsock & Hconn & Hlater).
  assert (machines_of (virtual_machines_ s) = {[1%Z := machine_new 1 settings]}) as Hm1; [|by split_and!].
  rewrite Hm. apply map_eq. intros id. rewrite map_lookup_imap.
  destruct (decide (id = 1%Z)) as [->|Hne]; [by rewrite !lookup_singleton_eq|by rewrite !lookup_singleton_ne].
Qed.

(** ** Running and starting again *)

Definition server_init s : Prop := ∃ m (l : list S) f, file_holds m l f ∧ CollabVmServer_new f = Some s.
Definition server_runs s s' : Prop := ∃ env op evs, config_op_ok s op ∧ server_step env op s = Some (s', evs).

(** Every such file is one the server starts from; nobody is connected then. *)
Lemma CollabVmServer_new_ok m (l : list S) f :
  file_holds m l f →
  ∃ s, CollabVmServer_new f = Some s ∧ persisted s ∧ sockets s = ∅ ∧ connections s = ∅ ∧ later s = [].
Proof.
  intros Hf. destruct (VmConfig_table f) as [t|] eqn:Ht.
  - destruct Hf as [Hv Hids Hp Hh].
    assert (∃ d, OpenDatabase f = Some (d, t, default ∅ (ServerConfig_table f))) as [d Hopen].
    { unfold OpenDatabase. rewrite Ht. destruct (default _ (User_table f)). by eexists. }
    destruct (CollabVmServer_new_from f d _ _ m l Hopen (Hv t Ht) Hids Hp Hh) as (s & Hnew & Hps & _ & _ & _ & _ & Hrest).
    by exists s.
  - destruct (OpenDatabase_new m l f Hf Ht) as (d & t & st & settings & Hopen & _ & Hr & Hh).
    assert (settings_wf server_fields_count (full_server l)) as Hwf by (destruct (fh_prefix _ _ _ Hf); by apply completed_wf).
    destruct (CollabVmServer_new_from f d t st {[1%Z := settings]} _ Hopen (represents_holds _ Hvm_fields _ _ Hr)
      (vm_id_1 settings) (wf_prefix_ok _ _ (pick_settings_wf _ _ _ Hwf)) Hh) as (s & Hnew & Hps & _ & _ & _ & _ & Hrest).
    by exists s.
Qed.

Lemma server_init_persisted s : server_init s → persisted s.
Proof. intros (m & l & f & Hf & Hs). destruct (CollabVmServer_new_ok m l f Hf) as (s' & Hs' & Hp & _). congruence. Qed.

Lemma persisted_file_holds s :
  persisted s → file_holds (settings_of (virtual_machines_ s)) (server_settings s) (database_file s).
Proof.
  intros [Hr Hi Hh Hw]. split; cbn.
  - intros t [= <-]. by apply represents_holds.
  - intros id Hid. by apply Hi, settings_of_ids.
  - by apply wf_prefix_ok.
  - exact Hh.
Qed.

(** C3: nothing is lost by a restart.  Whatever database the server started
    from, and whatever its users, administrators, timers and machines did
    since, as long as lists of changes have one value per known setting: when
    the process ends - at any moment between two handlers - and is started
    again on the database it leaves behind, it comes up with the machines it
    had, each with the settings it had, with the server's settings, and with
    the accounts, sessions, invites, reserved names and recordings.  Nothing
    is repaired on the way. *)
Theorem restart_restores s :
  reachable server_init server_runs s →
  ∃ s', CollabVmServer_new (database_file s) = Some s' ∧
    settings_of (virtual_machines_ s') = settings_of (virtual_machines_ s) ∧
    server_settings s' = server_settings s ∧ db_ s' = db_ s ∧
    vm_config s' = vm_config s ∧ server_config s' = server_config s.
Proof.
  intros Hs. assert (persisted s) as Hp.
  { revert s Hs. apply reachable_invariant; [apply server_init_persisted|].
    intros s s' Hp (env & op & evs & Hok & Hx). by eapply persisted_exec. }
  pose proof (persisted_file_holds s Hp) as [Hv Hids Hpre Hh].
  assert (OpenDatabase (database_file s) = Some (db_ s, vm_config s, server_config s)) as Hopen.
  { unfold OpenDatabase, database_file. cbn. by destruct (db_ s). }
  destruct (CollabVmServer_new_from _ _ _ _ _ _ Hopen (Hv _ eq_refl) Hids Hpre Hh)
    as (s' & Hnew & Hp' & Hl & Hd & _ & Hset & _).
  rewrite (full_vm_wf _ _ (ps_machines _ Hp)) in Hset. rewrite (full_server_wf _ (ps_server_wf _ Hp)) in Hl.
  exists s'. split_and!; [done..| |].
  - apply (represents_unique vm_fields_count (settings_of (virtual_machines_ s))); [|apply Hp].
    rewrite <-Hset. apply Hp'.
  - apply map_eq. intros k. rewrite (ps_server _ Hp'), (ps_server _ Hp). by rewrite Hl.
Qed.
End Persistence.

(** ** A concrete database *)

Module PersistenceDemo.
Import ServerDemo.
#[local] Existing Instances ServerDemo.view_schema ServerDemo.unit_client ServerDemo.demo_server_schema.
#[local] Instance demo_builders : SettingBuilders demo_value := {
  setAutoStart := VBool; setName := VText; setDescription := VText; setStartCommand := VText;
  setStopCommand := VText; setTurnsEnabled := VBool; setTurnTime := VNum; setProtocol := VProtocol;
  setGuacamoleParameters := VParams; setCaptcha c := VText (getUrlHost c) }.

Lemma demo_counts : 0 < vm_fields_count (V := demo_value) ≤ 256 ∧ 0 < server_fields_count (V := demo_value) ≤ 256.
Proof. split; cbn; lia. Qed.

Lemma demo_test_vm :
  Forall (λ p, p.1 < vm_fields_count) (test_vm (V := demo_value)) ∧ NoDup (test_vm (V := demo_value)).*1 ∧
  CAPTCHA (V := demo_value) < server_fields_count.
Proof.
  split_and!; [|apply (bool_decide_unpack _); by vm_compute|cbn; lia].
  repeat (apply list.Forall_cons; split; [cbn; lia|]). constructor.
Qed.

Definition table : gmap (Z * Z) (setting demo_value) :=
  default ∅ (CreateVm 4 [Setting 0 (VBool true); Setting 1 (VNum 30)] ∅).
Definition file : db_file (V := demo_value) := DbFile None None None None (Some table) None.
Definition stored : gmap Z (list (setting demo_value)) := {[4%Z := [Setting 0 (VBool true); Setting 1 (VNum 30)]]}.

Lemma file_stored : file_holds stored [] file.
Proof.
  split.
  - intros t [= <-]. split.
    + intros vm k. destruct (CreateVm_lookup 22 (proj1 demo_counts) 4%Z [Setting 0 (VBool true); Setting 1 (VNum 30)] 0 ∅)
        as (t & Ht & Hlk); [by intros [|[|i]] s [= <-]|cbn; lia|intros; apply lookup_empty|].
      assert (table = t) as -> by (unfold table; by rewrite Ht). rewrite Hlk. unfold stored, cell.
      destruct (decide (vm = 4%Z)) as [->|Hne].
      * rewrite lookup_singleton_eq. cbn [mbind option_bind]. rewrite lookup_empty, Nat.sub_0_r.
        destruct (decide (0 ≤ k)%Z); [by rewrite decide_True by lia|by rewrite decide_False by lia].
      * rewrite lookup_singleton_ne by congruence. by rewrite decide_False by tauto.
    + unfold stored. intros vm l [<- <-]%lookup_singleton_Some. split; [cbn; lia|]. by intros [|[|i]] s [= <-].
  - unfold stored. intros id [x [<- _]%lookup_singleton_Some]. unfold vm_id_ok. lia.
  - split; [cbn; lia|done].
  - intros k. unfold cell. cbn. by destruct (decide _).
Qed.

Abbreviation new := (CollabVmServer_new (T := list_timer) (U := nat) (G := guac_view) 20 100 GUEST).

Lemma startup_repairs_witness :
  ∃ s, new file = Some s ∧ settings_of (virtual_machines_ s) = completed vm_fields_count vm_clear_value <$> stored.
Proof.
  destruct demo_counts as [Hvm Hserver].
  destruct (startup_repairs (T := list_timer) (U := nat) (G := guac_view) 20 100 GUEST Hvm Hserver stored [] file table
    file_stored eq_refl) as (s & Hs & Hset & _). exists s. split; [exact Hs|exact Hset].
Defined.

(** The test machine. *)
Example test_vm_name :
  (λ s, (λ l, l !! NAME) <$> settings_of (virtual_machines_ s) !! 1%Z) <$> new no_file
  = Some (Some (Some (Setting NAME (VText "Test VM"%string)))).
Proof. by vm_compute. Qed.

Lemma first_start_witness :
  ∃ s settings, new no_file = Some s ∧ machines_of (virtual_machines_ s) = {[1%Z := machine_new 20 100 GUEST 1 settings]}.
Proof.
  destruct demo_counts as [Hvm Hserver], demo_test_vm as (Hall & Hnd & Hcaptcha).
  destruct (first_start (T := list_timer) (U := nat) (G := guac_view) 20 100 GUEST Hvm Hserver Hall Hnd Hcaptcha)
    as (s & settings & Hs & _ & Hm & _). exists s, settings. split; [exact Hs|exact Hm].
Defined.

(** An administrator logs in and renames the test machine. *)
Definition accounts : database :=
  let d := from_option snd database_new (CreateInvite "admins" "root" true [[9%Z]] database_new) in
  snd (CreateAccount DatabaseDemo.hash DatabaseDemo.bind "root" "pw" None (Some [9%Z]) ip [7%Z] 5 d).
Definition admin_file : db_file (V := demo_value) :=
  DbFile (Some (users accounts, next_user_id accounts)) None None None None None.

Definition ops : list (server_op (U := nat) (G := guac_view) (V := demo_value) (C := unit)) :=
  let input := LaterInput true (VmInfoProducer None None []) in
  [Accept 0 ip; Handshake 0; Message 0 (LOGIN_REQUEST "root" "pw" "token"); Later 0 input; Later 0 input;
   Message 0 (UPDATE_VM_CONFIG 1 [Setting NAME (VText "Renamed")])]%string.
Fixpoint exec_ops (l : list (server_op (U := nat) (G := guac_view) (V := demo_value) (C := unit))) (s : state) : option state :=
  match l with
  | [] => Some s
  | op :: l => '(s, _) ← at_demo server_exec (env 9) op s; exec_ops l s
  end.

Abbreviation runs := (reachable (server_init 20 100 GUEST) (at_demo server_runs)).

Lemma exec_ops_reachable l s s' :
  Forall (λ op, ∀ s : state, config_op_ok s op) l → exec_ops l s = Some s' → runs s → runs s'.
Proof.
  intros Hl. revert s. induction Hl as [|op l Hop _ IH]; intros s; cbn [exec_ops]; [by intros [= ->]|].
  destruct (at_demo server_exec (env 9) op s) as [[s1 evs]|] eqn:Hx; [|done]. cbn [mbind option_bind]. intros Hs' Hs.
  eapply IH; [exact Hs'|]. eapply reachable_step; [exact Hs|]. by exists (env 9), op, evs.
Qed.

Lemma admin_file_holds : file_holds ∅ [] admin_file.
Proof.
  split; [done|intros id; rewrite lookup_empty; by intros []|split; [cbn; lia|done]|].
  intros k. unfold cell. cbn. rewrite lookup_empty. by destruct (decide _).
Qed.

Definition renamed : state := default s0 (s ← new admin_file; exec_ops ops s).

Lemma restart_restores_witness :
  ∃ s', new (database_file renamed) = Some s' ∧
    (λ l, l !! NAME) <$> settings_of (virtual_machines_ s') !! 1%Z = Some (Some (Setting NAME (VText "Renamed"%string))).
Proof.
  assert (∃ s, new admin_file = Some s ∧ exec_ops ops s = Some renamed) as (s & Hnew & Hops).
  { unfold renamed. destruct (new admin_file) as [s|] eqn:Hs; [|by vm_compute in Hs]. exists s. split; [done|].
    cbn [mbind option_bind default]. destruct (exec_ops ops s) as [s'|] eqn:Hx; [done|]. exfalso.
    assert ((s ← new admin_file; exec_ops ops s) = None) as Hno by (rewrite Hs; exact Hx). by vm_compute in Hno. }
  destruct demo_counts as [Hvm Hserver], demo_test_vm as (Hall & Hnd & Hcaptcha).
  assert (runs renamed) as Hr.
  { apply (exec_ops_reachable ops s); [|exact Hops|].
    - repeat (apply list.Forall_cons; split; [intros s1; try exact I|]); [|constructor].
      split; [apply NoDup_singleton|]. constructor; [unfold known_setting; cbn; lia|constructor].
    - apply reachable_init. exists ∅, [], admin_file. split; [apply admin_file_holds|exact Hnew]. }
  destruct (at_demo restart_restores Hvm Hserver Hall Hnd Hcaptcha renamed Hr) as (s' & Hs' & Hset & _).
  exists s'. split; [exact Hs'|]. rewrite Hset. clear. by vm_compute.
Defined.
End PersistenceDemo.
