(* ===== verification/System.v ===== *)
(** * The whole program (CollabVmServer, CollabVmSocket over WebServer)

    The components composed the way the objects are: the web server's list of
    sockets, of which CollabVmSocket overrides the hooks (OnPreConnect,
    OnConnect, OnMessage, OnDisconnect in src/CollabVmServer.hpp), the server's
    handlers, the captcha service's client and one outgoing queue per socket.
    A step is one completion of an operation on the network, of a timer or of
    what waits, with the events it causes carried to the other components.

    The theorems of the components are about arbitrary inputs that satisfy
    conditions (a socket is accepted once, ends once, was counted, asks once).
    Here the conditions are invariants: the composition provides them.

    What is handed to another strand may run later: the decision of
    [OnPreConnect] ([Admit]), a verdict of the captcha service ([Verdict]),
    everything in [later].  A message's handler runs to its end. *)

From S2P Require Import Prelude Timer ChatRoom Settings Database UserChannel Recording GuacamoleClient AdminVm VmList.
From S2P Require Import Messages SendQueue Captcha WebFiles WebServer Server.
From Stdlib Require Import Ascii String.
From stdpp Require Import list.

Section System.
Context {T : Type → Type} `{SteadyTimer T}.
Context {G V C : Type} `{GuacSchema G, VmSchema V, ServerSchema V, GuacClientSchema C G, CaseInsensitive}.
Context (vote_limit : Z).
Abbreviation S := (setting V).
Abbreviation msg := (server_message G S).
Abbreviation server := (Server.server (T := T) (U := nat) (G := G) (V := V)).
Abbreviation server_op := (Server.server_op (U := nat) (G := G) (V := V) (C := C)).
Abbreviation server_event := (Server.server_event (U := nat) (G := G) (V := V) (C := C)).
Abbreviation client_message := (Server.client_message (V := V) (C := C)).
Abbreviation continuation := (Server.continuation (U := nat)).
Context (message_size : msg → Z) (header_size : Z → Z) (to_string : Z → string).
Context (arg_names : Protocol → list string) (init_succeeds : Protocol → bool).
Context (guac_join : guac_client (G := G) → list G).
Context (screenshot : guac_client (G := G) → option (list Z)).
Context (ValidateUsername : string → bool) (max_chat_message_len : Z).
Context (chat_rate_limit username_change_rate_limit : Z).
Context (IsGuacamoleClientInstructionAllowed : C → bool).
Context (MaxUsernameLen MaxMessageLen : nat) (default_user_type : UserType).
Context (hash_password : string → list Z → list Z) (bind_blob : list Z → option (list Z)).
Context (ip_to_string : list Z → string).
(** The web server's libraries. *)
Context {F : Type} (canonical : string → option string) (status : string → option file_type).
Context (open_file : string → option F) (prepare_payload : F → bool).
Context (token_exists : string → string → bool) (first_token : string → string).
Context (make_address : string → option address) (doc_root : string).
(** The captcha client's. *)
Context (json_bool : string → string → option bool) (replace_all : string → string → string → string).
(** Cap'n Proto: the message in a buffer, unless reading it throws; the
    accessor of the captcha settings. *)
Context (read_message : list Z → option client_message) (getCaptcha : V → captcha_settings).

Abbreviation at_server thm := (thm vote_limit message_size header_size to_string arg_names init_succeeds
  guac_join screenshot ValidateUsername max_chat_message_len chat_rate_limit username_change_rate_limit
  IsGuacamoleClientInstructionAllowed MaxUsernameLen MaxMessageLen default_user_type hash_password bind_blob
  ip_to_string).
Abbreviation server_step := (at_server server_exec).
Abbreviation web_step_ := (web_exec canonical status open_file prepare_payload token_exists first_token
  make_address doc_root).

(** ** State *)

Record system := System {
  srv : server;
  web : web_server;
  captcha : verifier (K := continuation);
  links : gmap nat (link (M := msg));             (* the outgoing queues *)
  static_buffer : gmap nat bool;                  (* what the message that is being read is read into *)
  verdicts : list (continuation * bool)           (* calls of the captcha client's callbacks *)
}.
Implicit Types (sys : system) (s : server) (u id : nat).

Definition with_srv s sys : system :=
  System s (web sys) (captcha sys) (links sys) (static_buffer sys) (verdicts sys).
Definition with_web w sys : system :=
  System (srv sys) w (captcha sys) (links sys) (static_buffer sys) (verdicts sys).
Definition with_captcha v sys : system :=
  System (srv sys) (web sys) v (links sys) (static_buffer sys) (verdicts sys).
Definition with_links l sys : system :=
  System (srv sys) (web sys) (captcha sys) l (static_buffer sys) (verdicts sys).
Definition with_static_buffer m sys : system :=
  System (srv sys) (web sys) (captcha sys) (links sys) m (verdicts sys).
Definition with_verdicts l sys : system :=
  System (srv sys) (web sys) (captcha sys) (links sys) (static_buffer sys) l.

(** The server listens; nobody has connected. *)
Definition system_new s v : system := System s (DoAccept web_new) v ∅ ∅ [].

(** ** Events between the components *)

Definition link_of u sys : link (M := msg) := default link_new (links sys !! u).

Definition on_link u (op : link_op (M := msg)) sys : option system :=
  k ← link_exec op (link_of u sys); Some (with_links (<[u := k]> (links sys)) sys).

(** The server's handlers run one at a time here, so that the client's strand
    is free when one of them calls [Verify]. *)
Definition on_captcha (op : captcha_op (K := continuation)) sys : option system :=
  '(v, evs) ← captcha_exec json_bool replace_all op (captcha sys);
  Some (with_verdicts (verdicts sys ++ answers evs) (with_captcha v sys)).

(** [SAccept] is the result of an admission; the rest leaves the program. *)
Definition on_event sys (ev : server_event) : option system :=
  match ev with
  | SAct (Queue u m) => on_link u (LQueue m) sys
  | SAct (CloseSocket u) => Some (with_web (WebServer.Close u (web sys)) sys)
  | SVerify token k remote_ip => on_captcha (CVerify true token k remote_ip) sys
  | SSetCaptcha v => on_captcha (CSetSettings (getCaptcha v)) sys
  | SAct (Record_ _) | SVm _ _ | SExecuteCommandAsync _ _ | SAccept _ | SRecordingPreviews _ _ _ => Some sys
  end.

Fixpoint on_events (evs : list server_event) sys : option system :=
  match evs with [] => Some sys | ev :: evs => sys ← on_event sys ev; on_events evs sys end.

(** A handler of the server, and what it causes. *)
Definition run_server env (op : server_op) sys : option system :=
  '(s, evs) ← server_step env op (srv sys); on_events evs (with_srv s sys).

(** ** The hooks of CollabVmSocket *)

Definition max_static_buffer : nat := 1024.

Definition is_admin u sys : bool := default false (is_admin_ <$> sockets (srv sys) !! u).

(** [CreateMessageBuffer]: administrators' messages may have any size. *)
Definition CreateMessageBuffer u sys : system :=
  with_static_buffer (<[u := negb (is_admin u sys)]> (static_buffer sys)) sys.

(** [flat_static_buffer<1024>] makes the read of a longer message fail. *)
Definition overflows u (op : web_op) (bytes : list Z) sys : bool :=
  bool_decide (op = ReadingMessage) && default false (static_buffer sys !! u) &&
  Nat.ltb max_static_buffer (List.length bytes).

(** An exception of the handler closes the socket. *)
Definition OnMessageHook env u (bytes : list Z) sys : option system :=
  match read_message bytes with
  | Some m => run_server env (Message u m) sys
  | None => Some (with_web (WebServer.Close u (web sys)) sys)
  end.

(** Nothing of a socket is set before [OnPreConnect] was called. *)
Definition OnDisconnectHook env u sys : option system :=
  match sockets (srv sys) !! u with
  | Some _ => run_server env (Disconnect u) sys
  | None => Some sys
  end.

Definition on_web_event env (bytes : list Z) sys (ev : web_event (F := F)) : option system :=
  match ev with
  | WebServer.OnConnect u => sys ← run_server env (Handshake u) sys; Some (CreateMessageBuffer u sys)
  | WebServer.OnMessage u => sys ← OnMessageHook env u bytes sys; Some (CreateMessageBuffer u sys)
  | WebServer.OnDisconnect u => OnDisconnectHook env u sys
  | WebServer.OnPreConnect _ | Respond _ _ => Some sys
  end.

Fixpoint on_web_events env (bytes : list Z) (evs : list (web_event (F := F))) sys : option system :=
  match evs with
  | [] => Some sys
  | ev :: evs => sys ← on_web_event env bytes sys ev; on_web_events env bytes evs sys
  end.

Definition with_error (b : bool) (c : completion) : completion :=
  Completion (b || c_error c) (c_remote c) (c_is_loopback c) (c_request c).

(** The completion of an operation on a socket of the web server. *)
Definition OnNetwork env (i : nat) (c : completion) (bytes : list Z) sys : option system :=
  match pending_ (web sys) !! i with
  | None | Some (_, Admission) => Some sys
  | Some (u, op) =>
      '(w, evs) ← web_step_ (WComplete i (with_error (overflows u op bytes sys) c)) (web sys);
      on_web_events env bytes evs (with_web w sys)
  end.

Definition accepts u (ev : server_event) : bool :=
  match ev with SAccept v => Nat.eqb u v | _ => false end.

(** [CollabVmSocket::OnPreConnect]: it ends with the base class's, which
    starts the handshake, or with [Close]. *)
Definition OnPreConnectHook env (i : nat) sys : option system :=
  match pending_ (web sys) !! i with
  | Some (u, Admission) =>
      let ip := default [] (address_of (web sys) u) in
      '(s, evs) ← server_step env (Accept u ip) (srv sys);
      let refused := negb (existsb (accepts u) evs) in
      let c := Completion refused None false (Request WebServer.get "/"%string (λ _, None)) in
      '(w, _) ← web_step_ (WComplete i c) (web sys);
      Some (with_web w (with_srv s sys))
  | _ => Some sys
  end.

(** A write has completed; when it failed the socket is closed. *)
Definition OnWritten u (ec : error_code) sys : option system :=
  let failed := outstanding (link_of u sys) && ec_is_error ec in
  sys ← on_link u (LComplete ec) sys;
  Some (if failed then with_web (WebServer.Close u (web sys)) sys else sys).

(** ** What was postponed *)

#[export] Instance registration_eq_dec : EqDecision registration.
Proof. solve_decision. Defined.
#[export] Instance continuation_eq_dec : EqDecision continuation.
Proof. solve_decision. Defined.

Definition index_of (k : continuation) (l : list continuation) : option nat :=
  fst <$> list_find (λ k', k' = k) l.

(** A callback of the captcha client runs. *)
Definition OnVerdict env (j : nat) (input : later_input) sys : option system :=
  match verdicts sys !! j with
  | None => Some sys
  | Some (k, b) =>
      i ← index_of k (later (srv sys));
      run_server env (Later i (LaterInput b (deleted_vm_answer input)))
        (with_verdicts (delete j (verdicts sys)) sys)
  end.

(** Whatever else waits; the captcha client alone calls its callbacks. *)
Definition OnPostponed env (i : nat) (input : later_input) sys : option system :=
  match later (srv sys) !! i with
  | Some k => if asks_captcha k then Some sys else run_server env (Later i input) sys
  | None => Some sys
  end.

(** ** Steps *)

Inductive system_op :=
| Network (i : nat) (c : completion) (bytes : list Z)
| Admit (i : nat)
| Written u (ec : error_code)
| Service (i : nat) (result : network_result)
| Verdict (j : nat) (input : later_input)
| Postponed (i : nat) (input : later_input)
| VmTimer
| ApplySettings                                  (* posted by the server's constructor *)
| MachineEvent (id : Z) (op : vm_op (U := nat) (G := G) (V := V) (C := C))
| PreviewsFor u (batch : list (option msg))      (* SendRecordingPreviews *)
| StartVms
| StopAll.

Definition system_exec env (op : system_op) sys : option system :=
  match op with
  | Network i c bytes => OnNetwork env i c bytes sys
  | Admit i => OnPreConnectHook env i sys
  | Written u ec => OnWritten u ec sys
  | Service i result => on_captcha (CComplete i result) sys
  | Verdict j input => OnVerdict env j input sys
  | Postponed i input => OnPostponed env i input sys
  | VmTimer => run_server env VmInfoTimer sys
  | ApplySettings => run_server env InitialSettings sys
  | MachineEvent id op => run_server env (MachineStep id op) sys
  | PreviewsFor u batch => on_link u (LBatch batch) sys
  | StartVms => run_server env (StartServer true) sys
  | StopAll => sys ← run_server env StopServer sys; Some (with_web (WebServer.Stop (web sys)) sys)
  end.

Fixpoint system_run (ops : list (server_env * system_op)) sys : option system :=
  match ops with
  | [] => Some sys
  | (env, op) :: ops => sys ← system_exec env op sys; system_run ops sys
  end.

(** ** What the components guarantee each other

    [parts_ok asked]: the outgoing queues and the captcha client keep their
    invariants, and the continuations that wait for the captcha service are
    those that its client has in hand, those whose callback has been called and
    those, [asked], whose request is about to be passed on. *)
Record parts_ok (asked : list continuation) sys : Prop := {
  po_links u k : links sys !! u = Some k → link_inv k;
  po_captcha : captcha_inv (captcha sys);
  po_waiting : captcha_waiting (later (srv sys)) ≡ₚ
    waiting (captcha sys) ++ (verdicts sys).*1 ++ asked
}.

(** What events do to the rest: sockets are closed. *)
Record closes sys sys' : Prop := {
  cl_srv : srv sys' = srv sys;
  cl_web : ∃ l, web sys' = foldl (λ st id, WebServer.Close id st) (web sys) l;
  cl_static : static_buffer sys' = static_buffer sys
}.

#[export] Instance closes_preorder : PreOrder closes.
Proof.
  split; [intros sys; split; try done; by exists []|].
  intros sys1 sys2 sys3 [Hs1 [l1 Hw1] Hb1] [Hs2 [l2 Hw2] Hb2]. split; [congruence| |congruence].
  exists (l1 ++ l2). by rewrite Hw2, Hw1, foldl_app.
Qed.

Lemma on_link_ok asked u op sys :
  parts_ok asked sys → ∃ sys', on_link u op sys = Some sys' ∧ parts_ok asked sys' ∧ closes sys sys'.
Proof.
  intros [Hl Hc Hw]. unfold on_link, link_of.
  destruct (link_exec_inv op (default link_new (links sys !! u))) as (k & Hx & Hk).
  { destruct (links sys !! u) as [k|] eqn:Hu; [by eapply Hl|apply link_new_inv]. }
  rewrite Hx. cbn. eexists. split; [done|]. split; [split; try done|split; try done; by exists []].
  intros v k'. cbn. intros [[<- <-]|[_ Hv]]%lookup_insert_Some; [done|by eapply Hl].
Qed.

Lemma on_captcha_ok asked op sys :
  call_ok op (captcha sys) → parts_ok (Captcha.asked op ++ asked) sys →
  ∃ sys', on_captcha op sys = Some sys' ∧ parts_ok asked sys' ∧ closes sys sys'.
Proof.
  intros Hop [Hl Hc Hw]. unfold on_captcha.
  destruct (captcha_exec_waiting json_bool replace_all op _ Hop Hc) as (v & evs & Hx & Hv & Hperm).
  rewrite Hx. cbn. eexists. split; [done|]. split; [split; [done..|]|split; try done; by exists []].
  cbn. rewrite Hw, fmap_app, (app_assoc _ (Captcha.asked op)), (Permutation_app_comm _ (Captcha.asked op)).
  rewrite <-!app_assoc, (app_assoc (waiting _) (Captcha.asked op)), Hperm.
  rewrite (Permutation_app_comm _ (waiting v)), <-!app_assoc. f_equiv.
  by rewrite !app_assoc, (Permutation_app_comm (answers evs).*1).
Qed.

Lemma on_event_ok asked ev sys :
  parts_ok (verifies [ev] ++ asked) sys →
  ∃ sys', on_event sys ev = Some sys' ∧ parts_ok asked sys' ∧ closes sys sys'.
Proof.
  intros Hok. destruct ev as [a|vm_id ev|token k ip|v|ip command|u|u r d]; cbn [on_event];
    try (by eexists; split; [done|split; [exact Hok|done]]).
  - destruct a as [u m|m|u]; [by apply on_link_ok|by eexists|].
    eexists. split; [done|]. split; [by destruct Hok; split|]. split; try done. by exists [u].
  - by apply on_captcha_ok.
  - by apply on_captcha_ok.
Qed.

Lemma on_events_ok evs asked sys :
  parts_ok (verifies evs ++ asked) sys →
  ∃ sys', on_events evs sys = Some sys' ∧ parts_ok asked sys' ∧ closes sys sys'.
Proof.
  revert sys. induction evs as [|ev evs IH]; intros sys Hok; [by exists sys|].
  destruct (on_event_ok (verifies evs ++ asked) ev sys) as (sys1 & Hx1 & Hok1 & Hc1).
  { rewrite app_assoc, <-verifies_app. exact Hok. }
  destruct (IH sys1 Hok1) as (sys2 & Hx2 & Hok2 & Hc2).
  exists sys2. cbn [on_events]. rewrite Hx1. split_and!; [done|done|by trans sys1].
Qed.

(** A handler of the server with what it causes. *)
Lemma run_server_ok env op sys s' evs :
  match op with Later _ _ => False | _ => True end →
  parts_ok [] sys → server_step env op (srv sys) = Some (s', evs) →
  ∃ sys', run_server env op sys = Some sys' ∧ parts_ok [] sys' ∧ closes (with_srv s' sys) sys'.
Proof.
  intros Hop [Hl Hc Hw] Hx. unfold run_server. rewrite Hx. cbn [mbind option_bind].
  apply on_events_ok. split; [done..|]. cbn.
  pose proof (at_server verified_exec env op) as Hv. destruct op; try done;
    (destruct (Hv _ _ _ Hx) as [-> _]; rewrite Hw, !app_nil_r; by rewrite app_assoc).
Qed.

(** The same for something that was postponed; a verdict is in its hands. *)
Lemma run_later_ok env i input sys k s' evs :
  later (srv sys) !! i = Some k → parts_ok (if asks_captcha k then [k] else []) sys →
  server_step env (Later i input) (srv sys) = Some (s', evs) →
  ∃ sys', run_server env (Later i input) sys = Some sys' ∧ parts_ok [] sys' ∧ closes (with_srv s' sys) sys'.
Proof.
  intros Hk [Hl Hc Hw] Hx. unfold run_server. rewrite Hx. cbn [mbind option_bind].
  apply on_events_ok. split; [done..|]. cbn.
  destruct (at_server verified_later env i input k _ _ _ Hk Hx) as [-> ->].
  rewrite (captcha_waiting_delete _ _ _ Hk) in Hw. set (mine := if asks_captcha k then [k] else []) in *.
  rewrite app_assoc, (Permutation_app_comm _ mine) in Hw.
  apply Permutation_app_inv_l in Hw. by rewrite Hw, !app_nil_r.
Qed.

Lemma index_of_spec k l : k ∈ l → ∃ i, index_of k l = Some i ∧ l !! i = Some k.
Proof.
  intros Hin. unfold index_of. destruct (list_find _ l) as [[i k']|] eqn:Hf.
  - apply list_find_Some in Hf as (Hi & -> & _). by exists i.
  - apply list_find_None in Hf. rewrite Forall_forall in Hf. by destruct (Hf k Hin).
Qed.

(** A verdict's continuation waits. *)
Lemma verdict_waits sys j k b :
  parts_ok [] sys → verdicts sys !! j = Some (k, b) →
  asks_captcha k = true ∧ k ∈ later (srv sys) ∧ parts_ok [k] (with_verdicts (delete j (verdicts sys)) sys).
Proof.
  intros [Hl Hc Hw] Hj. rewrite app_nil_r in Hw. pose proof (delete_Permutation _ _ _ Hj) as Hperm.
  rewrite Hperm in Hw. cbn in Hw. rewrite <-Permutation_middle in Hw.
  assert (k ∈ captcha_waiting (later (srv sys))) as [Ha Hin]%elem_of_captcha_waiting by (rewrite Hw; by left).
  split_and!; [done|done|]. split; [done..|]. cbn. by rewrite Hw, (app_assoc (waiting _)), (Permutation_app_comm _ [k]).
Qed.

(** *** The invariant of the program *)

(** The server knows the sockets that have passed [OnPreConnect], which are
    those that speak the web socket protocol, and they do not pass it again. *)
Definition known u sys : Prop := is_Some (sockets (srv sys) !! u).

Record known_ok sys : Prop := {
  ko_once u : known u sys → u < next_socket (web sys) ∧ u ∉ early (web sys);
  ko_talks u : talks (web sys) u → known u sys
}.

Record system_inv sys : Prop := {
  si_web : web_inv (web sys);
  si_early : early_inv (web sys);
  si_known : known_ok sys;
  si_parts : parts_ok [] sys
}.

Lemma closes_web sys sys' :
  closes sys sys' →
  same_web (web sys) (web sys') ∧ early (web sys') = early (web sys) ∧
  next_socket (web sys') = next_socket (web sys) ∧ (∀ u, talks (web sys') u → talks (web sys) u) ∧
  (∀ u, address_of (web sys') u = address_of (web sys) u).
Proof.
  intros [_ [l ->] _]. split; [apply Close_all_same|]. apply Close_all_talk.
Qed.

(** Closing sockets keeps what is about the web server. *)
Lemma closes_inv sys sys' :
  web_inv (web sys) → early_inv (web sys) → known_ok sys → closes sys sys' → parts_ok [] sys' → system_inv sys'.
Proof.
  intros Hw [Hn Hf] [Hk Ht] Hc Hp. destruct (closes_web _ _ Hc) as (Hs & He & Hnext & Htalks & _).
  split; [|split|split|done].
  - by eapply same_web_inv.
  - by rewrite He.
  - intros u. rewrite He, Hnext. apply Hf.
  - intros u. unfold known. rewrite He, Hnext, (cl_srv _ _ Hc). apply Hk.
  - intros u Hu%Htalks%Ht. unfold known. by rewrite (cl_srv _ _ Hc).
Qed.

(** The sockets of the server stay as they are. *)
Lemma known_step env op sys s' evs :
  match op with Accept _ _ => False | _ => True end →
  known_ok sys → server_step env op (srv sys) = Some (s', evs) → known_ok (with_srv s' sys).
Proof.
  intros Hop [Hk Ht] Hx.
  assert (∀ u, is_Some (sockets s' !! u) ↔ known u sys) as Hsame.
  { intros u. rewrite (at_server sockets_exec env op _ _ _ u Hx). destruct op; naive_solver. }
  split; [intros u Hu%Hsame; by apply Hk|intros u Hu%Ht; by apply Hsame].
Qed.

Lemma run_server_inv env op sys s' evs :
  match op with Later _ _ | Accept _ _ => False | _ => True end →
  system_inv sys → server_step env op (srv sys) = Some (s', evs) →
  ∃ sys', run_server env op sys = Some sys' ∧ system_inv sys' ∧ closes (with_srv s' sys) sys'.
Proof.
  intros Hop [Hw He Hk Hp] Hx.
  destruct (run_server_ok env op sys s' evs) as (sys' & Hr & Hp' & Hc); [by destruct op|done|done|].
  exists sys'. split_and!; [done| |done]. apply (closes_inv (with_srv s' sys) sys'); try done.
  apply (known_step env op sys s' evs); [by destruct op|done|done].
Qed.

Lemma run_later_inv env i input sys k s' evs :
  later (srv sys) !! i = Some k → web_inv (web sys) → early_inv (web sys) → known_ok sys →
  parts_ok (if asks_captcha k then [k] else []) sys → server_step env (Later i input) (srv sys) = Some (s', evs) →
  ∃ sys', run_server env (Later i input) sys = Some sys' ∧ system_inv sys' ∧ closes (with_srv s' sys) sys'.
Proof.
  intros Hi Hw He Hk Hp Hx.
  destruct (run_later_ok env i input sys k s' evs Hi Hp Hx) as (sys' & Hr & Hp' & Hc).
  exists sys'. split_and!; [done| |done]. apply (closes_inv (with_srv s' sys) sys'); try done.
  by eapply known_step; [|done|exact Hx].
Qed.

(** The web server's part of a step that admits nobody. *)
Lemma web_step_inv a sys w evs :
  system_inv sys → (∀ u, ¬ admits a (web sys) u) → web_step (F := F) (web sys) w evs →
  web_talk a (web sys) w → system_inv (with_web w sys).
Proof.
  intros [Hw He [Hk Ht] [Hl Hc Hp]] Ha [Hw' Hn _ _] [He' Hearly Htalks _ _].
  split; [done|done|split|by split].
  - intros u Hu. cbn. destruct (Hk u Hu) as [? Hno]. split; [lia|]. intros [?|?]%Hearly; [done|lia].
  - intros u [?%Ht|?%Ha]%Htalks; done.
Qed.

(** The handler of the server that a step runs, for a socket that the server
    knows, a continuation that waits, or the program itself. *)
Inductive runs sys : system_op → server_op → Prop :=
| runs_handshake i c bytes u :
    pending_ (web sys) !! i = Some (u, WebServer.Handshaking) → known u sys →
    runs sys (Network i c bytes) (Handshake u)
| runs_message i c bytes u m :
    pending_ (web sys) !! i = Some (u, ReadingMessage) → known u sys → read_message bytes = Some m →
    runs sys (Network i c bytes) (Message u m)
| runs_disconnect i c bytes u :
    pending_ (web sys) !! i = Some (u, Closing) → known u sys → runs sys (Network i c bytes) (Disconnect u)
| runs_verdict j input i k b :
    verdicts sys !! j = Some (k, b) → later (srv sys) !! i = Some k →
    runs sys (Verdict j input) (Later i (LaterInput b (deleted_vm_answer input)))
| runs_postponed i input k :
    later (srv sys) !! i = Some k → asks_captcha k = false → runs sys (Postponed i input) (Later i input)
| runs_timer : runs sys VmTimer VmInfoTimer
| runs_settings : runs sys ApplySettings InitialSettings
| runs_machine (id : Z) op : runs sys (MachineEvent id op) (MachineStep id op)
| runs_start : runs sys StartVms (StartServer true)
| runs_stop : runs sys StopAll StopServer.

(** That handler has no defined result. *)
Definition stuck env op sys : Prop := ∃ sop, runs sys op sop ∧ server_step env sop (srv sys) = None.

Lemma run_server_progress env op sop sys sys0 :
  match sop with Later _ _ | Accept _ _ => False | _ => True end →
  srv sys0 = srv sys → runs sys op sop → system_inv sys0 →
  match run_server env sop sys0 with Some sys' => system_inv sys' | None => stuck env op sys end.
Proof.
  intros Hop Hsrv Hruns Hi. destruct (server_step env sop (srv sys0)) as [[s' evs]|] eqn:Hx.
  - by destruct (run_server_inv env sop sys0 s' evs Hop Hi Hx) as (sys' & -> & ? & _).
  - unfold run_server. rewrite Hx. cbn. exists sop. by rewrite <-Hsrv.
Qed.

Lemma CreateMessageBuffer_inv u sys : system_inv sys → system_inv (CreateMessageBuffer u sys).
Proof. intros [Hw He [Hk Ht] [Hl Hc Hp]]. split; [done|done|by split|by split]. Qed.

Lemma close_inv u sys : system_inv sys → system_inv (with_web (WebServer.Close u (web sys)) sys).
Proof.
  intros [Hw He Hk [Hl Hc Hp]]. eapply (closes_inv sys); [done..| |by split]. split; try done. by exists [u].
Qed.

Context (canonical_absolute : ∀ p q, canonical p = Some q → rooted q = true).
Context (doc_root_absolute : rooted doc_root = true).

(** Beast's parser refuses a request without a target. *)
Definition system_op_ok (op : system_op) : Prop :=
  match op with Network _ c _ => rq_target (c_request c) ≠ EmptyString | _ => True end.

(** A step keeps the invariant, or runs a handler that has no result. *)
Abbreviation outcome env op sys :=
  (match system_exec env op sys with Some sys' => system_inv sys' | None => stuck env op sys end).

Lemma OnNetwork_progress env i c bytes sys :
  system_inv sys → system_op_ok (Network i c bytes) → outcome env (Network i c bytes) sys.
Proof.
  intros Hi Hok. cbn [system_exec]. unfold OnNetwork.
  destruct (pending_ (web sys) !! i) as [[u op]|] eqn:Hp; [|done].
  set (a := WComplete i (with_error (overflows u op bytes sys) c)).
  destruct (web_exec_step canonical status open_file prepare_payload token_exists first_token make_address
    canonical_absolute doc_root doc_root_absolute a (web sys) (si_web _ Hi) Hok) as (w & evs & Hx & Hstep).
  pose proof (web_exec_talk _ _ _ _ _ _ _ _ _ _ _ _ (si_early _ Hi) Hx) as Htalk.
  destruct (decide (op = Admission)) as [->|Hadm]; [done|].
  assert (system_inv (with_web w sys)) as Hi'.
  { eapply web_step_inv; [done| |done..]. intros v (i' & c' & [= <- _] & ?). congruence. }
  set (op' := Network i c bytes).
  enough (match on_web_events env bytes evs (with_web w sys) with
    Some sys' => system_inv sys' | None => stuck env op' sys end) as Hgoal by (destruct op; try done; by rewrite Hx).
  assert (of_web_socket op = true → known u sys) as Hknown.
  { intros Hop. apply Hi. exists op. split; [done|by eapply list_elem_of_lookup_2]. }
  destruct (web_exec_event _ _ _ _ _ _ _ _ _ _ _ _ _ _ _ Hp Hx) as [->|(ev & -> & Hev)]; [done|].
  cbn [on_web_events]. destruct ev as [v|v|v|v|v r]; cbn [on_web_event]; try done; destruct Hev as [-> ->].
  - pose proof (run_server_progress env op' (Handshake u) sys (with_web w sys) I eq_refl
      ltac:(by constructor; auto) Hi') as Hr.
    destruct (run_server _ _ _); [|done]. by apply CreateMessageBuffer_inv.
  - unfold OnMessageHook. destruct (read_message bytes) as [m|] eqn:Hm.
    + pose proof (run_server_progress env op' (Message u m) sys (with_web w sys) I eq_refl
        ltac:(by constructor; auto) Hi') as Hr.
      destruct (run_server _ _ _); [|done]. by apply CreateMessageBuffer_inv.
    + by apply CreateMessageBuffer_inv, (close_inv u (with_web w sys)).
  - unfold OnDisconnectHook. destruct (sockets (srv (with_web w sys)) !! u) eqn:Hu; [|done].
    pose proof (run_server_progress env op' (Disconnect u) sys (with_web w sys) I eq_refl
      ltac:(by constructor; [|eexists]) Hi') as Hr.
    by destruct (run_server _ _ _).
Qed.

(** What [OnPreConnect] decides is always defined. *)
Lemma OnPreConnectHook_result env i u sys :
  system_inv sys → pending_ (web sys) !! i = Some (u, Admission) →
  ∃ s' ev c w, server_step env (Accept u (default [] (address_of (web sys) u))) (srv sys) = Some (s', [ev]) ∧
    web_step_ (WComplete i c) (web sys) = Some (w, []) ∧ c_error c = negb (accepts u ev) ∧
    OnPreConnectHook env i sys = Some (with_web w (with_srv s' sys)) ∧
    web_step (F := F) (web sys) w [] ∧ web_talk (WComplete i c) (web sys) w ∧
    (ev = SAccept u ∨ ev = SAct (CloseSocket u)) ∧ system_inv (with_web w (with_srv s' sys)).
Proof.
  intros Hi Hp. set (ip := default [] (address_of (web sys) u)).
  destruct (at_server Accept_result env u ip (srv sys)) as (s' & ev & Hx & Hlater & Hev).
  set (c := Completion (negb (accepts u ev)) None false (Request WebServer.get "/"%string (λ _, None))).
  destruct (web_exec_step canonical status open_file prepare_payload token_exists first_token make_address
    canonical_absolute doc_root doc_root_absolute (WComplete i c) (web sys) (si_web _ Hi) ltac:(done))
    as (w & evs & Hw & Hstep).
  assert (evs = []) as ->.
  { revert Hw. cbn [web_exec]. rewrite Hp. cbn [OnComplete]. by intros [= _ <-]. }
  pose proof (web_exec_talk _ _ _ _ _ _ _ _ _ _ _ _ (si_early _ Hi) Hw) as Htalk.
  exists s', ev, c, w. split_and!; try done.
  - unfold OnPreConnectHook. rewrite Hp. fold ip. rewrite Hx. cbn [mbind option_bind existsb].
    rewrite orb_false_r. fold c. by rewrite Hw.
  - destruct Hi as [Hinv [Hn Hf] [Hk Ht] [Hl Hc Hperm]], Hstep as [Hinv' Hnext _ _], Htalk as [He' Hearly Htalks _ Hadm].
    pose proof (λ v, at_server sockets_exec env _ _ _ _ v Hx) as Hdom.
    split; [done|done|split|split; [done..|by cbn; rewrite Hlater]].
    + intros v [Hv|[ip' [= <- <-]]]%Hdom; cbn.
      * destruct (Hk v Hv) as [? Hno]. split; [lia|]. intros [?|?]%Hearly; [done|lia].
      * assert (u ∈ early (web sys)) as Hu%Hf.
        { apply elem_of_early. exists Admission. split; [done|by eapply list_elem_of_lookup_2]. }
        split; [lia|]. apply Hadm. by exists i, c.
    + intros v Hv. apply Hdom. destruct (Htalks v Hv) as [?%Ht|(i' & c' & [= <- <-] & Hp')]; [by left|right].
      exists ip. congruence.
Qed.

Lemma closes_parts sys sys' : system_inv sys → closes sys sys' → parts_ok [] sys' → system_inv sys'.
Proof. intros Hi Hc Hp. by eapply (closes_inv sys); [apply Hi..| |]. Qed.

Lemma link_progress env op sys u lop :
  system_exec env op sys = on_link u lop sys → system_inv sys → outcome env op sys.
Proof.
  intros -> Hi. destruct (on_link_ok [] u lop sys (si_parts _ Hi)) as (sys' & -> & Hp & Hc).
  by eapply closes_parts.
Qed.

Lemma OnVerdict_progress env j input sys : system_inv sys → outcome env (Verdict j input) sys.
Proof.
  intros Hi. cbn [system_exec]. unfold OnVerdict. destruct (verdicts sys !! j) as [[k b]|] eqn:Hj; [|done].
  destruct (verdict_waits sys j k b (si_parts _ Hi) Hj) as (Hask & Hin & Hp).
  destruct (index_of_spec k _ Hin) as (i & Hix & Hk). rewrite Hix. cbn [mbind option_bind].
  set (input' := LaterInput b _). set (sys0 := with_verdicts _ sys) in *.
  destruct (server_step env (Later i input') (srv sys)) as [[s' evs]|] eqn:Hx.
  - destruct (run_later_inv env i input' sys0 k s' evs) as (sys' & -> & ? & _); try done; try apply Hi;
      [by destruct (si_known _ Hi); split|by rewrite Hask].
  - unfold run_server. cbn [srv sys0 with_verdicts]. rewrite Hx. exists (Later i input'). split; [by econstructor|done].
Qed.

Lemma OnPostponed_progress env i input sys : system_inv sys → outcome env (Postponed i input) sys.
Proof.
  intros Hi. cbn [system_exec]. unfold OnPostponed. destruct (later (srv sys) !! i) as [k|] eqn:Hk; [|done].
  destruct (asks_captcha k) eqn:Hask; [done|].
  destruct (server_step env (Later i input) (srv sys)) as [[s' evs]|] eqn:Hx.
  - destruct (run_later_inv env i input sys k s' evs) as (sys' & -> & ? & _); try done; try apply Hi.
    rewrite Hask. apply Hi.
  - unfold run_server. rewrite Hx. exists (Later i input). split; [by econstructor|done].
Qed.

Lemma system_exec_inv env op sys : system_inv sys → system_op_ok op → outcome env op sys.
Proof.
  intros Hi Hok. destruct op; try (apply run_server_progress; [done|done|by constructor|done]);
    try (by eapply link_progress).
  - by apply OnNetwork_progress.
  - cbn [system_exec]. destruct (pending_ (web sys) !! i) as [[u op]|] eqn:Hp; [|by unfold OnPreConnectHook; rewrite Hp].
    destruct (decide (op = Admission)) as [->|Hne].
    + by destruct (OnPreConnectHook_result env i u sys Hi Hp) as (? & ? & ? & ? & _ & _ & _ & -> & _ & _ & _ & ?).
    + unfold OnPreConnectHook. rewrite Hp. by destruct op.
  - cbn [system_exec]. unfold OnWritten.
    destruct (on_link_ok [] u (LComplete ec) sys (si_parts _ Hi)) as (sys1 & -> & Hp1 & Hc1). cbn [mbind option_bind].
    assert (system_inv sys1) by by eapply closes_parts. destruct (_ && _); [by apply close_inv|done].
  - cbn [system_exec]. destruct (on_captcha_ok [] (CComplete i result) sys I (si_parts _ Hi)) as (sys1 & -> & Hp1 & Hc1).
    by eapply closes_parts.
  - by apply OnVerdict_progress.
  - by apply OnPostponed_progress.
  - cbn [system_exec]. pose proof (run_server_progress env StopAll StopServer sys sys I eq_refl (runs_stop _) Hi) as Hr.
    destruct (run_server env StopServer sys) as [sys1|]; [|done]. cbn [mbind option_bind].
    eapply (web_step_inv WStop); [exact Hr|by intros ? (? & ? & [=] & _)|by apply Stop_step, Hr|].
    by eapply (web_exec_talk canonical status open_file prepare_payload token_exists first_token make_address
      doc_root WStop), eq_refl; apply Hr.
Qed.

(** *** Runs *)

(** Nobody has connected and nobody waits for the captcha service. *)
Record fresh s (v : verifier (K := continuation)) : Prop := {
  fr_sockets : sockets s = ∅;
  fr_connections : connections s = ∅;
  fr_later : captcha_waiting (later s) = [];
  fr_captcha : captcha_inv v;
  fr_waiting : waiting v = []
}.

Lemma system_new_inv s v : fresh s v → system_inv (system_new s v).
Proof.
  intros [Hs _ Hl Hc Hw]. split; cbn.
  - exact (web_new_inv canonical status open_file token_exists first_token make_address canonical_absolute doc_root
      doc_root_absolute).
  - split; change (early (DoAccept web_new)) with [0]; [apply NoDup_singleton|].
    intros id ->%list_elem_of_singleton. cbn. lia.
  - split; cbn.
    + intros u [x Hx]. unfold known in *. cbn in Hx. by rewrite Hs, lookup_empty in Hx.
    + intros u (op & Hop & Hin). cbn in Hin. apply list_elem_of_singleton in Hin. by injection Hin as -> ->.
  - split; cbn; [by intros u k; rewrite lookup_empty|done|]. by rewrite Hl, Hw.
Qed.

Lemma system_run_app ops1 ops2 sys :
  system_run (ops1 ++ ops2) sys = sys ← system_run ops1 sys; system_run ops2 sys.
Proof.
  revert sys. induction ops1 as [|[env op] ops1 IH]; intros sys; [done|]. cbn [app system_run].
  destruct (system_exec env op sys) as [sys1|]; [|done]. cbn [mbind option_bind]. apply IH.
Qed.

Abbreviation all_ok ops := (Forall (λ p : server_env * system_op, system_op_ok p.2) ops).

Lemma system_run_inv ops sys sys' : system_inv sys → all_ok ops → system_run ops sys = Some sys' → system_inv sys'.
Proof.
  intros Hi Hok. revert sys Hi. induction Hok as [|[env op] ops Hop _ IH]; intros sys Hi; cbn [system_run].
  { by intros [= <-]. }
  pose proof (system_exec_inv env op sys Hi Hop) as Hx. destruct (system_exec env op sys); [by apply IH|done].
Qed.

Lemma system_run_stuck ops sys :
  system_inv sys → all_ok ops → system_run ops sys = None →
  ∃ ops1 env op ops2 sys1, ops = ops1 ++ (env, op) :: ops2 ∧ system_run ops1 sys = Some sys1 ∧ stuck env op sys1.
Proof.
  intros Hi Hok. revert sys Hi. induction Hok as [|[env op] ops Hop _ IH]; intros sys Hi; cbn [system_run]; [done|].
  pose proof (system_exec_inv env op sys Hi Hop) as Hx. destruct (system_exec env op sys) as [sys1|] eqn:Hs.
  - intros Hr. destruct (IH sys1 Hx Hr) as (ops1 & env' & op' & ops2 & sys2 & -> & Hr1 & Hst).
    exists ((env, op) :: ops1), env', op', ops2, sys2. cbn [system_run]. by rewrite Hs.
  - intros _. by exists [], env, op, ops, sys.
Qed.

(** C2: The composition holds together.  From the moment the server listens,
    whatever the network, the captcha service, the timers, the machines and
    the users do in whatever order: the continuations that wait for the
    captcha service are exactly those whose request is in its client's hands
    or whose callback has been called, so no callback is lost and none runs
    twice; the client has one operation outstanding if and only if it has a
    request; everything that was accepted for a socket is written or queued,
    in order; who speaks the web socket protocol is known to the server, and
    nobody is before [OnPreConnect]; and until the server stops the list of
    sockets has exactly those that are registered or being removed.  The
    server's handlers run one at a time, so that the captcha client's strand is
    free whenever one asks it to verify a token.  If the run stops, it is in a
    handler of the server that was called as it may be and has no defined
    result: the composition never calls one wrongly. *)
Theorem system_safe s v ops :
  fresh s v → all_ok ops →
  match system_run ops (system_new s v) with
  | Some sys =>
      captcha_waiting (later (srv sys)) ≡ₚ waiting (captcha sys) ++ (verdicts sys).*1 ∧
      length (outstanding_ (captcha sys)) = length (option_list (request_ (captcha sys))) ∧
      (∀ u, accepted (link_of u sys) = written (link_of u sys) ++ send_queue_ (link_sender (link_of u sys))) ∧
      (∀ u, talks (web sys) u → known u sys) ∧ (∀ u, known u sys → u ∉ early (web sys)) ∧
      (stopping_ (web sys) = false → ∀ u, u ∈ sockets_ (web sys) ↔
         registered (web sys) u ∨ u ∈ of_op Removing (pending_ (web sys)))
  | None => ∃ ops1 env op ops2 sys, ops = ops1 ++ (env, op) :: ops2 ∧
      system_run ops1 (system_new s v) = Some sys ∧ stuck env op sys
  end.
Proof.
  intros Hf Hok. pose proof (system_new_inv s v Hf) as Hi.
  destruct (system_run ops (system_new s v)) as [sys|] eqn:Hr; [|by apply system_run_stuck].
  destruct (system_run_inv _ _ _ Hi Hok Hr) as [Hw He [Hk Ht] [Hl Hc Hp]]. rewrite app_nil_r in Hp. split_and!; try done.
  - pose proof (ci_one _ Hc) as Hone. destruct (request_ _); [by destruct Hone as [op ->]|by rewrite Hone].
  - intros u. unfold link_of. destruct (links sys !! u) as [k|] eqn:Hu; [|done]. by apply li_order, (Hl u).
  - intros u Hu. by apply Hk.
  - apply (wi_list _ Hw).
Qed.

(** *** Connections per address *)

Lemma on_link_closes u op sys sys' : on_link u op sys = Some sys' → closes sys sys'.
Proof. unfold on_link. destruct (link_exec _ _); [|done]. intros [= <-]. split; try done. by exists []. Qed.

Lemma on_captcha_closes op sys sys' : on_captcha op sys = Some sys' → closes sys sys'.
Proof.
  unfold on_captcha. destruct (captcha_exec _ _ _ _) as [[v evs]|]; [|done]. intros [= <-].
  split; try done. by exists [].
Qed.

Lemma close_closes u sys : closes sys (with_web (WebServer.Close u (web sys)) sys).
Proof. split; try done. by exists [u]. Qed.

Lemma on_event_closes ev sys sys' : on_event sys ev = Some sys' → closes sys sys'.
Proof.
  destruct ev as [[u m|m|u]|vm_id ev|token k|v|ip command|u|u r d]; cbn [on_event];
    first [ apply on_link_closes | apply on_captcha_closes | intros [= <-]; apply close_closes
          | intros [= <-]; reflexivity ].
Qed.

Lemma on_events_closes evs sys sys' : on_events evs sys = Some sys' → closes sys sys'.
Proof.
  revert sys. induction evs as [|ev evs IH]; intros sys; cbn [on_events]; [by intros [= <-]|].
  destruct (on_event sys ev) as [sys1|] eqn:Hev; [|done]. cbn [mbind option_bind]. intros Hr.
  trans sys1; [by eapply on_event_closes|by apply IH].
Qed.

Lemma run_server_closes env op sys sys' :
  run_server env op sys = Some sys' →
  ∃ s' evs, server_step env op (srv sys) = Some (s', evs) ∧ closes (with_srv s' sys) sys'.
Proof.
  unfold run_server. destruct (server_step env op (srv sys)) as [[s' evs]|]; [|done]. cbn [mbind option_bind].
  intros Hr%on_events_closes. by exists s', evs.
Qed.

(** The limit is on, at most [n], and the counter of the address has room. *)
Definition limit_step_ok (n : nat) (op : system_op) sys : Prop :=
  match op with
  | Admit i =>
      match pending_ (web sys) !! i with
      | Some (u, Admission) =>
          limit_enabled (srv sys) ∧
          (getMaxConnections (GetServerSetting MAX_CONNECTIONS (srv sys)) ≤ Z.of_nat n)%Z ∧
          (default 0 (connections (srv sys) !! default [] (address_of (web sys) u)) < 255)%Z
      | _ => True
      end
  | _ => True
  end.

(** [live]: the sockets that are counted; [admitted]: those that were let on. *)
Record limit_inv (n : nat) sys (live admitted : gmap nat (list Z)) : Prop := {
  lv_conn : connections_ok (srv sys) live;
  lv_live u : known u sys → registered (web sys) u → is_Some (live !! u);
  lv_sub : admitted ⊆ live;
  lv_talks u : talks (web sys) u → registered (web sys) u →
    ∃ ip, admitted !! u = Some ip ∧ address_of (web sys) u = Some ip;
  lv_bound ip : count_ip ip admitted ≤ n
}.

Lemma limit_closes n sys sys' live admitted :
  closes sys sys' → limit_inv n sys live admitted → limit_inv n sys' live admitted.
Proof.
  intros Hc [Hco Hl Hs Ht Hb]. destruct (closes_web _ _ Hc) as (Hsame & _ & _ & Htalks & Haddr).
  pose proof (sw_registered _ _ Hsame) as Hreg. pose proof (cl_srv _ _ Hc) as Hsrv. split; try done.
  - by rewrite Hsrv.
  - intros u. unfold known. rewrite Hsrv, Hreg. apply Hl.
  - intros u ?%Htalks. rewrite Hreg, Haddr. by apply Ht.
Qed.

Lemma limit_server n env op sys s' evs live admitted :
  match op with Accept _ _ | Disconnect _ => False | _ => True end →
  server_step env op (srv sys) = Some (s', evs) → limit_inv n sys live admitted →
  limit_inv n (with_srv s' sys) live admitted.
Proof.
  intros Hop Hx [Hco Hl Hs Ht Hb].
  assert (connections_ok s' (live_after op live)) as Hco'
    by (eapply (at_server connections_ok_exec); [exact Hco| |exact Hx]; by destruct op).
  split; try done; [by destruct op|].
  intros u Hu%(at_server sockets_exec env op _ _ _ u Hx). apply Hl. destruct Hu as [?|[ip ->]]; done.
Qed.

Lemma limit_run_server n env op sys sys' live admitted :
  match op with Accept _ _ | Disconnect _ => False | _ => True end →
  run_server env op sys = Some sys' → limit_inv n sys live admitted → limit_inv n sys' live admitted.
Proof.
  intros Hop (s' & evs & Hx & Hc)%run_server_closes Hi. eapply limit_closes; [exact Hc|]. by eapply limit_server.
Qed.

(** A step of the web server that admits nobody. *)
Lemma limit_web n a sys w evs live admitted :
  system_inv sys → (∀ u, ¬ admits a (web sys) u) → web_step (F := F) (web sys) w evs →
  web_talk a (web sys) w → limit_inv n sys live admitted → limit_inv n (with_web w sys) live admitted.
Proof.
  intros [_ _ [Hk Hkt] _] Ha [_ _ Hreg _] [_ _ Htalks Haddr _] [Hco Hl Hs Ht Hb]. split; try done.
  - intros u Hu Hr. apply Hl; [done|]. apply Hreg; [|done]. by apply (Hk u Hu).
  - intros u [Hu|?%Ha]%Htalks Hr; [|done]. destruct (Hk u (Hkt u Hu)) as [Hlt Hno].
    destruct (Ht u Hu (Hreg u Hlt Hr)) as (ip & Hip & Hadr). exists ip. split; [done|]. cbn. by rewrite Haddr.
Qed.

Lemma count_ip_delete_le (ip : list Z) (u : nat) (m : gmap nat (list Z)) : count_ip ip (delete u m) ≤ count_ip ip m.
Proof. destruct (m !! u) as [ip'|] eqn:Hu; [rewrite (count_ip_delete ip _ _ _ Hu); lia|by rewrite delete_id]. Qed.

(** The end of a socket that was counted. *)
Lemma limit_disconnect n env u sys sys' live admitted :
  is_Some (live !! u) → ¬ registered (web sys) u →
  run_server env (Disconnect u) sys = Some sys' → limit_inv n sys live admitted →
  limit_inv n sys' (delete u live) (delete u admitted).
Proof.
  intros Hu Hno (s' & evs & Hx & Hc)%run_server_closes [Hco Hl Hs Ht Hb]. eapply limit_closes; [exact Hc|].
  split.
  - exact (at_server connections_ok_exec env (Disconnect u) _ _ _ _ Hco Hu Hx).
  - intros v Hv Hr. rewrite lookup_delete_ne by (by intros ->). apply Hl; [|done].
    by destruct (proj1 (at_server sockets_exec env _ _ _ _ v Hx) Hv) as [?|[? [=]]].
  - by apply delete_mono.
  - intros v Htv Hr. destruct (Ht v Htv Hr) as (ip & ? & ?). exists ip.
    by rewrite lookup_delete_ne by (by intros ->).
  - intros ip. etrans; [apply count_ip_delete_le|apply Hb].
Qed.

(** What an admission does to the web server. *)
Lemma admission_web i c u st w evs :
  pending_ st !! i = Some (u, Admission) → web_step_ (WComplete i c) st = Some (w, evs) →
  objects w = objects st ∧
  (talks w u → talks st u ∨ c_error c = false) ∧
  (c_error c = false → (u, WebServer.Handshaking) ∈ pending_ w).
Proof.
  intros Hp. cbn [web_exec]. rewrite Hp. cbn [OnComplete]. set (st0 := with_pending _ st).
  assert (talks st0 u → talks st u) as Hold.
  { intros (op & ? & Hin). exists op. split; [done|]. exact (list_elem_of_delete_inv _ _ _ Hin). }
  destruct (c_error c); intros [= <- <-]; split_and!; try done.
  - intros [?|[_ [=]]]%talks_begin. auto.
  - auto.
  - intros _. cbn. apply elem_of_app. right. by apply list_elem_of_singleton.
Qed.

Lemma count_ip_mono (ip : list Z) (m1 m2 : gmap nat (list Z)) : m1 ⊆ m2 → count_ip ip m1 ≤ count_ip ip m2.
Proof. intros Hs. by apply map_subseteq_size, map_filter_subseteq_mono. Qed.

(** Nobody has counted a socket that is on its way. *)
Lemma early_not_live n u sys live admitted :
  system_inv sys → u ∈ early (web sys) → limit_inv n sys live admitted → live !! u = None.
Proof.
  intros Hi Hu Hl. destruct (live !! u) as [ip|] eqn:Hlu; [|done]. exfalso.
  apply (co_live _ _ (lv_conn _ _ _ _ Hl)) in Hlu. assert (known u sys) as Hk.
  { unfold known. destruct (sockets (srv sys) !! u); [by eexists|done]. }
  by apply (si_known _ Hi) in Hk as [_ Hno].
Qed.

Lemma admission_early i u sys : pending_ (web sys) !! i = Some (u, Admission) → u ∈ early (web sys).
Proof. intros Hp. apply elem_of_early. exists Admission. split; [done|by eapply list_elem_of_lookup_2]. Qed.

(** One more socket of an address is admitted only while there is room. *)
Lemma admitted_bound n u ip (admitted live : gmap nat (list Z)) (max : Z) :
  admitted !! u = None → admitted ⊆ live → (∀ ip', count_ip ip' admitted ≤ n) → (max ≤ Z.of_nat n)%Z →
  (max <? Z.of_nat (count_ip ip live) + 1)%Z = false → ∀ ip', count_ip ip' (<[u:=ip]> admitted) ≤ n.
Proof.
  intros Hu Hs Hb Hmax Hroom ip'. rewrite count_ip_insert by done.
  destruct (decide (ip = ip')) as [<-|]; [|apply Hb].
  pose proof (count_ip_mono ip _ _ Hs). apply Z.ltb_ge in Hroom. lia.
Qed.

(** The decision about a socket: it is let on if its address has room. *)
Lemma limit_admit n env i u sys sys' live admitted :
  system_inv sys → pending_ (web sys) !! i = Some (u, Admission) → limit_step_ok n (Admit i) sys →
  OnPreConnectHook env i sys = Some sys' → limit_inv n sys live admitted →
  ∃ live' admitted', limit_inv n sys' live' admitted'.
Proof.
  intros Hi Hp Hok Hx' Hl. cbn in Hok. rewrite Hp in Hok. destruct Hok as (Hen & Hmax & Hroom).
  destruct (OnPreConnectHook_result env i u sys Hi Hp)
    as (s' & ev & c & w & Hx & Hw & Hc & Hhook & [_ _ Hreg _] & [_ _ Htalks Haddr _] & Hev & _).
  rewrite Hhook in Hx'. injection Hx' as <-. set (ip := default [] _) in *.
  pose proof (admission_early i u sys Hp) as Hearly.
  pose proof (early_not_live n u sys live admitted Hi Hearly Hl) as Hlu.
  assert (u < next_socket (web sys)) as Hlt by by apply (ei_fresh _ (si_early _ Hi)).
  destruct Hl as [Hco Hlive Hs Ht Hb].
  assert (connection_step_ok (C := C) (Accept u ip) (srv sys) live) as Hok.
  { split_and!; [done|done|]. pose proof (co_count _ _ Hco ip). lia. }
  destruct (at_server Accept_connections env u ip _ _ Hco Hok) as (s'' & Hx2 & Hco').
  rewrite Hx in Hx2. injection Hx2 as -> Hdecision.
  pose proof (λ v, at_server sockets_exec env _ _ _ _ v Hx) as Hdom.
  destruct (admission_web i c u _ _ _ Hp Hw) as (Hobj & Hself & _).
  assert (admitted !! u = None) as Hau by (by eapply lookup_weaken_None).
  assert (∀ v, v ≠ u → talks w v → registered w v →
    ∃ ip', admitted !! v = Some ip' ∧ address_of w v = Some ip') as Hothers.
  { intros v Hne [Hv|(i' & c' & [= <- <-] & ?)]%Htalks Hr; [|congruence].
    destruct (ko_once _ (si_known _ Hi) v (ko_talks _ (si_known _ Hi) v Hv)) as [Hltv Hnov].
    destruct (Ht v Hv (Hreg v Hltv Hr)) as (ip' & ? & Hadr). exists ip'. by rewrite Haddr. }
  assert (∀ v, known v (with_srv s'' sys) → registered w v → is_Some (<[u:=ip]> live !! v)) as Hlive'.
  { intros v [Hv|[ip' [= <- <-]]]%Hdom Hr; [|by rewrite lookup_insert_eq].
    rewrite lookup_insert_is_Some. right. destruct (decide (u = v)) as [->|]; [|split; [done|]].
    - by destruct (ko_once _ (si_known _ Hi) v Hv).
    - apply Hlive; [done|]. apply Hreg; [|done]. by apply (ko_once _ (si_known _ Hi)). }
  exists (<[u:=ip]> live). destruct (c_error c) eqn:Hce.
  - exists admitted. split; [exact Hco'|exact Hlive'|by apply insert_subseteq_r| |exact Hb].
    intros v Hv Hr. destruct (decide (v = u)) as [->|Hne]; [|by apply Hothers].
    destruct (Hself Hv) as [Hold|?]; [|congruence].
    destruct (ko_once _ (si_known _ Hi) u (ko_talks _ (si_known _ Hi) u Hold)) as [_ Hno]. done.
  - exists (<[u:=ip]> admitted). split; [exact Hco'|exact Hlive'|by apply insert_mono| |].
    + intros v Hv Hr. destruct (decide (v = u)) as [->|Hne].
      * exists ip. split; [apply lookup_insert_eq|]. unfold ip, address_of. cbn. rewrite Hobj.
        unfold registered in Hr. cbn in Hr. rewrite Hobj in Hr. by destruct (objects (web sys) !! u).
      * rewrite lookup_insert_ne by done. by apply Hothers.
    + apply (admitted_bound n u ip admitted live _ Hau Hs Hb Hmax).
      assert (accepts u ev = true) as Hacc by (by destruct (accepts u ev)).
      destruct Hev as [-> | ->]; [|done]. revert Hdecision. by case_match.
Qed.

Lemma limit_network n env i c bytes sys sys' live admitted :
  system_inv sys → system_op_ok (Network i c bytes) → OnNetwork env i c bytes sys = Some sys' →
  limit_inv n sys live admitted → ∃ live' admitted', limit_inv n sys' live' admitted'.
Proof.
  intros Hi Hok. unfold OnNetwork.
  destruct (pending_ (web sys) !! i) as [[u op]|] eqn:Hp; [|intros [= <-]; eauto].
  destruct (decide (op = Admission)) as [->|Hadm]; [intros [= <-]; eauto|].
  set (a := WComplete i (with_error (overflows u op bytes sys) c)).
  destruct (web_exec_step canonical status open_file prepare_payload token_exists first_token make_address
    canonical_absolute doc_root doc_root_absolute a (web sys) (si_web _ Hi) Hok) as (w & evs & Hx & Hstep).
  pose proof (web_exec_talk _ _ _ _ _ _ _ _ _ _ _ _ (si_early _ Hi) Hx) as Htalk. rewrite Hx. intros Hr Hl.
  assert (on_web_events env bytes evs (with_web w sys) = Some sys') as Hevs by (by destruct op). clear Hr.
  assert (∀ v, ¬ admits a (web sys) v) as Hno by (intros v (i' & c' & [= <- _] & ?); congruence).
  pose proof (limit_web n a sys w evs live admitted Hi Hno Hstep Htalk Hl) as Hl'.
  destruct (web_exec_event _ _ _ _ _ _ _ _ _ _ _ _ _ _ _ Hp Hx) as [->|(ev & -> & Hev)];
    [injection Hevs as <-; eauto|].
  cbn [on_web_events] in Hevs. destruct (on_web_event env bytes (with_web w sys) ev) as [sys1|] eqn:He; [|done].
  injection Hevs as <-. destruct ev as [v|v|v|v|v r]; cbn [on_web_event] in He.
  - destruct (run_server env (Handshake v) _) as [sys2|] eqn:Hr; [|done]. injection He as <-.
    pose proof (limit_run_server n env (Handshake v) _ _ _ _ I Hr Hl') as [? ? ? ? ?]. exists live, admitted. by split.
  - unfold OnMessageHook in He. destruct (read_message bytes) as [m|].
    + destruct (run_server env (Message v m) _) as [sys2|] eqn:Hr; [|done]. injection He as <-.
      pose proof (limit_run_server n env (Message v m) _ _ _ _ I Hr Hl') as [? ? ? ? ?].
      exists live, admitted. by split.
    + injection He as <-. pose proof (limit_closes n _ _ _ _ (close_closes v (with_web w sys)) Hl') as [? ? ? ? ?].
      exists live, admitted. by split.
  - unfold OnDisconnectHook in He. destruct (sockets _ !! v) eqn:Hv; [|injection He as <-; eauto].
    destruct Hstep as [_ _ _ [[=]|(id & [= <-] & Hreg & Hnot)]].
    exists (delete v live), (delete v admitted). eapply (limit_disconnect n env v (with_web w sys)); [|done|exact He|done].
    apply (lv_live _ _ _ _ Hl); [by eexists|done].
  - injection He as <-. eauto.
  - injection He as <-. eauto.
Qed.

Lemma limit_exec n env op sys sys' live admitted :
  system_inv sys → system_op_ok op → limit_step_ok n op sys → system_exec env op sys = Some sys' →
  limit_inv n sys live admitted → ∃ live' admitted', limit_inv n sys' live' admitted'.
Proof.
  intros Hi Hok Hlim Hx Hl.
  assert (∀ sop sys0, match sop with Accept _ _ | Disconnect _ => False | _ => True end →
    limit_inv n sys0 live admitted → run_server env sop sys0 = Some sys' →
    ∃ live' admitted', limit_inv n sys' live' admitted') as Hrun.
  { intros sop sys0 Hsop Hl0 Hr. exists live, admitted. by eapply limit_run_server. }
  destruct op; cbn [system_exec] in Hx; try (by eapply Hrun, Hx).
  - by eapply limit_network.
  - destruct (pending_ (web sys) !! i) as [[u op]|] eqn:Hp.
    + destruct (decide (op = Admission)) as [->|Hne]; [by eapply limit_admit|].
      unfold OnPreConnectHook in Hx. rewrite Hp in Hx. destruct op; try done; simplify_eq; eauto.
    + unfold OnPreConnectHook in Hx. rewrite Hp in Hx. simplify_eq. eauto.
  - unfold OnWritten in Hx. destruct (on_link u _ sys) as [sys1|] eqn:Hon; [|done]. injection Hx as <-.
    pose proof (limit_closes n _ _ _ _ (on_link_closes _ _ _ _ Hon) Hl) as Hl1.
    exists live, admitted. destruct (_ && _); [|done]. exact (limit_closes n _ _ _ _ (close_closes u sys1) Hl1).
  - exists live, admitted. by eapply limit_closes, Hl; eapply on_captcha_closes.
  - unfold OnVerdict in Hx. destruct (verdicts sys !! j) as [[k b]|]; [|injection Hx as <-; eauto].
    destruct (index_of _ _) as [i|]; [|done]. eapply Hrun, Hx; [done|]. by destruct Hl; split.
  - unfold OnPostponed in Hx. destruct (later (srv sys) !! i) as [k|]; [|injection Hx as <-; eauto].
    destruct (asks_captcha k); [injection Hx as <-; eauto|by eapply Hrun, Hx].
  - exists live, admitted. by eapply limit_closes, Hl; eapply on_link_closes.
  - pose proof (run_server_progress env StopAll StopServer sys sys I eq_refl (runs_stop _) Hi) as Hi1.
    destruct (run_server env StopServer sys) as [sys1|] eqn:Hr; [|done]. injection Hx as <-.
    pose proof (limit_run_server n env StopServer _ _ _ _ I Hr Hl) as Hl1.
    exists live, admitted. eapply (limit_web n WStop); [exact Hi1|by intros ? (? & ? & [=] & _)|by apply Stop_step, Hi1| |done].
    by eapply (web_exec_talk canonical status open_file prepare_payload token_exists first_token make_address
      doc_root WStop), eq_refl; apply Hi1.
Qed.

(** The limit is on whenever a socket is decided about. *)
Fixpoint limited (n : nat) (ops : list (server_env * system_op)) sys : Prop :=
  match ops with
  | [] => True
  | (env, op) :: ops =>
      limit_step_ok n op sys ∧
      match system_exec env op sys with Some sys' => limited n ops sys' | None => True end
  end.

Lemma limit_run n ops sys sys' live admitted :
  system_inv sys → all_ok ops → limited n ops sys → system_run ops sys = Some sys' →
  limit_inv n sys live admitted → ∃ live' admitted', limit_inv n sys' live' admitted'.
Proof.
  intros Hi Hok. revert sys live admitted Hi.
  induction Hok as [|[env op] ops Hop _ IH]; intros sys live admitted Hi; cbn [system_run limited].
  { intros _ [= <-]. eauto. }
  pose proof (system_exec_inv env op sys Hi Hop) as Hi1.
  intros [Hlim Hrest]. destruct (system_exec env op sys) as [sys1|] eqn:Hx; [|done]. intros Hr Hl.
  destruct (limit_exec n env op sys sys1 live admitted Hi Hop Hlim Hx Hl) as (live1 & admitted1 & Hl1).
  by eapply IH.
Qed.

(** C6: The limit on connections holds for the whole program.  From the moment
    it listens, whatever the clients send, completes or fails in any order, if
    the limit is on and at most [n] whenever a connection is decided about
    (and an address never has 255 undecided or open connections), then at no
    time do more than [n] open sockets of one address speak the web socket
    protocol. *)
Theorem system_connection_limit n s v ops sys ip (ids : list nat) :
  fresh s v → all_ok ops → limited n ops (system_new s v) →
  system_run ops (system_new s v) = Some sys → NoDup ids →
  (∀ u, u ∈ ids → talks (web sys) u ∧ registered (web sys) u ∧ address_of (web sys) u = Some ip) →
  length ids ≤ n.
Proof.
  intros Hf Hok Hlim Hr Hnd Hids.
  assert (limit_inv n (system_new s v) ∅ ∅) as Hl.
  { split; cbn.
    - by apply connections_start_ok, Hf.
    - intros u [x Hx]. cbn in Hx. by rewrite (fr_sockets _ _ Hf), lookup_empty in Hx.
    - done.
    - intros u (op & Hop & Hin). cbn in Hin. apply list_elem_of_singleton in Hin. by injection Hin as -> ->.
    - intros ip'. unfold count_ip. rewrite map_filter_empty, map_size_empty. lia. }
  destruct (limit_run n ops _ sys ∅ ∅ (system_new_inv s v Hf) Hok Hlim Hr Hl) as (live & admitted & [_ _ _ Ht Hb]).
  etrans; [|apply (Hb ip)]. unfold count_ip. rewrite <-size_dom, <-(size_list_to_set (C := gset nat) ids) by done.
  apply subseteq_size. intros u [Htu [Hru Hau]]%elem_of_list_to_set%Hids.
  destruct (Ht u Htu Hru) as (ip' & Ha & Hadr). apply elem_of_dom. exists ip'.
  apply map_lookup_filter_Some. split; [done|]. cbn. congruence.
Qed.

(** *** Captchas *)

Abbreviation required u sys := (captcha_required_of u (srv sys)).

(** The step in which the captcha client says that [u] has solved its captcha:
    the service has confirmed [u]'s request, or [u] sends a token while
    captchas are off. *)
Definition confirms u (op : system_op) sys : Prop :=
  match op with
  | Service i result =>
      ∃ nop, outstanding_ (captcha sys) !! i = Some nop ∧
        confirmed json_bool (captcha sys) nop result (CaptchaVerdict u)
  | Network i c bytes =>
      pending_ (web sys) !! i = Some (u, ReadingMessage) ∧ captcha_off (captcha sys) ∧
      ∃ token, read_message bytes = Some (CAPTCHA_COMPLETED token)
  | _ => False
  end.

(** [u] is past its handshake, and no positive verdict for it is under way. *)
Record unconfirmed u sys : Prop := {
  un_known : known u sys;
  un_handshake : (u, WebServer.Handshaking) ∉ pending_ (web sys);
  un_required : required u sys;
  un_verdict : (CaptchaVerdict u, true) ∉ verdicts sys
}.

Lemma closes_pending sys sys' u :
  closes sys sys' → (u, WebServer.Handshaking) ∈ pending_ (web sys') → (u, WebServer.Handshaking) ∈ pending_ (web sys).
Proof.
  intros [_ [l ->] _]. generalize (web sys). induction l as [|v l IH]; intros w; cbn; [done|].
  intros Hin%IH. cbn in Hin. apply elem_of_app in Hin as [?|?%list_elem_of_singleton]; [done|congruence].
Qed.

Lemma on_events_no_verdict evs sys sys' :
  verifies evs = [] → on_events evs sys = Some sys' → verdicts sys' = verdicts sys.
Proof.
  revert sys. induction evs as [|ev evs IH]; intros sys Hv; cbn [on_events]; [by intros [= <-]|].
  destruct (on_event sys ev) as [sys1|] eqn:Hev; [|done]. cbn [mbind option_bind]. intros Hr.
  assert (verifies evs = [] ∧ verdicts sys1 = verdicts sys) as [Hv' <-]; [|by apply IH].
  destruct ev as [[u m|m|u]|vm_id ev|token k|v|ip command|u|u r d]; cbn [on_event] in Hev; try done;
    (split; [done|]); try (by injection Hev as <-).
  - unfold on_link in Hev. destruct (link_exec _ _); [|done]. by injection Hev as <-.
  - unfold on_captcha in Hev. cbn in Hev. injection Hev as <-. cbn. by rewrite app_nil_r.
Qed.

(** A handler of the server that cannot lift [u]'s captcha. *)
Lemma unconfirmed_run u env op sys sys' :
  ¬ may_lift u op (srv sys) → unconfirmed u sys → run_server env op sys = Some sys' →
  unconfirmed u sys' ∨
  ∃ token, op = Message u (CAPTCHA_COMPLETED token) ∧ captcha_off (captcha sys).
Proof.
  intros Hno [Hk Hh Hreq Hver] Hr. pose proof Hr as (s' & evs & Hx & Hc)%run_server_closes.
  unfold run_server in Hr. rewrite Hx in Hr. cbn [mbind option_bind] in Hr.
  assert ((CaptchaVerdict u, true) ∉ verdicts sys' ∨
    ∃ token, op = Message u (CAPTCHA_COMPLETED token) ∧ captcha_off (captcha sys)) as [Hv|?]; [| |by right].
  { destruct (at_server verifies_exec env op _ _ _ Hx) as [Hn|(token & k & ip & -> & Hk')].
    - left. by rewrite (on_events_no_verdict _ _ _ Hn Hr).
    - cbn [on_events on_event mbind option_bind] in Hr. unfold on_captcha in Hr. cbn [captcha_exec with_srv captcha] in Hr.
      destruct (Captcha.Verify _ _ _ _ _ _) as [[v evs']|] eqn:Hverify; [|done]. injection Hr as <-. cbn.
      destruct (decide ((CaptchaVerdict u, true) ∈ answers evs')) as [Hin|Hin]; [right|left].
      + pose proof (Verify_answers _ _ _ _ _ _ _ _ _ _ Hverify Hin) as Heq. exists token.
        split; [by apply Hk'|]. apply elem_of_answers in Hin. by eapply Verify_true.
      + by intros [?|?]%elem_of_app. }
  left. split; [|by intros Hin%(closes_pending _ _ _ Hc)| |done].
  - unfold known. rewrite (cl_srv _ _ Hc). apply (at_server sockets_exec env op _ _ _ u Hx). by left.
  - rewrite (cl_srv _ _ Hc). by destruct (at_server captcha_lifted env op _ _ _ u Hx Hreq).
Qed.

Lemma unconfirmed_closes u sys sys' :
  closes sys sys' → verdicts sys' = verdicts sys → unconfirmed u sys → unconfirmed u sys'.
Proof.
  intros Hc Hv [Hk Hh Hr Hver]. split; [| by intros Hin%(closes_pending _ _ _ Hc)| |by rewrite Hv];
    unfold known; by rewrite (cl_srv _ _ Hc).
Qed.

Lemma unconfirmed_web u a sys w evs :
  web_step_ a (web sys) = Some (w, evs) → ¬ admits a (web sys) u → unconfirmed u sys → unconfirmed u (with_web w sys).
Proof.
  intros Hx Ha [Hk Hh Hr Hver]. split; [done| |done|done]. cbn.
  by intros [?|?]%(web_exec_handshaking _ _ _ _ _ _ _ _ _ _ _ _ _ Hx).
Qed.

Lemma unconfirmed_network u env i c bytes sys sys' :
  system_inv sys → system_op_ok (Network i c bytes) → OnNetwork env i c bytes sys = Some sys' →
  unconfirmed u sys → unconfirmed u sys' ∨ confirms u (Network i c bytes) sys.
Proof.
  intros Hi Hok. unfold OnNetwork.
  destruct (pending_ (web sys) !! i) as [[v op]|] eqn:Hp; [|intros [= <-]; by left].
  destruct (decide (op = Admission)) as [->|Hadm]; [intros [= <-]; by left|].
  set (a := WComplete i (with_error (overflows v op bytes sys) c)).
  destruct (web_step_ a (web sys)) as [[w evs]|] eqn:Hx; [|by destruct op]. intros Hr Hu.
  assert (on_web_events env bytes evs (with_web w sys) = Some sys') as Hevs by (by destruct op). clear Hr.
  assert (unconfirmed u (with_web w sys)) as Hu1.
  { eapply unconfirmed_web; [exact Hx| |done]. intros (i' & c' & [= <- _] & ?). congruence. }
  destruct (web_exec_event _ _ _ _ _ _ _ _ _ _ _ _ _ _ _ Hp Hx) as [->|(ev & -> & Hev)];
    [injection Hevs as <-; by left|].
  cbn [on_web_events] in Hevs. destruct (on_web_event env bytes (with_web w sys) ev) as [sys1|] eqn:He; [|done].
  injection Hevs as <-. destruct ev as [x|x|x|x|x r]; cbn [on_web_event] in He;
    try (by injection He as <-; left); destruct Hev as [-> ->].
  - destruct (run_server env (Handshake v) _) as [sys2|] eqn:Hr; [|done]. injection He as <-. left.
    assert (v ≠ u) as Hne by (intros ->; by apply (un_handshake _ _ Hu); eapply list_elem_of_lookup_2).
    destruct (unconfirmed_run u env (Handshake v) _ _ Hne Hu1 Hr) as [[]|(? & [=] & _)]. by split.
  - unfold OnMessageHook in He. destruct (read_message bytes) as [m|] eqn:Hm.
    + destruct (run_server env (Message v m) _) as [sys2|] eqn:Hr; [|done]. injection He as <-.
      destruct (unconfirmed_run u env (Message v m) _ _ id Hu1 Hr) as [[]|(token & [= -> ->] & Hoff)];
        [left; by split|]. right. split_and!; [done|done|by exists token].
    + injection He as <-. left.
      destruct (unconfirmed_closes u _ _ (close_closes v (with_web w sys)) eq_refl Hu1). by split.
  - unfold OnDisconnectHook in He. destruct (sockets _ !! v); [|injection He as <-; by left].
    destruct (unconfirmed_run u env (Disconnect v) _ _ id Hu1 He) as [?|(? & [=] & _)]. by left.
Qed.

Lemma unconfirmed_service u env i result sys sys' :
  system_exec env (Service i result) sys = Some sys' → unconfirmed u sys →
  unconfirmed u sys' ∨ confirms u (Service i result) sys.
Proof.
  cbn [system_exec]. intros Hx Hu. pose proof (on_captcha_closes _ _ _ Hx) as Hc.
  unfold on_captcha in Hx. cbn [captcha_exec] in Hx.
  destruct (outstanding_ (captcha sys) !! i) as [nop|] eqn:Hi.
  - destruct (Captcha.OnComplete _ _ _ _ _) as [[v evs]|] eqn:Hcomplete; [|done]. injection Hx as <-.
    destruct (decide ((CaptchaVerdict u, true) ∈ answers evs)) as [Hin|Hin].
    + right. exists nop. split; [done|]. apply elem_of_answers in Hin.
      exact (OnComplete_true _ _ nop result _ _ _ _ Hcomplete Hin).
    + left. destruct Hu. split; try done. cbn. by intros [?|?]%elem_of_app.
  - injection Hx as <-. left. destruct Hu. split; try done. cbn. by rewrite app_nil_r.
Qed.

Lemma unconfirmed_admit u env i sys sys' :
  system_inv sys → OnPreConnectHook env i sys = Some sys' → unconfirmed u sys → unconfirmed u sys'.
Proof.
  intros Hi Hx Hu. destruct (pending_ (web sys) !! i) as [[v op]|] eqn:Hp.
  2:{ unfold OnPreConnectHook in Hx. rewrite Hp in Hx. by injection Hx as <-. }
  destruct (decide (op = Admission)) as [->|Hne].
  2:{ unfold OnPreConnectHook in Hx. rewrite Hp in Hx. by destruct op; simplify_eq. }
  destruct (OnPreConnectHook_result env i v sys Hi Hp) as (s' & ev & c & w & Hs & Hw & _ & Hhook & _).
  rewrite Hhook in Hx. injection Hx as <-.
  assert (v ≠ u) as Hne.
  { intros ->. by apply (ko_once _ (si_known _ Hi) u (un_known _ _ Hu)), (admission_early i). }
  destruct (unconfirmed_web u _ sys w _ Hw) as [Hk Hh Hr Hv]; [|done|].
  { intros (i' & c' & [= <- <-] & ?). congruence. }
  split; [|done| |done].
  - apply (at_server sockets_exec env _ _ _ _ u Hs). by left.
  - by destruct (at_server captcha_lifted env _ _ _ _ u Hs Hr).
Qed.

Lemma unconfirmed_exec u env op sys sys' :
  system_inv sys → system_op_ok op → system_exec env op sys = Some sys' → unconfirmed u sys →
  unconfirmed u sys' ∨ confirms u op sys.
Proof.
  intros Hi Hok Hx Hu.
  assert (∀ sop sys0, match sop with Message _ _ => False | _ => ¬ may_lift u sop (srv sys0) end → unconfirmed u sys0 →
    run_server env sop sys0 = Some sys' → unconfirmed u sys' ∨ confirms u op sys) as Hrun.
  { intros sop sys0 Hsop Hu0 Hr. left.
    destruct (unconfirmed_run u env sop sys0 sys') as [?|(token & -> & _)]; [by destruct sop|done..]. }
  destruct op; try (cbn [system_exec] in Hx; by eapply Hrun, Hx; [intros []|]).
  - by eapply unconfirmed_network.
  - left. by eapply unconfirmed_admit.
  - cbn [system_exec] in Hx. unfold OnWritten in Hx. destruct (on_link u0 _ sys) as [sys1|] eqn:Hon; [|done]. injection Hx as <-.
    assert (unconfirmed u sys1) as Hu1.
    { eapply unconfirmed_closes; [by eapply on_link_closes| |done].
      unfold on_link in Hon. destruct (link_exec _ _); [|done]. by injection Hon as <-. }
    left. destruct (_ && _); [|done]. exact (unconfirmed_closes u _ _ (close_closes u0 sys1) eq_refl Hu1).
  - by eapply unconfirmed_service.
  - cbn [system_exec] in Hx. unfold OnVerdict in Hx. destruct (verdicts sys !! j) as [[k b]|] eqn:Hj; [|injection Hx as <-; by left].
    destruct (index_of _ _) as [i|] eqn:Hix; [|done]. cbn [mbind option_bind] in Hx.
    eapply Hrun, Hx.
    + intros [Hk Hb]. cbn in Hk, Hb. subst b. unfold index_of in Hix.
      destruct (list_find _ _) as [[i' k']|] eqn:Hf; [|done]. injection Hix as ->.
      apply list_find_Some in Hf as (Hk' & -> & _). apply (un_verdict _ _ Hu).
      assert (k = CaptchaVerdict u) as <- by congruence. by eapply list_elem_of_lookup_2.
    + destruct Hu as [? ? ? Hv]. split; try done. intros Hin. apply Hv. exact (list_elem_of_delete_inv _ _ _ Hin).
  - cbn [system_exec] in Hx. unfold OnPostponed in Hx. destruct (later (srv sys) !! i) as [k|] eqn:Hk; [|injection Hx as <-; by left].
    destruct (asks_captcha k) eqn:Ha; [injection Hx as <-; by left|]. eapply Hrun, Hx; [|done].
    cbn. rewrite Hk. by intros [[= ->] _].
  - left. cbn [system_exec] in Hx. eapply unconfirmed_closes; [by eapply on_link_closes| |done].
    unfold on_link in Hx. destruct (link_exec _ _); [|done]. by injection Hx as <-.
  - cbn [system_exec] in Hx. destruct (run_server env StopServer sys) as [sys1|] eqn:Hr; [|done]. injection Hx as <-.
    destruct (unconfirmed_run u env StopServer sys sys1 id Hu Hr) as [Hu1|(? & [=] & _)]. left.
    apply (unconfirmed_web u WStop sys1 _ []); [done|by intros (? & ? & [=] & _)|done].
Qed.

(** C7: Nobody gets rid of a captcha without the service.  In every run, if
    a captcha is required of a socket - no positive answer being under way -
    and at some later time it is not, then in between the captcha service
    has answered the request made for that very socket, and confirmed it; or
    captchas were switched off when the socket sent a token. *)
Theorem system_captcha s v ops0 sys u ops sys' :
  fresh s v → all_ok ops0 → system_run ops0 (system_new s v) = Some sys →
  unconfirmed u sys → all_ok ops → system_run ops sys = Some sys' → ¬ required u sys' →
  ∃ ops1 env op ops2 sys1, ops = ops1 ++ (env, op) :: ops2 ∧ system_run ops1 sys = Some sys1 ∧ confirms u op sys1.
Proof.
  intros Hf Hok0 Hr0 Hu Hok. pose proof (system_run_inv _ _ _ (system_new_inv s v Hf) Hok0 Hr0) as Hi. clear Hr0 Hok0 Hf.
  revert sys Hu Hi. induction Hok as [|[env op] ops Hop _ IH]; intros sys Hu Hi; cbn [system_run].
  { intros [= <-] Hno. by destruct Hno, Hu. }
  pose proof (system_exec_inv env op sys Hi Hop) as Hi1.
  destruct (system_exec env op sys) as [sys1|] eqn:Hx; [|done]. cbn [mbind option_bind]. intros Hr Hno.
  destruct (unconfirmed_exec u env op sys sys1 Hi Hop Hx Hu) as [Hu1|Hc].
  - destruct (IH sys1 Hu1 Hi1 Hr Hno) as (ops1 & env' & op' & ops2 & sys2 & -> & Hr1 & Hc).
    exists ((env, op) :: ops1), env', op', ops2, sys2. cbn [system_run]. by rewrite Hx.
  - by exists [], env, op, ops, sys.
Qed.
End System.

(** ** Concrete runs *)

Module SystemDemo.
#[local] Existing Instance FilesDemo.ascii_case.
Import ServerDemo.
#[local] Existing Instances ServerDemo.view_schema ServerDemo.unit_client ServerDemo.demo_server_schema.
Local Open Scope string_scope.

(** One connection per address; a captcha is required. *)
Definition demo_settings : list (setting demo_value) :=
  [Setting 0 (VNum 0); Setting 1 (VBool true); Setting 2 (VNum 1); Setting 3 (VBool true)].
Definition start : ServerDemo.state := set_sockets ∅ (set_server_config ∅ demo_settings s0).
Abbreviation continuation := (Server.continuation (U := nat)).
Definition service : verifier (K := continuation) := (SetSettings (CaptchaDemo.settings false) captcha_new).1.

Definition read_message (bytes : list Z) : option ServerDemo.message :=
  match bytes with
  | [1%Z] => Some (CAPTCHA_COMPLETED "token")
  | [2%Z] => Some VM_LIST_REQUEST
  | _ => None
  end.

Definition upgrade : WebServer.request := Request WebServer.get "/" (λ name,
  if String.eqb name "Connection" then Some "upgrade"
  else if String.eqb name "Upgrade" then Some "websocket" else None).
Definition client (last : Z) : completion :=
  Completion false (Some (address_v4 [10; 0; 0; last]%Z)) false upgrade.

Definition no_path (path : string) : option string := None.
Definition no_status (path : string) : option file_type := None.
Definition no_file (path : string) : option unit := None.
Definition no_address (s : string) : option address := None.
Lemma no_path_absolute (p q : string) : no_path p = Some q → rooted q = true.
Proof. done. Qed.
Abbreviation at_system thm := (thm 5%Z (λ _, 8%Z) (λ _, 16%Z) (λ _, "1") (λ _, ["hostname"]) (λ _, true)
  (λ _, []) (λ _, None) (λ n, negb (String.eqb n EmptyString)) 100%Z 1%Z 1%Z (λ _, true) 20 100 GUEST
  DatabaseDemo.hash DatabaseDemo.bind (λ _, EmptyString) unit no_path no_status no_file (λ _, true) String.eqb
  (λ s, s) no_address "/srv" CaptchaDemo.json CaptchaDemo.replace_all read_message
  (λ _, CaptchaDemo.settings false)).
Abbreviation run := (at_system system_run).

Abbreviation op := (Z * system_op (C := unit) (V := demo_value) (G := guac_view))%type.
Definition now (l : list op) := (λ p : op, (env p.1, p.2)) <$> l.

(** Two clients at one address: the first is let in, the second is not. *)
Definition connect_two := now
  [(1%Z, Network 0 (client 1) []); (2%Z, Network 0 (client 1) []); (3%Z, Admit 1); (4%Z, Network 1 (client 1) []);
   (5%Z, Network 0 (client 1) []); (6%Z, Network 1 (client 1) []); (7%Z, Admit 2)].

Lemma start_fresh : fresh start service.
Proof. split; try done. split; try done. by intros [[? [=]]|[=]]. Qed.

Example second_is_refused :
  (λ sys, pending_ (web sys)) <$> run connect_two (system_new start service)
  = Some [(0, ReadingMessage); (2, Accepting); (1, Closing)].
Proof. by vm_compute. Qed.

Definition connected : system (T := list_timer) (G := guac_view) (V := demo_value) :=
  default (system_new start service) (run connect_two (system_new start service)).

Lemma connected_run : run connect_two (system_new start service) = Some connected.
Proof. by vm_compute. Qed.

Lemma connect_two_ok : Forall (λ p, system_op_ok p.2) connect_two.
Proof. repeat constructor; done. Qed.

Lemma system_safe_witness :
  ∃ sys, run connect_two (system_new start service) = Some sys ∧ (∀ u, talks (web sys) u → known u sys) ∧
    ∀ u, u ∈ sockets_ (web sys) ↔ registered (web sys) u ∨ u ∈ of_op Removing (pending_ (web sys)).
Proof.
  exists connected. split; [apply connected_run|].
  pose proof (at_system system_safe no_path_absolute eq_refl start service connect_two start_fresh connect_two_ok) as Hs.
  rewrite connected_run in Hs. destruct Hs as (_ & _ & _ & Ht & _ & Hl). split; [exact Ht|].
  apply Hl. by vm_compute.
Defined.

Lemma connect_two_limited : at_system limited 1 connect_two (system_new start service).
Proof. vm_compute. repeat split; discriminate. Qed.

Definition address_1 : list Z := IpAddress (address_v4 [10; 0; 0; 1]%Z).
Lemma system_connection_limit_witness (ids := [0]) :
  (length ids ≤ 1)%nat ∧ ∀ u, u ∈ ids → registered (web connected) u ∧ address_of (web connected) u = Some address_1.
Proof.
  assert (∀ u, u ∈ ids → talks (web connected) u ∧ registered (web connected) u ∧
    address_of (web connected) u = Some address_1) as Hids.
  { intros u ->%list_elem_of_singleton. split_and!; [|by vm_compute|by vm_compute].
    exists ReadingMessage. split; [done|]. vm_compute. by left. }
  split; [|intros u Hu; by destruct (Hids u Hu) as (_ & ? & ?)].
  exact (at_system system_connection_limit no_path_absolute eq_refl 1 start service connect_two connected address_1
    ids start_fresh connect_two_ok connect_two_limited connected_run (NoDup_singleton 0) Hids).
Defined.

(** The first client solves its captcha. *)
Definition yes : network_result := NetworkResult success true "ok".
Definition solve := now
  [(8%Z, Network 0 (client 1) [1%Z]); (9%Z, Service 0 yes); (10%Z, Service 0 yes); (11%Z, Service 0 yes);
   (12%Z, Service 0 yes); (13%Z, Verdict 0 (LaterInput false (VmInfoProducer None None [])))].
Definition solved := default connected (run solve connected).

Lemma system_captcha_witness :
  run solve connected = Some solved ∧
  ∃ ops1 env op ops2 sys1, solve = (ops1 ++ (env, op) :: ops2)%list ∧ run ops1 connected = Some sys1 ∧
    confirms CaptchaDemo.json read_message 0 op sys1.
Proof.
  assert (run solve connected = Some solved) as Hsolved by (by vm_compute). split; [exact Hsolved|].
  apply (at_system system_captcha no_path_absolute eq_refl start service connect_two connected 0 solve solved);
    [exact start_fresh|exact connect_two_ok|exact connected_run| |repeat constructor; done|exact Hsolved|].
  - destruct (sockets (srv connected) !! 0) as [x|] eqn:Hx; [|by vm_compute in Hx]. split.
    + by exists x.
    + assert (pending_ (web connected) = [(0, ReadingMessage); (2, Accepting); (1, Closing)]) as -> by by vm_compute.
      by intros [[=]|[[=]|[[=]|[]%elem_of_nil]%elem_of_cons]%elem_of_cons]%elem_of_cons.
    + exists x. split; [done|]. vm_compute in Hx. by injection Hx as <-.
    + assert (verdicts connected = []) as -> by by vm_compute. apply not_elem_of_nil.
  - intros (x & Hx & Hc). vm_compute in Hx. injection Hx as <-. done.
Defined.
End SystemDemo.
