(* ===== verification/Startup.v ===== *)
(** * Starting the program (main, CollabVmServer::Start, WebServer::Start)

    From the arguments to the state in which the first handler runs: the
    document root is created and made canonical, the host is resolved, the
    acceptor listens and the workers are counted.  The handlers that the
    server's constructor and [Start] hand to strands have not run by then; they
    are the first steps of the system, in the order in which the machines'
    strand gets them. *)

From S2P Require Import Prelude Timer Captcha ChatRoom Settings Database ConfigStore UserChannel Recording GuacamoleClient AdminVm VmList.
From S2P Require Import Messages SendQueue WebFiles WebServer Server Persistence System.
From Stdlib Require Import Ascii String.
From stdpp Require Import pretty list.

(** ** The command line (src/Main.cpp) *)

Inductive mode := start | help | version.

(** The variables that clipp fills. *)
Record arguments := Arguments {
  host : string;
  threads : Z;
  port : Z;
  root : string;
  auto_start_vms : bool;
  invalid_arguments : list string;
  chosen_mode : mode
}.

(** [cores] is [hardware_concurrency()]. *)
Definition default_arguments (cores : Z) : arguments :=
  Arguments "localhost" (Z.max (cores / 2) 1) 0 "./web-app/" true [] start.

Definition u16 (z : Z) : Z := z mod 2 ^ 16.

(** [--threads]: the current thread becomes a worker, too. *)
Definition spawned_threads (threads : Z) : Z := u8 (threads - 1).
Definition workers (threads : Z) : Z := (spawned_threads threads + 1)%Z.

Lemma workers_range threads : (1 ≤ workers threads ≤ 256)%Z.
Proof. unfold workers, spawned_threads, u8. pose proof (Z.mod_pos_bound (threads - 1) (2 ^ 8)). lia. Qed.

(** The conversion to 8 bits at the call of [Start] does no harm for up to
    256 threads, and none at all after the decrement: 0 threads are 256. *)
Lemma workers_exact threads : (1 ≤ threads ≤ 256)%Z → workers (u8 threads) = threads.
Proof.
  intros Ht. unfold workers, spawned_threads, u8. rewrite <-Zminus_mod_idemp_l, Zmod_mod, Zminus_mod_idemp_l.
  rewrite Z.mod_small by lia. lia.
Qed.

Lemma no_threads : workers (u8 0) = 256%Z ∧ workers (u8 257) = 1%Z.
Proof. split; by vm_compute. Qed.

(** The exception of a call on the acceptor. *)
Record system_error := SystemError { in_system_category : bool; error_value : Z }.
Definition EACCES : Z := 13.

Section Startup.
Context {T : Type → Type} `{SteadyTimer T}.
Context {G V C : Type} `{GuacSchema G, VmSchema V, ServerSchema V, GuacClientSchema C G, SettingBuilders V, CaseInsensitive}.
Abbreviation S := (setting V).
Abbreviation server := (Server.server (T := T) (U := nat) (G := G) (V := V)).
Abbreviation system := (System.system (T := T) (G := G) (V := V)).
Abbreviation system_op := (System.system_op (G := G) (V := V) (C := C)).
Context (MaxUsernameLen MaxMessageLen : nat) (default_user_type : UserType).
(** The file system: [status] with its error code, [create_directories] with
    its result and its error code, [canonical]. *)
Context (fs_status : string → bool * file_type) (create_directories : string → bool * bool).
Context (canonical : string → option string).
(** The network: the endpoints of a name, and the exceptions of [open],
    [bind] and [listen]. *)
Context {E : Type} (resolve : string → string → option (list E)).
Context (open_ bind listen : E → option system_error).

(** [WebServer::CreateDocRoot]; [None] when the error code is set. *)
Definition CreateDocRoot (path : string) : option string :=
  match fs_status path with
  | (true, WebFiles.not_found) =>
      match create_directories path with
      | (true, _) => canonical path
      | (false, true) => None
      | (false, false) => Some path
      end
  | (true, _) => None
  | (false, WebFiles.directory) => canonical path
  | (false, _) => None
  end.

Inductive start_result :=
| NoDocRoot
| Unresolved
| FailedToStart (elevated_permissions_hint : bool)
| Listening (endpoint : E) (spawned : Z) (doc_root : string) (sys : system) (posted : list system_op).

Definition first_error (e : E) : option system_error :=
  match open_ e with
  | Some err => Some err
  | None => match bind e with Some err => Some err | None => listen e end
  end.

(** [CollabVmServer::Start] with [WebServer::Start]. *)
Definition Start (threads port : Z) (args : arguments) (s : server) : start_result :=
  let posted := (if auto_start_vms args then [StartVms] else []) ++ [ApplySettings] in
  match CreateDocRoot (root args) with
  | None => NoDocRoot
  | Some doc_root =>
      match resolve (host args) (pretty port) with
      | None | Some [] => Unresolved
      | Some (endpoint :: _) =>
          match first_error endpoint with
          | Some err =>
              FailedToStart ((port <? 1024)%Z && in_system_category err && Z.eqb (error_value err) EACCES)
          | None => Listening endpoint (spawned_threads threads) doc_root (system_new s captcha_new) posted
          end
      end
  end.

Inductive main_result :=
| Usage (invalid : list string)
| Version
| Started (r : start_result)
| NoDatabase.           (* an exception of the database *)

Definition main (parsed : bool) (args : arguments) (f : db_file (V := V)) : main_result :=
  if negb parsed || negb (bool_decide (invalid_arguments args = [])) ||
     match chosen_mode args with help => true | _ => false end
  then Usage (invalid_arguments args)
  else match chosen_mode args with
       | version => Version
       | _ =>
           match CollabVmServer_new MaxUsernameLen MaxMessageLen default_user_type f with
           | Some s => Started (Start (u8 (threads args)) (u16 (port args)) args s)
           | None => NoDatabase
           end
       end.

(** ** From the command line to the running system *)

Context (vote_limit : Z).
Context (message_size : server_message G S → Z) (header_size : Z → Z) (to_string : Z → string).
Context (arg_names : Protocol → list string) (init_succeeds : Protocol → bool).
Context (guac_join : guac_client (G := G) → list G).
Context (screenshot : guac_client (G := G) → option (list Z)).
Context (ValidateUsername : string → bool) (max_chat_message_len : Z).
Context (chat_rate_limit username_change_rate_limit : Z).
Context (IsGuacamoleClientInstructionAllowed : C → bool).
Context (hash_password : string → list Z → list Z) (bind_blob : list Z → option (list Z)).
Context (ip_to_string : list Z → string).
Context {F : Type} (status : string → option file_type) (open_file : string → option F) (prepare_payload : F → bool).
Context (token_exists : string → string → bool) (first_token : string → string).
Context (make_address : string → option address).
Context (json_bool : string → string → option bool) (replace_all : string → string → string → string).
Context (read_message : list Z → option (client_message (V := V) (C := C))) (getCaptcha : V → captcha_settings).

Abbreviation at_root doc_root thm := (thm vote_limit message_size header_size to_string arg_names init_succeeds
  guac_join screenshot ValidateUsername max_chat_message_len chat_rate_limit username_change_rate_limit
  IsGuacamoleClientInstructionAllowed MaxUsernameLen MaxMessageLen default_user_type hash_password bind_blob
  ip_to_string F canonical status open_file prepare_payload token_exists first_token make_address doc_root
  json_bool replace_all read_message getCaptcha).

Context (canonical_absolute : ∀ p q, canonical p = Some q → rooted q = true).
Context (Hvm_fields : (0 < vm_fields_count (V := V) ≤ 256)%nat) (Hserver_fields : (0 < server_fields_count (V := V) ≤ 256)%nat).
Context (test_vm_known : Forall (λ p, p.1 < vm_fields_count) (test_vm (V := V))) (test_vm_once : NoDup (test_vm (V := V)).*1).
Context (captcha_known : CAPTCHA (V := V) < server_fields_count).

(** [create_directories] reports an error or creates something. *)
Lemma CreateDocRoot_rooted path p :
  create_directories path ≠ (false, false) → CreateDocRoot path = Some p → rooted p = true.
Proof.
  unfold CreateDocRoot. intros Hc. destruct (fs_status path) as [[] []]; try done;
    [destruct (create_directories path) as [[] []]; try done| ]; apply canonical_absolute.
Qed.

Abbreviation stuck_ := (stuck vote_limit message_size header_size to_string arg_names init_succeeds
  guac_join screenshot ValidateUsername max_chat_message_len chat_rate_limit username_change_rate_limit
  IsGuacamoleClientInstructionAllowed MaxUsernameLen MaxMessageLen default_user_type hash_password bind_blob
  ip_to_string read_message).

(** C12: the program starts.  With a valid command line and any database it
    may meet, [main] builds the server and tries to listen: nothing runs
    before it does.  If it comes to listen, it is on the first of the endpoints
    that the host's name has with the port's lowest 16 bits, where opening,
    binding and listening succeeded; nobody is connected, the settings in memory
    are those of the tables, the first handlers are those that start the
    machines, if that is asked for, and apply the settings, and there are as many
    workers as were asked for (up to 256).  And unless the document root did
    not exist, could not be created and no error was reported, the document root
    is an absolute path and, whatever happens after those first handlers, every
    step keeps the invariant of the system or is a handler of the server without
    a defined result. *)
Theorem program_starts args m (l : list S) f :
  file_holds m l f → invalid_arguments args = [] → chosen_mode args = start →
  ∃ s, main true args f = Started (Start (u8 (threads args)) (u16 (port args)) args s) ∧ persisted s ∧
    ∀ e n p sys posted,
      Start (u8 (threads args)) (u16 (port args)) args s = Listening e n p sys posted →
      (∃ es, resolve (host args) (pretty (u16 (port args))) = Some (e :: es)) ∧
      open_ e = None ∧ bind e = None ∧ listen e = None ∧
      sys = system_new s captcha_new ∧ System.fresh s captcha_new ∧
      posted = (if auto_start_vms args then [StartVms] else []) ++ [ApplySettings] ∧
      ((1 ≤ threads args ≤ 256)%Z → (n + 1 = threads args)%Z) ∧
      (create_directories (root args) ≠ (false, false) → rooted p = true ∧
       ∀ env ops, Forall (λ o, system_op_ok o.2) ops →
         match at_root p system_run (((env,.) <$> posted) ++ ops) sys with
         | Some sys' => system_inv sys'
         | None => ∃ ops1 env' op ops2 sys1, ((env,.) <$> posted) ++ ops = ops1 ++ (env', op) :: ops2 ∧
             at_root p system_run ops1 sys = Some sys1 ∧ stuck_ env' op sys1
         end).
Proof.
  intros Hf Hargs Hmode.
  destruct (CollabVmServer_new_ok (T := T) (U := nat) (G := G) MaxUsernameLen MaxMessageLen default_user_type Hvm_fields Hserver_fields
    test_vm_known test_vm_once captcha_known m l f Hf) as (s & Hnew & Hp & Hsock & Hconn & Hlater).
  exists s. split_and!; [unfold main; by rewrite Hargs, Hmode, Hnew|done|].
  intros e n p sys posted. unfold Start. destruct (CreateDocRoot (root args)) as [p'|] eqn:Hroot; [|done].
  destruct (resolve _ _) as [[|e' es]|]; [done| |done]. destruct (first_error e') eqn:Herr; [done|].
  unfold first_error in Herr. destruct (open_ e') eqn:Ho; [done|]. destruct (bind e') eqn:Hb; [done|].
  intros [= <- <- <- <- <-].
  assert (System.fresh s captcha_new) as Hfresh by (split; [done|done|by rewrite Hlater|apply captcha_new_inv|done]).
  split_and!; [by exists es|done|done|done|done|done|done|intros; by apply workers_exact|]. intros Hc.
  pose proof (CreateDocRoot_rooted _ _ Hc Hroot) as Hrooted. split; [done|]. intros env ops Hops.
  set (posted := (if auto_start_vms args then [StartVms] else []) ++ [ApplySettings]).
  assert (system_inv (system_new s captcha_new)) as Hinv.
  { by apply (system_new_inv (F := F) canonical status open_file token_exists first_token make_address p' canonical_absolute Hrooted). }
  assert (Forall (λ o : server_env * system_op, system_op_ok o.2) (((env,.) <$> posted) ++ ops)) as Hall.
  { apply Forall_app. split; [|done]. unfold posted. by destruct (auto_start_vms args); repeat constructor. }
  destruct (at_root p' system_run _ _) as [sys'|] eqn:Hr.
  - exact (at_root p' system_run_inv canonical_absolute Hrooted _ _ _ Hinv Hall Hr).
  - exact (at_root p' system_run_stuck canonical_absolute Hrooted _ _ Hinv Hall Hr).
Qed.
End Startup.

(** ** A concrete start *)

Module StartupDemo.
#[local] Existing Instance FilesDemo.ascii_case.
Import ServerDemo PersistenceDemo.
#[local] Existing Instances ServerDemo.view_schema ServerDemo.unit_client ServerDemo.demo_server_schema
  PersistenceDemo.demo_builders.
Local Open Scope string_scope.

(** Eight cores; the document root exists. *)
Definition args : arguments := default_arguments 8.
Definition stat (path : string) : bool * file_type := (false, WebFiles.directory).
Definition create (path : string) : bool * bool := (false, true).
Definition canonical (path : string) : option string := Some "/srv".
Definition localhost (name service : string) : option (list unit) := Some [tt].
Definition no_error (e : unit) : option system_error := None.
Lemma canonical_absolute p q : canonical p = Some q → rooted q = true.
Proof. by intros [= <-]. Qed.

Abbreviation main_demo := (main (T := list_timer) (G := guac_view) (C := unit) 20 100 GUEST stat create canonical localhost
  no_error no_error no_error).

Example usage : main_demo true (Arguments "localhost" 4 0 "." true ["--prot"] start) file = Usage ["--prot"].
Proof. done. Qed.

Lemma program_starts_witness :
  ∃ s, main_demo true args file
    = Started (Listening tt 3 "/srv" (system_new s captcha_new) [StartVms; ApplySettings]) ∧ System.fresh s captcha_new.
Proof.
  destruct demo_counts as [Hvm Hserver], demo_test_vm as (Hall & Hnd & Hcaptcha).
  destruct (program_starts (T := list_timer) (G := guac_view) (C := unit) 20 100 GUEST stat create canonical localhost
    no_error no_error no_error 5%Z (λ _, 8%Z) (λ _, 16%Z) (λ _, "1") (λ _, ["hostname"]) (λ _, true)
    (λ _, []) (λ _, None) (λ n, negb (String.eqb n EmptyString)) 100%Z 1%Z 1%Z (λ _, true) DatabaseDemo.hash
    DatabaseDemo.bind (λ _, EmptyString) (F := unit) SystemDemo.no_status SystemDemo.no_file (λ _, true) String.eqb (λ s, s)
    SystemDemo.no_address CaptchaDemo.json CaptchaDemo.replace_all SystemDemo.read_message
    (λ _, CaptchaDemo.settings false) canonical_absolute Hvm Hserver Hall Hnd Hcaptcha args stored [] file file_stored
    eq_refl eq_refl) as (s & Hmain & _ & Hrest).
  exists s. split; [exact Hmain|]. destruct (Hrest tt 3%Z "/srv" (system_new s captcha_new) [StartVms; ApplySettings] eq_refl)
    as (_ & _ & _ & _ & _ & Hfresh & _). exact Hfresh.
Defined.
End StartupDemo.
